(* ===== verification/_CoqProject ===== *)
-Q . S2P
Prelude.v
Numbers.v
HostBytes.v
Wire.v
BackendDispatch.v
BrokerProtocol.v
GeospatialFrame.v
MediaStream.v
Brk2Protocol.v
NvlinkPlacement.v
WasmCodec.v
Ieee.v
Sockets.v
EthosU85.v
AdiServer.v
AdiSession.v
AdiWorkers.v
WasmManager.v
BrokerService.v
BrokerServer.v
BrokerAdmission.v
Listener.v
BrokerEndToEnd.v
BrokerMain.v
GpuModels.v
GpuSession.v
GpuLanes.v
Examples.v
