(* ===== verification/Prelude.v ===== *)
(** * Overhauled: a verification library for the task servers

    The program is a set of C++17 servers that run clients' tasks on GPUs
    (include/ and src/).  Clients of the task broker send length-prefixed BRK1
    or BRK2 frames over TCP; the broker server reads them, the broker service
    validates each request and, by its kind, echoes a geospatial or media
    frame, runs a WASM task or lifecycle operation, or computes on the CPU, a
    GPU or an NPU; the placer spreads GPU work over the devices; the response
    goes back in the client's protocol.  The ADI server answers streams of
    five-double requests through per-GPU worker queues, with the same placer
    and compute kernel.  The GPU runtime server loads models and runs
    inferences on the lanes of its workers.

    ** Files

    Shared:

    - Prelude: outcomes ([result]: a value, a reported failure, undefined
      behaviour, or an unfinished loop), the [decides] calculus for fallible
      code, the calling convention of the codecs ([api_call]), bytes and
      machine integers as Z with their wrap-around, counting, invariants and
      termination of step relations.
    - Numbers: integers as decimal text (std::to_string, std::stoi, ...).
    - HostBytes: integers in the memory of a little- or big-endian host, htonl
      and friends, the shift loops, and their big-endian meaning.
    - Wire: decoders as readers over a buffer and an offset, in which a read
      outside the buffer is [OutOfBounds]; a precondition calculus ([wp], what
      an accepted buffer looks like; [runs], what a layout decodes to); the
      interface [Codec] that a field reader discharges and the message
      decoders use.
    - Ieee: doubles and floats as bit patterns, their arithmetic and
      conversions, through the Standard Library's specification of IEEE-754.
    - Sockets: recv and send on a connection, over the schedules of a network.
    - Listener (broker_server.cpp, adi_server.cpp): opening the listening
      sockets, and closing them from several threads.

    The broker:

    - BackendDispatch (backend_dispatch.h): policy, profiles, selection, and
      the interface of NPU executors.
    - BrokerProtocol (broker_protocol.h, .cpp): the BRK1 frames.
    - GeospatialFrame (geospatial_frame.h, .cpp): the NXR1 frames.
    - MediaStream (media_stream.h, .cpp): the MED1 frames.
    - Brk2Protocol (brk2_protocol.h, .cpp): the BRK2 request decoder with its
      field parser and UTF-8 validator, and the response encoder.
    - NvlinkPlacement (nvlink_placement.h, .cpp): topology detection over the
      answers of the CUDA runtime, peers, and the placer.
    - WasmCodec (wasm_sandbox.cpp, lines 1-730): the WSM1 messages.
    - WasmManager (wasm_sandbox.cpp, lines 736-1068): module versions, their
      lifecycle, and tasks.
    - EthosU85 (ethosu_u85_drm_executor.h, .cpp): the bundle loader and the
      runs of the Ethos-U85 executor, an NPU executor of the broker.
    - BrokerService (broker_service.h, .cpp): the handling of a request.
    - BrokerServer (broker_server.h, .cpp): a client session.
    - BrokerAdmission (broker_server.cpp): the accept loop, the life of the
      sessions, and shutdown.
    - BrokerEndToEnd: a BRK1 client, a session and the service together, with
      the interface [Answering] between the last two.
    - BrokerMain (broker_server_main.cpp): the command line and the start.

    The ADI server (adi_server.h, .cpp):

    - AdiServer: the compute kernel shared with the broker.
    - AdiSession: what a session reads and writes.
    - AdiWorkers: the server's threads: sessions with their tasks in the
      workers' queues, the accept loop, and [stop].

    The GPU runtime server:

    - GpuModels (trt_model_engine.hpp): bindings of a model, table of models.
    - GpuSession (adi_tensor_protocol.h, gpu_runtime_server.cpp): a client's
      thread.
    - GpuLanes (gpu_runtime_server.cpp): the workers' lanes, and main.

    Examples (examples/): programs that use the placer.

    Definitions keep the source's names; where two files of the source have a
    function of the same name in an anonymous namespace the model prefixes it
    (brk_, nxr_, med_, wsm_, adi_).  A function of the source whose body is long
    is split: the reader or encoder is the body, and the function of the
    source's name adds the pointer arguments.

    ** State and concurrency

    State is passed explicitly.  Objects guarded by a mutex are changed by
    operations that are each one critical section, and a step relation
    interleaves them: [placer_step] for the placer, [manager_step] for the
    module manager (a task is two critical sections with the computation in
    between), [service_step] for the broker service's queues and client table,
    [session_step] for the reader and request threads of a connection,
    [server_step] for what the threads of a server (broker and ADI) do by
    themselves and [peer_step] for what needs a client, [listening_step] for the
    threads that close a listener ([orderly_step] where they do not overlap),
    [adi_step] for the ADI server among its clients, [gpu_step] for a GPU worker
    among its clients, [sim_step] for the example's clients.  Invariants are proved by induction
    on reachability ([rtc_invariant]), termination by a measure
    ([sn_measure]).  Functions that run through several critical sections
    ([handle_task], [run_on_gpu], [handle_request], [session_loop],
    [client_loop]) take what other threads do in between as an argument, and
    the theorems hold for every such interference that keeps the invariant.

    ** What the theorems show

    - Codecs: every decoder returns on any bytes without reading out of bounds
      and leaves its output untouched when it fails; what it accepts is exactly
      what the encoder writes (BRK1, NXR1, MED1, WSM1) or what a declarative
      grammar describes (BRK2, UTF-8); encoders fail exactly on violated
      limits.  Hosts of either byte order are covered.
    - Backend selection decides its documented policy.
    - Placement: detection records the runtime's answers, peers are the best
      ones, the policy of [place] (home, best peer, shortest queue), round
      robin, and safety under any interleaving.
    - Module manager: task counters equal the tasks in flight, a version is
      never released under a running task, draining is final and completes,
      preparing is idempotent, keys identify versions without colons.
    - Broker service: every request is answered without exception or undefined
      behaviour; queues are bounded; deadlines hold; fallback is exact; the
      CPU and GPU paths agree; frames are echoed byte for byte; client
      identifiers are stable and unique.
    - Broker, from a client's requests to its responses: for each request at
      most one body is issued, which decodes to the service's answer to it; none
      is lost but to the end of the session or to the size of its answer; where
      every write is whole the client reads back the issued bodies.
    - Broker server: framing does not depend on how the network cuts the
      bytes; what reaches the service is well typed and valid; a session's
      pending work is bounded, its answers are accounted for, and an unbroken
      output stream is the written bodies, framed; admission is bounded;
      shutdown ends every thread; a listener is closed, once where [stop] and
      [run] do not overlap and at most twice where they do.
    - Broker executable: it does what its command line asks for, the NPU
      executor included, and what it starts answers every request (with the
      Ethos-U executor, for bundles whose zero points do not overflow).
    - Ethos-U85: the loader accepts exactly the well-formed bundles, which
      include the documented ones within its limits but have any zero points; a
      run releases what the kernel gave it wherever it fails, stays in its
      buffers, and delivers the dequantised output of one job on the command
      stream and the regions.
    - ADI: a session answers each request with its packets and ends, unless its
      task is never served or SIGPIPE ends the process; each task is computed
      once, on its GPU, in order; shutdown ends, except for sessions stranded
      at a worker that has returned.
    - GPU runtime: clients that follow the server's format with whole headers get
      its packets; a model's bindings have the bytes the code counts; each task
      is answered at most once, with what its model's run left in the output
      buffer, and a worker serves its queue; the undefined behaviour that
      malformed requests, reloaded models and miscounted types meet is
      exhibited.
    - Examples: the clients finish and every task is queued, once the devices
      have been found and set.

    ** Parameters and assumptions

    The host's byte order, the CUDA runtime ([CudaRuntime], and the answers of
    cudaSetDevice), CUDA memory and cuBLAS ([Cublas], with the documented effect
    of [cublasDscal] as the hypothesis [dscal_correct]), the DRM driver ([Drm],
    with [driver_ok]; [npu] is what a job, given its handles and the buffer
    objects' contents, leaves in them), TensorRT (the function [build] from a
    file to [built]: rejected, a null engine, or an [Engine] whose [enqueueV3] is
    any function of the addresses and the buffers; the theorems about the
    workers take engines to write no further than their outputs and to name
    their tensors once, and no model identifier to be loaded twice), the device
    memory and contexts a worker gets ([Cuda], with [cuda_ok]; a failing CUDA
    call ends the process), configured kernels and NPU executors, the clock, the
    payload of a NaN, and the schedules of [recv] and [send] are parameters.  A
    theorem that restricts one names the restriction (a clock that does not run
    backwards, kernels that return or throw).  Allocation never fails.  Vectors
    and strings are shorter than 2^64.

    Some granularity is coarser than the code's.  In [gpu_begin] the client's
    identifier, the placement and the counter are one step on sampled queue
    depths, although the code takes three locks in turn; the check and the
    increment of the counter share one in the code too, and [place_client]'s
    other interleavings are those of [placer_step].  In [Listener.act] the read of
    the descriptor and its close are one step, the plain int is taken as
    sequentially consistent, and descriptor numbers are not reused.

    ** Fuel

    The loops whose recursion is not structural take fuel computed from their
    input: the BRK2 field parser and the UTF-8 loop the length of the body
    (each round consumes at least one byte), the exact read and write loops the
    length of the schedule plus the bytes still to move, or the bytes still to
    move where an interruption ends the loop, the ADI and GPU sessions the
    bytes of the connection.  Totality theorems show that [NoFuel] is never the
    outcome.

    ** Not modelled

    Logging and printing, the installation of signal handlers, the tests and
    benchmarks, and what CUDA, cuBLAS, TensorRT and the kernel compute behind
    the parameters above. *)

From Stdlib Require Export ZArith Lia.
From Stdlib Require Import Strings.Byte.
From stdpp Require Export base list gmap strings fin_maps numbers relations.

#[global] Open Scope Z_scope.

(** ** Notation and scopes *)

Declare Scope wire_scope.
Delimit Scope wire_scope with wire.
#[global] Open Scope wire_scope.

Notation byte := Byte.byte.
Notation bytes := (list Byte.byte).

(** A C++ string literal, as the byte sequence [std::string] holds. *)
Definition str (s : String.string) : bytes := String.list_byte_of_string s.
Arguments str s%_string_scope.

(** The size of a [std::vector] or [std::string], as a [size_t] value. *)
Definition zlen {A} (l : list A) : Z := Z.of_nat (length l).

(** ** Hint databases

    [wire] collects the rewriting rules that bring encoders to their byte
    layout and lengths to arithmetic; [codec] the facts about readers. *)
Create HintDb wire.
Create HintDb codec.

(** ** Tactics *)

(** Takes apart conjunctions and existentials among the hypotheses. *)
Ltac break := repeat (
  match goal with
  | H : ∃ _, _ |- _ => destruct H
  | H : _ ∧ _ |- _ => destruct H
  end); simplify_eq.

(** ** Reachability *)

Lemma rtc_invariant {A} (R : relation A) (P : A → Prop) x y :
  (∀ x y, P x → R x y → P y) → P x → rtc R x y → P y.
Proof. intros HP Hx Hxy. induction Hxy; eauto. Qed.

(** A relation whose steps shrink a measure terminates. *)
Lemma sn_measure {A} (R : relation A) (P : A → Prop) (m : A → nat) x :
  (∀ x y, P x → R x y → P y ∧ (m y < m x)%nat) → P x → sn R x.
Proof.
  intros HR. remember (m x) as n eqn:En. revert x En.
  induction (lt_wf n) as [n _ IH]. intros x -> Hx. constructor. intros y Hxy. unfold flip in Hxy.
  destruct (HR x y Hx Hxy) as [Hy Hlt]. by eapply IH.
Qed.

(** Replacing an entry of a list moves a sum of weights by the difference. *)
Lemma sum_list_with_insert {A} (f : A → nat) (l : list A) i x y :
  l !! i = Some x → (sum_list_with f (<[i := y]> l) + f x = sum_list_with f l + f y)%nat.
Proof.
  revert i. induction l as [|z l IH]; intros [|i] Hi; [done|done| |].
  - injection Hi as ->. cbn. lia.
  - specialize (IH i Hi).
    change (f z + sum_list_with f (<[i := y]> l) + f x = f z + sum_list_with f l + f y)%nat. lia.
Qed.

(** ** Counting *)

(** How often [x] occurs in [l]: the tasks in flight on one resource. *)
Section Counting.
Context {A : Type} `{EqDecision A}.

Definition tasks_of (x : A) (l : list A) : Z := zlen (filter (λ y, y = x) l).

Lemma tasks_of_cons x y l : tasks_of x (y :: l) = (if decide (y = x) then 1 else 0) + tasks_of x l.
Proof.
  unfold tasks_of, zlen. rewrite filter_cons. destruct (decide (y = x)); cbn [length]; lia.
Qed.

Lemma tasks_of_app x l1 l2 : tasks_of x (l1 ++ l2) = tasks_of x l1 + tasks_of x l2.
Proof. unfold tasks_of, zlen. rewrite filter_app, length_app. lia. Qed.

Lemma tasks_of_range x l : 0 ≤ tasks_of x l ≤ zlen l.
Proof. unfold tasks_of, zlen. pose proof (length_filter (λ y, y = x) l). lia. Qed.

Lemma tasks_of_nil x : tasks_of x [] = 0.
Proof. done. Qed.

(** Removing one occurrence. *)
Lemma tasks_of_remove x y l1 l2 :
  tasks_of x (l1 ++ y :: l2) = tasks_of x (l1 ++ l2) + if decide (y = x) then 1 else 0.
Proof. rewrite !tasks_of_app, tasks_of_cons. lia. Qed.

Lemma tasks_of_pos x l : 0 < tasks_of x l ↔ x ∈ l.
Proof.
  induction l as [|y l IH]; [split; [by vm_compute|set_solver]|].
  rewrite tasks_of_cons, elem_of_cons, <- IH. pose proof (tasks_of_range x l).
  destruct (decide (y = x)); intuition (subst; lia || congruence).
Qed.

End Counting.

(** ** Outcomes

    [Err] is a failure the source reports (a [false] return with an error
    message, or an exception with its [what()]).  [OutOfBounds] is a read
    outside a buffer, a null dereference or a division by zero, which C++ leaves
    undefined; [NoFuel] is a loop that did
    not finish within the fuel its definition gives it.  The theorems show
    that neither of the last two is ever produced. *)
Inductive result (A : Type) : Type :=
| Ok (a : A)
| Err (msg : bytes)
| OutOfBounds
| NoFuel.
Arguments Ok {A} a.
Arguments Err {A} msg.
Arguments OutOfBounds {A}.
Arguments NoFuel {A}.

Definition rbind {A B} (m : result A) (k : A → result B) : result B :=
  match m with
  | Ok a => k a
  | Err e => Err e
  | OutOfBounds => OutOfBounds
  | NoFuel => NoFuel
  end.

Notation "x <-! m ;; k" := (rbind m (fun x => k))
  (at level 100, m at next level, right associativity) : wire_scope.
Notation "' pat <-! m ;; k" := (rbind m (fun x => match x with pat => k end))
  (at level 100, pat pattern, m at next level, right associativity) : wire_scope.

(** A guard of the source: [if (c) { *error = msg; return false; }]. *)
Definition reject_if (c : bool) (msg : bytes) : result unit :=
  if c then Err msg else Ok tt.

Definition is_ok {A} (r : result A) : bool :=
  match r with Ok _ => true | _ => false end.

(** Neither an out-of-bounds access nor an unfinished loop. *)
Definition safe {A} (r : result A) : Prop :=
  match r with Ok _ | Err _ => True | _ => False end.

Lemma rbind_Ok {A B} (m : result A) (k : A → result B) b :
  rbind m k = Ok b ↔ ∃ a, m = Ok a ∧ k a = Ok b.
Proof. destruct m; naive_solver. Qed.

Lemma rbind_ret {A B} (a : A) (k : A → result B) : rbind (Ok a) k = k a.
Proof. done. Qed.

Lemma reject_if_Ok c msg u : reject_if c msg = Ok u ↔ c = false.
Proof. destruct u, c; naive_solver. Qed.

Lemma rbind_reject {B} c msg (k : unit → result B) b :
  (x <-! reject_if c msg;; k x) = Ok b ↔ c = false ∧ k tt = Ok b.
Proof. destruct c; naive_solver. Qed.

Lemma safe_rbind {A B} (m : result A) (k : A → result B) :
  safe m → (∀ a, m = Ok a → safe (k a)) → safe (rbind m k).
Proof. destruct m; naive_solver. Qed.

Lemma safe_reject_if c msg : safe (reject_if c msg).
Proof. by destruct c. Qed.

Lemma safe_Ok {A} (a : A) : safe (Ok a).
Proof. done. Qed.

#[export] Hint Resolve safe_rbind safe_reject_if safe_Ok : codec.

(** [m] returns, and succeeds exactly with the values in [P]. *)
Definition decides {A} (m : result A) (P : A → Prop) : Prop :=
  safe m ∧ ∀ a, m = Ok a ↔ P a.

Lemma decides_ret {A} (a : A) : decides (Ok a) (λ b, b = a).
Proof. split; [done|]. naive_solver. Qed.

Lemma decides_reject c msg : decides (reject_if c msg) (λ _, c = false).
Proof. split; [apply safe_reject_if|]. intros u. apply reject_if_Ok. Qed.

Lemma decides_bind {A B} (m : result A) (k : A → result B) P Q :
  decides m P → (∀ a, P a → decides (k a) (Q a)) →
  decides (rbind m k) (λ b, ∃ a, P a ∧ Q a b).
Proof.
  intros [Hs Hm] Hk. split.
  - apply safe_rbind; [done|]. intros a Ha. by apply Hk, Hm.
  - intros b. rewrite rbind_Ok. split.
    + intros (a & Ha & Hb). apply Hm in Ha. exists a. split; [done|]. by apply (Hk a Ha).
    + intros (a & Ha & Hb). exists a. split; [by apply Hm|]. by apply (Hk a Ha).
Qed.

Lemma decides_iff {A} (m : result A) P Q :
  decides m P → (∀ a, P a ↔ Q a) → decides m Q.
Proof. intros [Hs Hm] HPQ. split; [done|]. intros a. by rewrite Hm. Qed.

(** ** Calling convention of the decoders and encoders

    The public functions return [bool], write their result through [out] and
    a message through [error]; both pointers may be null ([None]). *)
Definition api_call {A} (null_msg : bytes) (out : option A)
    (error : option bytes) (r : result A)
    : result (bool * option A * option bytes) :=
  match out with
  | None => Ok (false, None, match error with Some _ => Some null_msg | None => None end)
  | Some old =>
      match r with
      | Ok a => Ok (true, Some a, error)
      | Err e => Ok (false, Some old, match error with Some _ => Some e | None => None end)
      | OutOfBounds => OutOfBounds
      | NoFuel => NoFuel
      end
  end.

Lemma api_call_Ok {A} null_msg (old a : A) err (r : result A) :
  api_call null_msg (Some old) err r = Ok (true, Some a, err) ↔ r = Ok a.
Proof. unfold api_call. destruct r, err; naive_solver. Qed.

Lemma api_call_safe {A} null_msg (out : option A) err (r : result A) :
  safe r → safe (api_call null_msg out err r).
Proof. unfold api_call. by destruct out, r. Qed.

(** What a caller may rely on: the call returns; on failure [*out] is left
    untouched and a message is stored if [error] is non-null; on success
    [*out] satisfies [P] and [*error] is left untouched. *)
Definition api_contract {A} (out : option A) (error : option bytes) (P : A → Prop)
    (r : result (bool * option A * option bytes)) : Prop :=
  ∃ ok out' error', r = Ok (ok, out', error') ∧
    if (ok : bool) then (∃ a, out' = Some a ∧ P a) ∧ error' = error
    else out' = out ∧ (is_Some error' ↔ is_Some error).

Lemma api_call_contract {A} null_msg out error (r : result A) (P : A → Prop) :
  safe r → (∀ a, r = Ok a → P a) → api_contract out error P (api_call null_msg out error r).
Proof.
  intros Hs HP. unfold api_contract, api_call.
  destruct out as [old|]; [destruct r; try done|];
    do 3 eexists; (split; [done|]); destruct error; naive_solver.
Qed.

(** ** Bytes as numbers *)

Definition u8 (b : byte) : Z := Z.of_N (Byte.to_N b).

(** [static_cast<uint8_t>(v)]. *)
Definition to_u8 (v : Z) : byte :=
  match Byte.of_N (Z.to_N (v mod 256)) with Some b => b | None => Byte.x00 end.

Lemma u8_range b : 0 ≤ u8 b < 256.
Proof. unfold u8. pose proof (Byte.to_N_bounded b). lia. Qed.

Lemma u8_to_u8 v : u8 (to_u8 v) = v mod 256.
Proof.
  unfold u8, to_u8. assert (0 ≤ v mod 256 < 256) by (apply Z.mod_pos_bound; lia).
  destruct (Byte.of_N _) eqn:E.
  - apply Byte.to_of_N in E. rewrite E. lia.
  - apply Byte.of_N_None_iff in E. lia.
Qed.

Lemma to_u8_u8 b : to_u8 (u8 b) = b.
Proof.
  unfold u8, to_u8. pose proof (Byte.to_N_bounded b).
  rewrite Z.mod_small by lia. rewrite N2Z.id. by rewrite Byte.of_to_N.
Qed.

Lemma u8_inj b1 b2 : u8 b1 = u8 b2 → b1 = b2.
Proof. intros H. rewrite <- (to_u8_u8 b1), <- (to_u8_u8 b2). by rewrite H. Qed.

Lemma to_u8_mod v : to_u8 (v mod 256) = to_u8 v.
Proof. unfold to_u8. by rewrite Z.mod_mod. Qed.

#[export] Instance byte_eq_dec : EqDecision byte := Byte.byte_eq_dec.

#[export] Program Instance byte_countable : Countable byte :=
  inj_countable Byte.to_N Byte.of_N _.
Next Obligation. intros b. apply Byte.of_to_N. Qed.

(** The low [8 * n] bits of a value; [static_cast<uintN_t>]. *)
Definition wrap (bits : Z) (v : Z) : Z := v mod 2 ^ bits.

(** [static_cast<intN_t>] of an unsigned value of the same width. *)
Definition to_signed (bits : Z) (v : Z) : Z :=
  if v <? 2 ^ (bits - 1) then v else v - 2 ^ bits.

Definition u16_max : Z := 65535.
Definition u32_max : Z := 4294967295.

Definition is_uint (bits v : Z) : Prop := 0 ≤ v < 2 ^ bits.
Definition is_int (bits v : Z) : Prop := - 2 ^ (bits - 1) ≤ v < 2 ^ (bits - 1).

Lemma wrap_small bits v : is_uint bits v → wrap bits v = v.
Proof. apply Z.mod_small. Qed.

Lemma wrap_is_uint bits v : 0 ≤ bits → is_uint bits (wrap bits v).
Proof. intros Hb. apply Z.mod_pos_bound. by apply Z.pow_pos_nonneg. Qed.

Lemma wrap_mul_l bits a b : wrap bits (wrap bits a * b) = wrap bits (a * b).
Proof. unfold wrap. by rewrite Zmult_mod_idemp_l. Qed.

Lemma wrap_add_l bits a b : wrap bits (wrap bits a + b) = wrap bits (a + b).
Proof. unfold wrap. by rewrite Zplus_mod_idemp_l. Qed.

Lemma wrap_add_r bits a b : wrap bits (a + wrap bits b) = wrap bits (a + b).
Proof. unfold wrap. by rewrite Zplus_mod_idemp_r. Qed.

Lemma is_uint_8_u8 b : is_uint 8 (u8 b).
Proof. apply u8_range. Qed.

Lemma to_signed_wrap bits v : 1 ≤ bits → is_int bits v → to_signed bits (wrap bits v) = v.
Proof.
  unfold to_signed, wrap, is_int. intros Hb Hv.
  assert (2 ^ bits = 2 * 2 ^ (bits - 1)) as Hpow.
  { rewrite <- Z.pow_succ_r by lia. f_equal. lia. }
  destruct (decide (0 ≤ v)).
  - rewrite Z.mod_small by lia. case_match; lia.
  - replace (v mod 2 ^ bits) with (v + 2 ^ bits).
    + case_match; lia.
    + apply (Z.mod_unique_pos _ _ (-1)); lia.
Qed.

Lemma wrap_to_signed bits v : 1 ≤ bits → is_uint bits v → wrap bits (to_signed bits v) = v.
Proof.
  unfold to_signed, wrap, is_uint. intros Hb Hv. case_match.
  - apply Z.mod_small. lia.
  - symmetry. apply (Z.mod_unique_pos _ _ (-1)); lia.
Qed.

Lemma to_signed_range bits v : 1 ≤ bits → is_uint bits v → is_int bits (to_signed bits v).
Proof.
  unfold to_signed, is_uint, is_int. intros Hb Hv.
  assert (2 ^ bits = 2 * 2 ^ (bits - 1)) as Hpow.
  { rewrite <- Z.pow_succ_r by lia. f_equal. lia. }
  case_match; lia.
Qed.
