(* ===== verification/Numbers.v ===== *)
(** * Numbers in decimal

    What the sources use of the C++ library to read and write integers as text,
    for base 10: [std::to_string], [std::stoi], [std::stoull] and
    [std::strtoul].  The lemmas give the round trips. *)

From stdpp Require Import pretty.
From S2P Require Import Prelude.

(** ** Reading *)

Definition is_space (b : byte) : bool :=
  let c := u8 b in (c =? 32) || ((9 <=? c) && (c <=? 13)).
Definition is_digit (b : byte) : bool := (48 <=? u8 b) && (u8 b <=? 57).

Fixpoint drop_spaces (t : bytes) : bytes :=
  match t with
  | b :: rest => if is_space b then drop_spaces rest else t
  | [] => []
  end.

(** The value of the leading digits, with [acc] read so far. *)
Fixpoint digits_value (acc : Z) (t : bytes) : Z :=
  match t with
  | b :: rest => if is_digit b then digits_value (10 * acc + (u8 b - 48)) rest else acc
  | [] => acc
  end.

(** The number at the start of the text: its sign and its digits' value. *)
Definition leading_number (t : bytes) : option (bool * Z) :=
  let t := drop_spaces t in
  let '(negative, t) :=
    match t with
    | b :: rest =>
        if bool_decide (b = Byte.x2d) then (true, rest)
        else if bool_decide (b = Byte.x2b) then (false, rest) else (false, t)
    | [] => (false, [])
    end in
  match t with
  | b :: _ => if is_digit b then Some (negative, digits_value 0 t) else None
  | [] => None
  end.

(** An [Err] is the exception [std::invalid_argument] or [std::out_of_range]. *)
Definition stoull (t : bytes) : result Z :=
  match leading_number t with
  | None => Err (str "stoull")
  | Some (negative, v) =>
      if 2 ^ 64 - 1 <? v then Err (str "stoull") else Ok (wrap 64 (if negative then - v else v))
  end.

Definition stoi (t : bytes) : result Z :=
  match leading_number t with
  | None => Err (str "stoi")
  | Some (negative, v) =>
      let v := if (negative : bool) then - v else v in
      if (- 2 ^ 31 <=? v) && (v <? 2 ^ 31) then Ok v else Err (str "stoi")
  end.

(** The C function: 0 for no number, the largest one for too large a number. *)
Definition strtoul (t : bytes) : Z :=
  match leading_number t with
  | None => 0
  | Some (negative, v) => if 2 ^ 64 - 1 <? v then 2 ^ 64 - 1 else wrap 64 (if negative then - v else v)
  end.

Example numbers :
  stoi (str " -42x") = Ok (-42) ∧ stoi (str "2147483648") = Err (str "stoi") ∧ stoull (str "-1") = Ok (2 ^ 64 - 1) ∧
  strtoul (str "many") = 0 ∧ strtoul (str "+07") = 7.
Proof. by vm_compute. Qed.

(** ** Writing and reading back *)

(** [std::to_string]. *)
Definition to_string (v : Z) : bytes := str (pretty v).

Definition starts_digit (t : bytes) : Prop := ∃ b rest, t = b :: rest ∧ is_digit b = true.

Lemma pretty_char_digit d s : (d < 10)%N →
  starts_digit (str (String (pretty_N_char d) s)) ∧
  ∀ acc, digits_value acc (str (String (pretty_N_char d) s)) = digits_value (10 * acc + Z.of_N d) (str s).
Proof.
  intros Hd. assert (d ∈ [0;1;2;3;4;5;6;7;8;9]%N) as Hin by (rewrite !list_elem_of_In; cbn; lia).
  rewrite !elem_of_cons, elem_of_nil in Hin.
  destruct_or! Hin; subst d; (split; [by eexists _, _|done]).
Qed.

Lemma pretty_go_digits n : ∀ s,
  digits_value 0 (str (pretty_N_go n s)) = digits_value (Z.of_N n) (str s) ∧
  ((0 < n)%N ∨ starts_digit (str s) → starts_digit (str (pretty_N_go n s))).
Proof.
  induction (N.lt_wf_0 n) as [n _ IH]. intros s. destruct (decide (n = 0%N)) as [->|Hn].
  { rewrite pretty_N_go_0. split; [done|]. intros [?|H]; [lia|exact H]. }
  rewrite pretty_N_go_step by lia.
  destruct (IH (n `div` 10)%N ltac:(apply N.div_lt; lia) (String (pretty_N_char (n `mod` 10)) s)) as [Hv Hs].
  destruct (pretty_char_digit (n `mod` 10) s) as [Hc Hacc]; [by apply N.mod_lt|].
  split; [|intros _; apply Hs; right; exact Hc]. rewrite Hv, Hacc. f_equal.
  pose proof (N.div_mod n 10 ltac:(done)). lia.
Qed.

Lemma to_string_digits n : 0 ≤ n → starts_digit (to_string n) ∧ digits_value 0 (to_string n) = n.
Proof.
  intros Hn. unfold to_string. destruct n as [|p|p]; [by split; [eexists _, _|]| |lia].
  change (pretty (Z.pos p)) with (pretty_N_go (N.pos p) "").
  destruct (pretty_go_digits (N.pos p) "") as [Hv Hs]. split; [apply Hs; left; lia|]. rewrite Hv. done.
Qed.

Lemma digit_plain b : is_digit b = true →
  is_space b = false ∧ b ≠ Byte.x2d ∧ b ≠ Byte.x2b.
Proof. intros H. split_and!; [|by intros ->..]. revert H. unfold is_digit, is_space. lia. Qed.

Lemma leading_number_to_string n : 0 ≤ n → leading_number (to_string n) = Some (false, n).
Proof.
  intros Hn. destruct (to_string_digits n Hn) as [(b & rest & E & Hb) Hv]. rewrite E in *.
  destruct (digit_plain b Hb) as (Hsp & Hminus & Hplus). unfold leading_number.
  cbn [drop_spaces]. rewrite Hsp, !bool_decide_eq_false_2 by done. cbv iota. by rewrite Hb, Hv.
Qed.

Lemma stoull_to_string n : is_uint 64 n → stoull (to_string n) = Ok n.
Proof.
  intros [H1 H2]. unfold stoull. rewrite leading_number_to_string by done.
  destruct (Z.ltb_spec (2 ^ 64 - 1) n); [lia|]. f_equal. by apply wrap_small.
Qed.

Lemma stoi_to_string n : 0 ≤ n < 2 ^ 31 → stoi (to_string n) = Ok n.
Proof.
  intros Hn. unfold stoi. rewrite leading_number_to_string by lia. cbv iota.
  destruct (_ && _) eqn:E; [done|lia].
Qed.

Lemma strtoul_to_string n : is_uint 64 n → strtoul (to_string n) = n.
Proof.
  intros [H1 H2]. unfold strtoul. rewrite leading_number_to_string by done.
  destruct (Z.ltb_spec (2 ^ 64 - 1) n); [lia|]. by apply wrap_small.
Qed.
