(* ===== verification/HostBytes.v ===== *)
(** * Integers in memory and in network byte order

    What the sources use of the language and of <arpa/inet.h>: the bytes an
    integer occupies in the memory of a little- or big-endian host
    ([std::memcpy] to and from an integer), the byte-order conversions
    [htons], [htonl], [ntohs], [ntohl], and the shift loops that read and
    write big-endian integers one byte at a time.  The lemmas reduce all of
    them to [store_be] and [load_be], the network order of a value. *)

From S2P Require Import Prelude.

Inductive endian := LittleEndian | BigEndian.

Fixpoint load_le (l : bytes) : Z :=
  match l with
  | [] => 0
  | b :: t => u8 b + 256 * load_le t
  end.

Fixpoint store_le (n : nat) (v : Z) : bytes :=
  match n with
  | O => []
  | S n => to_u8 v :: store_le n (v / 256)
  end.

Definition load_be (l : bytes) : Z := load_le (rev l).
Definition store_be (n : nat) (v : Z) : bytes := rev (store_le n v).

(** [std::memcpy] of an integer object to and from bytes. *)
Definition mem_load (h : endian) (l : bytes) : Z :=
  match h with LittleEndian => load_le l | BigEndian => load_be l end.
Definition mem_store (h : endian) (n : nat) (v : Z) : bytes :=
  match h with LittleEndian => store_le n v | BigEndian => store_be n v end.

(** Host to network order and back: a byte swap on little-endian hosts. *)
Definition hton (h : endian) (n : nat) (v : Z) : Z :=
  match h with LittleEndian => load_be (store_le n v) | BigEndian => v end.
Definition htons (h : endian) (v : Z) : Z := hton h 2 v.
Definition htonl (h : endian) (v : Z) : Z := hton h 4 v.
Definition ntohs (h : endian) (v : Z) : Z := hton h 2 v.
Definition ntohl (h : endian) (v : Z) : Z := hton h 4 v.

(** [for (i < n) v = (v << 8) | p[i]] on a [uint64_t]. *)
Definition shift_in (v : Z) (b : byte) : Z := Z.lor (wrap 64 (Z.shiftl v 8)) (u8 b).
Definition load_loop (l : bytes) : Z := fold_left shift_in l 0.

(** [for (i = n; i > 0; --i) push_back(uint8_t(v >> ((i - 1) * 8)))]. *)
Definition store_loop (n : nat) (v : Z) : bytes :=
  (λ i, to_u8 (Z.shiftr v (Z.of_nat i * 8))) <$> rev (seq 0 n).

(** ** Lengths and ranges *)

Lemma length_store_le n v : length (store_le n v) = n.
Proof. revert v. induction n; simpl; auto. Qed.

Lemma length_store_be n v : length (store_be n v) = n.
Proof. unfold store_be. by rewrite length_rev, length_store_le. Qed.

Lemma length_mem_store h n v : length (mem_store h n v) = n.
Proof. destruct h; [apply length_store_le | apply length_store_be]. Qed.

Lemma zlen_store_be n v : zlen (store_be n v) = Z.of_nat n.
Proof. unfold zlen. by rewrite length_store_be. Qed.

Lemma pow256_succ n : 256 ^ Z.of_nat (S n) = 256 * 256 ^ Z.of_nat n.
Proof. rewrite Nat2Z.inj_succ, Z.pow_succ_r by lia. done. Qed.

Lemma load_le_range l : 0 ≤ load_le l < 256 ^ zlen l.
Proof.
  unfold zlen. induction l as [|b l IH]; [done|].
  cbn [load_le length]. rewrite pow256_succ. pose proof (u8_range b). lia.
Qed.

Lemma load_be_range l : 0 ≤ load_be l < 256 ^ zlen l.
Proof.
  unfold load_be. pose proof (load_le_range (rev l)) as H.
  unfold zlen in *. by rewrite length_rev in H.
Qed.

Lemma pow256_bits n : 256 ^ Z.of_nat n = 2 ^ (8 * Z.of_nat n).
Proof. rewrite Z.pow_mul_r by lia. done. Qed.

Lemma load_be_uint l bits : bits = 8 * zlen l → is_uint bits (load_be l).
Proof.
  intros ->. pose proof (load_be_range l). unfold is_uint.
  unfold zlen in *. by rewrite <- pow256_bits.
Qed.

Lemma load_be_uint_z l n : zlen l = Z.of_nat n → is_uint (8 * Z.of_nat n) (load_be l).
Proof. intros Hl. apply load_be_uint. lia. Qed.

(** ** Round trips *)

Lemma store_load_le l : store_le (length l) (load_le l) = l.
Proof.
  induction l as [|b l IH]; [done|]. cbn [length store_le load_le].
  pose proof (u8_range b). f_equal.
  - rewrite <- (to_u8_u8 b) at 2. rewrite <- (to_u8_mod (_ + _)).
    rewrite (Z.mul_comm 256), Z_mod_plus_full, to_u8_mod. done.
  - rewrite (Z.mul_comm 256), Z_div_plus_full, Z.div_small by lia. done.
Qed.

Lemma load_store_le n v : load_le (store_le n v) = v mod 256 ^ Z.of_nat n.
Proof.
  revert v. induction n as [|n IH]; intros v; [by rewrite Z.mod_1_r|].
  cbn [store_le load_le]. rewrite IH, u8_to_u8, pow256_succ.
  rewrite Z.rem_mul_r by lia. done.
Qed.

Lemma store_load_be l : store_be (length l) (load_be l) = l.
Proof.
  unfold store_be, load_be. rewrite <- length_rev, store_load_le. apply rev_involutive.
Qed.

Lemma store_load_be' n l : length l = n → store_be n (load_be l) = l.
Proof. intros <-. apply store_load_be. Qed.

Lemma store_load_be_z n l : zlen l = Z.of_nat n → store_be n (load_be l) = l.
Proof. unfold zlen. intros Hl. apply store_load_be'. lia. Qed.

Lemma load_be_eq n l v : zlen l = Z.of_nat n → load_be l = v → l = store_be n v.
Proof. unfold zlen. intros Hl <-. symmetry. apply store_load_be'. lia. Qed.

Lemma load_store_be n v : load_be (store_be n v) = v mod 256 ^ Z.of_nat n.
Proof. unfold store_be, load_be. by rewrite rev_involutive, load_store_le. Qed.

Lemma load_store_be_uint n v : is_uint (8 * Z.of_nat n) v → load_be (store_be n v) = v.
Proof.
  intros Hv. rewrite load_store_be. apply Z.mod_small. rewrite pow256_bits. apply Hv.
Qed.

Lemma store_be_mod n v : store_be n (v mod 256 ^ Z.of_nat n) = store_be n v.
Proof.
  rewrite <- load_store_be. apply store_load_be'. apply length_store_be.
Qed.

(** ** Network order does not depend on the host *)

Lemma mem_store_hton h n v : mem_store h n (hton h n v) = store_be n v.
Proof.
  destruct h; simpl; [|done].
  unfold load_be. pose proof (store_load_le (rev (store_le n v))) as H.
  rewrite length_rev, length_store_le in H. exact H.
Qed.

Lemma hton_mem_load_z h n l : zlen l = Z.of_nat n → hton h n (mem_load h l) = load_be l.
Proof.
  unfold zlen. intros Hl. apply Nat2Z.inj in Hl. subst n.
  destruct h; simpl; [|done]. by rewrite store_load_le.
Qed.

Lemma hton_mem_load h n l : length l = n → hton h n (mem_load h l) = load_be l.
Proof.
  intros <-. destruct h; simpl; [|done]. by rewrite store_load_le.
Qed.

Lemma hton_range h n v : is_uint (8 * Z.of_nat n) v → is_uint (8 * Z.of_nat n) (hton h n v).
Proof.
  intros Hv. destruct h; simpl; [|done]. apply load_be_uint.
  unfold zlen. by rewrite length_store_le.
Qed.

Lemma mem_store_1 h v : mem_store h 1 v = store_be 1 v.
Proof. by destruct h. Qed.

Lemma mem_load_1 h l : zlen l = 1 → mem_load h l = load_be l.
Proof. destruct h; [|done]. unfold zlen. by destruct l as [|b [|]]; [|done|simpl; lia]. Qed.

(** ** The shift loops *)

Lemma land_shiftl_small a b k : 0 ≤ k → 0 ≤ b < 2 ^ k → Z.land (Z.shiftl a k) b = 0.
Proof.
  intros Hk Hb. apply Z.bits_inj'. intros i Hi.
  rewrite Z.land_spec, Z.bits_0, Z.shiftl_spec by lia.
  destruct (decide (i < k)); [by rewrite (Z.testbit_neg_r a) by lia|].
  rewrite <- (Z.mod_small b (2 ^ k)) by lia.
  by rewrite Z.mod_pow2_bits_high, andb_false_r by lia.
Qed.

Lemma lor_shiftl_add a b k : 0 ≤ k → 0 ≤ b < 2 ^ k → Z.lor (Z.shiftl a k) b = a * 2 ^ k + b.
Proof.
  intros Hk Hb. pose proof (land_shiftl_small a b k Hk Hb) as Hl.
  rewrite <- Z.shiftl_mul_pow2 by lia.
  by rewrite Z.add_nocarry_lxor, Z.lxor_lor.
Qed.

Lemma shift_in_arith v b : shift_in v b = (256 * v) mod 2 ^ 64 + u8 b.
Proof.
  unfold shift_in, wrap. pose proof (u8_range b).
  replace (Z.shiftl v 8 mod 2 ^ 64) with (Z.shiftl (v mod 2 ^ 56) 8).
  - rewrite lor_shiftl_add by lia. f_equal.
    change (2 ^ 64) with (2 ^ 8 * 2 ^ 56). change 256 with (2 ^ 8).
    rewrite Z.mul_mod_distr_l by lia. lia.
  - rewrite !Z.shiftl_mul_pow2 by lia. change (2 ^ 64) with (2 ^ 56 * 2 ^ 8).
    by rewrite Z.mul_mod_distr_r by lia.
Qed.

Lemma load_loop_acc l v :
  (length l ≤ 8)%nat → 0 ≤ v < 256 ^ (8 - zlen l) →
  fold_left shift_in l v = v * 256 ^ zlen l + load_be l.
Proof.
  revert v. induction l as [|b l IH]; intros v Hl Hv; [unfold load_be, zlen; simpl; lia|].
  cbn [fold_left]. unfold zlen in *. cbn [length] in *.
  pose proof (u8_range b).
  assert (256 ^ (8 - Z.of_nat (length l)) = 256 * 256 ^ (8 - Z.of_nat (S (length l)))) as Hp.
  { rewrite <- Z.pow_succ_r by lia. f_equal. lia. }
  assert (256 ^ (8 - Z.of_nat (length l)) ≤ 256 ^ 8) by (apply Z.pow_le_mono_r; lia).
  change (256 ^ 8) with (2 ^ 64) in *.
  rewrite shift_in_arith, Z.mod_small by lia. rewrite IH by lia.
  unfold load_be. cbn [rev]. rewrite pow256_succ.
  assert (∀ l' c, load_le (l' ++ [c]) = load_le l' + 256 ^ Z.of_nat (length l') * u8 c) as Hsnoc.
  { clear. intros l' c. induction l' as [|d l' IH]; [simpl; lia|].
    cbn [app load_le length]. rewrite IH, pow256_succ. lia. }
  rewrite Hsnoc, length_rev. lia.
Qed.

(** The read loop yields the big-endian value of up to eight bytes. *)
Lemma load_loop_be l : (length l ≤ 8)%nat → load_loop l = load_be l.
Proof.
  intros Hl. unfold load_loop. rewrite load_loop_acc; [lia|done|].
  split; [lia|]. apply Z.pow_pos_nonneg; unfold zlen; lia.
Qed.

Lemma lookup_store_le n v i :
  (i < n)%nat → store_le n v !! i = Some (to_u8 (Z.shiftr v (Z.of_nat i * 8))).
Proof.
  revert v i. induction n as [|n IH]; intros v i Hi; [lia|].
  destruct i as [|i]; cbn [store_le lookup list_lookup]; [by rewrite Z.shiftr_0_r|].
  rewrite IH by lia. do 2 f_equal. change 256 with (2 ^ 8).
  rewrite <- (Z.shiftr_div_pow2 v 8) by lia.
  rewrite Z.shiftr_shiftr by lia. f_equal. lia.
Qed.

(** The write loop emits the big-endian bytes. *)
Lemma store_loop_be n v : store_loop n v = store_be n v.
Proof.
  unfold store_loop, store_be. rewrite (map_rev _ (seq 0 n) : (_ <$> rev _) = rev (_ <$> _)). f_equal.
  apply list_eq. intros i. rewrite list_lookup_fmap.
  destruct (decide (i < n)%nat).
  - rewrite lookup_seq_lt by done. simpl. by rewrite lookup_store_le.
  - rewrite lookup_seq_ge by lia. simpl. symmetry. apply lookup_ge_None.
    rewrite length_store_le. lia.
Qed.

(** ** Splitting a wide value in two *)

Lemma store_le_app n m a b :
  0 ≤ a < 256 ^ Z.of_nat n →
  store_le (n + m) (a + 256 ^ Z.of_nat n * b) = store_le n a ++ store_le m b.
Proof.
  revert a. induction n as [|n IH]; intros a Ha.
  { simpl in *. f_equal. lia. }
  cbn [Nat.add store_le app]. rewrite pow256_succ in *.
  replace (a + 256 * 256 ^ Z.of_nat n * b) with (a + 256 ^ Z.of_nat n * b * 256) by lia.
  f_equal.
  - rewrite <- to_u8_mod, Z_mod_plus_full. apply to_u8_mod.
  - rewrite Z_div_plus_full by lia. apply IH.
    split; [apply Z.div_pos; lia|apply Z.div_lt_upper_bound; lia].
Qed.

Lemma store_be_app n m a b :
  0 ≤ b < 256 ^ Z.of_nat m →
  store_be (n + m) (a * 256 ^ Z.of_nat m + b) = store_be n a ++ store_be m b.
Proof.
  intros Hb. unfold store_be. rewrite Nat.add_comm, Z.add_comm, Z.mul_comm.
  rewrite store_le_app by done. apply rev_app_distr.
Qed.

Lemma load_be_app l1 l2 : load_be (l1 ++ l2) = load_be l1 * 256 ^ zlen l2 + load_be l2.
Proof.
  pose proof (load_be_range l1). pose proof (load_be_range l2). unfold zlen in *.
  assert (store_be (length l1 + length l2)
            (load_be l1 * 256 ^ Z.of_nat (length l2) + load_be l2) = l1 ++ l2) as <-.
  { rewrite store_be_app by done. by rewrite !store_load_be. }
  rewrite load_store_be. apply Z.mod_small. rewrite Nat2Z.inj_add, Z.pow_add_r by lia. nia.
Qed.

(** The two 32-bit halves of a 64-bit value. *)
Lemma split64 v : is_uint 64 v →
  is_uint 32 (wrap 32 (Z.shiftr v 32)) ∧ is_uint 32 (wrap 32 (Z.land v 4294967295)) ∧
  v = wrap 32 (Z.shiftr v 32) * 2 ^ 32 + wrap 32 (Z.land v 4294967295).
Proof.
  unfold is_uint, wrap. intros Hv. change 4294967295 with (Z.ones 32).
  rewrite Z.land_ones, Z.shiftr_div_pow2, Z.mod_mod by lia.
  assert (0 ≤ v / 2 ^ 32 < 2 ^ 32).
  { split; [apply Z.div_pos; lia|apply Z.div_lt_upper_bound; lia]. }
  rewrite (Z.mod_small (v / _)) by lia.
  pose proof (Z.mod_pos_bound v (2 ^ 32)). pose proof (Z.div_mod v (2 ^ 32)). lia.
Qed.

(** [(low << 32) | high] on [uint64_t]. *)
Lemma join64 low high : is_uint 32 low → is_uint 32 high →
  Z.lor (wrap 64 (Z.shiftl low 32)) high = low * 2 ^ 32 + high.
Proof.
  unfold is_uint, wrap. intros Hl Hh.
  rewrite Z.mod_small by (rewrite Z.shiftl_mul_pow2; lia). by apply lor_shiftl_add.
Qed.

(** Both halves byte-swapped and exchanged: the byte swap of 64 bits. *)
Lemma swap_halves v : is_uint 64 v →
  store_le 8 (Z.lor (wrap 64 (Z.shiftl (htonl LittleEndian (wrap 32 (Z.land v 4294967295))) 32))
                (htonl LittleEndian (wrap 32 (Z.shiftr v 32)))) = store_be 8 v.
Proof.
  intros Hv. destruct (split64 v Hv) as (Hhi & Hlo & Heq).
  set (hi := wrap 32 (Z.shiftr v 32)) in *. set (lo := wrap 32 (Z.land v 4294967295)) in *.
  assert (Hh := hton_range LittleEndian 4 hi Hhi). assert (Hl := hton_range LittleEndian 4 lo Hlo).
  change (8 * Z.of_nat 4) with 32 in *. fold (htonl LittleEndian hi) in Hh.
  fold (htonl LittleEndian lo) in Hl. rewrite join64 by done.
  transitivity (store_le (4 + 4) (htonl LittleEndian hi + 256 ^ Z.of_nat 4 * htonl LittleEndian lo)).
  { f_equal. change (256 ^ Z.of_nat 4) with (2 ^ 32). lia. }
  rewrite store_le_app by exact Hh.
  transitivity (store_be (4 + 4) (hi * 256 ^ Z.of_nat 4 + lo)); [|by rewrite Heq].
  rewrite store_be_app by exact Hlo.
  f_equal; apply (mem_store_hton LittleEndian 4).
Qed.

Lemma swap_halves_load l : length l = 8%nat →
  let v := load_le l in
  Z.lor (wrap 64 (Z.shiftl (htonl LittleEndian (wrap 32 (Z.land v 4294967295))) 32))
    (htonl LittleEndian (wrap 32 (Z.shiftr v 32))) = load_be l.
Proof.
  intros Hl v. assert (is_uint 64 v) as Hv.
  { pose proof (load_le_range l). unfold is_uint, v, zlen in *. rewrite Hl in *. done. }
  pose proof (swap_halves v Hv) as Hswap. destruct (split64 v Hv) as (Hhi & Hlo & _).
  apply (hton_range LittleEndian 4) in Hhi, Hlo. change (8 * Z.of_nat 4) with 32 in *.
  assert (store_be 8 v = rev l) as Hrev.
  { unfold store_be, v. rewrite <- Hl at 1. by rewrite store_load_le. }
  rewrite Hrev in Hswap. unfold load_be. rewrite <- Hswap, load_store_le. symmetry.
  apply Z.mod_small. rewrite join64 by done. unfold htonl in *.
  unfold is_uint in *. change (256 ^ Z.of_nat 8) with (2 ^ 32 * 2 ^ 32). nia.
Qed.

#[export] Hint Rewrite length_store_be zlen_store_be mem_store_hton store_loop_be : wire.

#[global] Arguments store_be : simpl never.
#[global] Arguments load_be : simpl never.
#[global] Arguments mem_store : simpl never.
#[global] Arguments mem_load : simpl never.
