(* ===== verification/Wire.v ===== *)
(** * Readers over a byte buffer

    The decoders of the repository share one shape: a buffer that is never
    written, a [size_t offset] advanced as fields are consumed, and a [take]
    test before every access.  [reader] is that shape: it sees the whole
    buffer and the offset, and returns a value with the new offset.

    - [take_need], [load_adv], [peek] are the primitive accesses; the last two
      yield [OutOfBounds] when the buffer does not hold the bytes, exactly
      where the C++ access would be undefined.
    - [wp r frame off Q]: running [r] is free of undefined accesses, and if it
      succeeds with [a] at offset [o] then [Q a o].
    - [Codec r enc P] is the contract between a reader and the wire layout it
      accepts: [r] accepts [enc a ++ rest] for every [a] in [P], and whatever
      [r] accepts is [enc a ++ rest] for the [a] it returns. *)

From S2P Require Import Prelude HostBytes.

Definition reader (A : Type) : Type := bytes → Z → result (A * Z).

Definition rret {A} (a : A) : reader A := λ _ off, Ok (a, off).
Definition rfail {A} (msg : bytes) : reader A := λ _ _, Err msg.
Definition rseq {A B} (r : reader A) (k : A → reader B) : reader B :=
  λ frame off, rbind (r frame off) (λ x, k x.1 frame x.2).
Definition rguard (c : bool) (msg : bytes) : reader unit :=
  if c then rfail msg else rret tt.

(** A check that does not read the buffer. *)
Definition rlift {A} (m : result A) : reader A := λ _ off, x <-! m;; Ok (x, off).

Notation "x <~ r ;; k" := (rseq r (fun x => k))
  (at level 100, r at next level, right associativity) : wire_scope.

(** [offset > size || need > size - offset], the bounds test of every decoder. *)
Definition short_of (need size off : Z) : bool :=
  (size <? off) || (size - off <? need).

Definition take_need (msg : bytes) (need : Z) : reader unit := λ frame off,
  if short_of need (zlen frame) off then Err msg else Ok (tt, off).

Definition slice (frame : bytes) (pos n : Z) : bytes :=
  firstn (Z.to_nat n) (skipn (Z.to_nat pos) frame).

Definition in_buffer (frame : bytes) (pos n : Z) : bool :=
  (0 <=? pos) && (0 <=? n) && (pos + n <=? zlen frame).

(** A read of [n] bytes at an absolute position. *)
Definition peek (pos n : Z) : reader bytes := λ frame off,
  if in_buffer frame pos n then Ok (slice frame pos n, off) else OutOfBounds.

(** A read of [n] bytes at the offset, which then advances. *)
Definition load_adv (n : Z) : reader bytes := λ frame off,
  if in_buffer frame off n then Ok (slice frame off n, off + n) else OutOfBounds.

(** [*offset = pos]. *)
Definition seek (pos : Z) : reader unit := λ _ _, Ok (tt, pos).

(** The value of [offset != frame.size()]. *)
Definition trailing : reader bool := λ frame off, Ok (negb (off =? zlen frame), off).

(** The [frame.size()] a decoder tests. *)
Definition frame_size : reader Z := λ frame off, Ok (zlen frame, off).

Definition run_reader {A} (r : reader A) (frame : bytes) : result A :=
  x <-! r frame 0;; Ok x.1.

(** ** Compound reads *)

(** [take(n)], copy [n] bytes, [*offset += n]. *)
Definition read_raw (msg : bytes) (n : Z) : reader bytes :=
  _ <~ take_need msg n;; load_adv n.

(** [take], [memcpy] into an integer, [ntohs] or [ntohl]. *)
Definition read_be (h : endian) (msg : bytes) (n : nat) : reader Z :=
  b <~ read_raw msg (Z.of_nat n);; rret (hton h n (mem_load h b)).

(** [take], then the shift loop over the bytes. *)
Definition read_loop (msg : bytes) (n : nat) : reader Z :=
  b <~ read_raw msg (Z.of_nat n);; rret (load_loop b).

(** A length of [n] bytes, a limit on it, then that many bytes. *)
Definition read_prefixed (read_len : reader Z) (trunc toolong : bytes) (limit : Z)
    : reader bytes :=
  len <~ read_len;;
  _ <~ rguard (limit <? len) toolong;;
  read_raw trunc len.

(** A loop that reads [n] items. *)
Fixpoint read_n {A} (n : nat) (r : reader A) : reader (list A) :=
  match n with
  | O => rret []
  | S n => x <~ r;; l <~ read_n n r;; rret (x :: l)
  end.

(** The layout of a length-prefixed byte string. *)
Definition enc_prefixed (n : nat) (s : bytes) : bytes := store_be n (zlen s) ++ s.

(** ** Positions *)

Definition at_off (frame : bytes) (off : Z) (l : bytes) : Prop :=
  0 ≤ off ∧ skipn (Z.to_nat off) frame = l ∧ off + zlen l = zlen frame.

Lemma zlen_app {A} (l1 l2 : list A) : zlen (l1 ++ l2) = zlen l1 + zlen l2.
Proof. unfold zlen. rewrite length_app. lia. Qed.

Lemma zlen_nonneg {A} (l : list A) : 0 ≤ zlen l.
Proof. unfold zlen. lia. Qed.

Lemma zlen_cons {A} (x : A) l : zlen (x :: l) = 1 + zlen l.
Proof. unfold zlen. simpl. lia. Qed.

Lemma zlen_nil {A} : zlen (@nil A) = 0.
Proof. done. Qed.

Lemma zlen_firstn {A} n (l : list A) : 0 ≤ n ≤ zlen l → zlen (firstn (Z.to_nat n) l) = n.
Proof. unfold zlen. rewrite length_firstn. lia. Qed.

Lemma zlen_enc_prefixed n s : zlen (enc_prefixed n s) = Z.of_nat n + zlen s.
Proof. unfold enc_prefixed. by rewrite zlen_app, zlen_store_be. Qed.

#[export] Hint Rewrite @zlen_app @zlen_cons @zlen_nil zlen_enc_prefixed : wire.

Lemma at_off_start frame : at_off frame 0 frame.
Proof. unfold at_off. simpl. repeat split; lia || done. Qed.

Lemma at_off_app frame off l rest :
  at_off frame off (l ++ rest) → at_off frame (off + zlen l) rest.
Proof.
  unfold at_off. intros (Hoff & Hskip & Hlen). rewrite zlen_app in Hlen.
  pose proof (zlen_nonneg l). repeat split; [lia| |lia].
  rewrite Z2Nat.inj_add, Nat.add_comm, <- skipn_skipn, Hskip by lia.
  unfold zlen. by rewrite Nat2Z.id, skipn_app, skipn_all, Nat.sub_diag.
Qed.

Lemma at_off_slice frame off l n :
  at_off frame off l → slice frame off n = firstn (Z.to_nat n) l.
Proof. intros (_ & <- & _). done. Qed.

Lemma at_off_in_buffer frame off l n :
  at_off frame off l → 0 ≤ n → in_buffer frame off n = (n <=? zlen l).
Proof.
  intros (Hoff & _ & Hlen) Hn. unfold in_buffer.
  destruct (Z.leb_spec n (zlen l)); lia.
Qed.

Lemma at_off_short frame off l n :
  at_off frame off l → short_of n (zlen frame) off = (zlen l <? n).
Proof.
  intros (Hoff & _ & Hlen). unfold short_of. pose proof (zlen_nonneg l).
  destruct (Z.ltb_spec (zlen l) n); lia.
Qed.

Lemma at_off_trailing frame off l : at_off frame off l → (off =? zlen frame) = (zlen l =? 0).
Proof. intros (_ & _ & Hlen). lia. Qed.

(** ** Partial correctness without undefined accesses *)

Definition wp {A} (r : reader A) (frame : bytes) (off : Z) (Q : A → Z → Prop) : Prop :=
  match r frame off with
  | Ok (a, o) => Q a o
  | Err _ => True
  | OutOfBounds | NoFuel => False
  end.

Lemma wp_ret {A} (a : A) frame off (Q : A → Z → Prop) : Q a off → wp (rret a) frame off Q.
Proof. done. Qed.

Lemma wp_fail {A} msg frame off (Q : A → Z → Prop) : wp (rfail msg) frame off Q.
Proof. done. Qed.

Lemma wp_seq {A B} (r : reader A) (k : A → reader B) frame off Q :
  wp r frame off (λ a o, wp (k a) frame o Q) → wp (rseq r k) frame off Q.
Proof. unfold wp, rseq, rbind. by destruct (r frame off) as [[a o]|?| |]. Qed.

Lemma wp_mono {A} (r : reader A) frame off (Q Q' : A → Z → Prop) :
  wp r frame off Q → (∀ a o, Q a o → Q' a o) → wp r frame off Q'.
Proof. unfold wp. destruct (r frame off) as [[a o]|?| |]; auto. Qed.

Lemma wp_guard c msg frame off (Q : unit → Z → Prop) :
  (c = false → Q tt off) → wp (rguard c msg) frame off Q.
Proof. destruct c; [done|]. intros H. by apply H. Qed.

Lemma wp_if {A} (c : bool) (r1 r2 : reader A) frame off Q :
  (c = true → wp r1 frame off Q) → (c = false → wp r2 frame off Q) →
  wp (if c then r1 else r2) frame off Q.
Proof. destruct c; auto. Qed.

Lemma wp_lift {A} (m : result A) frame off (Q : A → Z → Prop) :
  safe m → (∀ a, m = Ok a → Q a off) → wp (rlift m) frame off Q.
Proof. unfold wp, rlift. destruct m; naive_solver. Qed.

Lemma wp_seek pos frame off (Q : unit → Z → Prop) : Q tt pos → wp (seek pos) frame off Q.
Proof. done. Qed.

Lemma wp_frame_size frame off Q : Q (zlen frame) off → wp frame_size frame off Q.
Proof. done. Qed.

Lemma wp_take msg n frame off l (Q : unit → Z → Prop) :
  at_off frame off l → (n ≤ zlen l → Q tt off) → wp (take_need msg n) frame off Q.
Proof.
  intros Hat HQ. unfold wp, take_need. rewrite (at_off_short _ _ _ _ Hat).
  destruct (Z.ltb_spec (zlen l) n); [done|]. by apply HQ.
Qed.

Lemma wp_load n frame off l (Q : bytes → Z → Prop) :
  at_off frame off l → 0 ≤ n ≤ zlen l →
  (∀ b rest, l = b ++ rest → zlen b = n → at_off frame (off + n) rest → Q b (off + n)) →
  wp (load_adv n) frame off Q.
Proof.
  intros Hat Hn HQ. unfold wp, load_adv.
  rewrite (at_off_in_buffer _ _ _ _ Hat), (proj2 (Z.leb_le _ _)) by lia.
  rewrite (at_off_slice _ _ _ _ Hat).
  assert (zlen (firstn (Z.to_nat n) l) = n) as Hz by (by apply zlen_firstn).
  apply (HQ _ (skipn (Z.to_nat n) l)); [by rewrite firstn_skipn|done|].
  rewrite <- Hz at 1. apply at_off_app. by rewrite firstn_skipn.
Qed.

Lemma wp_trailing frame off l (Q : bool → Z → Prop) :
  at_off frame off l → Q (negb (zlen l =? 0)) off → wp trailing frame off Q.
Proof. intros Hat HQ. unfold wp, trailing. by rewrite (at_off_trailing _ _ _ Hat). Qed.

Lemma wp_run {A} (r : reader A) frame (Q : A → Prop) :
  wp r frame 0 (λ a _, Q a) →
  safe (run_reader r frame) ∧ (∀ a, run_reader r frame = Ok a → Q a).
Proof.
  unfold wp, run_reader. destruct (r frame 0) as [[a o]|?| |]; naive_solver.
Qed.

Lemma split_at {A} n (l : list A) : 0 ≤ n ≤ zlen l → ∃ a b, l = a ++ b ∧ zlen a = n.
Proof.
  intros Hn. exists (firstn (Z.to_nat n) l), (skipn (Z.to_nat n) l).
  by rewrite firstn_skipn, zlen_firstn.
Qed.

Lemma slice_app pre b post : slice (pre ++ b ++ post) (zlen pre) (zlen b) = b.
Proof.
  unfold slice, zlen. rewrite !Nat2Z.id, skipn_app, skipn_all, Nat.sub_diag, app_nil_l.
  by rewrite skipn_O, firstn_app, Nat.sub_diag, firstn_all, app_nil_r.
Qed.

Lemma peek_run pre b post pos n off :
  pos = zlen pre → n = zlen b → peek pos n (pre ++ b ++ post) off = Ok (b, off).
Proof.
  intros -> ->. unfold peek, in_buffer. pose proof (zlen_nonneg pre).
  pose proof (zlen_nonneg b). pose proof (zlen_nonneg post).
  rewrite slice_app, !zlen_app. case_match; [done|lia].
Qed.

Lemma peek_in pos n frame off :
  0 ≤ pos → 0 ≤ n → pos + n ≤ zlen frame → peek pos n frame off = Ok (slice frame pos n, off).
Proof. intros. unfold peek, in_buffer. case_match; [done|lia]. Qed.

Lemma wp_peek pre b post frame pos n off (Q : bytes → Z → Prop) :
  frame = pre ++ b ++ post → pos = zlen pre → n = zlen b → Q b off →
  wp (peek pos n) frame off Q.
Proof. intros -> Hp Hn HQ. unfold wp. by rewrite peek_run. Qed.

(** ** Arrays of 64-bit words *)

(** The layout of an array of words in network order. *)
Definition be64s (values : list Z) : bytes := concat (store_be 8 <$> values).

Lemma zlen_be64s values : zlen (be64s values) = 8 * zlen values.
Proof.
  unfold be64s. induction values as [|v values IH]; [done|].
  rewrite fmap_cons. cbn [concat]. rewrite zlen_app, zlen_cons, zlen_store_be, IH. lia.
Qed.

Lemma be64s_inj v1 : ∀ v2,
  Forall (is_uint 64) v1 → Forall (is_uint 64) v2 → be64s v1 = be64s v2 → v1 = v2.
Proof.
  induction v1 as [|a v1 IH]; intros [|b v2] H1 H2 E;
    pose proof (f_equal zlen E) as Hl; rewrite !zlen_be64s in Hl; unfold zlen in Hl;
    try (cbn in Hl; done || lia).
  inversion H1; inversion H2; subst. unfold be64s in *. rewrite !fmap_cons in E. cbn [concat] in E.
  apply app_inj_1 in E as [E1 E2]; [|by rewrite !length_store_be]. f_equal; [|by apply IH].
  rewrite <- (load_store_be_uint 8 a), <- (load_store_be_uint 8 b) by done. by rewrite E1.
Qed.

Lemma slices_concat k (l : bytes) : ∀ i,
  concat ((λ i, slice l (Z.of_nat i * 8) 8) <$> seq i k) = firstn (8 * k) (skipn (8 * i) l).
Proof.
  induction k as [|k IH]; intros i; [done|]. cbn [seq]. rewrite fmap_cons. cbn [concat]. rewrite IH.
  unfold slice. replace (Z.to_nat (Z.of_nat i * 8)) with (8 * i)%nat by lia.
  replace (8 * S k)%nat with (8 + 8 * k)%nat by lia. change (Z.to_nat 8) with 8%nat.
  replace (8 * S i)%nat with (8 * i + 8)%nat by lia. by rewrite <- drop_drop, take_take_drop.
Qed.

(** Every buffer of whole words is the layout of the words it holds. *)
Lemma be64s_words k l :
  length l = (8 * k)%nat →
  let words := (λ i, load_be (slice l (Z.of_nat i * 8) 8)) <$> seq 0 k in
  be64s words = l ∧ Forall (is_uint 64) words ∧ zlen words = Z.of_nat k.
Proof.
  intros Hk words.
  assert (∀ i, (i < k)%nat → length (slice l (Z.of_nat i * 8) 8) = 8%nat) as Hsl.
  { intros i Hi. unfold slice. rewrite length_firstn, length_skipn. lia. }
  split; [|split].
  - unfold be64s, words. rewrite <- list_fmap_compose.
    transitivity (concat ((λ i, slice l (Z.of_nat i * 8) 8) <$> seq 0 k)).
    + f_equal. apply list_fmap_ext. intros j i Hi. unfold compose.
      apply lookup_seq in Hi as [-> Hi]. apply store_load_be'. by apply Hsl.
    + rewrite slices_concat. rewrite <- Hk. apply firstn_all.
  - apply Forall_fmap, Forall_forall. intros i Hi. apply elem_of_seq in Hi.
    apply (load_be_uint_z _ 8). unfold zlen. rewrite Hsl; lia.
  - unfold words, zlen. by rewrite length_fmap, length_seq.
Qed.

(** ** Running a reader on its layout *)

Lemma rseq_Ok {A B} (r : reader A) (k : A → reader B) frame off a o res :
  r frame off = Ok (a, o) → k a frame o = res → rseq r k frame off = res.
Proof. unfold rseq. by intros -> <-. Qed.

Lemma take_run msg n frame off l :
  at_off frame off l → n ≤ zlen l → take_need msg n frame off = Ok (tt, off).
Proof.
  intros Hat Hn. unfold take_need. rewrite (at_off_short _ _ _ _ Hat).
  by destruct (Z.ltb_spec (zlen l) n); [lia|].
Qed.

Lemma load_run n frame off b rest :
  at_off frame off (b ++ rest) → zlen b = n → load_adv n frame off = Ok (b, off + n).
Proof.
  intros Hat <-. pose proof (zlen_nonneg b). pose proof (zlen_nonneg rest).
  unfold load_adv. rewrite (at_off_in_buffer _ _ _ _ Hat) by done.
  rewrite (at_off_slice _ _ _ _ Hat), (proj2 (Z.leb_le _ _)) by (rewrite zlen_app; lia).
  unfold zlen. by rewrite Nat2Z.id, firstn_app, Nat.sub_diag, firstn_all, app_nil_r.
Qed.

(** [r] succeeds with a result in [Q]. *)
Definition runs {A} (r : reader A) (frame : bytes) (off : Z) (Q : A → Z → Prop) : Prop :=
  ∃ a o, r frame off = Ok (a, o) ∧ Q a o.

Lemma runs_seq {A B} (r : reader A) (k : A → reader B) frame off Q :
  runs r frame off (λ a o, runs (k a) frame o Q) → runs (rseq r k) frame off Q.
Proof.
  intros (a & o & Hr & b & o' & Hk & HQ). exists b, o'. split; [|done]. by eapply rseq_Ok.
Qed.

Lemma runs_ret {A} (a : A) frame off (Q : A → Z → Prop) : Q a off → runs (rret a) frame off Q.
Proof. intros HQ. by exists a, off. Qed.

Lemma runs_guard c msg frame off (Q : unit → Z → Prop) :
  c = false → Q tt off → runs (rguard c msg) frame off Q.
Proof. intros -> HQ. by exists tt, off. Qed.

Lemma runs_lift {A} (m : result A) a frame off (Q : A → Z → Prop) :
  m = Ok a → Q a off → runs (rlift m) frame off Q.
Proof. intros -> HQ. by exists a, off. Qed.

Lemma runs_frame_size frame off (Q : Z → Z → Prop) :
  Q (zlen frame) off → runs frame_size frame off Q.
Proof. intros HQ. by exists (zlen frame), off. Qed.

Lemma runs_take msg n frame off l (Q : unit → Z → Prop) :
  at_off frame off l → n ≤ zlen l → Q tt off → runs (take_need msg n) frame off Q.
Proof. intros Hat Hn HQ. exists tt, off. split; [by eapply take_run|done]. Qed.

Lemma runs_load n frame off b rest (Q : bytes → Z → Prop) :
  at_off frame off (b ++ rest) → zlen b = n →
  (at_off frame (off + n) rest → Q b (off + n)) → runs (load_adv n) frame off Q.
Proof.
  intros Hat Hb HQ. exists b, (off + n). split; [by eapply load_run|].
  apply HQ. rewrite <- Hb. by apply at_off_app.
Qed.

Lemma runs_no_trailing {A} msg (k : reader A) frame off Q :
  at_off frame off [] → runs k frame off Q →
  runs (extra <~ trailing;; _ <~ rguard extra msg;; k) frame off Q.
Proof.
  intros Hat HQ. apply runs_seq. exists false, off. split; [|by apply runs_seq, runs_guard].
  unfold trailing. by rewrite (at_off_trailing _ _ _ Hat).
Qed.

Lemma runs_reader {A} (r : reader A) frame a :
  runs r frame 0 (λ b _, b = a) → run_reader r frame = Ok a.
Proof. unfold run_reader. by intros (b & o & -> & ->). Qed.

(** ** The codec interface *)

Class Codec {A} (r : reader A) (enc : A → bytes) (P : A → Prop) : Prop := {
  codec_wp frame off l (Q : A → Z → Prop) :
    at_off frame off l →
    (∀ a rest, P a → l = enc a ++ rest → at_off frame (off + zlen (enc a)) rest →
       Q a (off + zlen (enc a))) →
    wp r frame off Q;
  codec_run frame off a rest :
    at_off frame off (enc a ++ rest) → P a → r frame off = Ok (a, off + zlen (enc a));
}.
#[export] Hint Mode Codec - ! - - : typeclass_instances.

Lemma runs_codec `{Codec0 : Codec A r enc P} frame off a rest (Q : A → Z → Prop) :
  at_off frame off (enc a ++ rest) → P a →
  (at_off frame (off + zlen (enc a)) rest → Q a (off + zlen (enc a))) → runs r frame off Q.
Proof.
  intros Hat HP HQ. exists a, (off + zlen (enc a)). split; [by eapply codec_run|].
  by apply HQ, at_off_app.
Qed.

(** One step of a decoder that meets the layout of its next field. *)
Lemma codec_step `{Codec0 : Codec A r enc P} {B} (k : A → reader B) frame off a rest res :
  at_off frame off (enc a ++ rest) → P a →
  (at_off frame (off + zlen (enc a)) rest → k a frame (off + zlen (enc a)) = res) →
  rseq r k frame off = res.
Proof.
  intros Hat HP Hk. eapply rseq_Ok; [by eapply codec_run|].
  apply Hk. by apply at_off_app.
Qed.

Lemma codec_read_raw msg n : 0 ≤ n → Codec (read_raw msg n) id (λ b, zlen b = n).
Proof.
  intros Hn. split.
  - intros frame off l Q Hat HQ. apply wp_seq. eapply wp_take; [done|]. intros Hle.
    eapply wp_load; [done|lia|]. intros b rest -> <- Hat'. by apply (HQ b rest).
  - intros frame off b rest Hat <-. unfold id in *. pose proof (zlen_nonneg rest).
    eapply rseq_Ok; [eapply take_run; [done|rewrite zlen_app; lia]|].
    by eapply load_run.
Qed.

(** A reader followed by a conversion of its value. *)
Lemma codec_map {A B} (r : reader A) enc P (f : A → B) (g : B → A) (P' : B → Prop) :
  Codec r enc P → (∀ a, P a → g (f a) = a ∧ P' (f a)) →
  (∀ b, P' b → f (g b) = b ∧ P (g b)) →
  Codec (a <~ r;; rret (f a)) (λ b, enc (g b)) P'.
Proof.
  intros HC Hfg Hgf. split.
  - intros frame off l Q Hat HQ. apply wp_seq. eapply codec_wp; [done|].
    intros a rest HP -> Hat'. destruct (Hfg a HP) as [Hga HPf].
    specialize (HQ (f a) rest HPf). rewrite Hga in HQ. by apply HQ.
  - intros frame off b rest Hat HP. destruct (Hgf b HP) as [Hfb HPg].
    eapply codec_step; [done..|]. intros _. unfold rret. by rewrite Hfb.
Qed.

(** A reader followed by a check of its value. *)
Lemma codec_guarded {A} (r : reader A) enc P (c : A → bool) msg :
  Codec r enc P →
  Codec (a <~ r;; _ <~ rguard (c a) msg;; rret a) enc (λ a, P a ∧ c a = false).
Proof.
  intros HC. split.
  - intros frame off l Q Hat HQ. apply wp_seq. eapply codec_wp; [done|].
    intros a rest HP -> Hat'. apply wp_seq, wp_guard. intros Hc. by apply (HQ a rest).
  - intros frame off a rest Hat [HP Hc].
    eapply codec_step; [done..|]. intros _. unfold rseq, rguard. by rewrite Hc.
Qed.

(** A loop of reads is a codec of the concatenated items. *)
Lemma codec_read_n {A} (r : reader A) enc P n :
  Codec r enc P →
  Codec (read_n n r) (λ l, concat (enc <$> l)) (λ l, length l = n ∧ Forall P l).
Proof.
  intros HC. induction n as [|n IH]; (split; [intros frame off l Q Hat HQ|intros frame off l rest Hat [Hl HP]]).
  - apply wp_ret. specialize (HQ [] l). rewrite Z.add_0_r in HQ. apply HQ; auto.
  - apply nil_length_inv in Hl as ->. unfold read_n, rret. by rewrite Z.add_0_r.
  - apply wp_seq. eapply codec_wp; [done|]. intros a rest Ha -> Hat'.
    apply wp_seq. eapply (codec_wp (Codec := IH)); [done|]. intros l rest' [Hl HP] -> Hat''.
    apply wp_ret. specialize (HQ (a :: l) rest'). cbn [fmap list_fmap concat] in HQ.
    rewrite zlen_app, Z.add_assoc, <- app_assoc in HQ.
    apply HQ; [split; [simpl; congruence|by constructor]|done..].
  - destruct l as [|a l]; [done|]. cbn [fmap list_fmap concat] in *. inversion HP; subst.
    rewrite <- app_assoc in Hat. rewrite zlen_app, Z.add_assoc.
    eapply codec_step; [done..|]. intros Hat'.
    by eapply rseq_Ok; [eapply (codec_run (Codec := IH)); [done|split; [by simplify_eq/=|done]]|].
Qed.

#[export] Instance codec_read_be h msg n :
  Codec (read_be h msg n) (store_be n) (is_uint (8 * Z.of_nat n)).
Proof.
  apply (codec_map (read_raw msg (Z.of_nat n)) id _ (λ b, hton h n (mem_load h b)) (store_be n)
           _ (codec_read_raw _ _ (Nat2Z.is_nonneg n))).
  - intros b Hb. unfold zlen in Hb. apply Nat2Z.inj in Hb.
    rewrite hton_mem_load by done. split; [by apply store_load_be'|].
    apply load_be_uint. unfold zlen. lia.
  - intros v Hv. rewrite hton_mem_load by apply length_store_be.
    split; [by apply load_store_be_uint|apply zlen_store_be].
Qed.

Lemma codec_read_loop msg n :
  (n ≤ 8)%nat → Codec (read_loop msg n) (store_be n) (is_uint (8 * Z.of_nat n)).
Proof.
  intros Hn. apply (codec_map (read_raw msg (Z.of_nat n)) id _ load_loop (store_be n)
                      _ (codec_read_raw _ _ (Nat2Z.is_nonneg n))).
  - intros b Hb. unfold zlen in Hb. apply Nat2Z.inj in Hb.
    rewrite load_loop_be by lia. split; [by apply store_load_be'|].
    apply load_be_uint. unfold zlen. lia.
  - intros v Hv. rewrite load_loop_be by (rewrite length_store_be; lia).
    split; [by apply load_store_be_uint|apply zlen_store_be].
Qed.

(** A length prefix within a limit, then that many bytes. *)
Definition fits (n : nat) (limit : Z) (s : bytes) : Prop :=
  zlen s ≤ limit ∧ zlen s < 256 ^ Z.of_nat n.

Lemma codec_read_prefixed read_len n trunc toolong limit :
  Codec read_len (store_be n) (is_uint (8 * Z.of_nat n)) →
  Codec (read_prefixed read_len trunc toolong limit) (enc_prefixed n) (fits n limit).
Proof.
  intros HC. split.
  - intros frame off l Q Hat HQ. apply wp_seq. eapply codec_wp; [done|].
    intros len rest Hlen -> Hat'. apply wp_seq, wp_guard. intros Hlim.
    eapply (codec_wp (Codec := codec_read_raw trunc len (proj1 Hlen))); [done|].
    unfold id. intros s rest' Hs -> Hat''. subst len.
    specialize (HQ s rest'). unfold enc_prefixed in HQ.
    rewrite zlen_app, Z.add_assoc, <- app_assoc in HQ. apply HQ; [|done..].
    split; [lia|]. rewrite pow256_bits. apply Hlen.
  - intros frame off s rest Hat [Hlim Hlen]. unfold enc_prefixed in *.
    rewrite <- app_assoc in Hat. pose proof (zlen_nonneg s).
    eapply codec_step; [done|split; [lia|by rewrite <- pow256_bits]|]. intros Hat'.
    eapply rseq_Ok; [unfold rguard; rewrite (proj2 (Z.ltb_ge _ _)) by lia; done|].
    rewrite zlen_app, Z.add_assoc.
    by eapply (codec_run (Codec := codec_read_raw trunc (zlen s) ltac:(lia))).
Qed.

Lemma zlen_zero_nil {A} (l : list A) : negb (zlen l =? 0) = false → l = [].
Proof. unfold zlen. destruct l; [done|]. simpl. lia. Qed.

(** The test for trailing bytes that ends every decoder. *)
Lemma wp_no_trailing {A} msg (k : reader A) frame off l Q :
  at_off frame off l → (l = [] → wp k frame off Q) →
  wp (extra <~ trailing;; _ <~ rguard extra msg;; k) frame off Q.
Proof.
  intros Hat HQ. apply wp_seq, (wp_trailing _ _ _ _ Hat), wp_seq, wp_guard.
  intros Hl. apply HQ. by apply zlen_zero_nil.
Qed.

(** ** Proof automation for decoders *)

Ltac wire_len := autorewrite with wire in *; repeat match goal with
  | |- context [zlen ?l] => unless (0 ≤ zlen l) by assumption; pose proof (zlen_nonneg l)
  | H : context [zlen ?l] |- _ => unless (0 ≤ zlen l) by assumption; pose proof (zlen_nonneg l)
  end; lia.

(** One step of a weakest-precondition proof about a reader. *)
Ltac wp_step :=
  lazymatch goal with
  | Hat : at_off ?frame ?off _ |- wp (rseq trailing _) ?frame ?off _ =>
      apply (wp_no_trailing _ _ _ _ _ _ Hat); clear Hat; intros ->; rewrite ?app_nil_r in *
  | |- wp (rseq _ _) _ _ _ => apply wp_seq
  | |- wp (rret _) _ _ _ => apply wp_ret
  | |- wp (rfail _) _ _ _ => apply wp_fail
  | |- wp (rguard _ _) _ _ _ => apply wp_guard; intro
  | |- wp (rlift _) _ _ _ => apply wp_lift; [|intros ? ?]
  | |- wp (seek _) _ _ _ => apply wp_seek
  | |- wp frame_size _ _ _ => apply wp_frame_size
  | Hat : at_off ?frame ?off _ |- wp trailing ?frame ?off _ =>
      apply (wp_trailing _ _ _ _ Hat)
  | Hat : at_off ?frame ?off _ |- wp (take_need _ _) ?frame ?off _ =>
      apply (wp_take _ _ _ _ _ _ Hat); intro
  | Hat : at_off ?frame ?off _ |- wp (load_adv _) ?frame ?off _ =>
      apply (wp_load _ _ _ _ _ Hat); [wire_len|]; clear Hat; intros ? ? -> ? ?
  | |- wp (if _ then _ else _) _ _ _ => apply wp_if; intro
  | Hat : at_off ?frame ?off _ |- wp _ ?frame ?off _ =>
      apply (codec_wp _ _ _ _ Hat); clear Hat; intros ? ? ? -> ?
  end; cbv beta in *.

(** One step of a run on a known layout; side conditions are left. *)
Ltac run_step :=
  lazymatch goal with
  | Hat : at_off ?frame ?off [] |- runs (rseq trailing _) ?frame ?off _ =>
      apply (runs_no_trailing _ _ _ _ _ Hat)
  | |- runs (rseq _ _) _ _ _ => apply runs_seq
  | |- runs (rret _) _ _ _ => apply runs_ret
  | |- runs (rguard _ _) _ _ _ => apply runs_guard
  | |- runs (rlift _) _ _ _ => eapply runs_lift
  | |- runs frame_size _ _ _ => apply runs_frame_size
  | Hat : at_off ?frame ?off _ |- runs (take_need _ _) ?frame ?off _ =>
      apply (runs_take _ _ _ _ _ _ Hat); [wire_len|]
  | Hat : at_off ?frame ?off (?b ++ ?rest) |- runs (load_adv _) ?frame ?off _ =>
      apply (runs_load _ _ _ b rest _ Hat); [wire_len|]; clear Hat; intro
  | Hat : at_off ?frame ?off ?b |- runs (load_adv _) ?frame ?off _ =>
      rewrite <- (app_nil_r b) in Hat;
      apply (runs_load _ _ _ b [] _ Hat); [wire_len|]; clear Hat; intro
  | Hat : at_off ?frame ?off (_ ++ _) |- runs _ ?frame ?off _ =>
      apply (runs_codec _ _ _ _ _ Hat); [|clear Hat; intro]
  | Hat : at_off ?frame ?off ?l |- runs _ ?frame ?off _ =>
      rewrite <- (app_nil_r l) in Hat;
      apply (runs_codec _ _ _ _ _ Hat); [|clear Hat; intro]
  end; cbv beta.
