(* ===== verification/BackendDispatch.v ===== *)
(** * Backend selection (include/backend_dispatch.h)

    Which kind of backend runs a task, before any GPU is chosen.  The
    selection is a pure function of the policy and the optional profile;
    [npu_chosen] and [gpu_chosen] are the specification it is proved to decide. *)

From S2P Require Import Prelude.

Inductive BackendKind := Cpu | Gpu | Npu.
#[export] Instance BackendKind_eq_dec : EqDecision BackendKind.
Proof. solve_decision. Defined.

Definition backend_name (kind : BackendKind) : bytes :=
  match kind with
  | Cpu => str "cpu"
  | Gpu => str "gpu"
  | Npu => str "npu"
  end.

Record TaskProfile := mkProfile {
  requires_exact_precision : bool;
  verification_sensitive : bool;
  cryptographic : bool;
  accelerator_verified : bool;
  is_inference : bool;
  is_data_parallel : bool;
  estimated_bytes : Z;
  estimated_flops : Z;
  fallback_safe : bool;
}.

Definition default_profile : TaskProfile :=
  mkProfile false false false false false false 0 0 false.

Record BackendPolicy := mkPolicy {
  default_backend : BackendKind;
  gpu_offload_threshold_bytes : Z;
  gpu_offload_threshold_flops : Z;
  force_cpu : bool;
  gpu_available : bool;
  npu_available : bool;
}.

Definition default_policy : BackendPolicy :=
  mkPolicy Cpu (1024 * 1024) 0 false false false.

Definition profile_requires_cpu (p : TaskProfile) : bool :=
  (requires_exact_precision p || verification_sensitive p || cryptographic p)
  && negb (accelerator_verified p).

Definition select_backend (policy : BackendPolicy) (profile : option TaskProfile)
    : BackendKind :=
  if force_cpu policy then Cpu
  else match profile with
  | None =>
      if bool_decide (default_backend policy = Gpu) && gpu_available policy
      then Gpu else Cpu
  | Some p =>
      if profile_requires_cpu p then Cpu
      else if is_inference p && npu_available policy then Npu
      else
        let big_enough :=
          (gpu_offload_threshold_bytes policy <=? estimated_bytes p) ||
          ((0 <? gpu_offload_threshold_flops policy) &&
           (gpu_offload_threshold_flops policy <=? estimated_flops p)) in
        if is_data_parallel p && gpu_available policy && big_enough then Gpu
        else Cpu
  end.

(** What an NPU backend offers: whether it can run now, and its kernel, which
    may throw.  A value is a double's bit pattern. *)
Record NpuExecutor := mkNpu {
  available : bool;
  run : list Z → result (list Z);
}.

(** ** Specification *)

(** Work that must stay on the CPU for want of a verified accelerator path. *)
Definition cpu_bound (p : TaskProfile) : Prop :=
  (requires_exact_precision p = true ∨ verification_sensitive p = true ∨
   cryptographic p = true) ∧ accelerator_verified p = false.

(** Large enough to be worth moving to a GPU. *)
Definition offloadable (policy : BackendPolicy) (p : TaskProfile) : Prop :=
  gpu_offload_threshold_bytes policy ≤ estimated_bytes p ∨
  (0 < gpu_offload_threshold_flops policy ≤ estimated_flops p).

(** When each accelerator is chosen, stated as the documentation does. *)
Definition npu_chosen (policy : BackendPolicy) (profile : option TaskProfile) : Prop :=
  force_cpu policy = false ∧ npu_available policy = true ∧
  ∃ p, profile = Some p ∧ ¬ cpu_bound p ∧ is_inference p = true.

Definition gpu_chosen (policy : BackendPolicy) (profile : option TaskProfile) : Prop :=
  force_cpu policy = false ∧ gpu_available policy = true ∧
  match profile with
  | None => default_backend policy = Gpu
  | Some p => ¬ cpu_bound p ∧ is_data_parallel p = true ∧ offloadable policy p ∧
              ¬ (is_inference p = true ∧ npu_available policy = true)
  end.

Lemma profile_requires_cpu_spec p : profile_requires_cpu p = true ↔ cpu_bound p.
Proof.
  unfold profile_requires_cpu, cpu_bound.
  destruct (requires_exact_precision p), (verification_sensitive p), (cryptographic p),
    (accelerator_verified p); naive_solver.
Qed.

Lemma offloadable_spec policy p :
  (gpu_offload_threshold_bytes policy <=? estimated_bytes p) ||
  ((0 <? gpu_offload_threshold_flops policy) &&
   (gpu_offload_threshold_flops policy <=? estimated_flops p)) = true ↔ offloadable policy p.
Proof. unfold offloadable. lia. Qed.

Lemma offloadable_dec policy p : ∃ big,
  (gpu_offload_threshold_bytes policy <=? estimated_bytes p) ||
  ((0 <? gpu_offload_threshold_flops policy) &&
   (gpu_offload_threshold_flops policy <=? estimated_flops p)) = big ∧
  if big then offloadable policy p else ¬ offloadable policy p.
Proof.
  eexists. split; [done|]. pose proof (offloadable_spec policy p) as H.
  destruct (_ || _); [by apply H|]. rewrite <- H. done.
Qed.

(** C38: [select_backend] returns the NPU exactly for inference profiles with
    an available NPU, the GPU exactly for data-parallel profiles above an
    offload threshold (or an operator default without a profile) with an
    available GPU, and the CPU otherwise; [--cpu-only] and CPU-bound work
    never leave the CPU. *)
Theorem select_backend_correct policy profile :
  match select_backend policy profile with
  | Npu => npu_chosen policy profile
  | Gpu => gpu_chosen policy profile
  | Cpu => ¬ npu_chosen policy profile ∧ ¬ gpu_chosen policy profile
  end.
Proof.
  unfold select_backend, npu_chosen, gpu_chosen.
  destruct (force_cpu policy) eqn:Hforce; [naive_solver|].
  destruct profile as [p|].
  - destruct (profile_requires_cpu p) eqn:Hreq.
    { apply profile_requires_cpu_spec in Hreq. naive_solver. }
    assert (¬ cpu_bound p) by (rewrite <- profile_requires_cpu_spec; congruence).
    destruct (offloadable_dec policy p) as [big [-> Hoff]]. cbv zeta.
    destruct (is_inference p) eqn:?, (npu_available policy), (is_data_parallel p) eqn:?,
      (gpu_available policy), big; simpl; repeat split; try intros ?; break; eauto;
      intuition congruence.
  - destruct (gpu_available policy); case_bool_decide; simpl; naive_solver.
Qed.
