(* ===== verification/BrokerProtocol.v ===== *)
(** * The BRK1 broker frames (include/broker_protocol.h, src/broker_protocol.cpp)

    Requests and responses as records, the frame encoders (which throw,
    [Err], on a limit violation) and decoders.  The host's byte order is a
    parameter of every function that copies integers to or from memory.
    In-process fields that are not on the wire ([req_profile],
    [req_device_preference], [resp_backend], [resp_fell_back_to_cpu]) are
    carried by the records as in the source. *)

From S2P Require Import Prelude HostBytes Wire BackendDispatch.

(** ** Data *)

Definition BROKER_MAGIC : Z := 0x42524b31.
Definition BROKER_PROTOCOL_VERSION : Z := 1.
Definition BROKER_MAX_TIMEOUT_MS : Z := 300000.

Inductive MessageType := Request | Response.
Definition MessageType_u8 (t : MessageType) : Z :=
  match t with Request => 1 | Response => 2 end.

Inductive TaskStatus := StatusOk | StatusRejected | StatusError | StatusTimeout.
#[export] Instance TaskStatus_eq_dec : EqDecision TaskStatus.
Proof. solve_decision. Defined.

Definition TaskStatus_u8 (s : TaskStatus) : Z :=
  match s with StatusOk => 0 | StatusRejected => 1 | StatusError => 2 | StatusTimeout => 3 end.

(** [static_cast<TaskStatus>] of a raw value the decoder has checked. *)
Definition TaskStatus_of_u8 (v : Z) : TaskStatus :=
  if v =? 0 then StatusOk else if v =? 1 then StatusRejected
  else if v =? 2 then StatusError else StatusTimeout.

Record ProtocolLimits := mkLimits {
  max_frame_bytes : Z;
  max_payload_bytes : Z;
  max_string_bytes : Z;
}.

Definition default_limits : ProtocolLimits := mkLimits (1024 * 1024) (512 * 1024) 1024.

Record BrokerRequest := mkRequest {
  req_task_id : bytes;
  req_source : bytes;
  req_destination : bytes;
  req_kind : bytes;
  req_priority : Z;
  req_timeout_ms : Z;
  req_payload : bytes;
  req_profile : option TaskProfile;
  req_device_preference : bytes;
}.

Record BrokerResponse := mkResponse {
  resp_task_id : bytes;
  resp_status : TaskStatus;
  resp_selected_gpu : Z;
  resp_latency_ms : Z;
  resp_result : bytes;
  resp_error : bytes;
  resp_backend : BackendKind;
  resp_fell_back_to_cpu : bool;
}.

(** The members' default initialisers. *)
Definition default_request : BrokerRequest := mkRequest [] [] [] [] 0 0 [] None [].
Definition default_response : BrokerResponse := mkResponse [] StatusError (-1) 0 [] [] Cpu false.

Definition status_name (s : TaskStatus) : bytes :=
  match s with
  | StatusOk => str "ok"
  | StatusRejected => str "rejected"
  | StatusError => str "error"
  | StatusTimeout => str "timeout"
  end.

(** ** Validation *)

Definition validate_request (req : BrokerRequest) (lim : ProtocolLimits) : result unit :=
  _ <-! reject_if (bool_decide (req_task_id req = [])) (str "task_id must be non-empty");;
  _ <-! reject_if (bool_decide (req_source req = []) || bool_decide (req_destination req = [])
                   || bool_decide (req_kind req = []))
          (str "source, destination, and kind must be non-empty");;
  _ <-! reject_if (req_timeout_ms req =? 0) (str "timeout_ms must be greater than zero");;
  _ <-! reject_if (BROKER_MAX_TIMEOUT_MS <? req_timeout_ms req)
          (str "timeout_ms exceeds maximum of 300000 ms");;
  reject_if (max_payload_bytes lim <? zlen (req_payload req))
    (str "payload exceeds max_payload_bytes").

(** ** Encoding and decoding, on a host of either byte order *)

Section Codecs.
Context (h : endian).

Definition host_to_be64 (v : Z) : Z :=
  if htonl h 1 =? 1 then v
  else
    let high := htonl h (wrap 32 (Z.shiftr v 32)) in
    let low := htonl h (wrap 32 (Z.land v 4294967295)) in
    Z.lor (wrap 64 (Z.shiftl low 32)) high.

Definition be64_to_host (v : Z) : Z :=
  if ntohl h 1 =? 1 then v
  else
    let high := ntohl h (wrap 32 (Z.shiftr v 32)) in
    let low := ntohl h (wrap 32 (Z.land v 4294967295)) in
    Z.lor (wrap 64 (Z.shiftl low 32)) high.

Definition brk_append_bytes (out data : bytes) : bytes := out ++ data.

Definition brk_append_string (out value : bytes) (lim : ProtocolLimits) : result bytes :=
  if (max_string_bytes lim <? zlen value) || (u16_max <? zlen value)
  then Err (str "string exceeds maximum length")
  else
    let len_be := htons h (wrap 16 (zlen value)) in
    Ok (brk_append_bytes (brk_append_bytes out (mem_store h 2 len_be)) value).

Definition brk_append_blob (out value : bytes) (lim : ProtocolLimits) : result bytes :=
  if (max_payload_bytes lim <? zlen value) || (u32_max <? zlen value)
  then Err (str "payload exceeds maximum length")
  else
    let len_be := htonl h (wrap 32 (zlen value)) in
    Ok (brk_append_bytes (brk_append_bytes out (mem_store h 4 len_be)) value).

Definition brk_take (need : Z) : reader unit := take_need (str "frame truncated") need.

Definition brk_read_string (lim : ProtocolLimits) : reader bytes :=
  read_prefixed (read_be h (str "frame truncated") 2) (str "frame truncated")
    (str "string exceeds configured limit") (max_string_bytes lim).

Definition brk_read_blob (lim : ProtocolLimits) : reader bytes :=
  read_prefixed (read_be h (str "frame truncated") 4) (str "frame truncated")
    (str "payload exceeds configured limit") (max_payload_bytes lim).

Definition decode_common_header (expected : MessageType) (lim : ProtocolLimits) : reader unit :=
  size <~ frame_size;;
  _ <~ rguard ((size =? 0) || (max_frame_bytes lim <? size)) (str "invalid frame size");;
  _ <~ brk_take 8;;
  magic_be <~ peek 0 4;;
  version_be <~ peek 4 2;;
  type_raw <~ peek 6 1;;
  reserved <~ peek 7 1;;
  _ <~ seek 8;;
  _ <~ rguard (negb (ntohl h (mem_load h magic_be) =? BROKER_MAGIC))
         (str "invalid broker protocol magic");;
  _ <~ rguard (negb (ntohs h (mem_load h version_be) =? BROKER_PROTOCOL_VERSION))
         (str "unsupported broker protocol version");;
  _ <~ rguard (negb (mem_load h type_raw =? MessageType_u8 expected))
         (str "unexpected broker protocol message type");;
  rguard (negb (mem_load h reserved =? 0)) (str "reserved broker protocol byte must be zero").

Definition append_common_header (frame : bytes) (t : MessageType) : bytes :=
  let magic_be := htonl h BROKER_MAGIC in
  let version_be := htons h BROKER_PROTOCOL_VERSION in
  brk_append_bytes (brk_append_bytes (brk_append_bytes (brk_append_bytes frame
    (mem_store h 4 magic_be)) (mem_store h 2 version_be))
    (mem_store h 1 (MessageType_u8 t))) (mem_store h 1 0).

Definition encode_request_frame (req : BrokerRequest) (lim : ProtocolLimits) : result bytes :=
  _ <-! validate_request req lim;;
  let frame := append_common_header [] Request in
  frame <-! brk_append_string frame (req_task_id req) lim;;
  frame <-! brk_append_string frame (req_source req) lim;;
  frame <-! brk_append_string frame (req_destination req) lim;;
  frame <-! brk_append_string frame (req_kind req) lim;;
  let frame := brk_append_bytes frame (mem_store h 1 (req_priority req)) in
  let frame := brk_append_bytes frame (mem_store h 4 (htonl h (req_timeout_ms req))) in
  frame <-! brk_append_blob frame (req_payload req) lim;;
  _ <-! reject_if (max_frame_bytes lim <? zlen frame)
          (str "encoded request frame exceeds max_frame_bytes");;
  Ok frame.

Definition encode_response_frame (resp : BrokerResponse) (lim : ProtocolLimits) : result bytes :=
  let frame := append_common_header [] Response in
  frame <-! brk_append_string frame (resp_task_id resp) lim;;
  let frame := brk_append_bytes frame (mem_store h 1 (TaskStatus_u8 (resp_status resp))) in
  let frame := brk_append_bytes frame
                 (mem_store h 4 (htonl h (wrap 32 (resp_selected_gpu resp)))) in
  let frame := brk_append_bytes frame (mem_store h 8 (host_to_be64 (resp_latency_ms resp))) in
  frame <-! brk_append_blob frame (resp_result resp) lim;;
  frame <-! brk_append_string frame (resp_error resp) lim;;
  _ <-! reject_if (max_frame_bytes lim <? zlen frame)
          (str "encoded response frame exceeds max_frame_bytes");;
  Ok frame.

(** The body of [decode_request_frame] once [out] is known to be non-null. *)
Definition request_reader (lim : ProtocolLimits) : reader BrokerRequest :=
  _ <~ decode_common_header Request lim;;
  task_id <~ brk_read_string lim;;
  source <~ brk_read_string lim;;
  destination <~ brk_read_string lim;;
  kind <~ brk_read_string lim;;
  _ <~ brk_take 5;;
  priority <~ load_adv 1;;
  timeout_be <~ load_adv 4;;
  payload <~ brk_read_blob lim;;
  extra <~ trailing;;
  _ <~ rguard extra (str "request frame contains trailing bytes");;
  let request := mkRequest task_id source destination kind (mem_load h priority)
                   (ntohl h (mem_load h timeout_be)) payload None [] in
  _ <~ rlift (validate_request request lim);;
  rret request.

Definition decode_request_frame (frame : bytes) (out : option BrokerRequest)
    (error : option bytes) (lim : ProtocolLimits)
    : result (bool * option BrokerRequest * option bytes) :=
  api_call (str "output request pointer must not be null") out error
    (run_reader (request_reader lim) frame).

Definition response_reader (lim : ProtocolLimits) : reader BrokerResponse :=
  _ <~ decode_common_header Response lim;;
  task_id <~ brk_read_string lim;;
  _ <~ brk_take 13;;
  status_raw <~ load_adv 1;;
  _ <~ rguard (TaskStatus_u8 StatusTimeout <? mem_load h status_raw)
         (str "invalid broker response status");;
  gpu_be <~ load_adv 4;;
  latency_be <~ load_adv 8;;
  res <~ brk_read_blob lim;;
  error <~ brk_read_string lim;;
  extra <~ trailing;;
  _ <~ rguard extra (str "response frame contains trailing bytes");;
  rret (mkResponse task_id (TaskStatus_of_u8 (mem_load h status_raw))
          (to_signed 32 (ntohl h (mem_load h gpu_be)))
          (be64_to_host (mem_load h latency_be)) res error Cpu false).

Definition decode_response_frame (frame : bytes) (out : option BrokerResponse)
    (error : option bytes) (lim : ProtocolLimits)
    : result (bool * option BrokerResponse * option bytes) :=
  api_call (str "output response pointer must not be null") out error
    (run_reader (response_reader lim) frame).

End Codecs.

(** ** Wire layout *)

(** Values the C++ types of the members can hold. *)
Definition wf_request (r : BrokerRequest) : Prop :=
  is_uint 8 (req_priority r) ∧ is_uint 32 (req_timeout_ms r).
Definition wf_response (r : BrokerResponse) : Prop :=
  is_int 32 (resp_selected_gpu r) ∧ is_uint 64 (resp_latency_ms r).

(** What of a message is transmitted: the in-process members are reset. *)
Definition request_on_wire (r : BrokerRequest) : BrokerRequest :=
  mkRequest (req_task_id r) (req_source r) (req_destination r) (req_kind r)
    (req_priority r) (req_timeout_ms r) (req_payload r) None [].
Definition response_on_wire (r : BrokerResponse) : BrokerResponse :=
  mkResponse (resp_task_id r) (resp_status r) (resp_selected_gpu r) (resp_latency_ms r)
    (resp_result r) (resp_error r) Cpu false.

Definition header_layout (t : MessageType) : bytes :=
  store_be 4 BROKER_MAGIC ++ store_be 2 BROKER_PROTOCOL_VERSION ++
  store_be 1 (MessageType_u8 t) ++ store_be 1 0.

Definition request_layout (r : BrokerRequest) : bytes :=
  header_layout Request ++ enc_prefixed 2 (req_task_id r) ++ enc_prefixed 2 (req_source r) ++
  enc_prefixed 2 (req_destination r) ++ enc_prefixed 2 (req_kind r) ++
  store_be 1 (req_priority r) ++ store_be 4 (req_timeout_ms r) ++ enc_prefixed 4 (req_payload r).

Definition response_layout (r : BrokerResponse) : bytes :=
  header_layout Response ++ enc_prefixed 2 (resp_task_id r) ++
  store_be 1 (TaskStatus_u8 (resp_status r)) ++ store_be 4 (wrap 32 (resp_selected_gpu r)) ++
  store_be 8 (resp_latency_ms r) ++ enc_prefixed 4 (resp_result r) ++ enc_prefixed 2 (resp_error r).

(** The limits a message must meet to be framed. *)
Definition request_fits (lim : ProtocolLimits) (r : BrokerRequest) : Prop :=
  fits 2 (max_string_bytes lim) (req_task_id r) ∧ fits 2 (max_string_bytes lim) (req_source r) ∧
  fits 2 (max_string_bytes lim) (req_destination r) ∧ fits 2 (max_string_bytes lim) (req_kind r) ∧
  fits 4 (max_payload_bytes lim) (req_payload r) ∧ zlen (request_layout r) ≤ max_frame_bytes lim ∧
  validate_request r lim = Ok tt.
Definition response_fits (lim : ProtocolLimits) (r : BrokerResponse) : Prop :=
  fits 2 (max_string_bytes lim) (resp_task_id r) ∧ fits 4 (max_payload_bytes lim) (resp_result r) ∧
  fits 2 (max_string_bytes lim) (resp_error r) ∧ zlen (response_layout r) ≤ max_frame_bytes lim.

Lemma validate_request_safe req lim : safe (validate_request req lim).
Proof. unfold validate_request. auto 10 with codec. Qed.

Ltac cbn_fields := cbn [req_task_id req_source req_destination req_kind req_priority
  req_timeout_ms req_payload req_profile req_device_preference resp_task_id resp_status
  resp_selected_gpu resp_latency_ms resp_result resp_error resp_backend resp_fell_back_to_cpu] in *.

Section CodecLemmas.
Context (h : endian).

Lemma host_to_be64_store v : is_uint 64 v → mem_store h 8 (host_to_be64 h v) = store_be 8 v.
Proof. intros Hv. destruct h; [|done]. by apply swap_halves. Qed.

Lemma be64_to_host_load l : length l = 8%nat → be64_to_host h (mem_load h l) = load_be l.
Proof. intros Hl. destruct h; [|done]. by apply swap_halves_load. Qed.

#[local] Instance codec_brk_read_string lim :
  Codec (brk_read_string h lim) (enc_prefixed 2) (fits 2 (max_string_bytes lim)).
Proof. apply codec_read_prefixed, _. Qed.

#[local] Instance codec_brk_read_blob lim :
  Codec (brk_read_blob h lim) (enc_prefixed 4) (fits 4 (max_payload_bytes lim)).
Proof. apply codec_read_prefixed, _. Qed.

Lemma wp_common_header t lim frame (Q : unit → Z → Prop) :
  (∀ rest, frame = header_layout t ++ rest → zlen frame ≤ max_frame_bytes lim →
     at_off frame 8 rest → Q tt 8) →
  wp (decode_common_header h t lim) frame 0 Q.
Proof.
  intros HQ. assert (Hat := at_off_start frame). unfold decode_common_header, brk_take.
  do 2 wp_step. wp_step. wp_step. do 2 wp_step.
  destruct (split_at 4 frame) as (m & l1 & -> & Hm); [lia|]. rewrite zlen_app in *.
  destruct (split_at 2 l1) as (v & l2 & -> & Hv); [lia|]. rewrite zlen_app in *.
  destruct (split_at 1 l2) as (ty & l3 & -> & Hty); [lia|]. rewrite zlen_app in *.
  destruct (split_at 1 l3) as (rs & rest & -> & Hrs); [lia|].
  apply wp_seq, (wp_peek [] m (v ++ ty ++ rs ++ rest)); [done..|].
  apply wp_seq, (wp_peek m v (ty ++ rs ++ rest)); [done..|].
  apply wp_seq, (wp_peek (m ++ v) ty (rs ++ rest)); [by rewrite <- app_assoc|wire_len..|].
  apply wp_seq, (wp_peek (m ++ v ++ ty) rs rest); [by rewrite <- !app_assoc|wire_len..|].
  unfold ntohl, ntohs. rewrite !hton_mem_load_z, !mem_load_1 by done.
  do 9 wp_step. apply (HQ rest); [|wire_len|].
  - unfold header_layout. rewrite <- !app_assoc.
    repeat f_equal; apply load_be_eq; done || lia.
  - replace 8 with (0 + zlen (m ++ v ++ ty ++ rs)) by wire_len.
    apply at_off_app. by rewrite <- !app_assoc.
Qed.

Lemma runs_common_header t lim rest Q :
  zlen (header_layout t ++ rest) ≤ max_frame_bytes lim →
  (at_off (header_layout t ++ rest) 8 rest → Q tt 8) →
  runs (decode_common_header h t lim) (header_layout t ++ rest) 0 Q.
Proof.
  intros Hlim HQ. unfold decode_common_header, brk_take.
  assert (zlen (header_layout t) = 8) as Hh by (by destruct t).
  pose proof (zlen_nonneg rest). assert (Hat := at_off_start (header_layout t ++ rest)).
  do 4 run_step; [rewrite zlen_app in *; lia|]. do 2 run_step.
  exists tt, 8. split; [|apply HQ; rewrite <- Hh; by apply (at_off_app _ 0)].
  do 4 (eapply rseq_Ok; [apply peek_in; rewrite ?zlen_app; lia|]).
  by destruct t, h.
Qed.

(** What the encoders write, for messages whose members have their types'
    ranges. *)
Lemma brk_append_header_layout t : append_common_header h [] t = header_layout t.
Proof. by destruct t, h. Qed.

Lemma brk_append_string_ok out value lim f :
  brk_append_string h out value lim = Ok f ↔
  fits 2 (max_string_bytes lim) value ∧ f = out ++ enc_prefixed 2 value.
Proof.
  unfold brk_append_string, brk_append_bytes, fits, u16_max, enc_prefixed, htons.
  rewrite mem_store_hton. change (256 ^ Z.of_nat 2) with 65536.
  pose proof (zlen_nonneg value). case_match; [split; [done|lia]|].
  unfold wrap. rewrite Z.mod_small by lia. rewrite app_assoc.
  split; [intros; simplify_eq; split; [lia|done] | intros [_ ->]; done].
Qed.

Lemma brk_append_blob_ok out value lim f :
  brk_append_blob h out value lim = Ok f ↔
  fits 4 (max_payload_bytes lim) value ∧ f = out ++ enc_prefixed 4 value.
Proof.
  unfold brk_append_blob, brk_append_bytes, fits, u32_max, enc_prefixed, htonl.
  rewrite mem_store_hton. change (256 ^ Z.of_nat 4) with 4294967296.
  pose proof (zlen_nonneg value). case_match; [split; [done|lia]|].
  unfold wrap. rewrite Z.mod_small by lia. rewrite app_assoc.
  split; [intros; simplify_eq; split; [lia|done] | intros [_ ->]; done].
Qed.

Lemma encode_request_ok req lim f :
  wf_request req →
  encode_request_frame h req lim = Ok f ↔ request_fits lim req ∧ f = request_layout req.
Proof.
  intros [Hp Ht]. unfold encode_request_frame, request_fits, brk_append_bytes, htonl.
  rewrite brk_append_header_layout, mem_store_1, mem_store_hton.
  repeat setoid_rewrite rbind_Ok. setoid_rewrite brk_append_string_ok.
  setoid_rewrite brk_append_blob_ok. setoid_rewrite reject_if_Ok.
  split.
  - intros ([] & Hv & f1 & [H1 ->] & f2 & [H2 ->] & f3 & [H3 ->] & f4 & [H4 ->]
            & f5 & [H5 ->] & [] & Hsz & Hf).
    simplify_eq. unfold request_layout. rewrite <- !app_assoc in *. split_and!; done || lia.
  - intros [(H1 & H2 & H3 & H4 & H5 & Hsz & Hv) ->].
    do 6 (eexists; split; [done|]). exists tt. unfold request_layout in *.
    rewrite <- !app_assoc. split; [lia|done].
Qed.

Lemma encode_response_ok resp lim f :
  wf_response resp →
  encode_response_frame h resp lim = Ok f ↔ response_fits lim resp ∧ f = response_layout resp.
Proof.
  intros [Hg Hl]. unfold encode_response_frame, response_fits, brk_append_bytes, htonl.
  rewrite brk_append_header_layout, mem_store_1, mem_store_hton, host_to_be64_store by done.
  repeat setoid_rewrite rbind_Ok. setoid_rewrite brk_append_string_ok.
  setoid_rewrite brk_append_blob_ok. setoid_rewrite reject_if_Ok.
  split.
  - intros (f1 & [H1 ->] & f2 & [H2 ->] & f3 & [H3 ->] & [] & Hsz & Hf).
    simplify_eq. unfold response_layout. rewrite <- !app_assoc in *. split_and!; done || lia.
  - intros [(H1 & H2 & H3 & Hsz) ->].
    do 3 (eexists; split; [done|]). exists tt. unfold response_layout in *.
    rewrite <- !app_assoc. split; [lia|done].
Qed.

(** What the request decoder accepts. *)
Lemma wp_request lim frame :
  wp (request_reader h lim) frame 0 (λ req _,
    frame = request_layout req ∧ wf_request req ∧ request_fits lim req ∧
    req = request_on_wire req).
Proof.
  unfold request_reader, brk_take. wp_step. apply wp_common_header. intros rest Hf Hsz Hat.
  do 17 wp_step. wp_step. wp_step; [apply validate_request_safe|]. wp_step.
  unfold ntohl in *. rewrite mem_load_1, hton_mem_load_z in * by done.
  match goal with |- _ ∧ wf_request ?r ∧ _ => set (req := r) in * end.
  assert (frame = request_layout req) as Hlay.
  { rewrite Hf. unfold request_layout, req. cbn_fields. by rewrite !store_load_be_z. }
  destruct a4. split_and!; [done| |unfold request_fits; split_and!; try done; by rewrite <- Hlay|done].
  split; [by apply (load_be_uint_z b 1)|by apply (load_be_uint_z b0 4)].
Qed.

Lemma run_request lim req :
  wf_request req → request_fits lim req →
  run_reader (request_reader h lim) (request_layout req) = Ok (request_on_wire req).
Proof.
  intros [Hp Ht] (H1 & H2 & H3 & H4 & H5 & Hsz & Hv).
  apply runs_reader. unfold request_reader, brk_take. run_step.
  unfold request_layout in Hsz |- *. apply runs_common_header; [done|].
  match goal with |- context [at_off ?f] => set (frame := f) in * end. intros Hat.
  do 17 (run_step; try done).
  unfold ntohl. rewrite hton_mem_load_z, mem_load_1, !load_store_be_uint
    by (done || apply zlen_store_be).
  do 2 run_step; [exact Hv|]. by run_step.
Qed.

(** What the response decoder accepts. *)
Lemma TaskStatus_u8_of v : 0 ≤ v ≤ 3 → TaskStatus_u8 (TaskStatus_of_u8 v) = v.
Proof. intros Hv. unfold TaskStatus_of_u8. repeat case_match; simpl; lia. Qed.

Lemma TaskStatus_of_u8_of s : TaskStatus_of_u8 (TaskStatus_u8 s) = s.
Proof. by destruct s. Qed.

Lemma wp_response lim frame :
  wp (response_reader h lim) frame 0 (λ resp _,
    frame = response_layout resp ∧ wf_response resp ∧ response_fits lim resp ∧
    resp = response_on_wire resp).
Proof.
  unfold response_reader, brk_take. wp_step. apply wp_common_header. intros rest Hf Hsz Hat.
  repeat wp_step.
  unfold ntohl in *. rewrite !mem_load_1, hton_mem_load_z in * by done.
  rewrite be64_to_host_load by (unfold zlen in *; lia).
  match goal with |- _ ∧ wf_response ?r ∧ _ => set (resp := r) in * end.
  pose proof (load_be_uint_z b 1 ltac:(done)). pose proof (load_be_uint_z b0 4 ltac:(done)).
  pose proof (load_be_uint_z b1 8 ltac:(done)). unfold is_uint in *.
  assert (frame = response_layout resp) as Hlay.
  { rewrite Hf. unfold response_layout, resp. cbn_fields.
    rewrite TaskStatus_u8_of, wrap_to_signed by (simpl in *; unfold is_uint; lia).
    by rewrite !store_load_be_z. }
  split_and!; [done| |unfold response_fits; split_and!; try done; by rewrite <- Hlay|done].
  split; [by apply to_signed_range|done].
Qed.

Lemma run_response lim resp :
  wf_response resp → response_fits lim resp →
  run_reader (response_reader h lim) (response_layout resp) = Ok (response_on_wire resp).
Proof.
  intros [Hg Hl] (H1 & H2 & H3 & Hsz).
  assert (is_uint 32 (wrap 32 (resp_selected_gpu resp))) by (apply Z.mod_pos_bound; lia).
  assert (is_uint 8 (TaskStatus_u8 (resp_status resp))) by (by destruct (resp_status resp)).
  apply runs_reader. unfold response_reader, brk_take. run_step.
  unfold response_layout in Hsz |- *. apply runs_common_header; [done|].
  match goal with |- context [at_off ?f] => set (frame := f) in * end. intros Hat.
  assert (mem_load h (store_be 1 (TaskStatus_u8 (resp_status resp)))
            = TaskStatus_u8 (resp_status resp)) as Hst.
  { rewrite mem_load_1 by apply zlen_store_be. by apply load_store_be_uint. }
  repeat (run_step; try done).
  - rewrite Hst. by destruct (resp_status resp).
  - unfold ntohl. rewrite hton_mem_load_z, be64_to_host_load, !load_store_be_uint, Hst
      by (done || apply zlen_store_be || apply length_store_be).
    by rewrite to_signed_wrap, TaskStatus_of_u8_of.
Qed.

End CodecLemmas.

(** ** Theorems *)

(** C31: on hosts of any byte order, the request decoder succeeds on a frame
    exactly when that frame is the encoding of the request it returns: every
    encoded request decodes to itself (round trip), and every accepted frame
    is the canonical encoding of its request. *)
Theorem brk1_request_canonical h h' lim frame old err req :
  wf_request req →
  decode_request_frame h frame (Some old) err lim = Ok (true, Some req, err) ↔
  req = request_on_wire req ∧ encode_request_frame h' req lim = Ok frame.
Proof.
  intros Hwf. rewrite encode_request_ok by done. unfold decode_request_frame.
  rewrite api_call_Ok. split.
  - intros Hrun. destruct (wp_run _ _ _ (wp_request h lim frame)) as [_ Hwp].
    destruct (Hwp _ Hrun) as (-> & _ & Hfit & Hw). done.
  - intros (Hw & Hfit & ->). rewrite run_request by done. by f_equal.
Qed.

Definition sample_request : BrokerRequest :=
  mkRequest (str "t1") (str "yukki") (str "gpu0") (str "inference") 7 1000
    [Byte.x3f; Byte.xf0; Byte.x00; Byte.x00; Byte.x00; Byte.x00; Byte.x00; Byte.x00] None [].

Lemma brk1_request_canonical_witness :
  encode_request_frame LittleEndian sample_request default_limits =
    Ok (request_layout sample_request) ∧
  decode_request_frame BigEndian (request_layout sample_request) (Some default_request) None
    default_limits = Ok (true, Some sample_request, None).
Proof.
  split; [reflexivity|].
  apply (brk1_request_canonical BigEndian LittleEndian); [split; split; done|].
  split; reflexivity.
Defined.

(** The response decoder and encoder are inverse in the same sense. *)
Theorem brk1_response_canonical h h' lim frame old err resp :
  wf_response resp →
  decode_response_frame h frame (Some old) err lim = Ok (true, Some resp, err) ↔
  resp = response_on_wire resp ∧ encode_response_frame h' resp lim = Ok frame.
Proof.
  intros Hwf. rewrite encode_response_ok by done. unfold decode_response_frame.
  rewrite api_call_Ok. split.
  - intros Hrun. destruct (wp_run _ _ _ (wp_response h lim frame)) as [_ Hwp].
    destruct (Hwp _ Hrun) as (-> & _ & Hfit & Hw). done.
  - intros (Hw & Hfit & ->). rewrite run_response by done. by f_equal.
Qed.

Definition sample_response : BrokerResponse :=
  mkResponse (str "t1") StatusRejected (-1) 12 [] (str "too many inflight") Cpu false.

Lemma brk1_response_canonical_witness :
  decode_response_frame LittleEndian (response_layout sample_response) (Some default_response)
    (Some []) default_limits = Ok (true, Some sample_response, Some []).
Proof.
  apply (brk1_response_canonical LittleEndian BigEndian); [split; split; vm_compute; congruence|].
  split; reflexivity.
Defined.

(** Whatever bytes arrive, both BRK1 decoders return without reading out
    of bounds; a rejected frame leaves [*out] untouched and reports a message;
    an accepted one yields members in the range of their types, within the
    configured limits and valid. *)
Theorem brk1_decoders_total h lim frame :
  (∀ out err, api_contract out err
     (λ req, wf_request req ∧ request_fits lim req ∧ zlen frame ≤ max_frame_bytes lim)
     (decode_request_frame h frame out err lim)) ∧
  (∀ out err, api_contract out err
     (λ resp, wf_response resp ∧ response_fits lim resp ∧ zlen frame ≤ max_frame_bytes lim)
     (decode_response_frame h frame out err lim)).
Proof.
  destruct (wp_run _ _ _ (wp_request h lim frame)) as [Hs1 Hw1].
  destruct (wp_run _ _ _ (wp_response h lim frame)) as [Hs2 Hw2].
  split; intros out err; (apply api_call_contract; [done|]); intros a Ha.
  - destruct (Hw1 a Ha) as (-> & Hwf & Hfit & _). split_and!; [done..|apply Hfit].
  - destruct (Hw2 a Ha) as (-> & Hwf & Hfit & _). split_and!; [done..|apply Hfit].
Qed.

Definition request_valid (lim : ProtocolLimits) (r : BrokerRequest) : Prop :=
  req_task_id r ≠ [] ∧ req_source r ≠ [] ∧ req_destination r ≠ [] ∧ req_kind r ≠ [] ∧
  1 ≤ req_timeout_ms r ≤ BROKER_MAX_TIMEOUT_MS ∧ zlen (req_payload r) ≤ max_payload_bytes lim.

Lemma validate_request_ok req lim :
  0 ≤ req_timeout_ms req →
  validate_request req lim = Ok tt ↔ request_valid lim req.
Proof.
  intros Ht. unfold validate_request, request_valid. rewrite !rbind_reject, reject_if_Ok.
  rewrite !orb_false_iff, !bool_decide_eq_false. intuition lia.
Qed.

(** A request is encoded exactly when it is valid (non-empty identifiers,
    a timeout of 1..300000 ms, a payload within its limit) and its strings and
    frame are within their limits; otherwise the encoder throws. *)
Theorem encode_request_accepts h req lim :
  wf_request req →
  is_ok (encode_request_frame h req lim) = true ↔
  request_valid lim req ∧
  Forall (λ s, zlen s ≤ max_string_bytes lim ∧ zlen s ≤ 65535)
    [req_task_id req; req_source req; req_destination req; req_kind req] ∧
  zlen (req_payload req) ≤ 4294967295 ∧
  21 + zlen (req_task_id req) + zlen (req_source req) + zlen (req_destination req)
     + zlen (req_kind req) + 4 + zlen (req_payload req) ≤ max_frame_bytes lim.
Proof.
  intros Hwf. assert (is_ok (encode_request_frame h req lim) = true ↔ request_fits lim req) as ->.
  { split.
    - destruct (encode_request_frame h req lim) eqn:E; try done. intros _.
      by apply encode_request_ok in E as [Hfit _].
    - intros Hfit. by rewrite (proj2 (encode_request_ok h req lim _ Hwf) (conj Hfit eq_refl)). }
  unfold request_fits, fits. change (256 ^ Z.of_nat 2) with 65536.
  change (256 ^ Z.of_nat 4) with 4294967296.
  assert (zlen (request_layout req) = 21 + zlen (req_task_id req) + zlen (req_source req)
    + zlen (req_destination req) + zlen (req_kind req) + 4 + zlen (req_payload req)) as ->.
  { unfold request_layout. rewrite !zlen_app, !zlen_enc_prefixed, !zlen_store_be.
    change (zlen (header_layout Request)) with 8. lia. }
  destruct Hwf as [_ Ht]. rewrite validate_request_ok by apply Ht.
  rewrite !Forall_cons_iff, Forall_nil_iff. unfold request_valid. intuition lia.
Qed.

Lemma encode_request_accepts_witness :
  is_ok (encode_request_frame LittleEndian sample_request default_limits) = true.
Proof.
  apply encode_request_accepts; [split; split; done|].
  split; [split_and!; done || (split; done)|]. split; [|split; vm_compute; congruence].
  repeat constructor; vm_compute; congruence.
Defined.
