(* ===== verification/GeospatialFrame.v ===== *)
(** * The NXR1 geospatial frames (include/geospatial_frame.h, src/geospatial_frame.cpp)

    A [double] is its 64-bit IEEE-754 pattern: the codec only copies it and
    tests [std::isfinite], which reads the exponent field.  The conversion
    helpers of this file swap the halves of a 64-bit value unconditionally, so
    the field layout [double_wire] depends on the host's byte order. *)

From S2P Require Import Prelude HostBytes Wire.

(** ** Data *)

Definition NXR1_MAGIC : Z := 0x4E585231.
Definition NXR1_VERSION : Z := 1.
Definition NXR1_DEFAULT_MAX_PAYLOAD_BYTES : Z := 512 * 1024.
Definition kGeospatialFrameKind : bytes := str "geospatial.frame.v1".

(** [std::isfinite] of the double with this bit pattern. *)
Definition isfinite (bits : Z) : bool := negb (Z.land (Z.shiftr bits 52) 2047 =? 2047).

Record GeospatialFrame := mkGeo {
  latitude : Z;
  longitude : Z;
  altitude : Z;
  velocity_x : Z;
  velocity_y : Z;
  velocity_z : Z;
  fluidity : Z;
  drag : Z;
  divergence : Z;
  geo_payload : bytes;
}.

Definition default_geo : GeospatialFrame := mkGeo 0 0 0 0 0 0 0 0 0 [].

Definition kFieldCount : nat := 9.
Definition nxr_kHeaderBytes : Z := 4 + 2.
Definition kPayloadLenBytes : Z := 4.

(** The array of pointers to the numeric members, in wire order. *)
Definition geo_fields (f : GeospatialFrame) : list Z :=
  [latitude f; longitude f; altitude f; velocity_x f; velocity_y f; velocity_z f;
   fluidity f; drag f; divergence f].

(** Assigning through that array, member by member. *)
Definition geo_of_fields (l : list Z) (payload : bytes) : GeospatialFrame :=
  let field i := default 0 (l !! i) in
  mkGeo (field 0%nat) (field 1%nat) (field 2%nat) (field 3%nat) (field 4%nat) (field 5%nat)
    (field 6%nat) (field 7%nat) (field 8%nat) payload.

(** ** Encoding and decoding *)

Definition nonfinite_msg : bytes := str "geospatial frame contains a non-finite number".
Definition nxr_truncated : bytes := str "NXR1 frame truncated".

Section Codec.
Context (h : endian).

Definition nxr_host_to_be64 (value : Z) : Z :=
  let high := htonl h (wrap 32 (Z.shiftr value 32)) in
  let low := htonl h (wrap 32 (Z.land value 4294967295)) in
  Z.lor (wrap 64 (Z.shiftl low 32)) high.

Definition nxr_be64_to_host (value : Z) : Z :=
  let high := ntohl h (wrap 32 (Z.shiftr value 32)) in
  let low := ntohl h (wrap 32 (Z.land value 4294967295)) in
  Z.lor (wrap 64 (Z.shiftl low 32)) high.

Definition nxr_append_bytes (out data : bytes) : bytes := out ++ data.

Definition append_double (out : bytes) (value : Z) : result bytes :=
  _ <-! reject_if (negb (isfinite value)) nonfinite_msg;;
  Ok (nxr_append_bytes out (mem_store h 8 (nxr_host_to_be64 value))).

(** [for (const double* field : fields) if (!append_double(...)) return false;] *)
Fixpoint append_doubles (out : bytes) (fields : list Z) : result bytes :=
  match fields with
  | [] => Ok out
  | field :: fields => out <-! append_double out field;; append_doubles out fields
  end.

Definition nxr_take (need : Z) : reader unit := take_need nxr_truncated need.

Definition read_double : reader Z :=
  value <~ (be <~ read_raw nxr_truncated 8;; rret (nxr_be64_to_host (mem_load h be)));;
  _ <~ rguard (negb (isfinite value)) nonfinite_msg;;
  rret value.

(** The body of [encode_nxr1_frame] once [out] is known to be non-null. *)
Definition nxr1_encoder (frame : GeospatialFrame) (max_payload_bytes : Z) : result bytes :=
  _ <-! reject_if ((max_payload_bytes <? zlen (geo_payload frame))
                   || (u32_max <? zlen (geo_payload frame)))
          (str "geospatial frame payload exceeds maximum length");;
  let frame_bytes := nxr_append_bytes [] (mem_store h 4 (htonl h NXR1_MAGIC)) in
  let frame_bytes := nxr_append_bytes frame_bytes (mem_store h 2 (htons h NXR1_VERSION)) in
  frame_bytes <-! append_doubles frame_bytes (geo_fields frame);;
  let payload_len_be := htonl h (wrap 32 (zlen (geo_payload frame))) in
  let frame_bytes := nxr_append_bytes frame_bytes (mem_store h 4 payload_len_be) in
  Ok (nxr_append_bytes frame_bytes (geo_payload frame)).

Definition encode_nxr1_frame (frame : GeospatialFrame) (out : option bytes)
    (error : option bytes) (max_payload_bytes : Z)
    : result (bool * option bytes * option bytes) :=
  api_call (str "output buffer pointer must not be null") out error
    (nxr1_encoder frame max_payload_bytes).

(** The body of [decode_nxr1_frame] once [out] is known to be non-null. *)
Definition nxr1_reader (max_payload_bytes : Z) : reader GeospatialFrame :=
  _ <~ nxr_take nxr_kHeaderBytes;;
  magic_be <~ peek 0 4;;
  version_be <~ peek 4 2;;
  _ <~ seek nxr_kHeaderBytes;;
  _ <~ rguard (negb (ntohl h (mem_load h magic_be) =? NXR1_MAGIC)) (str "invalid NXR1 magic");;
  _ <~ rguard (negb (ntohs h (mem_load h version_be) =? NXR1_VERSION))
         (str "unsupported NXR1 version");;
  fields <~ read_n kFieldCount read_double;;
  _ <~ nxr_take kPayloadLenBytes;;
  payload_len_be <~ load_adv 4;;
  let payload_len := ntohl h (mem_load h payload_len_be) in
  _ <~ rguard (max_payload_bytes <? payload_len)
         (str "geospatial frame payload exceeds configured limit");;
  _ <~ nxr_take payload_len;;
  payload <~ load_adv payload_len;;
  extra <~ trailing;;
  _ <~ rguard extra (str "geospatial frame contains trailing bytes");;
  rret (geo_of_fields fields payload).

Definition decode_nxr1_frame (frame : bytes) (out : option GeospatialFrame)
    (error : option bytes) (max_payload_bytes : Z)
    : result (bool * option GeospatialFrame * option bytes) :=
  api_call (str "output frame pointer must not be null") out error
    (run_reader (nxr1_reader max_payload_bytes) frame).

End Codec.

(** ** Wire layout *)

(** The eight bytes of a field: big-endian on a little-endian host, the halves
    exchanged on a big-endian one. *)
Definition double_wire (h : endian) (v : Z) : bytes :=
  match h with
  | LittleEndian => store_be 8 v
  | BigEndian => store_be 4 (v mod 2 ^ 32) ++ store_be 4 (v / 2 ^ 32)
  end.

Definition nxr_header_layout : bytes := store_be 4 NXR1_MAGIC ++ store_be 2 NXR1_VERSION.

Definition nxr1_layout (h : endian) (f : GeospatialFrame) : bytes :=
  nxr_header_layout ++ concat (double_wire h <$> geo_fields f) ++ enc_prefixed 4 (geo_payload f).

Definition finite_double (v : Z) : Prop := is_uint 64 v ∧ negb (isfinite v) = false.
Definition wf_geo (f : GeospatialFrame) : Prop := Forall (is_uint 64) (geo_fields f).

(** What the format admits: finite fields and a payload within the limit. *)
Definition geo_fits (max_payload_bytes : Z) (f : GeospatialFrame) : Prop :=
  Forall (λ v, isfinite v = true) (geo_fields f) ∧ fits 4 max_payload_bytes (geo_payload f).

Section CodecLemmas.
Context (h : endian).

Lemma store_halves v : is_uint 64 v →
  mem_store h 8 (nxr_host_to_be64 h v) = double_wire h v.
Proof.
  intros Hv. destruct h; [by apply swap_halves|].
  unfold nxr_host_to_be64, double_wire, htonl, hton, mem_store.
  destruct (split64 v Hv) as (Hhi & Hlo & _). rewrite join64 by done.
  change (2 ^ 32) with (256 ^ Z.of_nat 4). rewrite (store_be_app 4 4) by exact Hhi.
  unfold wrap in *. change 4294967295 with (Z.ones 32).
  rewrite Z.land_ones, Z.shiftr_div_pow2, Z.mod_mod by lia.
  f_equal. change (256 ^ Z.of_nat 4) with (2 ^ 32). f_equal. apply Z.mod_small.
  unfold is_uint in *. split; [apply Z.div_pos; lia|apply Z.div_lt_upper_bound; lia].
Qed.

Lemma length_double_wire v : length (double_wire h v) = 8%nat.
Proof. unfold double_wire. destruct h; by rewrite ?length_app, !length_store_be. Qed.

Lemma zlen_double_wire v : zlen (double_wire h v) = 8.
Proof. unfold zlen. by rewrite length_double_wire. Qed.

Lemma double_wire_inj v w :
  is_uint 64 v → is_uint 64 w → double_wire h v = double_wire h w → v = w.
Proof.
  intros Hv Hw. unfold double_wire. destruct h; intros E.
  - apply (f_equal load_be) in E. by rewrite !(load_store_be_uint 8) in E.
  - apply app_inj_1 in E as [E1 E2]; [|by rewrite !length_store_be].
    apply (f_equal load_be) in E1, E2. rewrite !load_store_be in E1, E2.
    change (256 ^ Z.of_nat 4) with (2 ^ 32) in *. rewrite !Z.mod_mod in E1 by lia.
    unfold is_uint in *.
    rewrite !Z.mod_small in E2 by (split; [apply Z.div_pos; lia|apply Z.div_lt_upper_bound; lia]).
    rewrite (Z.div_mod v (2 ^ 32)), (Z.div_mod w (2 ^ 32)) by lia. congruence.
Qed.

Lemma load_halves l : length l = 8%nat →
  double_wire h (nxr_be64_to_host h (mem_load h l)) = l ∧
  is_uint 64 (nxr_be64_to_host h (mem_load h l)).
Proof.
  intros Hl. assert (is_uint 64 (load_be l)) as Hv by (apply load_be_uint; unfold zlen; lia).
  destruct h.
  - change (nxr_be64_to_host LittleEndian (mem_load LittleEndian l)) with
      (let v := load_le l in
       Z.lor (wrap 64 (Z.shiftl (htonl LittleEndian (wrap 32 (Z.land v 4294967295))) 32))
         (htonl LittleEndian (wrap 32 (Z.shiftr v 32)))).
    rewrite swap_halves_load by done. split; [by apply store_load_be'|done].
  - unfold nxr_be64_to_host, ntohl, hton, mem_load, double_wire.
    destruct (split64 _ Hv) as (Hhi & Hlo & Heq). rewrite join64 by done.
    set (hi := wrap 32 (Z.shiftr (load_be l) 32)) in *.
    set (lo := wrap 32 (Z.land (load_be l) 4294967295)) in *. unfold is_uint in *.
    rewrite Z.add_comm, Z_mod_plus_full, Z_div_plus_full, (Z.div_small hi), Z.mod_small by lia.
    split; [|lia]. change (2 ^ 32) with (256 ^ Z.of_nat 4) in Heq.
    rewrite <- (store_be_app 4 4 hi (0 + lo)) by (change (256 ^ Z.of_nat 4) with (2 ^ 32); lia).
    rewrite Z.add_0_l, <- Heq. by apply store_load_be'.
Qed.

#[local] Instance codec_read_double :
  Codec (read_double h) (double_wire h) finite_double.
Proof.
  apply codec_guarded, (codec_map _ id (λ b, zlen b = 8) _ (double_wire h) (is_uint 64)).
  - by apply codec_read_raw.
  - intros b Hb. apply load_halves. unfold zlen in Hb. lia.
  - intros v Hv. split; [|apply zlen_double_wire].
    destruct (load_halves (double_wire h v) (length_double_wire v)) as [E Hu].
    by apply double_wire_inj in E.
Qed.

#[local] Instance codec_read_fields n :
  Codec (read_n n (read_double h)) (λ l, concat (double_wire h <$> l))
    (λ l, length l = n ∧ Forall finite_double l).
Proof. apply codec_read_n, _. Qed.

Lemma append_doubles_ok fields : ∀ out f,
  Forall (is_uint 64) fields →
  append_doubles h out fields = Ok f ↔
  Forall (λ v, isfinite v = true) fields ∧ f = out ++ concat (double_wire h <$> fields).
Proof.
  induction fields as [|v fields IH]; intros out f Hwf;
    cbn [append_doubles fmap list_fmap concat].
  { rewrite app_nil_r. naive_solver. }
  inversion Hwf; subst. unfold append_double, nxr_append_bytes.
  rewrite store_halves, Forall_cons_iff by done.
  destruct (isfinite v); cbn [negb reject_if rbind]; [|naive_solver].
  rewrite IH, app_assoc by done. naive_solver.
Qed.

Lemma nxr1_encoder_ok frame max f :
  wf_geo frame →
  nxr1_encoder h frame max = Ok f ↔ geo_fits max frame ∧ f = nxr1_layout h frame.
Proof.
  intros Hwf. unfold nxr1_encoder, nxr_append_bytes, htonl, htons, geo_fits, fits, u32_max.
  rewrite rbind_reject, rbind_Ok, !mem_store_hton. setoid_rewrite (append_doubles_ok _ _ _ Hwf).
  change (256 ^ Z.of_nat 4) with 4294967296. unfold nxr1_layout, enc_prefixed, nxr_header_layout.
  pose proof (zlen_nonneg (geo_payload frame)).
  rewrite app_nil_l, <- !app_assoc, orb_false_iff, !Z.ltb_ge. split.
  - intros (Hl & ? & [Hfin ->] & E). rewrite wrap_small in E by (unfold is_uint; lia).
    rewrite <- !app_assoc in E. split_and!; [done|lia|lia|congruence].
  - intros [(Hfin & Hl1 & Hl2) ->]. split; [lia|]. eexists. split; [by split|].
    rewrite wrap_small by (unfold is_uint; lia). by rewrite <- !app_assoc.
Qed.

Lemma append_doubles_safe fields out : safe (append_doubles h out fields).
Proof.
  revert out. induction fields as [|v fields IH]; intros out; [done|].
  cbn [append_doubles]. unfold append_double. auto with codec.
Qed.

Lemma nxr1_encoder_safe frame max : safe (nxr1_encoder h frame max).
Proof.
  unfold nxr1_encoder. apply safe_rbind; [apply safe_reject_if|]. intros _ _.
  apply safe_rbind; [apply append_doubles_safe|done].
Qed.

Lemma geo_of_fields_fields f : geo_of_fields (geo_fields f) (geo_payload f) = f.
Proof. by destruct f. Qed.

Lemma geo_fields_of_fields l p : length l = kFieldCount → geo_fields (geo_of_fields l p) = l.
Proof. intros Hl. do 10 (destruct l as [|? l]; [try done|try done]). Qed.

Lemma wp_nxr1 max frame :
  wp (nxr1_reader h max) frame 0 (λ f _,
    frame = nxr1_layout h f ∧ wf_geo f ∧ geo_fits max f).
Proof.
  assert (Hat := at_off_start frame). unfold nxr1_reader, nxr_take, nxr_kHeaderBytes, kPayloadLenBytes.
  do 2 wp_step.
  destruct (split_at 4 frame) as (m & l1 & -> & Hm); [lia|]. rewrite zlen_app in *.
  destruct (split_at 2 l1) as (v & rest & -> & Hv); [lia|].
  apply wp_seq, (wp_peek [] m (v ++ rest)); [done..|].
  apply wp_seq, (wp_peek m v rest); [done..|].
  unfold ntohl, ntohs. rewrite !hton_mem_load_z by done. do 6 wp_step.
  clear Hat. assert (at_off (m ++ v ++ rest) (4 + 2) rest) as Hat.
  { replace (4 + 2) with (0 + zlen (m ++ v)) by wire_len.
    apply at_off_app. rewrite <- app_assoc. apply at_off_start. }
  do 6 wp_step. rewrite !hton_mem_load_z in * by done.
  pose proof (load_be_range b). repeat wp_step.
  match goal with H : _ ∧ Forall _ _ |- _ => destruct H as [Hlen Hfin] end.
  unfold nxr1_layout, wf_geo, geo_fits. rewrite geo_fields_of_fields by done.
  change (geo_payload (geo_of_fields a b0)) with b0. unfold enc_prefixed, nxr_header_layout, fits.
  rewrite <- !app_assoc. split_and!.
  - repeat (f_equal; try (apply load_be_eq; done || lia)).
  - eapply List.Forall_impl; [|done]. by intros ? [].
  - eapply List.Forall_impl; [|done]. intros ? []. by apply negb_false_iff.
  - lia.
  - match goal with H : zlen b = 4 |- _ => rewrite H in * end. lia.
Qed.

Lemma run_nxr1 max f :
  wf_geo f → geo_fits max f → run_reader (nxr1_reader h max) (nxr1_layout h f) = Ok f.
Proof.
  intros Hwf (Hfin & Hl1 & Hl2). apply runs_reader.
  unfold nxr1_reader, nxr_take, nxr_kHeaderBytes, kPayloadLenBytes, nxr1_layout, enc_prefixed.
  assert (zlen nxr_header_layout = 6) as Hh by done.
  match goal with |- runs _ (_ ++ ?r) _ _ => set (rest := r) end.
  pose proof (zlen_nonneg rest). assert (Hat := at_off_start (nxr_header_layout ++ rest)).
  do 2 run_step. clear Hat.
  assert (at_off (nxr_header_layout ++ rest) 6 rest) as Hat.
  { rewrite <- Hh. apply (at_off_app _ 0), at_off_start. }
  do 2 (apply runs_seq; do 2 eexists; split; [apply peek_in; rewrite ?zlen_app; lia|]).
  apply runs_seq; do 2 eexists; split; [done|].
  change (slice (nxr_header_layout ++ rest) 0 4) with (store_be 4 NXR1_MAGIC).
  change (slice (nxr_header_layout ++ rest) 4 2) with (store_be 2 NXR1_VERSION).
  do 2 (run_step; run_step; [by destruct h|]). unfold rest in Hat at 2.
  set (frame := nxr_header_layout ++ rest) in *. change (4 + 2) with 6.
  run_step. eapply (runs_codec (Codec0 := codec_read_fields _) _ _ (geo_fields f) _ _ Hat);
    [split; [done|]|clear Hat; intros Hat].
  { apply List.Forall_and; [done|]. eapply List.Forall_impl; [|done]. by intros v ->. }
  do 4 run_step. unfold ntohl.
  rewrite hton_mem_load_z, load_store_be_uint
    by (apply zlen_store_be || (split; [apply zlen_nonneg|by rewrite <- pow256_bits])).
  run_step. run_step; [lia|].
  repeat (run_step; try done). apply geo_of_fields_fields.
Qed.
End CodecLemmas.

(** ** Theorems *)

(** C35: on one host, decoding an NXR1 buffer succeeds exactly when the buffer
    is what encoding the decoded frame produces: a round trip in both
    directions, with a single accepted byte string per frame. *)
Theorem nxr1_canonical h max bytes frame old buf err :
  wf_geo frame →
  decode_nxr1_frame h bytes (Some old) err max = Ok (true, Some frame, err) ↔
  encode_nxr1_frame h frame (Some buf) err max = Ok (true, Some bytes, err).
Proof.
  intros Hwf. unfold decode_nxr1_frame, encode_nxr1_frame.
  rewrite !api_call_Ok, nxr1_encoder_ok by done. split.
  - intros Hrun. destruct (wp_run _ _ _ (wp_nxr1 h max bytes)) as [_ Hwp].
    destruct (Hwp _ Hrun) as (-> & _ & Hfit). done.
  - intros (Hfit & ->). by apply run_nxr1.
Qed.

(** A frame over San Francisco (37.5, -122.25) with unit velocity. *)
Definition sample_geo : GeospatialFrame :=
  mkGeo 0x4042c00000000000 0xc05e900000000000 0 0x3ff0000000000000 0 0 0 0 0
    (str "tile").

Lemma nxr1_canonical_witness :
  decode_nxr1_frame LittleEndian (nxr1_layout LittleEndian sample_geo) (Some default_geo) None
    NXR1_DEFAULT_MAX_PAYLOAD_BYTES = Ok (true, Some sample_geo, None).
Proof.
  apply (nxr1_canonical _ _ _ _ _ []); [|reflexivity].
  repeat constructor; vm_compute; congruence.
Defined.

(** On a little-endian host the encoder's result is the documented
    format: it succeeds exactly when all nine fields are finite and the payload
    is within its limit, and then emits the magic, the version, the fields as
    big-endian doubles in member order, and the length-prefixed payload;
    otherwise it reports failure and leaves the output untouched. *)
Theorem nxr1_encode_spec max frame old err :
  wf_geo frame →
  let r := encode_nxr1_frame LittleEndian frame (Some old) err max in
  (geo_fits max frame →
     r = Ok (true, Some (store_be 4 NXR1_MAGIC ++ store_be 2 NXR1_VERSION ++
                         concat (store_be 8 <$> geo_fields frame) ++
                         enc_prefixed 4 (geo_payload frame)), err)) ∧
  (¬ geo_fits max frame → ∃ err', r = Ok (false, Some old, err')).
Proof.
  intros Hwf r. pose proof (λ f, nxr1_encoder_ok LittleEndian frame max f Hwf) as Henc.
  unfold r, encode_nxr1_frame, api_call. split; intros Hfit.
  - rewrite (proj2 (Henc _) (conj Hfit eq_refl)). by unfold nxr1_layout, nxr_header_layout; rewrite <- app_assoc.
  - assert (safe (nxr1_encoder LittleEndian frame max)) as Hs by apply nxr1_encoder_safe.
    destruct (nxr1_encoder LittleEndian frame max) eqn:E; try done; [|by eexists].
    by destruct (proj1 (Henc a) eq_refl).
Qed.

Lemma nxr1_encode_spec_witness :
  ∃ b, encode_nxr1_frame LittleEndian sample_geo (Some []) None 16 = Ok (true, Some b, None) ∧
  zlen b = 86.
Proof.
  eexists. split; [apply nxr1_encode_spec|reflexivity].
  - repeat constructor; vm_compute; congruence.
  - split; [repeat constructor|split; vm_compute; congruence].
Defined.

(** Whatever bytes arrive, the NXR1 decoder returns without reading out
    of bounds, leaves [*out] untouched when it rejects, and only ever delivers
    frames whose fields are finite 64-bit doubles and whose payload is within
    the limit. *)
Theorem nxr1_decode_total h max bytes out err :
  api_contract out err (λ f, wf_geo f ∧ geo_fits max f) (decode_nxr1_frame h bytes out err max).
Proof.
  destruct (wp_run _ _ _ (wp_nxr1 h max bytes)) as [Hs Hw].
  apply api_call_contract; [done|]. intros a Ha. by destruct (Hw a Ha) as (_ & ? & ?).
Qed.

(** The value with its 32-bit halves exchanged. *)
Definition swap_words (v : Z) : Z := (v mod 2 ^ 32) * 2 ^ 32 + v / 2 ^ 32.

Definition swap_geo (f : GeospatialFrame) : GeospatialFrame :=
  geo_of_fields (swap_words <$> geo_fields f) (geo_payload f).

Lemma swap_words_uint v : is_uint 64 v → is_uint 64 (swap_words v).
Proof.
  unfold swap_words, is_uint. intros Hv. pose proof (Z.mod_pos_bound v (2 ^ 32)).
  assert (0 ≤ v / 2 ^ 32 < 2 ^ 32); [|lia].
  split; [apply Z.div_pos; lia|apply Z.div_lt_upper_bound; lia].
Qed.

Lemma swap_words_wire v : is_uint 64 v → double_wire BigEndian v = double_wire LittleEndian (swap_words v).
Proof.
  intros Hv. unfold double_wire, swap_words. change (2 ^ 32) with (256 ^ Z.of_nat 4).
  rewrite (store_be_app 4 4); [done|]. unfold is_uint in Hv. change (256 ^ Z.of_nat 4) with (2 ^ 32).
  split; [apply Z.div_pos; lia|apply Z.div_lt_upper_bound; lia].
Qed.

(** The helpers of this file lack the byte-order test of their BRK1
    namesakes: a big-endian host emits each double with its 32-bit halves
    exchanged, so that, whenever the exchanged patterns are finite, a
    little-endian peer decodes the frame to the exchanged values. *)
Theorem nxr1_big_endian_swaps max frame old buf err bytes :
  wf_geo frame → geo_fits max (swap_geo frame) →
  encode_nxr1_frame BigEndian frame (Some buf) err max = Ok (true, Some bytes, err) →
  decode_nxr1_frame LittleEndian bytes (Some old) err max = Ok (true, Some (swap_geo frame), err).
Proof.
  intros Hwf Hfit. unfold encode_nxr1_frame, decode_nxr1_frame.
  rewrite !api_call_Ok, nxr1_encoder_ok by done. intros [_ ->].
  assert (geo_fields (swap_geo frame) = swap_words <$> geo_fields frame) as Hf by (by destruct frame).
  assert (nxr1_layout BigEndian frame = nxr1_layout LittleEndian (swap_geo frame)) as ->.
  { unfold nxr1_layout. rewrite Hf, <- list_fmap_compose. do 3 f_equal.
    apply list_fmap_ext. intros i v Hv. apply swap_words_wire.
    by eapply (Forall_lookup_1 _ _ _ _ Hwf). }
  apply run_nxr1; [|done]. unfold wf_geo. rewrite Hf. apply Forall_fmap.
  eapply List.Forall_impl; [|done]. apply swap_words_uint.
Qed.

Lemma nxr1_big_endian_swaps_witness :
  ∃ bytes, encode_nxr1_frame BigEndian sample_geo (Some []) None 16 = Ok (true, Some bytes, None) ∧
    decode_nxr1_frame LittleEndian bytes (Some default_geo) None 16
      = Ok (true, Some (swap_geo sample_geo), None) ∧ swap_geo sample_geo ≠ sample_geo.
Proof.
  eexists. split; [reflexivity|]. split; [|done].
  apply (nxr1_big_endian_swaps _ _ _ []); [| |reflexivity].
  - repeat constructor; vm_compute; congruence.
  - split; [repeat constructor|split; vm_compute; congruence].
Defined.
