(* ===== verification/MediaStream.v ===== *)
(** * The MED1 media chunks (include/media_stream.h, src/media_stream.cpp)

    This codec writes and reads its integers one byte at a time with shifts,
    so no byte order of the host is involved. *)

From S2P Require Import Prelude HostBytes Wire.

(** ** Data *)

Definition MEDIA_MAGIC : Z := 0x4D454431.
Definition MEDIA_VERSION : Z := 1.
Definition MEDIA_DEFAULT_MAX_PAYLOAD_BYTES : Z := 512 * 1024.
Definition MEDIA_DEFAULT_MAX_STRING_BYTES : Z := 1024.
Definition kMediaStreamKind : bytes := str "media.stream.v1".

(** [enum class MediaType : uint8_t]; the type also holds values that have no
    enumerator, which the encoder tests for. *)
Inductive MediaType := Video | Audio | GenericData | MediaUnnamed (raw : Z).

Definition MediaType_u8 (t : MediaType) : Z :=
  match t with Video => 0 | Audio => 1 | GenericData => 2 | MediaUnnamed raw => raw end.

Definition MediaType_of_u8 (v : Z) : MediaType :=
  if v =? 0 then Video else if v =? 1 then Audio else if v =? 2 then GenericData
  else MediaUnnamed v.

Record MediaStreamFrame := mkMedia {
  media_type : MediaType;
  codec : bytes;
  stream_id : bytes;
  sequence_number : Z;
  timestamp_ns : Z;
  sample_rate : Z;
  width : Z;
  height : Z;
  channels : Z;
  is_keyframe : bool;
  is_final_chunk : bool;
  media_payload : bytes;
}.

Definition default_media : MediaStreamFrame :=
  mkMedia GenericData [] [] 0 0 0 0 0 0 false false [].

(** ** Encoding *)

Definition med_append_uint (out : bytes) (value : Z) (n : nat) : bytes :=
  out ++ store_loop n value.

Definition med_append_string (out value : bytes) : bytes :=
  med_append_uint out (zlen value) 2 ++ value.

Definition med_truncated : bytes := str "MED1 frame truncated".

Definition med_take (need : Z) : reader unit := take_need med_truncated need.

Definition med_read_uint (count : nat) : reader Z := read_loop med_truncated count.

Definition med_read_string (max_string_bytes : Z) : reader bytes :=
  read_prefixed (med_read_uint 2) med_truncated
    (str "MED1 string exceeds configured limit") max_string_bytes.

Definition media_flags (frame : MediaStreamFrame) : Z :=
  Z.lor (if is_keyframe frame then 1 else 0) (if is_final_chunk frame then 2 else 0).

(** The body of [encode_media_stream_frame] once [out] is non-null. *)
Definition media_encoder (frame : MediaStreamFrame) (max_payload_bytes max_string_bytes : Z)
    : result bytes :=
  let media_type := MediaType_u8 (media_type frame) in
  _ <-! reject_if (MediaType_u8 GenericData <? media_type) (str "invalid MED1 media type");;
  _ <-! reject_if ((max_string_bytes <? zlen (codec frame))
                   || (max_string_bytes <? zlen (stream_id frame))
                   || (u16_max <? zlen (codec frame)) || (u16_max <? zlen (stream_id frame)))
          (str "MED1 string exceeds configured limit");;
  _ <-! reject_if ((max_payload_bytes <? zlen (media_payload frame))
                   || (u32_max <? zlen (media_payload frame)))
          (str "MED1 payload exceeds maximum length");;
  let encoded := med_append_uint [] MEDIA_MAGIC 4 in
  let encoded := med_append_uint encoded MEDIA_VERSION 2 in
  let encoded := med_append_uint encoded media_type 1 in
  let encoded := med_append_string encoded (codec frame) in
  let encoded := med_append_string encoded (stream_id frame) in
  let encoded := med_append_uint encoded (sequence_number frame) 8 in
  let encoded := med_append_uint encoded (timestamp_ns frame) 8 in
  let encoded := med_append_uint encoded (sample_rate frame) 4 in
  let encoded := med_append_uint encoded (width frame) 4 in
  let encoded := med_append_uint encoded (height frame) 4 in
  let encoded := med_append_uint encoded (channels frame) 4 in
  let encoded := med_append_uint encoded (media_flags frame) 1 in
  let encoded := med_append_uint encoded (zlen (media_payload frame)) 4 in
  Ok (encoded ++ media_payload frame).

Definition encode_media_stream_frame (frame : MediaStreamFrame) (out : option bytes)
    (error : option bytes) (max_payload_bytes max_string_bytes : Z)
    : result (bool * option bytes * option bytes) :=
  api_call (str "output buffer pointer must not be null") out error
    (media_encoder frame max_payload_bytes max_string_bytes).

(** The body of [decode_media_stream_frame] once [out] is non-null. *)
Definition media_reader (max_payload_bytes max_string_bytes : Z) : reader MediaStreamFrame :=
  magic <~ med_read_uint 4;;
  version <~ med_read_uint 2;;
  _ <~ rguard (negb (magic =? MEDIA_MAGIC)) (str "invalid MED1 magic");;
  _ <~ rguard (negb (version =? MEDIA_VERSION)) (str "unsupported MED1 version");;
  type_raw <~ med_read_uint 1;;
  _ <~ rguard (MediaType_u8 GenericData <? type_raw) (str "invalid MED1 media type");;
  codec <~ med_read_string max_string_bytes;;
  stream_id <~ med_read_string max_string_bytes;;
  sequence_number <~ med_read_uint 8;;
  timestamp_ns <~ med_read_uint 8;;
  sample_rate <~ med_read_uint 4;;
  width <~ med_read_uint 4;;
  height <~ med_read_uint 4;;
  channels <~ med_read_uint 4;;
  flags <~ med_read_uint 1;;
  _ <~ rguard (negb (Z.land flags (2 ^ 64 - 1 - 3) =? 0)) (str "invalid MED1 flags");;
  payload_len <~ med_read_uint 4;;
  _ <~ rguard (max_payload_bytes <? payload_len) (str "MED1 payload exceeds configured limit");;
  payload <~ read_raw med_truncated payload_len;;
  extra <~ trailing;;
  _ <~ rguard extra (str "MED1 frame contains trailing bytes");;
  rret (mkMedia (MediaType_of_u8 type_raw) codec stream_id sequence_number timestamp_ns
          (wrap 32 sample_rate) (wrap 32 width) (wrap 32 height) (wrap 32 channels)
          (negb (Z.land flags 1 =? 0)) (negb (Z.land flags 2 =? 0)) payload).

Definition decode_media_stream_frame (frame : bytes) (out : option MediaStreamFrame)
    (error : option bytes) (max_payload_bytes max_string_bytes : Z)
    : result (bool * option MediaStreamFrame * option bytes) :=
  api_call (str "output frame pointer must not be null") out error
    (run_reader (media_reader max_payload_bytes max_string_bytes) frame).

(** ** Wire layout *)

(** Values the members' types hold. *)
Definition wf_media (f : MediaStreamFrame) : Prop :=
  (MediaType_of_u8 (MediaType_u8 (media_type f)) = media_type f ∧
   is_uint 8 (MediaType_u8 (media_type f))) ∧
  is_uint 64 (sequence_number f) ∧ is_uint 64 (timestamp_ns f) ∧ is_uint 32 (sample_rate f) ∧
  is_uint 32 (width f) ∧ is_uint 32 (height f) ∧ is_uint 32 (channels f).

Definition media_layout (f : MediaStreamFrame) : bytes :=
  store_be 4 MEDIA_MAGIC ++ store_be 2 MEDIA_VERSION ++
  store_be 1 (MediaType_u8 (media_type f)) ++ enc_prefixed 2 (codec f) ++
  enc_prefixed 2 (stream_id f) ++ store_be 8 (sequence_number f) ++
  store_be 8 (timestamp_ns f) ++ store_be 4 (sample_rate f) ++ store_be 4 (width f) ++
  store_be 4 (height f) ++ store_be 4 (channels f) ++ store_be 1 (media_flags f) ++
  enc_prefixed 4 (media_payload f).

(** What the format admits. *)
Definition media_fits (max_payload_bytes max_string_bytes : Z) (f : MediaStreamFrame) : Prop :=
  MediaType_u8 (media_type f) ≤ 2 ∧ fits 2 max_string_bytes (codec f) ∧
  fits 2 max_string_bytes (stream_id f) ∧ fits 4 max_payload_bytes (media_payload f).

Lemma MediaType_u8_of v : MediaType_u8 (MediaType_of_u8 v) = v.
Proof. unfold MediaType_of_u8. repeat case_match; simpl; lia. Qed.

Ltac cbn_media := cbn [media_type codec stream_id sequence_number timestamp_ns sample_rate width
  height channels is_keyframe is_final_chunk media_payload] in *.

Section CodecLemmas.
Context (max_payload max_string : Z).

#[local] Instance codec_read_uint n :
  TCEq (Nat.leb n 8) true → Codec (med_read_uint n) (store_be n) (is_uint (8 * Z.of_nat n)).
Proof. intros H%TCEq_eq. apply codec_read_loop. by apply Nat.leb_le. Qed.

#[local] Instance codec_med_read_string :
  Codec (med_read_string max_string) (enc_prefixed 2) (fits 2 max_string).
Proof. by apply codec_read_prefixed, codec_read_uint. Qed.

Lemma flags_decode (k f : bool) (v := Z.lor (if k then 1 else 0) (if f then 2 else 0)) :
  is_uint 8 v ∧ Z.land v (2 ^ 64 - 1 - 3) = 0 ∧
  negb (Z.land v 1 =? 0) = k ∧ negb (Z.land v 2 =? 0) = f.
Proof. by destruct k, f. Qed.

Lemma flags_encode v :
  is_uint 8 v → Z.land v (2 ^ 64 - 1 - 3) = 0 →
  Z.lor (if negb (Z.land v 1 =? 0) then 1 else 0) (if negb (Z.land v 2 =? 0) then 2 else 0) = v.
Proof.
  intros Hv Hl. assert (v < 4) as Hlt.
  { apply Z.nle_gt. intros Hge. change (2 ^ 64 - 1 - 3) with (Z.shiftl (Z.ones 62) 2) in Hl.
    apply (f_equal (λ x, Z.shiftr x 2)) in Hl.
    rewrite Z.shiftr_land, Z.shiftr_shiftl_l, Z.shiftl_0_r, Z.land_ones in Hl by lia.
    rewrite Z.shiftr_div_pow2, Z.shiftr_0_l in Hl by lia. unfold is_uint in Hv.
    assert (1 ≤ v / 2 ^ 2 < 64) by (split; [apply Z.div_le_lower_bound; lia|apply Z.div_lt_upper_bound; lia]).
    rewrite Z.mod_small in Hl by lia. lia. }
  assert (v = 0 ∨ v = 1 ∨ v = 2 ∨ v = 3) as [->|[->|[->| ->]]] by (unfold is_uint in Hv; lia); done.
Qed.

Lemma media_encoder_ok frame f :
  media_encoder frame max_payload max_string = Ok f ↔
  media_fits max_payload max_string frame ∧ f = media_layout frame.
Proof.
  unfold media_encoder, med_append_string, med_append_uint, media_fits, fits, u16_max, u32_max.
  rewrite !rbind_reject, !store_loop_be, !orb_false_iff, !Z.ltb_ge.
  change (256 ^ Z.of_nat 2) with 65536. change (256 ^ Z.of_nat 4) with 4294967296.
  unfold media_layout, enc_prefixed. rewrite <- !app_assoc, app_nil_l.
  change (MediaType_u8 GenericData) with 2.
  split; [intros (? & ? & ? & E) | intros [? ->]]; split_and!; try lia; congruence.
Qed.

Lemma media_encoder_safe frame : safe (media_encoder frame max_payload max_string).
Proof. unfold media_encoder. auto 10 with codec. Qed.

Lemma wp_media frame :
  wp (media_reader max_payload max_string) frame 0 (λ f _,
    frame = media_layout f ∧ wf_media f ∧ media_fits max_payload max_string f).
Proof.
  assert (Hat := at_off_start frame). unfold media_reader, read_raw.
  do 36 wp_step. unfold is_uint in *. repeat wp_step.
  rewrite !wrap_small by (unfold is_uint; done). subst.
  unfold media_layout, wf_media, media_fits, media_flags, enc_prefixed at 3. cbn_media.
  change (MediaType_u8 GenericData) with 2 in *.
  rewrite !MediaType_u8_of. rewrite flags_encode by (done || lia).
  assert (a = MEDIA_MAGIC) as -> by lia. assert (a0 = MEDIA_VERSION) as -> by lia.
  unfold is_uint, fits. rewrite !pow256_bits. unfold fits in *. rewrite !pow256_bits in *. split_and!; done || lia.
Qed.

Lemma run_media frame :
  wf_media frame → media_fits max_payload max_string frame →
  run_reader (media_reader max_payload max_string) (media_layout frame) = Ok frame.
Proof.
  intros ([Hmt Hmu] & H1 & H2 & H3 & H4 & H5 & H6) (Ht & Hc & Hs & Hp1 & Hp2).
  destruct (flags_decode (is_keyframe frame) (is_final_chunk frame)) as (Hf1 & Hf2 & Hf3 & Hf4).
  fold (media_flags frame) in *. pose proof (zlen_nonneg (media_payload frame)).
  apply runs_reader. assert (Hat := at_off_start (media_layout frame)).
  unfold media_reader, read_raw.
  unfold media_layout at 2 in Hat. unfold enc_prefixed at 3 in Hat.
  change (MediaType_u8 GenericData) with 2.
  repeat (run_step; try (done || lia)).
  rewrite !wrap_small, Hmt, Hf3, Hf4 by done. by destruct frame.
Qed.

End CodecLemmas.

(** ** Theorems *)

(** C36: the MED1 decoder accepts a buffer exactly when the buffer is the
    encoding of the frame it returns, and the encoder's output always decodes
    to the encoded frame. *)
Theorem med1_canonical max_payload max_string bytes frame old buf err :
  wf_media frame →
  decode_media_stream_frame bytes (Some old) err max_payload max_string
    = Ok (true, Some frame, err) ↔
  encode_media_stream_frame frame (Some buf) err max_payload max_string
    = Ok (true, Some bytes, err).
Proof.
  intros Hwf. unfold decode_media_stream_frame, encode_media_stream_frame.
  rewrite !api_call_Ok, media_encoder_ok. split.
  - intros Hrun. destruct (wp_run _ _ _ (wp_media max_payload max_string bytes)) as [_ Hwp].
    destruct (Hwp _ Hrun) as (-> & _ & Hfit). done.
  - intros (Hfit & ->). by apply run_media.
Qed.

Definition sample_media : MediaStreamFrame :=
  mkMedia Video (str "h264") (str "cam-0") 41 1700000000000000000 0 1920 1080 0 true false
    [Byte.x00; Byte.x01; Byte.xff].

Lemma med1_canonical_witness :
  decode_media_stream_frame (media_layout sample_media) (Some default_media) None 1024 64
    = Ok (true, Some sample_media, None).
Proof.
  apply (med1_canonical _ _ _ _ _ []); [|reflexivity].
  unfold wf_media, is_uint. split_and!; vm_compute; congruence.
Defined.

(** Whatever bytes arrive, the MED1 decoder returns without reading out
    of bounds and leaves [*out] untouched when it rejects; the frames it
    delivers have a known media type and strings and payload within their
    limits.  The encoder refuses exactly the frames outside these bounds. *)
Theorem med1_total max_payload max_string :
  (∀ bytes out err, api_contract out err
     (λ f, wf_media f ∧ media_fits max_payload max_string f)
     (decode_media_stream_frame bytes out err max_payload max_string)) ∧
  (∀ frame out err, api_contract out err
     (λ b, media_fits max_payload max_string frame ∧ b = media_layout frame)
     (encode_media_stream_frame frame out err max_payload max_string)) ∧
  (∀ frame old err, media_fits max_payload max_string frame →
     encode_media_stream_frame frame (Some old) err max_payload max_string
       = Ok (true, Some (media_layout frame), err)).
Proof.
  split_and!.
  - intros bytes out err.
    destruct (wp_run _ _ _ (wp_media max_payload max_string bytes)) as [Hs Hw].
    apply api_call_contract; [done|]. intros a Ha. by destruct (Hw a Ha) as (_ & ? & ?).
  - intros frame out err. apply api_call_contract; [apply media_encoder_safe|].
    intros a. apply media_encoder_ok.
  - intros frame old err Hfit. by apply api_call_Ok, media_encoder_ok.
Qed.
