(* ===== verification/Brk2Protocol.v ===== *)
(** * The BRK2 envelope (include/brk2_protocol.h, src/brk2_protocol.cpp)

    A 32-byte header followed by type-length-value fields.  The parser keeps,
    for every field, a pointer into the body ([fv_data], an offset here) and a
    size; every access through such a pointer is checked against the buffer,
    and both loops carry fuel, so that [OutOfBounds] and [NoFuel] are values
    the theorems exclude.  The specification is the list of abstract fields
    ([tlv]) whose concatenated layouts make up the body. *)

From S2P Require Import Prelude Numbers HostBytes Wire BackendDispatch BrokerProtocol.

(** ** Constants and data *)

Definition BRK2_MAGIC : Z := 0x42524b32.
Definition BRK2_MAJOR : Z := 2.
Definition BRK2_HEADER_BYTES : Z := 32.
Definition BRK2_SCHEMA_REQUEST : Z := 1.
Definition BRK2_SCHEMA_RESPONSE : Z := 2.

Definition MSG_REQUEST : Z := 3.
Definition MSG_RESPONSE : Z := 4.
Definition FLAG_RESPONSE : Z := 1.
Definition FLAG_END_STREAM : Z := 4.
Definition WT_U8 : Z := 1.
Definition WT_U32 : Z := 3.
Definition WT_U64 : Z := 4.
Definition WT_I64 : Z := 5.
Definition WT_UTF8 : Z := 8.
Definition WT_BYTES : Z := 9.
Definition WT_UUID : Z := 12.
Definition FIELD_CRITICAL : Z := 1.

Record FieldView := mkField {
  fv_id : Z;
  fv_type : Z;
  fv_flags : Z;
  fv_data : Z;
  fv_size : Z;
}.

(** ** Access through a pointer *)

(** [p[i]], for a pointer into the buffer. *)
Definition at8 (body : bytes) (i : Z) : result Z :=
  if in_buffer body i 1 then
    match body !! Z.to_nat i with Some b => Ok (u8 b) | None => OutOfBounds end
  else OutOfBounds.

(** The bytes [p .. p + n), as [assign] copies them. *)
Definition sub_bytes (body : bytes) (p n : Z) : result bytes :=
  if in_buffer body p n then Ok (slice body p n) else OutOfBounds.

Definition read16 (body : bytes) (p : Z) : result Z :=
  a <-! at8 body p;; b <-! at8 body (p + 1);;
  Ok (wrap 16 (Z.lor (Z.shiftl a 8) b)).

Definition read32 (body : bytes) (p : Z) : result Z :=
  a <-! at8 body p;; b <-! at8 body (p + 1);; c <-! at8 body (p + 2);; d <-! at8 body (p + 3);;
  Ok (Z.lor (Z.lor (Z.lor (wrap 32 (Z.shiftl a 24)) (wrap 32 (Z.shiftl b 16)))
               (wrap 32 (Z.shiftl c 8))) d).

(** [for(int i=0;i<8;++i) v=(v<<8)|p[i];] *)
Fixpoint read_from (n : nat) (body : bytes) (p v : Z) : result Z :=
  match n with
  | O => Ok v
  | S n => b <-! at8 body p;; read_from n body (p + 1) (Z.lor (wrap 64 (Z.shiftl v 8)) b)
  end.
Definition read64 (body : bytes) (p : Z) : result Z := read_from 8 body p 0.

Definition put16 (b : bytes) (v : Z) : bytes := b ++ [to_u8 (Z.shiftr v 8); to_u8 v].
Definition put32 (b : bytes) (v : Z) : bytes := b ++ store_loop 4 v.
Definition put64 (b : bytes) (v : Z) : bytes := b ++ store_loop 8 v.

(** ** Fields *)

Definition put_field (p : bytes) (id type : Z) (data : bytes) (flags : Z) : result bytes :=
  _ <-! reject_if (u32_max <? zlen data) (str "BRK2 field too large");;
  let p := put16 p id in
  let p := p ++ [to_u8 type] in
  let p := p ++ [to_u8 flags] in
  let p := put32 p (wrap 32 (zlen data)) in
  Ok (if zlen data =? 0 then p else p ++ data).

Definition field_str (p : bytes) (id : Z) (s : bytes) : result bytes := put_field p id WT_UTF8 s 0.
Definition field_u8 (p : bytes) (id v : Z) : result bytes := put_field p id WT_U8 [to_u8 v] 0.
Definition field_u64 (p : bytes) (id v : Z) : result bytes := put_field p id WT_U64 (put64 [] v) 0.
Definition field_i64 (p : bytes) (id v : Z) : result bytes :=
  put_field p id WT_I64 (put64 [] (wrap 64 v)) 0.
Definition field_bytes (p : bytes) (id : Z) (v : bytes) : result bytes :=
  put_field p id WT_BYTES v 0.

(** [while (pos < body.size())]; each iteration consumes at least the eight
    bytes of a field header. *)
Fixpoint parse_loop (fuel : nat) (body : bytes) (pos : Z) (fields : list FieldView)
    : result (list FieldView) :=
  match fuel with
  | O => NoFuel
  | S fuel =>
      if pos <? zlen body then
        _ <-! reject_if (zlen body - pos <? 8) (str "truncated BRK2 TLV header");;
        id <-! read16 body pos;;
        type <-! at8 body (pos + 2);;
        flags <-! at8 body (pos + 3);;
        size <-! read32 body (pos + 4);;
        let pos := pos + 8 in
        _ <-! reject_if (negb (Z.land flags (Z.lnot 3) =? 0)) (str "invalid BRK2 field flags");;
        _ <-! reject_if ((type <? 1) || (12 <? type)) (str "unknown BRK2 wire type");;
        _ <-! reject_if (zlen body - pos <? size) (str "truncated BRK2 TLV value");;
        let f := mkField id type flags pos size in
        let pos := pos + size in
        _ <-! reject_if (existsb (λ x, fv_id x =? fv_id f) fields)
                (str "duplicate BRK2 singular field");;
        parse_loop fuel body pos (fields ++ [f])
      else Ok fields
  end.

Definition parse_fields (body : bytes) : result (list FieldView) :=
  parse_loop (S (length body)) body BRK2_HEADER_BYTES [].

(** The continuation bytes of one character: [None] stands for [return false]. *)
Fixpoint utf8_tail (extra : nat) (p : bytes) (i cp : Z) : result (option (Z * Z)) :=
  match extra with
  | O => Ok (Some (i, cp))
  | S extra =>
      d <-! at8 p i;;
      if negb (Z.land d 0xc0 =? 0x80) then Ok None
      else utf8_tail extra p (i + 1) (Z.lor (wrap 32 (Z.shiftl cp 6)) (Z.land d 0x3f))
  end.

(** The lead byte: its payload bits and the number of continuation bytes. *)
Definition utf8_lead (c : Z) : option (Z * nat) :=
  if (0xc2 <=? c) && (c <=? 0xdf) then Some (Z.land c 0x1f, 1%nat)
  else if (0xe0 <=? c) && (c <=? 0xef) then Some (Z.land c 0x0f, 2%nat)
  else if (0xf0 <=? c) && (c <=? 0xf4) then Some (Z.land c 0x07, 3%nat)
  else None.

Definition utf8_bad_cp (extra : nat) (cp : Z) : bool :=
  ((extra =? 1)%nat && (cp <? 0x80)) || ((extra =? 2)%nat && (cp <? 0x800))
  || ((extra =? 3)%nat && (cp <? 0x10000))
  || (0x10ffff <? cp) || ((0xd800 <=? cp) && (cp <=? 0xdfff)).

(** One iteration of [while (i < n)]: the next [i], or [None] for
    [return false]. *)
Definition utf8_step (p : bytes) (i : Z) : result (option Z) :=
  c <-! at8 p i;;
  let i := i + 1 in
  if c <=? 0x7f then Ok (Some i)
  else match utf8_lead c with
  | None => Ok None
  | Some (cp, extra) =>
      if zlen p - i <? Z.of_nat extra then Ok None
      else
        r <-! utf8_tail extra p i cp;;
        Ok match r with
           | None => None
           | Some (i, cp) => if utf8_bad_cp extra cp then None else Some i
           end
  end.

Fixpoint utf8_loop (fuel : nat) (p : bytes) (i : Z) : result bool :=
  match fuel with
  | O => NoFuel
  | S fuel =>
      if i <? zlen p then
        next <-! utf8_step p i;;
        match next with
        | None => Ok false
        | Some i => utf8_loop fuel p i
        end
      else Ok true
  end.

Definition valid_utf8 (p : bytes) : result bool := utf8_loop (S (length p)) p 0.

Definition find (fs : list FieldView) (id : Z) : option FieldView :=
  List.find (λ f, fv_id f =? id) fs.

Definition get_string (body : bytes) (fs : list FieldView) (id : Z) : result bytes :=
  let missing := str "missing or wrong-type BRK2 string field " ++ to_string id in
  match find fs id with
  | None => Err missing
  | Some f =>
      _ <-! reject_if (negb (fv_type f =? WT_UTF8)) missing;;
      s <-! sub_bytes body (fv_data f) (fv_size f);;
      valid <-! valid_utf8 s;;
      _ <-! reject_if (negb valid) (str "invalid UTF-8 in BRK2 string field");;
      _ <-! reject_if (bool_decide (s = [])) (str "empty BRK2 required string field " ++ to_string id);;
      Ok s
  end.

(** Returns the pointer it stores through [data]. *)
Definition get_fixed (fs : list FieldView) (id type n : Z) : result Z :=
  let msg := str "missing or invalid BRK2 field " ++ to_string id in
  match find fs id with
  | None => Err msg
  | Some f =>
      _ <-! reject_if (negb (fv_type f =? type) || negb (fv_size f =? n)) msg;;
      Ok (fv_data f)
  end.

Definition envelope (type flags request_id schema : Z) (payload : bytes) : bytes :=
  let b := put32 [] BRK2_MAGIC in
  let b := b ++ [to_u8 BRK2_MAJOR] in
  let b := b ++ [to_u8 0] in
  let b := put16 b BRK2_HEADER_BYTES in
  let b := put16 b type in
  let b := put16 b flags in
  let b := put64 b request_id in
  let b := put32 b schema in
  let b := put16 b 1 in
  let b := put16 b 0 in
  let b := put32 b (wrap 32 (zlen payload)) in
  b ++ payload.

(** ** Requests *)

(** The checks of the fixed header, up to and including the store to
    [*request_id]. *)
Definition decode_brk2_header (body : bytes) (lim : ProtocolLimits) : result Z :=
  _ <-! reject_if ((zlen body <? BRK2_HEADER_BYTES) || (max_frame_bytes lim <? zlen body))
          (str "invalid BRK2 frame size");;
  magic <-! read32 body 0;;
  _ <-! reject_if (negb (magic =? BRK2_MAGIC)) (str "invalid BRK2 magic");;
  major <-! at8 body 4;;
  _ <-! reject_if (negb (major =? 2)) (str "unsupported BRK2 major version");;
  header_len <-! read16 body 6;;
  _ <-! reject_if (negb (header_len =? BRK2_HEADER_BYTES)) (str "invalid BRK2 header length");;
  type <-! read16 body 8;;
  _ <-! reject_if (negb (type =? MSG_REQUEST)) (str "unexpected BRK2 message type");;
  flags <-! read16 body 10;;
  _ <-! reject_if (negb (flags =? 0)) (str "unsupported BRK2 request flags");;
  reserved <-! read16 body 26;;
  _ <-! reject_if (negb (reserved =? 0)) (str "BRK2 reserved field must be zero");;
  payload_len <-! read32 body 28;;
  _ <-! reject_if ((max_payload_bytes lim <? payload_len)
                   || negb (payload_len =? zlen body - BRK2_HEADER_BYTES))
          (str "BRK2 payload length mismatch or limit exceeded");;
  schema <-! read32 body 20;;
  schema_version <-! read16 body 24;;
  _ <-! reject_if (negb (schema =? BRK2_SCHEMA_REQUEST) || negb (schema_version =? 1))
          (str "unsupported BRK2 request schema");;
  read64 body 12.

Definition device_preferences : list bytes := [str "cpu"; str "gpu"; str "npu"; str "auto"].

Definition known_field (f : FieldView) : bool := (1 <=? fv_id f) && (fv_id f <=? 10).

(** The request in the parsed fields, after [parse_fields]. *)
Definition request_of_views (body : bytes) (fs : list FieldView) (lim : ProtocolLimits)
    : result BrokerRequest :=
  _ <-! reject_if
          (existsb (λ f, negb (known_field f) && negb (Z.land (fv_flags f) FIELD_CRITICAL =? 0)) fs)
          (str "unknown critical BRK2 field");;
  task_id <-! get_string body fs 1;;
  source <-! get_string body fs 2;;
  destination <-! get_string body fs 3;;
  kind <-! get_string body fs 4;;
  _ <-! reject_if (existsb (λ s, max_string_bytes lim <? zlen s) [task_id; source; destination; kind])
          (str "BRK2 string exceeds configured limit");;
  priority <-! (p <-! get_fixed fs 5 WT_U8 1;; at8 body p);;
  timeout_ms <-! (p <-! get_fixed fs 6 WT_U32 4;; read32 body p);;
  payload <-! (_ <-! get_fixed fs 7 WT_BYTES
                       (match find fs 7 with Some f => fv_size f | None => 0 end);;
               match find fs 7 with
               | None => OutOfBounds
               | Some f =>
                   _ <-! reject_if (max_payload_bytes lim <? fv_size f)
                           (str "BRK2 request payload exceeds limit");;
                   sub_bytes body (fv_data f) (fv_size f)
               end);;
  _ <-! match find fs 8 with
        | None => Ok tt
        | Some key => reject_if (negb (fv_type key =? WT_UUID) || negb (fv_size key =? 16))
                        (str "invalid BRK2 idempotency key")
        end;;
  _ <-! match find fs 9 with
        | None => Ok tt
        | Some deadline => reject_if (negb (fv_type deadline =? WT_U64) || negb (fv_size deadline =? 8))
                             (str "invalid BRK2 deadline")
        end;;
  preference <-! match find fs 10 with
        | None => Ok []
        | Some pref =>
            _ <-! reject_if (negb (fv_type pref =? WT_UTF8))
                    (str "invalid BRK2 device_preference type");;
            value <-! sub_bytes body (fv_data pref) (fv_size pref);;
            _ <-! reject_if (negb (bool_decide (value ∈ device_preferences)))
                    (str "unknown BRK2 device_preference");;
            Ok value
        end;;
  _ <-! reject_if ((timeout_ms =? 0) || (BROKER_MAX_TIMEOUT_MS <? timeout_ms))
          (str "BRK2 timeout_ms outside 1..300000");;
  _ <-! reject_if (max_frame_bytes lim <? zlen body) (str "BRK2 frame exceeds limit");;
  Ok (mkRequest task_id source destination kind priority timeout_ms payload None preference).

(** The rest of [decode_brk2_request_body]: the fields. *)
Definition decode_brk2_fields (body : bytes) (lim : ProtocolLimits) : result BrokerRequest :=
  fs <-! parse_fields body;;
  request_of_views body fs lim.

(** [if (error) *error = s;] *)
Definition store_error (error : option bytes) (s : bytes) : option bytes :=
  match error with Some _ => Some s | None => None end.

(** Returns the result, [*out], [*request_id] and [*error] after the call. *)
Definition decode_brk2_request_body (body : bytes) (out : option BrokerRequest)
    (request_id : option Z) (error : option bytes) (lim : ProtocolLimits)
    : result (bool * option BrokerRequest * option Z * option bytes) :=
  match out, request_id with
  | Some _, Some _ =>
      match decode_brk2_header body lim with
      | Ok id =>
          match decode_brk2_fields body lim with
          | Ok req => Ok (true, Some req, Some id, error)
          | Err e => Ok (false, out, Some id, store_error error e)
          | OutOfBounds => OutOfBounds
          | NoFuel => NoFuel
          end
      | Err e => Ok (false, out, request_id, store_error error e)
      | OutOfBounds => OutOfBounds
      | NoFuel => NoFuel
      end
  | _, _ => Ok (false, out, request_id, store_error error (str "null BRK2 output"))
  end.

(** ** Responses *)

Definition encode_brk2_response_body (r : BrokerResponse) (request_id : Z) (lim : ProtocolLimits)
    : result bytes :=
  _ <-! reject_if (max_payload_bytes lim <? zlen (resp_result r))
          (str "BRK2 response payload exceeds limit");;
  _ <-! reject_if ((max_string_bytes lim <? zlen (resp_task_id r))
                   || (max_string_bytes lim <? zlen (resp_error r)))
          (str "BRK2 response string exceeds configured limit");;
  p <-! field_str [] 1 (resp_task_id r);;
  p <-! field_u8 p 2 (TaskStatus_u8 (resp_status r));;
  p <-! field_i64 p 3 (resp_selected_gpu r);;
  p <-! field_u64 p 4 (resp_latency_ms r);;
  p <-! field_bytes p 5 (resp_result r);;
  p <-! field_str p 6 (resp_error r);;
  p <-! field_str p 7 (backend_name (resp_backend r));;
  _ <-! reject_if ((max_payload_bytes lim <? zlen p)
                   || (max_frame_bytes lim <? BRK2_HEADER_BYTES + zlen p))
          (str "BRK2 response exceeds frame limit");;
  Ok (envelope MSG_RESPONSE (Z.lor FLAG_RESPONSE FLAG_END_STREAM) request_id
        BRK2_SCHEMA_RESPONSE p).

(** ** Reading at known positions *)

Lemma at_off_cons body off b l : at_off body off (b :: l) → at_off body (off + 1) l.
Proof. apply (at_off_app body off [b] l). Qed.

Lemma at8_run body off b l : at_off body off (b :: l) → at8 body off = Ok (u8 b).
Proof.
  intros Hat. pose proof (zlen_nonneg l). unfold at8.
  rewrite (at_off_in_buffer _ _ _ _ Hat), zlen_cons by lia.
  destruct (Z.leb_spec 1 (1 + zlen l)); [|lia].
  destruct Hat as (_ & Hs & _).
  rewrite <- (firstn_skipn (Z.to_nat off) body), Hs at 1.
  assert (length (firstn (Z.to_nat off) body) = Z.to_nat off) as Hl.
  { apply (f_equal length) in Hs. rewrite length_skipn in Hs. simpl in Hs.
    rewrite length_firstn. lia. }
  rewrite lookup_app_r by lia. by rewrite Hl, Nat.sub_diag.
Qed.

Lemma read16_run body off l rest :
  at_off body off (l ++ rest) → zlen l = 2 → read16 body off = Ok (load_be l).
Proof.
  intros Hat Hl. unfold zlen in Hl. destruct l as [|a [|b [|]]]; simpl in Hl; try lia.
  simpl in Hat. assert (Hat' := at_off_cons _ _ _ _ Hat). unfold read16.
  erewrite (at8_run _ off), (at8_run _ (off + 1)) by done. cbn [rbind].
  unfold load_be. cbn [rev app load_le]. pose proof (u8_range a). pose proof (u8_range b).
  rewrite lor_shiftl_add, wrap_small by (unfold is_uint; lia). f_equal. lia.
Qed.

Lemma read32_run body off l rest :
  at_off body off (l ++ rest) → zlen l = 4 → read32 body off = Ok (load_be l).
Proof.
  intros Hat Hl. unfold zlen in Hl. destruct l as [|a [|b [|c [|d [|]]]]]; simpl in Hl; try lia.
  simpl in Hat. assert (Hat1 := at_off_cons _ _ _ _ Hat). assert (Hat2 := at_off_cons _ _ _ _ Hat1).
  assert (Hat3 := at_off_cons _ _ _ _ Hat2). rewrite <- !Z.add_assoc in *. unfold read32.
  erewrite (at8_run _ off), (at8_run _ (off + 1)), (at8_run _ (off + 2)), (at8_run _ (off + 3)) by done.
  cbn [rbind]. unfold load_be. cbn [rev app load_le]. pose proof (u8_range a).
  pose proof (u8_range b). pose proof (u8_range c). pose proof (u8_range d).
  rewrite !wrap_small by (unfold is_uint; rewrite Z.shiftl_mul_pow2; lia).
  change 24 with (8 + 8 + 8). change 16 with (8 + 8).
  rewrite <- !Z.shiftl_shiftl, <- !Z.shiftl_lor by lia.
  rewrite !lor_shiftl_add by lia. f_equal. lia.
Qed.

Lemma read_from_run n : ∀ body off l rest v,
  at_off body off (l ++ rest) → length l = n → read_from n body off v = Ok (fold_left shift_in l v).
Proof.
  induction n as [|n IH]; intros body off l rest v Hat Hl.
  { by apply nil_length_inv in Hl as ->. }
  destruct l as [|b l]; [done|]. simpl in Hat, Hl |- *. erewrite at8_run by done. simpl.
  eapply IH; [by eapply at_off_cons|lia].
Qed.

Lemma read64_run body off l rest :
  at_off body off (l ++ rest) → zlen l = 8 → read64 body off = Ok (load_be l).
Proof.
  intros Hat Hl. unfold zlen in Hl. unfold read64.
  rewrite (read_from_run 8 _ _ l rest) by (done || lia). f_equal. apply load_loop_be. lia.
Qed.

Lemma sub_bytes_run body off l rest :
  at_off body off (l ++ rest) → sub_bytes body off (zlen l) = Ok l.
Proof.
  intros Hat. pose proof (zlen_nonneg l). pose proof (zlen_nonneg rest). unfold sub_bytes.
  rewrite (at_off_in_buffer _ _ _ _ Hat), (at_off_slice _ _ _ _ Hat), zlen_app by done.
  destruct (Z.leb_spec (zlen l) (zlen l + zlen rest)); [|lia].
  unfold zlen. by rewrite Nat2Z.id, firstn_app, Nat.sub_diag, firstn_all, app_nil_r.
Qed.

Lemma put16_be b v : put16 b v = b ++ store_be 2 v.
Proof. unfold put16. rewrite <- store_loop_be. unfold store_loop. cbn. by rewrite Z.shiftr_0_r. Qed.
Lemma put32_be b v : put32 b v = b ++ store_be 4 v.
Proof. unfold put32. by rewrite store_loop_be. Qed.
Lemma put64_be b v : put64 b v = b ++ store_be 8 v.
Proof. unfold put64. by rewrite store_loop_be. Qed.
Lemma push_back_be b v : b ++ [to_u8 v] = b ++ store_be 1 v.
Proof. done. Qed.

Lemma store_be_u8 b : store_be 1 (u8 b) = [b].
Proof. unfold store_be. simpl. by rewrite to_u8_u8. Qed.

Lemma store_be_app_inj n a b r r' :
  is_uint (8 * Z.of_nat n) a → is_uint (8 * Z.of_nat n) b →
  store_be n a ++ r = store_be n b ++ r' → a = b ∧ r = r'.
Proof.
  intros Ha Hb E. apply app_inj_1 in E as [E ->]; [|by rewrite !length_store_be].
  apply (f_equal load_be) in E. by rewrite !load_store_be_uint in E.
Qed.

(** ** The abstract fields *)

Record tlv := mkTlv { t_id : Z; t_type : Z; t_flags : Z; t_data : bytes }.

Definition tlv_layout (t : tlv) : bytes :=
  store_be 2 (t_id t) ++ store_be 1 (t_type t) ++ store_be 1 (t_flags t) ++
  store_be 4 (zlen (t_data t)) ++ t_data t.

Definition tlvs_layout (ts : list tlv) : bytes := concat (tlv_layout <$> ts).

Definition wf_tlv (t : tlv) : Prop :=
  is_uint 16 (t_id t) ∧ 1 ≤ t_type t ≤ 12 ∧ 0 ≤ t_flags t < 4 ∧ is_uint 32 (zlen (t_data t)).

(** A field list as the wire carries it: identifiers at most once. *)
Definition wf_tlvs (ts : list tlv) : Prop := Forall wf_tlv ts ∧ NoDup (t_id <$> ts).

(** The views of the fields laid out from position [pos]. *)
Fixpoint views (pos : Z) (ts : list tlv) : list FieldView :=
  match ts with
  | [] => []
  | t :: ts => mkField (t_id t) (t_type t) (t_flags t) (pos + 8) (zlen (t_data t))
               :: views (pos + 8 + zlen (t_data t)) ts
  end.

Lemma zlen_tlv_layout t : zlen (tlv_layout t) = 8 + zlen (t_data t).
Proof. unfold tlv_layout. rewrite !zlen_app, !zlen_store_be. lia. Qed.

Lemma flags_ok f : 0 ≤ f → negb (Z.land f (Z.lnot 3) =? 0) = false ↔ f < 4.
Proof.
  intros Hf. change (Z.land f (Z.lnot 3)) with (Z.land f (Z.lnot (Z.ones 2))).
  rewrite <- Z.ldiff_land, Z.ldiff_ones_r, Z.shiftl_mul_pow2, Z.shiftr_div_pow2 by lia.
  change (2 ^ 2) with 4. pose proof (Z.div_mod f 4). pose proof (Z.mod_pos_bound f 4).
  rewrite negb_false_iff, Z.eqb_eq. lia.
Qed.

(** The header of a field, as the loop reads it. *)
Lemma tlv_header body pos l :
  at_off body pos l → 8 ≤ zlen l →
  ∃ i t f s rest,
    l = store_be 2 i ++ store_be 1 t ++ store_be 1 f ++ store_be 4 s ++ rest ∧
    is_uint 16 i ∧ is_uint 8 t ∧ is_uint 8 f ∧ is_uint 32 s ∧
    read16 body pos = Ok i ∧ at8 body (pos + 2) = Ok t ∧ at8 body (pos + 3) = Ok f ∧
    read32 body (pos + 4) = Ok s ∧ at_off body (pos + 8) rest.
Proof.
  intros Hat Hlen.
  destruct (split_at 2 l) as (li & l1 & -> & Hi); [lia|]. rewrite zlen_app in Hlen.
  destruct l1 as [|t [|f l1]]; rewrite ?zlen_cons, ?zlen_nil in Hlen; try lia.
  destruct (split_at 4 l1) as (ls & rest & -> & Hs); [lia|].
  exists (load_be li), (u8 t), (u8 f), (load_be ls), rest.
  assert (Hat1 := at_off_app _ _ _ _ Hat). rewrite Hi in Hat1.
  assert (Hat2 := at_off_cons _ _ _ _ Hat1). assert (Hat3 := at_off_cons _ _ _ _ Hat2).
  assert (Hat4 := at_off_app _ _ _ _ Hat3). rewrite Hs in Hat4. rewrite <- !Z.add_assoc in *.
  rewrite !store_be_u8.
  rewrite !store_load_be_z by lia. split_and!; try done; try apply is_uint_8_u8.
  - apply (load_be_uint_z li 2). lia.
  - apply (load_be_uint_z ls 4). lia.
  - by eapply read16_run.
  - by eapply at8_run.
  - by eapply at8_run.
  - by eapply read32_run.
Qed.

Lemma existsb_id (fs : list FieldView) i :
  existsb (λ x, fv_id x =? i) fs = false ↔ i ∉ fv_id <$> fs.
Proof.
  rewrite <- not_true_iff_false, existsb_exists, list_elem_of_fmap.
  setoid_rewrite <- list_elem_of_In. setoid_rewrite Z.eqb_eq. naive_solver.
Qed.

Lemma views_ids pos ts : fv_id <$> views pos ts = t_id <$> ts.
Proof. revert pos. induction ts as [|t ts IH]; intros pos; simpl; [done|]. by rewrite IH. Qed.

(** One iteration on the abstract field it meets. *)
Lemma tlvs_uncons i t f s rest ts :
  is_uint 16 i → is_uint 8 t → is_uint 8 f → is_uint 32 s → Forall wf_tlv ts →
  store_be 2 i ++ store_be 1 t ++ store_be 1 f ++ store_be 4 s ++ rest = tlvs_layout ts →
  ∃ data ts', ts = mkTlv i t f data :: ts' ∧ s = zlen data ∧ rest = data ++ tlvs_layout ts'.
Proof.
  intros Hi Ht Hf Hs Hwf E. destruct ts as [|[i' t' f' data] ts].
  { apply (f_equal zlen) in E. rewrite zlen_app, zlen_store_be in E. change (zlen (tlvs_layout [])) with 0 in E.
    pose proof (zlen_nonneg (store_be 1 t ++ store_be 1 f ++ store_be 4 s ++ rest)). lia. }
  inversion Hwf as [|? ? (Wi & Wt & Wf & Wd) _]; subst. unfold tlvs_layout, tlv_layout in E.
  cbn [fmap list_fmap concat t_id t_type t_flags t_data] in *. rewrite <- !app_assoc in E.
  apply (store_be_app_inj 2) in E as [-> E]; [|done..].
  apply (store_be_app_inj 1) in E as [-> E]; [|done|unfold is_uint; simpl; lia].
  apply (store_be_app_inj 1) in E as [-> E]; [|done|unfold is_uint; simpl; lia].
  apply (store_be_app_inj 4) in E as [-> E]; [|done..]. eauto.
Qed.

Lemma tlvs_layout_cons t ts : tlvs_layout (t :: ts) = tlv_layout t ++ tlvs_layout ts.
Proof. done. Qed.

Lemma tlvs_layout_nil_inv ts : tlvs_layout ts = [] → ts = [].
Proof.
  destruct ts as [|t ts]; [done|]. rewrite tlvs_layout_cons. intros E.
  apply (f_equal zlen) in E. rewrite zlen_app, zlen_tlv_layout, zlen_nil in E.
  pose proof (zlen_nonneg (t_data t)). pose proof (zlen_nonneg (tlvs_layout ts)). lia.
Qed.

Lemma tlvs_layout_short ts : zlen (tlvs_layout ts) < 8 → ts = [].
Proof.
  destruct ts as [|t ts]; [done|]. rewrite tlvs_layout_cons, zlen_app, zlen_tlv_layout.
  pose proof (zlen_nonneg (t_data t)). pose proof (zlen_nonneg (tlvs_layout ts)). lia.
Qed.

(** What the loop has to find in the rest of the buffer. *)
Definition parses_to (pos : Z) (l : bytes) (acc fs : list FieldView) : Prop :=
  ∃ ts, l = tlvs_layout ts ∧ Forall wf_tlv ts ∧
    (NoDup (t_id <$> ts) ∧ ∀ i, i ∈ t_id <$> ts → i ∉ fv_id <$> acc) ∧ fs = acc ++ views pos ts.

Lemma parses_to_nil pos acc fs : parses_to pos [] acc fs ↔ fs = acc.
Proof.
  split.
  - intros (ts & E & _ & _ & ->). symmetry in E. apply tlvs_layout_nil_inv in E as ->.
    apply app_nil_r.
  - intros ->. exists []. rewrite app_nil_r. split_and!; try done; [constructor|set_solver].
Qed.

Lemma parses_to_cons pos i t f data l acc fs :
  is_uint 16 i → is_uint 8 t → is_uint 8 f → is_uint 32 (zlen data) →
  parses_to pos (tlv_layout (mkTlv i t f data) ++ l) acc fs ↔
  (f < 4 ∧ 1 ≤ t ≤ 12 ∧ i ∉ fv_id <$> acc) ∧
  parses_to (pos + 8 + zlen data) l (acc ++ [mkField i t f (pos + 8) (zlen data)]) fs.
Proof.
  intros Hi Ht Hf Hd. split.
  - intros (ts & E & Hwf & [Hnd Hfresh] & ->). unfold tlv_layout in E. rewrite <- !app_assoc in E.
    apply tlvs_uncons in E as (data' & ts' & -> & Hz & E); [|done..].
    apply app_inj_1 in E as [<- ->]; [|unfold zlen in Hz; lia].
    inversion Hwf as [|? ? (_ & Wt & Wf & _) Hwf']; subst.
    inversion Hnd as [|? ? Hni Hnd']; subst. cbn [t_id t_type t_flags] in *.
    split; [split_and!; [lia|lia|lia|set_solver]|]. exists ts'.
    rewrite fmap_app, <- app_assoc. split_and!; try done. set_solver.
  - intros [(Wf & Wt & Hni) (ts & -> & Hwf & [Hnd Hfresh] & ->)].
    exists (mkTlv i t f data :: ts). rewrite <- app_assoc. rewrite fmap_app in Hfresh.
    unfold is_uint in Hf. split_and!; try done.
    + constructor; [|done]. split_and!; done || (simpl; lia).
    + constructor; [|done]. simpl. set_solver.
    + cbn [fmap list_fmap t_id]. set_solver.
Qed.

Lemma parse_loop_spec fuel : ∀ body pos acc l,
  at_off body pos l → (length l < fuel)%nat →
  decides (parse_loop fuel body pos acc) (parses_to pos l acc).
Proof.
  induction fuel as [|fuel IH]; intros body pos acc l Hat Hfuel; [lia|]. cbn [parse_loop].
  pose proof Hat as (Hpos & _ & Hsize). pose proof (zlen_nonneg l).
  destruct (Z.ltb_spec pos (zlen body)) as [Hlt|Hge].
  2: { assert (l = []) as -> by (apply zlen_zero_nil; lia). split; [done|]. intros fs.
       rewrite parses_to_nil. naive_solver. }
  replace (zlen body - pos) with (zlen l) by lia.
  destruct (Z.ltb_spec (zlen l) 8) as [Hshort|Hlong].
  { split; [done|]. intros fs. split; [done|]. intros (ts & -> & _).
    apply tlvs_layout_short in Hshort as ->. change (zlen (tlvs_layout [])) with 0 in *. lia. }
  destruct (tlv_header body pos l Hat Hlong)
    as (i & t & f & s & rest & -> & Hi & Ht & Hf & Hs & -> & -> & -> & -> & Hat').
  unfold reject_if at 1. rewrite !rbind_ret. cbn [fv_id].
  replace (zlen body - (pos + 8)) with (zlen rest) by (destruct Hat'; lia).
  destruct (Z.ltb_spec (zlen rest) s) as [Htrunc|Hfits].
  - split; [do 3 (apply safe_rbind; [apply safe_reject_if|intros ? ?]); done|]. intros fs. rewrite !rbind_reject. split; [naive_solver|].
    intros (ts & E & Hwf & _). apply tlvs_uncons in E as (data & ts' & _ & -> & ->); [|done..].
    rewrite zlen_app in Htrunc. pose proof (zlen_nonneg (tlvs_layout ts')). lia.
  - destruct (split_at s rest) as (data & rest' & -> & <-); [unfold is_uint in Hs; lia|].
    apply at_off_app in Hat'.
    destruct (IH body (pos + 8 + zlen data) (acc ++ [mkField i t f (pos + 8) (zlen data)]) rest')
      as [IHs IHfs]; [done| |].
    { rewrite !length_app, !length_store_be in Hfuel. lia. }
    split; [by auto 12 with codec|]. intros fs. rewrite !rbind_reject, IHfs.
    replace (store_be 2 i ++ _) with (tlv_layout (mkTlv i t f data) ++ rest')
      by (unfold tlv_layout; by rewrite <- !app_assoc).
    rewrite parses_to_cons, existsb_id, flags_ok, orb_false_iff by (done || apply Hf).
    cbn [reject_if]. intuition lia.
Qed.

(** ** UTF-8

    The reference is the encoding form of the Unicode standard: every scalar
    value has one encoding, of one to four bytes. *)

Definition scalar (cp : Z) : Prop := 0 ≤ cp < 0xd800 ∨ 0xe000 ≤ cp ≤ 0x10ffff.

Definition utf8_cont (v : Z) : byte := to_u8 (0x80 + v mod 64).

Definition utf8_encode (cp : Z) : bytes :=
  if cp <? 0x80 then [to_u8 cp]
  else if cp <? 0x800 then [to_u8 (0xc0 + cp / 64); utf8_cont cp]
  else if cp <? 0x10000 then [to_u8 (0xe0 + cp / 4096); utf8_cont (cp / 64); utf8_cont cp]
  else [to_u8 (0xf0 + cp / 262144); utf8_cont (cp / 4096); utf8_cont (cp / 64); utf8_cont cp].

Definition well_formed_utf8 (s : bytes) : Prop :=
  ∃ cps, Forall scalar cps ∧ s = concat (utf8_encode <$> cps).

Ltac zdiv := Z.div_mod_to_equations; lia.

Lemma cont_byte d : (Z.land (u8 d) 0xc0 =? 0x80) = (0x80 <=? u8 d) && (u8 d <=? 0xbf).
Proof. by destruct d. Qed.

Lemma cont_bits cp d : 0 ≤ cp < 2 ^ 20 →
  Z.lor (wrap 32 (Z.shiftl cp 6)) (Z.land (u8 d) 0x3f) = cp * 64 + u8 d mod 64.
Proof.
  intros Hcp. pose proof (u8_range d). change 0x3f with (Z.ones 6). rewrite Z.land_ones by lia.
  rewrite wrap_small by (unfold is_uint; rewrite Z.shiftl_mul_pow2; lia).
  apply lor_shiftl_add; [lia|]. apply Z.mod_pos_bound. lia.
Qed.

Lemma utf8_lead_arith c : 0 ≤ c < 256 → utf8_lead c =
  if (0xc2 <=? c) && (c <=? 0xdf) then Some (c - 0xc0, 1%nat)
  else if (0xe0 <=? c) && (c <=? 0xef) then Some (c - 0xe0, 2%nat)
  else if (0xf0 <=? c) && (c <=? 0xf4) then Some (c - 0xf0, 3%nat)
  else None.
Proof.
  intros Hc. unfold utf8_lead.
  change 0x1f with (Z.ones 5). change 0x0f with (Z.ones 4). change 0x07 with (Z.ones 3).
  rewrite !Z.land_ones by lia. change (2 ^ 5) with 32. change (2 ^ 4) with 16.
  change (2 ^ 3) with 8. repeat case_match; try done; do 2 f_equal; zdiv.
Qed.

(** The value of the continuation bytes [ds] after the bits [cp]. *)
Definition cont_value (cp : Z) (ds : bytes) : Z := fold_left (λ v d, v * 64 + u8 d mod 64) ds cp.
Definition is_cont (d : byte) : bool := (0x80 <=? u8 d) && (u8 d <=? 0xbf).

Lemma utf8_tail_run ds : ∀ p i cp rest,
  at_off p i (ds ++ rest) → 0 ≤ cp → (cp + 1) * 64 ^ zlen ds ≤ 2 ^ 26 →
  utf8_tail (length ds) p i cp =
    Ok (if forallb is_cont ds then Some (i + zlen ds, cont_value cp ds) else None).
Proof.
  induction ds as [|d ds IH]; intros p i cp rest Hat Hcp Hb; cbn [utf8_tail length].
  { simpl. unfold cont_value, zlen. simpl. by rewrite Z.add_0_r. }
  erewrite at8_run by done. rewrite rbind_ret, cont_byte. cbn [forallb]. unfold is_cont at 1.
  rewrite zlen_cons, Z.pow_add_r in Hb by (lia || apply zlen_nonneg).
  assert (1 ≤ 64 ^ zlen ds) by (pose proof (Z.pow_pos_nonneg 64 (zlen ds)); pose proof (zlen_nonneg ds); lia).
  destruct (_ && _); [|done]. cbn [negb andb].
  rewrite cont_bits by nia. pose proof (Z.mod_pos_bound (u8 d) 64).
  rewrite (IH p (i + 1) _ rest); [|by eapply at_off_cons|lia|nia].
  rewrite zlen_cons, Z.add_assoc. done.
Qed.

(** One iteration on a multi-byte lead [c] with its continuation [ds]. *)
Lemma utf8_step_multi p i c ds rest cp :
  at_off p i (c :: ds ++ rest) → 0x7f < u8 c → utf8_lead (u8 c) = Some (cp, length ds) →
  0 ≤ cp → (cp + 1) * 64 ^ zlen ds ≤ 2 ^ 26 →
  utf8_step p i = Ok (if forallb is_cont ds && negb (utf8_bad_cp (length ds) (cont_value cp ds))
                      then Some (i + 1 + zlen ds) else None).
Proof.
  intros Hat Hc Hlead Hcp Hb. unfold utf8_step. erewrite at8_run by done. rewrite rbind_ret.
  destruct (Z.leb_spec (u8 c) 0x7f); [lia|]. rewrite Hlead.
  assert (zlen p - (i + 1) = zlen ds + zlen rest) as ->.
  { destruct Hat as (_ & _ & E). rewrite zlen_cons, zlen_app in E. lia. }
  pose proof (zlen_nonneg rest). change (Z.of_nat (length ds)) with (zlen ds).
  destruct (Z.ltb_spec (zlen ds + zlen rest) (zlen ds)); [lia|].
  erewrite utf8_tail_run by (done || by eapply at_off_cons). rewrite rbind_ret.
  destruct (forallb is_cont ds); [|done]. by destruct (utf8_bad_cp _ _).
Qed.

Lemma utf8_step_short p i c l cp extra :
  at_off p i (c :: l) → 0x7f < u8 c → utf8_lead (u8 c) = Some (cp, extra) →
  zlen l < Z.of_nat extra → utf8_step p i = Ok None.
Proof.
  intros Hat Hc Hlead Hs. unfold utf8_step. erewrite at8_run by done. rewrite rbind_ret.
  destruct (Z.leb_spec (u8 c) 0x7f); [lia|]. rewrite Hlead.
  assert (zlen p - (i + 1) = zlen l) as ->.
  { destruct Hat as (_ & _ & E). rewrite zlen_cons in E. lia. }
  by destruct (Z.ltb_spec (zlen l) (Z.of_nat extra)); [|lia].
Qed.

Lemma to_u8_eq v b : v = u8 b → to_u8 v = b.
Proof. intros ->. apply to_u8_u8. Qed.

(** The bytes of a character, from the value of its lead and continuation. *)
Lemma utf8_encode_multi c ds cp :
  utf8_lead (u8 c) = Some (cp, length ds) → forallb is_cont ds = true →
  utf8_bad_cp (length ds) (cont_value cp ds) = false →
  scalar (cont_value cp ds) ∧ utf8_encode (cont_value cp ds) = c :: ds.
Proof.
  rewrite utf8_lead_arith by apply u8_range. pose proof (u8_range c) as Hc.
  intros Hlead Hcont Hbad.
  assert (∀ d, is_cont d = true → u8 d mod 64 = u8 d - 0x80 ∧ 0x80 ≤ u8 d ≤ 0xbf) as Hd.
  { unfold is_cont. intros d Hd. split; [zdiv|lia]. }
  destruct ds as [|d1 [|d2 [|d3 [|]]]]; cbn [length] in *; repeat case_match; simplify_eq;
    cbn [forallb] in Hcont; rewrite ?andb_true_iff in Hcont; break;
    repeat match goal with H : is_cont _ = true |- _ => apply Hd in H as [??] end;
    unfold cont_value in *; cbn [fold_left] in *;
    repeat match goal with H : u8 _ mod 64 = _ |- _ => rewrite H in * end;
    unfold utf8_bad_cp in Hbad; cbn [Nat.eqb andb] in Hbad;
    (split; [unfold scalar; lia|]); unfold utf8_encode, utf8_cont;
    repeat (case_match; [lia|]); repeat (case_match; try lia);
    repeat (apply (f_equal2 cons); [apply to_u8_eq; zdiv|]); done.
Qed.

Lemma utf8_lead_bound c cp (ds : bytes) :
  utf8_lead (u8 c) = Some (cp, length ds) → 0 ≤ cp ∧ (cp + 1) * 64 ^ zlen ds ≤ 2 ^ 26.
Proof.
  pose proof (u8_range c). rewrite utf8_lead_arith by done. unfold zlen.
  repeat case_match; intros; simplify_eq;
    match goal with H : _ = length ds |- _ => rewrite <- H end; lia.
Qed.

Lemma length_utf8_encode cp : (0 < length (utf8_encode cp))%nat.
Proof. unfold utf8_encode. repeat case_match; simpl; lia. Qed.

Lemma cont_mod v : u8 (utf8_cont v) mod 64 = v mod 64.
Proof. unfold utf8_cont. rewrite u8_to_u8. zdiv. Qed.

Lemma is_cont_cont v : is_cont (utf8_cont v) = true.
Proof. unfold is_cont, utf8_cont. rewrite u8_to_u8. apply andb_true_iff. split; zdiv. Qed.

(** The obligations of one row of the encoding table. *)
Ltac cont_case Hu :=
  unfold cont_value; rewrite utf8_lead_arith by apply u8_range;
  rewrite Hu by zdiv; cbn [forallb fold_left length Nat.eqb andb];
  rewrite !is_cont_cont, !cont_mod; unfold zlen; cbn [length];
  repeat (case_match; try zdiv); split_and!; try done; try zdiv; do 2 f_equal; lia.

Lemma utf8_encode_inv cp : scalar cp → 0x80 ≤ cp → ∃ c ds cp0,
  utf8_encode cp = c :: ds ∧ 0x7f < u8 c ∧ utf8_lead (u8 c) = Some (cp0, length ds) ∧
  (0 ≤ cp0 ∧ (cp0 + 1) * 64 ^ zlen ds ≤ 2 ^ 26) ∧ forallb is_cont ds = true ∧
  cont_value cp0 ds = cp ∧ utf8_bad_cp (length ds) cp = false.
Proof.
  intros Hs Hge. unfold scalar in Hs. unfold utf8_encode, utf8_bad_cp.
  assert (∀ b v, (0xc2 ≤ b + v ≤ 0xf4) → u8 (to_u8 (b + v)) = b + v) as Hu.
  { intros b v Hv. rewrite u8_to_u8. apply Z.mod_small. lia. }
  destruct (Z.ltb_spec cp 0x80); [lia|]. destruct (Z.ltb_spec cp 0x800);
    [|destruct (Z.ltb_spec cp 0x10000)].
  - exists (to_u8 (0xc0 + cp / 64)), [utf8_cont cp], (cp / 64). cont_case Hu.
  - exists (to_u8 (0xe0 + cp / 4096)), [utf8_cont (cp / 64); utf8_cont cp], (cp / 4096). cont_case Hu.
  - exists (to_u8 (0xf0 + cp / 262144)), [utf8_cont (cp / 4096); utf8_cont (cp / 64); utf8_cont cp],
      (cp / 262144). cont_case Hu.
Qed.

Lemma utf8_step_complete p i cp rest :
  scalar cp → at_off p i (utf8_encode cp ++ rest) →
  utf8_step p i = Ok (Some (i + zlen (utf8_encode cp))).
Proof.
  intros Hs Hat. destruct (Z.ltb_spec cp 0x80) as [Hlt|Hge].
  - assert (utf8_encode cp = [to_u8 cp]) as E.
    { unfold utf8_encode. by destruct (Z.ltb_spec cp 0x80); [|lia]. }
    rewrite E in *. unfold utf8_step. erewrite at8_run by done. rewrite rbind_ret, u8_to_u8.
    unfold scalar in Hs. rewrite Z.mod_small by lia. by destruct (Z.leb_spec cp 0x7f); [|lia].
  - destruct (utf8_encode_inv cp Hs Hge) as (c & ds & cp0 & E & Hc & Hl & [Hcp Hb] & Hd & Hv & Hbad).
    rewrite E in *. erewrite utf8_step_multi by done. rewrite Hv, Hd, Hbad, zlen_cons. cbn [negb andb].
    by rewrite Z.add_assoc.
Qed.

Lemma utf8_step_sound p i l :
  at_off p i l → l ≠ [] → ∃ o, utf8_step p i = Ok o ∧
    ∀ j, o = Some j → ∃ cp rest, scalar cp ∧ l = utf8_encode cp ++ rest ∧ j = i + zlen (utf8_encode cp).
Proof.
  intros Hat Hl. destruct l as [|c l]; [done|]. pose proof (u8_range c).
  destruct (Z.leb_spec (u8 c) 0x7f) as [Hc|Hc].
  { exists (Some (i + 1)). split.
    - unfold utf8_step. erewrite at8_run by done. rewrite rbind_ret.
      by destruct (Z.leb_spec (u8 c) 0x7f); [|lia].
    - intros j [= <-]. exists (u8 c), l. unfold utf8_encode, scalar.
      destruct (Z.ltb_spec (u8 c) 0x80); [|lia]. rewrite to_u8_u8. split_and!; [lia|done..]. }
  destruct (utf8_lead (u8 c)) as [[cp extra]|] eqn:Hlead.
  2: { exists None. split; [|done]. unfold utf8_step. erewrite at8_run by done. rewrite rbind_ret.
       destruct (Z.leb_spec (u8 c) 0x7f); [lia|]. by rewrite Hlead. }
  destruct (decide (Z.of_nat extra ≤ zlen l)) as [Hlong|Hshort].
  2: { exists None. split; [|done]. eapply utf8_step_short; [done..|lia]. }
  destruct (split_at (Z.of_nat extra) l) as (ds & rest & -> & Hds); [lia|].
  unfold zlen in Hds. apply Nat2Z.inj in Hds. subst extra.
  destruct (utf8_lead_bound c cp ds Hlead) as [Hcp Hb].
  eexists. split; [by eapply utf8_step_multi|].
  intros j. destruct (forallb is_cont ds) eqn:Hcont; [|done].
  destruct (utf8_bad_cp _ _) eqn:Hbad; [done|]. intros [= <-].
  destruct (utf8_encode_multi c ds cp) as [Hs E]; [done..|].
  exists (cont_value cp ds), rest. rewrite E, zlen_cons. split_and!; [done..|lia].
Qed.

Lemma utf8_loop_spec fuel : ∀ p i l,
  at_off p i l → (length l < fuel)%nat →
  ∃ b, utf8_loop fuel p i = Ok b ∧ (b = true ↔ well_formed_utf8 l).
Proof.
  induction fuel as [|fuel IH]; intros p i l Hat Hf; [lia|]. cbn [utf8_loop].
  pose proof Hat as (_ & _ & Hsize). destruct (decide (l = [])) as [->|Hl].
  { rewrite zlen_nil in Hsize. destruct (Z.ltb_spec i (zlen p)); [lia|]. exists true.
    split; [done|]. split; [|done]. intros _. by exists []. }
  assert (0 < zlen l) by (destruct l; [done|unfold zlen; simpl; lia]).
  destruct (Z.ltb_spec i (zlen p)); [|lia].
  destruct (utf8_step_sound p i l Hat Hl) as (o & Ho & Hsound). rewrite Ho, rbind_ret.
  assert (∀ cp rest, scalar cp → l = utf8_encode cp ++ rest → o = Some (i + zlen (utf8_encode cp)))
    as Hcomp.
  { intros cp rest Hs ->. pose proof (utf8_step_complete _ _ _ _ Hs Hat). congruence. }
  destruct o as [j|].
  - destruct (Hsound j eq_refl) as (cp & rest & Hs & -> & ->).
    destruct (IH p (i + zlen (utf8_encode cp)) rest) as (b & Hb & Hiff).
    { by apply at_off_app. }
    { rewrite length_app in Hf. pose proof (length_utf8_encode cp). lia. }
    exists b. split; [done|]. rewrite Hiff. split.
    + intros (cps & Hcps & ->). exists (cp :: cps). split; [by constructor|done].
    + intros ([|cp' cps] & Hcps & E); [by rewrite E in Hl|]. inversion Hcps; subst.
      cbn [fmap list_fmap concat] in E. pose proof (Hcomp cp' _ ltac:(done) E) as Hz. exists cps. split; [done|].
      apply app_inj_1 in E as [_ ->]; [done|]. injection Hz as Hz. unfold zlen in Hz. lia.
  - exists false. split; [done|]. split; [done|].
    intros ([|cp cps] & Hcps & ->); [done|]. inversion Hcps; subst.
    by specialize (Hcomp cp _ ltac:(done) eq_refl).
Qed.

Lemma valid_utf8_spec s : ∃ b, valid_utf8 s = Ok b ∧ (b = true ↔ well_formed_utf8 s).
Proof. apply utf8_loop_spec; [apply at_off_start|lia]. Qed.

(** ** The envelope *)

Definition envelope_layout (minor type flags request_id schema : Z) (payload : bytes) : bytes :=
  store_be 4 BRK2_MAGIC ++ store_be 1 BRK2_MAJOR ++ store_be 1 minor ++
  store_be 2 BRK2_HEADER_BYTES ++ store_be 2 type ++ store_be 2 flags ++ store_be 8 request_id ++
  store_be 4 schema ++ store_be 2 1 ++ store_be 2 0 ++ enc_prefixed 4 payload.

Lemma envelope_eq type flags request_id schema payload :
  is_uint 32 (zlen payload) →
  envelope type flags request_id schema payload =
  envelope_layout 0 type flags request_id schema payload.
Proof.
  intros Hl. unfold envelope, envelope_layout, enc_prefixed.
  rewrite !put32_be, !put16_be, put64_be, !push_back_be, wrap_small by done.
  by rewrite app_nil_l, <- !app_assoc.
Qed.

(** An integer of [n] bytes at the front of a long enough buffer. *)
Lemma take_be n l : Z.of_nat n ≤ zlen l → ∃ v l',
  l = store_be n v ++ l' ∧ is_uint (8 * Z.of_nat n) v ∧ zlen l' = zlen l - Z.of_nat n.
Proof.
  intros Hl. destruct (split_at (Z.of_nat n) l) as (a & l' & -> & Ha); [lia|].
  exists (load_be a), l'. rewrite store_load_be_z by done. split_and!; [done| |].
  - by apply load_be_uint_z.
  - rewrite zlen_app. lia.
Qed.

Lemma at8_be body off v l : at_off body off (store_be 1 v ++ l) → is_uint 8 v → at8 body off = Ok v.
Proof.
  intros Hat Hv. apply at8_run in Hat. rewrite Hat, u8_to_u8. f_equal. by apply Z.mod_small.
Qed.
Lemma read16_be body off v l :
  at_off body off (store_be 2 v ++ l) → is_uint 16 v → read16 body off = Ok v.
Proof.
  intros Hat Hv. rewrite (read16_run _ _ _ _ Hat) by apply zlen_store_be.
  f_equal. by apply load_store_be_uint.
Qed.
Lemma read32_be body off v l :
  at_off body off (store_be 4 v ++ l) → is_uint 32 v → read32 body off = Ok v.
Proof.
  intros Hat Hv. rewrite (read32_run _ _ _ _ Hat) by apply zlen_store_be.
  f_equal. by apply load_store_be_uint.
Qed.
Lemma read64_be body off v l :
  at_off body off (store_be 8 v ++ l) → is_uint 64 v → read64 body off = Ok v.
Proof.
  intros Hat Hv. rewrite (read64_run _ _ _ _ Hat) by apply zlen_store_be.
  f_equal. by apply load_store_be_uint.
Qed.

(** The members of the 32-byte header, as the decoder reads them. *)
Record header_parts := mkParts {
  hp_magic : Z; hp_major : Z; hp_minor : Z; hp_len : Z; hp_type : Z; hp_flags : Z; hp_id : Z;
  hp_schema : Z; hp_version : Z; hp_reserved : Z; hp_payload : Z }.

Definition wf_parts (h : header_parts) : Prop :=
  is_uint 32 (hp_magic h) ∧ is_uint 8 (hp_major h) ∧ is_uint 8 (hp_minor h) ∧
  is_uint 16 (hp_len h) ∧ is_uint 16 (hp_type h) ∧ is_uint 16 (hp_flags h) ∧
  is_uint 64 (hp_id h) ∧ is_uint 32 (hp_schema h) ∧ is_uint 16 (hp_version h) ∧
  is_uint 16 (hp_reserved h) ∧ is_uint 32 (hp_payload h).

Definition parts_layout (h : header_parts) : bytes :=
  store_be 4 (hp_magic h) ++ store_be 1 (hp_major h) ++ store_be 1 (hp_minor h) ++
  store_be 2 (hp_len h) ++ store_be 2 (hp_type h) ++ store_be 2 (hp_flags h) ++
  store_be 8 (hp_id h) ++ store_be 4 (hp_schema h) ++ store_be 2 (hp_version h) ++
  store_be 2 (hp_reserved h) ++ store_be 4 (hp_payload h).

Lemma parts_split body : 32 ≤ zlen body → ∃ h rest, wf_parts h ∧ body = parts_layout h ++ rest.
Proof.
  intros Hl.
  destruct (take_be 4 body) as (v1 & l1 & -> & H1 & E1); [lia|].
  destruct (take_be 1 l1) as (v2 & l2 & -> & H2 & E2); [lia|].
  destruct (take_be 1 l2) as (v3 & l3 & -> & H3 & E3); [lia|].
  destruct (take_be 2 l3) as (v4 & l4 & -> & H4 & E4); [lia|].
  destruct (take_be 2 l4) as (v5 & l5 & -> & H5 & E5); [lia|].
  destruct (take_be 2 l5) as (v6 & l6 & -> & H6 & E6); [lia|].
  destruct (take_be 8 l6) as (v7 & l7 & -> & H7 & E7); [lia|].
  destruct (take_be 4 l7) as (v8 & l8 & -> & H8 & E8); [lia|].
  destruct (take_be 2 l8) as (v9 & l9 & -> & H9 & E9); [lia|].
  destruct (take_be 2 l9) as (v10 & l10 & -> & H10 & E10); [lia|].
  destruct (take_be 4 l10) as (v11 & rest & -> & H11 & E11); [lia|].
  exists (mkParts v1 v2 v3 v4 v5 v6 v7 v8 v9 v10 v11), rest.
  unfold parts_layout. rewrite <- !app_assoc. done.
Qed.

Lemma parts_read h rest (body := parts_layout h ++ rest) : wf_parts h →
  (read32 body 0 = Ok (hp_magic h) ∧ at8 body 4 = Ok (hp_major h) ∧ read16 body 6 = Ok (hp_len h) ∧
   read16 body 8 = Ok (hp_type h) ∧ read16 body 10 = Ok (hp_flags h) ∧
   read64 body 12 = Ok (hp_id h) ∧ read32 body 20 = Ok (hp_schema h) ∧
   read16 body 24 = Ok (hp_version h) ∧ read16 body 26 = Ok (hp_reserved h) ∧
   read32 body 28 = Ok (hp_payload h)) ∧ at_off body 32 rest.
Proof.
  intros (H1 & H2 & H3 & H4 & H5 & H6 & H7 & H8 & H9 & H10 & H11).
  assert (Hat := at_off_start body). unfold body at 2 in Hat.
  unfold parts_layout in Hat. rewrite <- !app_assoc in Hat.
  assert (A1 := at_off_app _ _ _ _ Hat). assert (A2 := at_off_app _ _ _ _ A1).
  assert (A3 := at_off_app _ _ _ _ A2). assert (A4 := at_off_app _ _ _ _ A3).
  assert (A5 := at_off_app _ _ _ _ A4). assert (A6 := at_off_app _ _ _ _ A5).
  assert (A7 := at_off_app _ _ _ _ A6). assert (A8 := at_off_app _ _ _ _ A7).
  assert (A9 := at_off_app _ _ _ _ A8). assert (A10 := at_off_app _ _ _ _ A9).
  assert (A11 := at_off_app _ _ _ _ A10).
  rewrite !zlen_store_be in *. cbn [Z.of_nat Z.add Pos.of_succ_nat Pos.succ Pos.add] in *.
  split_and!; first [by eapply at8_be | by eapply read16_be | by eapply read32_be
                    | by eapply read64_be | done].
Qed.

Lemma parts_inj h h' rest rest' : wf_parts h → wf_parts h' →
  parts_layout h ++ rest = parts_layout h' ++ rest' → h = h' ∧ rest = rest'.
Proof.
  intros (H1 & H2 & H3 & H4 & H5 & H6 & H7 & H8 & H9 & H10 & H11)
    (K1 & K2 & K3 & K4 & K5 & K6 & K7 & K8 & K9 & K10 & K11) E.
  unfold parts_layout in E. rewrite <- !app_assoc in E. destruct h, h'. cbn in *.
  do 11 (apply store_be_app_inj in E as [-> E]; [|done..]). done.
Qed.

Definition request_parts (minor id len : Z) : header_parts :=
  mkParts BRK2_MAGIC BRK2_MAJOR minor BRK2_HEADER_BYTES MSG_REQUEST 0 id BRK2_SCHEMA_REQUEST 1 0 len.

Lemma request_envelope minor id payload :
  envelope_layout minor MSG_REQUEST 0 id BRK2_SCHEMA_REQUEST payload =
  parts_layout (request_parts minor id (zlen payload)) ++ payload.
Proof. unfold envelope_layout, enc_prefixed, parts_layout. cbn [hp_magic]. by rewrite <- !app_assoc. Qed.

Lemma wf_request_parts minor id len :
  is_uint 8 minor → is_uint 64 id → is_uint 32 len → wf_parts (request_parts minor id len).
Proof. intros. unfold wf_parts. split_and!; done. Qed.

Lemma zlen_parts h : zlen (parts_layout h) = 32.
Proof. unfold parts_layout. by rewrite !zlen_app, !zlen_store_be. Qed.

(** A request envelope within the limits. *)
Definition request_body (lim : ProtocolLimits) (body : bytes) (id : Z) (payload : bytes) : Prop :=
  ∃ minor, is_uint 8 minor ∧ is_uint 64 id ∧ is_uint 32 (zlen payload) ∧
    body = envelope_layout minor MSG_REQUEST 0 id BRK2_SCHEMA_REQUEST payload ∧
    zlen payload ≤ max_payload_bytes lim ∧ zlen body ≤ max_frame_bytes lim.

Lemma decode_brk2_header_spec body lim :
  decides (decode_brk2_header body lim) (λ id, ∃ payload, request_body lim body id payload).
Proof.
  unfold decode_brk2_header, BRK2_HEADER_BYTES. destruct (Z.ltb_spec (zlen body) 32) as [Hs|Hl].
  { split; [done|]. intros id. split; [done|]. intros (p & minor & _ & _ & _ & -> & _).
    rewrite request_envelope, zlen_app, zlen_parts in Hs. pose proof (zlen_nonneg p). lia. }
  destruct (parts_split body Hl) as (h & rest & Hwf & ->).
  destruct (parts_read h rest Hwf) as ((-> & -> & -> & -> & -> & -> & -> & -> & -> & ->) & _).
  rewrite !rbind_ret, zlen_app, zlen_parts. split; [by auto 20 with codec|]. intros id.
  rewrite !rbind_reject, !orb_false_iff, !negb_false_iff, !Z.eqb_eq, !Z.ltb_ge. split.
  - intros E. exists rest, (hp_minor h).
    assert (h = request_parts (hp_minor h) id (zlen rest)) as Hh.
    { destruct h. cbn in *. break. unfold request_parts. f_equal; congruence || lia. }
    assert (hp_payload h = zlen rest) as Hp by lia. unfold wf_parts in Hwf. break.
    rewrite <- Hp at 1. rewrite request_envelope, <- Hh, zlen_app, zlen_parts.
    split_and!; done || lia.
  - intros (payload & minor & Hm & Hid & Hlen & E & Hp & Hf). rewrite request_envelope in *.
    apply parts_inj in E as [-> ->]; [|done|by apply wf_request_parts].
    rewrite zlen_app, zlen_parts in Hf. cbn. split_and!; done || lia.
Qed.

(** ** Field lookup *)

Definition field (ts : list tlv) (id : Z) : option tlv := List.find (λ t, t_id t =? id) ts.

(** A view and the abstract field it points to. *)
Definition views_field (body : bytes) (v : FieldView) (t : tlv) : Prop :=
  fv_id v = t_id t ∧ fv_type v = t_type t ∧ fv_flags v = t_flags t ∧
  fv_size v = zlen (t_data t) ∧ ∃ rest, at_off body (fv_data v) (t_data t ++ rest).

Lemma views_match body ts : ∀ pos,
  at_off body pos (tlvs_layout ts) → Forall2 (views_field body) (views pos ts) ts.
Proof.
  induction ts as [|t ts IH]; intros pos Hat; cbn [views]; constructor.
  - split_and!; try done. exists (tlvs_layout ts). cbn [fv_data]. rewrite tlvs_layout_cons in Hat.
    unfold tlv_layout in Hat. rewrite <- !app_assoc in Hat.
    do 4 apply at_off_app in Hat. rewrite !zlen_store_be, <- !Z.add_assoc in Hat. done.
  - apply IH. rewrite tlvs_layout_cons in Hat. apply at_off_app in Hat.
    by rewrite zlen_tlv_layout, Z.add_assoc in Hat.
Qed.

Section Lookup.
Context (body : bytes) (fs : list FieldView) (ts : list tlv).
Hypothesis Hviews : Forall2 (views_field body) fs ts.

Lemma find_field id :
  match find fs id, field ts id with
  | Some v, Some t => views_field body v t ∧ t_id t = id
  | None, None => True
  | _, _ => False
  end.
Proof.
  unfold find, field. induction Hviews as [|v t fs' ts' Hv Hr IH]; [done|]. cbn [List.find].
  destruct Hv as (Hid & Hv). rewrite Hid. destruct (Z.eqb_spec (t_id t) id); [|by apply IH].
  split; [by split|done].
Qed.

Lemma views_sub v t : views_field body v t → sub_bytes body (fv_data v) (fv_size v) = Ok (t_data t).
Proof. intros (_ & _ & _ & -> & rest & Hat). by eapply sub_bytes_run. Qed.

(** A required text field: present, of the right type, valid and non-empty. *)
Definition text_field (id : Z) (s : bytes) : Prop :=
  (∃ fl, field ts id = Some (mkTlv id WT_UTF8 fl s)) ∧ well_formed_utf8 s ∧ s ≠ [].

Lemma get_string_spec id : decides (get_string body fs id) (text_field id).
Proof.
  unfold get_string, text_field. pose proof (find_field id) as Hf.
  destruct (find fs id) as [v|], (field ts id) as [[i ty fl d]|]; try done.
  2: { split; [done|]. intros s. naive_solver. }
  destruct Hf as [Hv [= ->]]. rewrite (views_sub _ _ Hv). destruct Hv as (_ & -> & _). cbn [t_type t_data].
  rewrite rbind_ret. destruct (valid_utf8_spec d) as (b & -> & Hb). rewrite rbind_ret.
  split; [by auto 10 with codec|]. intros s.
  rewrite !rbind_reject, !negb_false_iff, Z.eqb_eq, Hb, bool_decide_eq_false. naive_solver.
Qed.

(** A required field of a given type and content. *)
Definition typed_field (id type : Z) (data : bytes) : Prop :=
  ∃ fl, field ts id = Some (mkTlv id type fl data).

Lemma get_fixed_spec id type n :
  safe (get_fixed fs id type n) ∧
  (∀ p, get_fixed fs id type n = Ok p → ∃ data rest,
     typed_field id type data ∧ zlen data = n ∧ at_off body p (data ++ rest)) ∧
  (∀ data, typed_field id type data → zlen data = n → ∃ p, get_fixed fs id type n = Ok p).
Proof.
  unfold get_fixed, typed_field. pose proof (find_field id) as Hf.
  destruct (find fs id) as [v|], (field ts id) as [[i ty fl d]|]; try done.
  2: { split_and!; [done..|]. naive_solver. }
  destruct Hf as [(_ & -> & _ & -> & rest & Hat) [= ->]]. cbn [t_type t_data] in *.
  split; [by auto with codec|].
  setoid_rewrite rbind_reject. setoid_rewrite orb_false_iff. setoid_rewrite negb_false_iff.
  setoid_rewrite Z.eqb_eq. split; [naive_solver|].
  intros data (fl' & [= -> -> ->]) Hz. by exists (fv_data v).
Qed.

(** An integer field, read through the pointer [get_fixed] returns. *)
Lemma get_uint_spec n (read : bytes → Z → result Z) id type :
  (∀ off v l, at_off body off (store_be n v ++ l) → is_uint (8 * Z.of_nat n) v →
     read body off = Ok v) →
  decides (p <-! get_fixed fs id type (Z.of_nat n);; read body p)
    (λ v, is_uint (8 * Z.of_nat n) v ∧ typed_field id type (store_be n v)).
Proof.
  intros Hread. destruct (get_fixed_spec id type (Z.of_nat n)) as (Hs & Hsound & Hcomp).
  assert (∀ p, get_fixed fs id type (Z.of_nat n) = Ok p → ∃ v, read body p = Ok v ∧
    is_uint (8 * Z.of_nat n) v ∧ typed_field id type (store_be n v)) as Hget.
  { intros p Hp. destruct (Hsound p Hp) as (d & rest & Hf & Hz & Hat).
    destruct (take_be n d) as (v & l' & -> & Hv & Hl'); [lia|].
    assert (l' = []) as -> by (apply zlen_zero_nil; lia). rewrite app_nil_r in *.
    exists v. split; [by eapply Hread|done]. }
  split.
  - apply safe_rbind; [done|]. intros p Hp. by destruct (Hget p Hp) as (v & -> & _).
  - intros v. rewrite rbind_Ok. split.
    + intros (p & Hp & Hr). destruct (Hget p Hp) as (v' & Hr' & Hv). rewrite Hr in Hr'. injection Hr' as <-. exact Hv.
    + intros [Hv Hf]. destruct (Hcomp _ Hf (zlen_store_be _ _)) as [p Hp].
      exists p. split; [done|]. destruct (Hget p Hp) as (v' & -> & Hv' & fl' & Hf').
      destruct Hf as [fl Hf]. rewrite Hf in Hf'. injection Hf' as _ E. f_equal.
      rewrite <- (app_nil_r (store_be n v)), <- (app_nil_r (store_be n v')) in E.
      by apply store_be_app_inj in E as [-> _].
Qed.

Lemma get_payload_spec max :
  decides (_ <-! get_fixed fs 7 WT_BYTES (match find fs 7 with Some f => fv_size f | None => 0 end);;
           match find fs 7 with
           | None => OutOfBounds
           | Some f => _ <-! reject_if (max <? fv_size f) (str "BRK2 request payload exceeds limit");;
                       sub_bytes body (fv_data f) (fv_size f)
           end)
    (λ d, typed_field 7 WT_BYTES d ∧ zlen d ≤ max).
Proof.
  unfold get_fixed, typed_field. pose proof (find_field 7) as Hf.
  destruct (find fs 7) as [v|], (field ts 7) as [[i ty fl d]|]; try done.
  2: { split; [done|]. naive_solver. }
  destruct Hf as [Hv [= ->]]. rewrite (views_sub _ _ Hv), Z.eqb_refl.
  destruct Hv as (_ & -> & _ & -> & _). cbn [t_type t_data].
  split; [by auto 10 with codec|]. intros s.
  rewrite orb_false_r, rbind_Ok. setoid_rewrite rbind_reject. setoid_rewrite negb_false_iff.
  setoid_rewrite Z.eqb_eq. setoid_rewrite Z.ltb_ge. naive_solver.
Qed.

(** An optional field that only has to have its type and size. *)
Lemma optional_spec id type n msg :
  decides match find fs id with
          | None => Ok tt
          | Some f => reject_if (negb (fv_type f =? type) || negb (fv_size f =? n)) msg
          end
    (λ _, ∀ t, field ts id = Some t → t_type t = type ∧ zlen (t_data t) = n).
Proof.
  pose proof (find_field id) as Hf.
  destruct (find fs id) as [v|], (field ts id) as [t|]; try done;
    [|split; [done|]; intros []; split; [by intros ? ?|done]].
  destruct Hf as [(_ & -> & _ & -> & _) _]. split; [apply safe_reject_if|]. intros u.
  rewrite reject_if_Ok, orb_false_iff, !negb_false_iff, !Z.eqb_eq. naive_solver.
Qed.

Definition preference_field (s : bytes) : Prop :=
  match field ts 10 with
  | None => s = []
  | Some t => t_type t = WT_UTF8 ∧ t_data t ∈ device_preferences ∧ s = t_data t
  end.

Lemma preference_spec :
  decides match find fs 10 with
          | None => Ok []
          | Some pref =>
              _ <-! reject_if (negb (fv_type pref =? WT_UTF8))
                      (str "invalid BRK2 device_preference type");;
              value <-! sub_bytes body (fv_data pref) (fv_size pref);;
              _ <-! reject_if (negb (bool_decide (value ∈ device_preferences)))
                      (str "unknown BRK2 device_preference");;
              Ok value
          end preference_field.
Proof.
  pose proof (find_field 10) as Hf. unfold preference_field.
  destruct (find fs 10) as [v|], (field ts 10) as [t|]; try done; [|apply decides_ret].
  destruct Hf as [Hv _]. rewrite (views_sub _ _ Hv), rbind_ret. destruct Hv as (_ & -> & _).
  split; [by auto 10 with codec|]. intros s.
  rewrite !rbind_reject, !negb_false_iff, Z.eqb_eq, bool_decide_eq_true. naive_solver.
Qed.

Lemma unknown_critical_spec :
  existsb (λ f, negb (known_field f) && negb (Z.land (fv_flags f) FIELD_CRITICAL =? 0)) fs = false ↔
  Forall (λ t, 1 ≤ t_id t ≤ 10 ∨ Z.land (t_flags t) FIELD_CRITICAL = 0) ts.
Proof.
  unfold known_field. induction Hviews as [|v t fs' ts' Hv Hr IH]; [done|]. cbn [existsb].
  destruct Hv as (-> & _ & -> & _). rewrite orb_false_iff, IH, Forall_cons_iff by done.
  assert (∀ P Q R : Prop, (P ↔ Q) → (P ∧ R ↔ Q ∧ R)) as Hcong by tauto. apply Hcong. lia.
Qed.

End Lookup.

(** ** What the request decoder accepts *)

(** The fields [ts] carry the request [req] within the limits. *)
Definition carries (lim : ProtocolLimits) (ts : list tlv) (req : BrokerRequest) : Prop :=
  Forall (λ t, 1 ≤ t_id t ≤ 10 ∨ Z.land (t_flags t) FIELD_CRITICAL = 0) ts ∧
  (text_field ts 1 (req_task_id req) ∧ text_field ts 2 (req_source req) ∧
   text_field ts 3 (req_destination req) ∧ text_field ts 4 (req_kind req)) ∧
  Forall (λ s, zlen s ≤ max_string_bytes lim)
    [req_task_id req; req_source req; req_destination req; req_kind req] ∧
  (is_uint 8 (req_priority req) ∧ typed_field ts 5 WT_U8 (store_be 1 (req_priority req))) ∧
  (1 ≤ req_timeout_ms req ≤ BROKER_MAX_TIMEOUT_MS ∧
   typed_field ts 6 WT_U32 (store_be 4 (req_timeout_ms req))) ∧
  (typed_field ts 7 WT_BYTES (req_payload req) ∧ zlen (req_payload req) ≤ max_payload_bytes lim) ∧
  (∀ t, field ts 8 = Some t → t_type t = WT_UUID ∧ zlen (t_data t) = 16) ∧
  (∀ t, field ts 9 = Some t → t_type t = WT_U64 ∧ zlen (t_data t) = 8) ∧
  preference_field ts (req_device_preference req) ∧ req_profile req = None.

Lemma strings_fit_spec lim (l : list bytes) :
  existsb (λ s, max_string_bytes lim <? zlen s) l = false ↔
  Forall (λ s, zlen s ≤ max_string_bytes lim) l.
Proof.
  induction l as [|s l IH]; [done|]. cbn [existsb].
  by rewrite orb_false_iff, Z.ltb_ge, IH, Forall_cons_iff.
Qed.

Lemma request_of_views_spec body fs ts lim :
  Forall2 (views_field body) fs ts → zlen body ≤ max_frame_bytes lim →
  decides (request_of_views body fs lim) (carries lim ts).
Proof.
  intros Hv Hsize. eapply decides_iff.
  - unfold request_of_views.
    eapply decides_bind; [apply decides_reject|]; intros ? ?.
    do 4 (eapply decides_bind; [by apply get_string_spec|]; intros ? ?).
    eapply decides_bind; [apply decides_reject|]; intros ? ?.
    eapply decides_bind; [apply (get_uint_spec _ _ _ Hv 1 at8); by eauto using at8_be|]; intros ? ?.
    eapply decides_bind; [apply (get_uint_spec _ _ _ Hv 4 read32); by eauto using read32_be|]; intros ? ?.
    eapply decides_bind; [by apply get_payload_spec|]; intros ? ?.
    do 2 (eapply decides_bind; [by apply (optional_spec _ _ _ Hv)|]; intros ? ?).
    eapply decides_bind; [by apply (preference_spec _ _ _ Hv)|]; intros ? ?.
    do 2 (eapply decides_bind; [apply decides_reject|]; intros ? ?). apply decides_ret.
  - intros req. cbv beta. pose proof (unknown_critical_spec _ _ _ Hv) as Hcrit. unfold carries. split.
    + intros (u & Hc & Hrest). apply Hcrit in Hc. break. cbn_fields.
      match goal with H : existsb _ _ = false |- _ => apply strings_fit_spec in H end.
      split_and!; try done; unfold is_uint in *; lia.
    + destruct req. cbn_fields. intros (Hc & (Ht1 & Ht2 & Ht3 & Ht4) & Hs & Hp & [Hto Hto'] & Hpl & H8 & H9 & Hpr & ->).
      exists tt. split; [by apply Hcrit|]. do 4 (eexists; split; [done|]).
      exists tt. split; [by apply strings_fit_spec|]. eexists; split; [done|].
      unfold BROKER_MAX_TIMEOUT_MS in *.
      eexists; split; [split; [|done]; unfold is_uint; simpl; lia|]. eexists; split; [done|].
      do 2 (exists tt; split; [done|]). eexists; split; [done|].
      do 2 (exists tt; split; [lia|]). done.
Qed.

Lemma decode_brk2_fields_spec body lim payload :
  at_off body BRK2_HEADER_BYTES payload → zlen body ≤ max_frame_bytes lim →
  decides (decode_brk2_fields body lim)
    (λ req, ∃ ts, payload = tlvs_layout ts ∧ wf_tlvs ts ∧ carries lim ts req).
Proof.
  intros Hat Hsize. unfold decode_brk2_fields.
  destruct (parse_loop_spec (S (length body)) body BRK2_HEADER_BYTES [] payload) as [Hs Hparse]; [done| |].
  { destruct Hat as (_ & <- & _). rewrite length_skipn. lia. }
  fold (parse_fields body) in *. split.
  - apply safe_rbind; [done|]. intros fs Hfs. apply Hparse in Hfs as (ts & -> & _ & _ & ->).
    eapply request_of_views_spec; [by apply views_match|done].
  - intros req. rewrite rbind_Ok. split.
    + intros (fs & (ts & -> & Hwf & [Hnd _] & ->)%Hparse & Hreq). exists ts.
      split_and!; [done..|]. eapply request_of_views_spec; [by apply views_match|done..].
    + intros (ts & -> & [Hwf Hnd] & Hc). exists (views BRK2_HEADER_BYTES ts). split.
      * apply Hparse. exists ts. split_and!; try done. set_solver.
      * eapply request_of_views_spec; [by apply views_match|done..].
Qed.

(** ** Theorems *)

Lemma request_body_at lim body id payload :
  request_body lim body id payload → at_off body BRK2_HEADER_BYTES payload.
Proof.
  intros (minor & Hm & Hid & Hp & -> & _). rewrite request_envelope.
  by apply parts_read, wf_request_parts.
Qed.

Lemma request_body_size lim body id payload :
  request_body lim body id payload → zlen body ≤ max_frame_bytes lim.
Proof. by intros (minor & _ & _ & _ & _ & _ & Hs). Qed.

Lemma request_body_inj lim body id id' p p' :
  request_body lim body id p → request_body lim body id' p' → id = id' ∧ p = p'.
Proof.
  intros (m & Hm & Hid & Hp & -> & _) (m' & Hm' & Hid' & Hp' & E & _).
  rewrite !request_envelope in E.
  apply parts_inj in E as [E ->]; [|by apply wf_request_parts..]. by injection E.
Qed.

(** C28: the BRK2 request decoder accepts a body exactly when it is a request
    envelope within the limits, with no flags and any minor version, whose
    payload is a sequence of fields with distinct identifiers, no unknown
    critical field, the required fields well typed and a device preference,
    where there is one, of [cpu], [gpu], [npu] or [auto]; it then returns the
    request these fields carry and the envelope's request id, whatever the
    order of the fields and whatever unknown optional fields are among them.
    This is the grammar of the decoder, not that of the documents:
    docs/BROKER_PROTOCOL.md accepts the low eight flag bits and only version
    2.0, and docs/YUKKI_INTEROP.md does not have [auto]. *)
Theorem brk2_request_spec body old old_id err lim req id :
  decode_brk2_request_body body (Some old) (Some old_id) err lim
    = Ok (true, Some req, Some id, err) ↔
  ∃ ts, request_body lim body id (tlvs_layout ts) ∧ wf_tlvs ts ∧ carries lim ts req.
Proof.
  unfold decode_brk2_request_body. destruct (decode_brk2_header_spec body lim) as [Hs Hh].
  split.
  - destruct (decode_brk2_header body lim) as [i| | |] eqn:E; try done.
    destruct (proj1 (Hh i) eq_refl) as (p & Hb).
    pose proof (request_body_at _ _ _ _ Hb) as Hat.
    destruct (decode_brk2_fields_spec body lim p Hat (request_body_size _ _ _ _ Hb)) as [Hs' Hf].
    destruct (decode_brk2_fields body lim) as [r| | |] eqn:E'; try done.
    intros [= <- <-]. destruct (proj1 (Hf r) eq_refl) as (ts & -> & Hwf & Hc). eauto.
  - intros (ts & Hb & Hwf & Hc). pose proof (request_body_at _ _ _ _ Hb) as Hat.
    rewrite (proj2 (Hh id)) by eauto.
    destruct (decode_brk2_fields_spec body lim _ Hat (request_body_size _ _ _ _ Hb)) as [_ Hf].
    rewrite (proj2 (Hf req)) by eauto. done.
Qed.

(** A request with its fields out of order and an unknown optional field. *)
Definition sample_tlvs : list tlv :=
  [mkTlv 7 WT_BYTES 1 (str "data"); mkTlv 1 WT_UTF8 1 (str "t-1"); mkTlv 2 WT_UTF8 1 (str "yukki");
   mkTlv 300 WT_I64 0 []; mkTlv 4 WT_UTF8 1 (str "inference"); mkTlv 3 WT_UTF8 1 (str "any");
   mkTlv 6 WT_U32 1 (store_be 4 2500); mkTlv 5 WT_U8 1 (store_be 1 7);
   mkTlv 10 WT_UTF8 0 (str "npu")].

(** The decoder on a concrete body: fields in any order and unknown optional fields are accepted, the same
    field marked critical is not, nor is a duplicated one. *)
Example brk2_request_examples :
  let body ts := envelope_layout 9 MSG_REQUEST 0 77 BRK2_SCHEMA_REQUEST (tlvs_layout ts) in
  let decode ts := decode_brk2_request_body (body ts) (Some default_request) (Some 0) (Some [])
                     default_limits in
  decode sample_tlvs = Ok (true,
    Some (mkRequest (str "t-1") (str "yukki") (str "any") (str "inference") 7 2500 (str "data")
            None (str "npu")), Some 77, Some []) ∧
  decode (mkTlv 301 WT_I64 1 [] :: sample_tlvs)
    = Ok (false, Some default_request, Some 77, Some (str "unknown critical BRK2 field")) ∧
  decode (mkTlv 300 WT_I64 0 [] :: sample_tlvs)
    = Ok (false, Some default_request, Some 77, Some (str "duplicate BRK2 singular field")).
Proof. vm_compute. done. Qed.

(** Where the decoder and the documents differ: a request with a flag bit is
    rejected, and one with the preference [auto] is accepted. *)
Example brk2_request_divergences :
  let body flags ts := envelope_layout 0 MSG_REQUEST flags 77 BRK2_SCHEMA_REQUEST (tlvs_layout ts) in
  let decode flags ts := decode_brk2_request_body (body flags ts) (Some default_request) (Some 0) (Some [])
                           default_limits in
  decode 1 sample_tlvs
    = Ok (false, Some default_request, Some 0, Some (str "unsupported BRK2 request flags")) ∧
  decode 0 (take 8 sample_tlvs ++ [mkTlv 10 WT_UTF8 0 (str "auto")]) = Ok (true,
    Some (mkRequest (str "t-1") (str "yukki") (str "any") (str "inference") 7 2500 (str "data")
            None (str "auto")), Some 77, Some []).
Proof. vm_compute. done. Qed.

(** C29: UTF-8 validation terminates, stays within the field, and accepts
    exactly the concatenations of UTF-8 encodings of Unicode scalar values:
    no overlong forms, no surrogates, nothing above U+10FFFF. *)
Theorem valid_utf8_correct s :
  ∃ b, valid_utf8 s = Ok b ∧ (b = true ↔ well_formed_utf8 s).
Proof. apply valid_utf8_spec. Qed.

(** Whatever body arrives, the BRK2 decoder returns without reading out of
    bounds; on failure [*out] is untouched, and [*request_id] is written only
    when the header was valid, with the id to be echoed. *)
Theorem brk2_decode_total body out request_id err lim :
  ∃ ok out' request_id' err',
    decode_brk2_request_body body out request_id err lim = Ok (ok, out', request_id', err') ∧
    (ok = true → (∃ req, out' = Some req) ∧ err' = err) ∧
    (ok = false → out' = out ∧ (is_Some err' ↔ is_Some err)) ∧
    (request_id' = request_id ∨
     ∃ id payload, request_id' = Some id ∧ request_body lim body id payload).
Proof.
  unfold decode_brk2_request_body.
  assert (∀ s, is_Some (store_error err s) ↔ is_Some err) as Herr
    by (intros s; by destruct err; rewrite ?is_Some_alt).
  destruct (decode_brk2_header_spec body lim) as [Hs Hh].
  destruct out as [old|], request_id as [old_id|];
    try (do 4 eexists; split; [done|]; split_and!; [done|split; [done|apply Herr]|by left]).
  destruct (decode_brk2_header body lim) as [i|e| |] eqn:E; try done.
  2: { do 4 eexists; split; [done|]; split_and!; [done|split; [done|apply Herr]|by left]. }
  destruct (proj1 (Hh i) eq_refl) as (p & Hb).
  destruct (decode_brk2_fields_spec body lim p (request_body_at _ _ _ _ Hb)
              (request_body_size _ _ _ _ Hb)) as [Hs' _].
  destruct (decode_brk2_fields body lim) as [r| | |]; try done.
  - do 4 eexists; split; [done|]; split_and!; [eauto|done|eauto].
  - do 4 eexists; split; [done|]; split_and!; [done|split; [done|apply Herr]|eauto].
Qed.

(** *** Responses *)

Lemma put_field_spec p id type data flags :
  decides (put_field p id type data flags)
    (λ q, zlen data ≤ u32_max ∧ q = p ++ tlv_layout (mkTlv id type flags data)).
Proof.
  unfold put_field, u32_max. split; [by auto with codec|]. intros q.
  pose proof (zlen_nonneg data). rewrite rbind_reject, Z.ltb_ge, put16_be, put32_be, !push_back_be.
  unfold tlv_layout. cbn [t_id t_type t_flags t_data].
  assert ((if zlen data =? 0 then _ else _) =
          (((p ++ store_be 2 id) ++ store_be 1 type) ++ store_be 1 flags)
            ++ store_be 4 (wrap 32 (zlen data)) ++ data) as ->.
  { case_match; [|by rewrite <- !app_assoc]. assert (data = []) as -> by (apply zlen_zero_nil; lia).
    by rewrite app_nil_r. }
  rewrite <- !app_assoc. split.
  - intros [Hl E]. rewrite wrap_small in E by (unfold is_uint; lia). split; [done|congruence].
  - intros [Hl ->]. by rewrite wrap_small by (unfold is_uint; lia).
Qed.

Lemma put_field_run p id type data flags :
  zlen data ≤ u32_max → put_field p id type data flags = Ok (p ++ tlv_layout (mkTlv id type flags data)).
Proof. intros Hl. by apply put_field_spec. Qed.

(** The fields of a response, in the order they are written. *)
Definition response_tlvs (r : BrokerResponse) : list tlv :=
  [mkTlv 1 WT_UTF8 0 (resp_task_id r); mkTlv 2 WT_U8 0 (store_be 1 (TaskStatus_u8 (resp_status r)));
   mkTlv 3 WT_I64 0 (store_be 8 (wrap 64 (resp_selected_gpu r)));
   mkTlv 4 WT_U64 0 (store_be 8 (resp_latency_ms r)); mkTlv 5 WT_BYTES 0 (resp_result r);
   mkTlv 6 WT_UTF8 0 (resp_error r); mkTlv 7 WT_UTF8 0 (backend_name (resp_backend r))].

(** What a response may measure: seven field headers, the fixed fields and a
    three-letter backend name take 76 bytes. *)
Definition brk2_response_fits (lim : ProtocolLimits) (r : BrokerResponse) : Prop :=
  zlen (resp_task_id r) ≤ max_string_bytes lim ∧ zlen (resp_error r) ≤ max_string_bytes lim ∧
  76 + zlen (resp_task_id r) + zlen (resp_error r) + zlen (resp_result r) ≤ max_payload_bytes lim ∧
  108 + zlen (resp_task_id r) + zlen (resp_error r) + zlen (resp_result r) ≤ max_frame_bytes lim.

Lemma zlen_response_tlvs r : zlen (tlvs_layout (response_tlvs r)) =
  76 + zlen (resp_task_id r) + zlen (resp_error r) + zlen (resp_result r).
Proof.
  unfold response_tlvs. rewrite !tlvs_layout_cons, !zlen_app, !zlen_tlv_layout. cbn [t_data].
  rewrite !zlen_store_be. change (zlen (tlvs_layout [])) with 0.
  destruct (resp_backend r); change (zlen (backend_name _)) with 3; lia.
Qed.

Lemma encode_brk2_response_spec r id lim :
  max_payload_bytes lim ≤ u32_max →
  decides (encode_brk2_response_body r id lim)
    (λ b, brk2_response_fits lim r ∧
      b = envelope_layout 0 MSG_RESPONSE 5 id BRK2_SCHEMA_RESPONSE (tlvs_layout (response_tlvs r))).
Proof.
  intros Hlim. pose proof (zlen_response_tlvs r) as Hz.
  pose proof (zlen_nonneg (resp_task_id r)). pose proof (zlen_nonneg (resp_error r)).
  pose proof (zlen_nonneg (resp_result r)). eapply decides_iff.
  - unfold encode_brk2_response_body, field_str, field_u8, field_i64, field_u64, field_bytes.
    do 2 (eapply decides_bind; [apply decides_reject|]; intros ? ?).
    do 7 (eapply decides_bind; [apply put_field_spec|]; intros ? ?).
    eapply decides_bind; [apply decides_reject|]; intros ? ?. apply decides_ret.
  - intros b. cbv beta. rewrite !put64_be, !app_nil_l.
    change [to_u8 (TaskStatus_u8 (resp_status r))] with (store_be 1 (TaskStatus_u8 (resp_status r))).
    assert (∀ p, p = tlvs_layout (response_tlvs r) → zlen p ≤ max_payload_bytes lim →
      envelope MSG_RESPONSE (Z.lor FLAG_RESPONSE FLAG_END_STREAM) id BRK2_SCHEMA_RESPONSE p
      = envelope_layout 0 MSG_RESPONSE 5 id BRK2_SCHEMA_RESPONSE p) as Henv.
    { intros p -> Hp. apply envelope_eq. unfold is_uint. rewrite Hz in *. unfold u32_max in *. lia. }
    unfold brk2_response_fits, BRK2_HEADER_BYTES, u32_max in *. split.
    + intros (u1 & Hr & u2 & Hs & p1 & [_ ->] & p2 & [_ ->] & p3 & [_ ->] & p4 & [_ ->] & p5 & [_ ->]
              & p6 & [_ ->] & p7 & [_ E] & u3 & Hf & ->).
      rewrite <- !app_assoc in E.
      assert (p7 = tlvs_layout (response_tlvs r)) as ->.
      { rewrite E. unfold tlvs_layout, response_tlvs. cbn [fmap list_fmap concat]. by rewrite app_nil_r. }
      rewrite Henv by (done || lia). rewrite Hz in Hf. split_and!; done || lia.
    + intros [(Ht & He & Hp & Hf) ->].
      exists tt. split; [lia|]. exists tt. split; [lia|].
      do 7 (eexists; split; [split; [rewrite ?zlen_store_be; try lia; by destruct (resp_backend r)|done]|]).
      match goal with |- context [zlen ?p7] => assert (p7 = tlvs_layout (response_tlvs r)) as -> end.
      { rewrite <- !app_assoc. unfold tlvs_layout, response_tlvs.
        cbn [fmap list_fmap concat]. by rewrite app_nil_r. }
      rewrite Henv by (done || lia). exists tt. split; [lia|done].
Qed.

(** The response's fields satisfy what the parser demands. *)
Lemma wf_response_tlvs lim r :
  max_payload_bytes lim ≤ u32_max → brk2_response_fits lim r → wf_tlvs (response_tlvs r).
Proof.
  intros Hlim (_ & _ & Hp & _). unfold u32_max in *.
  pose proof (zlen_nonneg (resp_task_id r)). pose proof (zlen_nonneg (resp_error r)).
  pose proof (zlen_nonneg (resp_result r)).
  assert (0 ≤ zlen (backend_name (resp_backend r)) < 2 ^ 32) by (by destruct (resp_backend r)).
  split; [|cbn; repeat (constructor; [set_solver|]); constructor].
  repeat (apply List.Forall_cons; [unfold wf_tlv, is_uint; cbn [t_id t_type t_flags t_data];
    rewrite ?zlen_store_be; unfold WT_UTF8, WT_U8, WT_I64, WT_U64, WT_BYTES; lia|]).
  constructor.
Qed.

(** C30: a response is encoded exactly when its strings, its payload of 76
    bytes plus strings and result, and its frame are within the limits, and
    otherwise the encoder throws; the body is a response envelope that echoes
    the request id, and the server's own field parser recovers from it the
    seven fields of the response. *)
Theorem brk2_response_correct r id lim :
  max_payload_bytes lim ≤ u32_max →
  decides (encode_brk2_response_body r id lim)
    (λ b, brk2_response_fits lim r ∧
      b = envelope_layout 0 MSG_RESPONSE 5 id BRK2_SCHEMA_RESPONSE (tlvs_layout (response_tlvs r))) ∧
  ∀ b, encode_brk2_response_body r id lim = Ok b →
    parse_fields b = Ok (views BRK2_HEADER_BYTES (response_tlvs r)) ∧
    Forall2 (views_field b) (views BRK2_HEADER_BYTES (response_tlvs r)) (response_tlvs r).
Proof.
  intros Hlim. pose proof (encode_brk2_response_spec r id lim Hlim) as Henc. split; [done|].
  intros b [Hfit ->]%Henc. 
  assert (∀ p, at_off (envelope_layout 0 MSG_RESPONSE 5 id BRK2_SCHEMA_RESPONSE p)
                 BRK2_HEADER_BYTES p) as Hat.
  { intros p. unfold envelope_layout, enc_prefixed. match goal with |- at_off ?f _ _ => set (frame := f) end.
    assert (Hat := at_off_start frame). unfold frame in Hat at 2. do 11 apply at_off_app in Hat.
    by rewrite !zlen_store_be in Hat. }
  split; [|by apply views_match].
  destruct (wf_response_tlvs lim r Hlim Hfit) as [Hwf Hnd].
  apply (parse_loop_spec _ _ _ _ (tlvs_layout (response_tlvs r))); [done| |].
  - destruct (Hat (tlvs_layout (response_tlvs r))) as (_ & E & _).
    apply (f_equal length) in E. rewrite length_skipn in E. lia.
  - exists (response_tlvs r). split_and!; try done. set_solver.
Qed.

Lemma brk2_response_correct_witness :
  (∃ b, encode_brk2_response_body sample_response 77 default_limits = Ok b ∧
     parse_fields b = Ok (views BRK2_HEADER_BYTES (response_tlvs sample_response))).
Proof.
  eexists. split; [reflexivity|].
  apply (brk2_response_correct sample_response 77 default_limits); [done|reflexivity].
Defined.

(** The size check on the result alone does not make a response
    encodable: a result within [max_payload_bytes] but less than 76 bytes plus
    the strings below it makes the encoder throw. *)
Theorem brk2_response_overhead r id lim :
  zlen (resp_result r) ≤ max_payload_bytes lim ≤ u32_max →
  zlen (resp_task_id r) ≤ max_string_bytes lim → zlen (resp_error r) ≤ max_string_bytes lim →
  max_string_bytes lim ≤ u32_max →
  max_payload_bytes lim < 76 + zlen (resp_task_id r) + zlen (resp_error r) + zlen (resp_result r) →
  encode_brk2_response_body r id lim = Err (str "BRK2 response exceeds frame limit").
Proof.
  intros Hr Ht He Hs Hbig. unfold encode_brk2_response_body, field_str, field_u8, field_i64,
    field_u64, field_bytes.
  destruct (Z.ltb_spec (max_payload_bytes lim) (zlen (resp_result r))); [lia|].
  destruct (Z.ltb_spec (max_string_bytes lim) (zlen (resp_task_id r))); [lia|].
  destruct (Z.ltb_spec (max_string_bytes lim) (zlen (resp_error r))); [lia|].
  cbn [orb]. unfold reject_if at 1 2. rewrite !rbind_ret.
  do 7 (rewrite put_field_run, rbind_ret by (rewrite ?put64_be, ?app_nil_l, ?zlen_store_be; try lia;
    by destruct (resp_backend r))).
  rewrite !zlen_app, !zlen_tlv_layout. cbn [t_data]. rewrite !put64_be, !app_nil_l, !zlen_store_be.
  assert (zlen (backend_name (resp_backend r)) = 3) as -> by (by destruct (resp_backend r)).
  rewrite zlen_nil. change (zlen [_]) with 1.
  destruct (Z.ltb_spec (max_payload_bytes lim)
    (0 + (8 + zlen (resp_task_id r)) + (8 + 1) + (8 + Z.of_nat 8) + (8 + Z.of_nat 8) +
     (8 + zlen (resp_result r)) + (8 + zlen (resp_error r)) + (8 + 3))); [done|lia].
Qed.

(** With the default limits, a result of exactly [max_payload_bytes] bytes. *)
Definition full_response : BrokerResponse :=
  mkResponse (str "t1") StatusOk 0 1 (repeat Byte.x00 (Z.to_nat 524288)) [] Cpu false.

Lemma brk2_response_overhead_witness :
  encode_brk2_response_body full_response 1 default_limits
    = Err (str "BRK2 response exceeds frame limit").
Proof.
  assert (zlen (resp_result full_response) = 524288) as Hz.
  { unfold full_response, zlen. cbn [resp_result]. rewrite repeat_length. lia. }
  apply brk2_response_overhead; rewrite ?Hz; vm_compute; intuition congruence.
Defined.
