(* ===== verification/NvlinkPlacement.v ===== *)
(** * GPU topology and task placement (include/nvlink_placement.h, src/nvlink_placement.cpp)

    The topology is a pair of square matrices, indexed without bounds checks
    in the source ([at2] yields [OutOfBounds] outside them).  The answers of
    the CUDA runtime are the record [CudaRuntime].  The placer's round-robin
    counter is a 64-bit atomic and its affinity table a map under a mutex;
    [queue_depth], a caller-supplied function that samples queues other threads
    change, is indexed by the number of the call. *)

From S2P Require Import Prelude Numbers.

(** ** Data *)

Inductive LinkType := SELF | NVLINK | PCIE | NONE.
#[export] Instance LinkType_eq_dec : EqDecision LinkType.
Proof. solve_decision. Defined.

Definition link_type_name (lt : LinkType) : bytes :=
  match lt with
  | SELF => str "SELF"
  | NVLINK => str "NVLINK"
  | PCIE => str "PCIE"
  | NONE => str "NONE"
  end.

Record GpuTopology := mkTopology {
  num_gpus : Z;
  link_kind : list (list LinkType);
  link_bandwidth : list (list Z);
}.

(** What the CUDA runtime answers; [None] is an error code. *)
Record CudaRuntime := mkCuda {
  has_cuda : bool;
  device_count : option Z;
  can_access_peer : Z → Z → option bool;
  performance_rank : Z → Z → option Z;
  native_atomics : Z → Z → bool;
}.

(** ** Matrices *)

Definition matrix {A} (n : Z) (x : A) : list (list A) :=
  replicate (Z.to_nat n) (replicate (Z.to_nat n) x).

(** [m[i][j]]. *)
Definition at2 {A} (m : list (list A)) (i j : Z) : result A :=
  if (0 <=? i) && (0 <=? j) then
    match m !! Z.to_nat i with
    | Some row => match row !! Z.to_nat j with Some x => Ok x | None => OutOfBounds end
    | None => OutOfBounds
    end
  else OutOfBounds.

(** [m[i][j] = x]. *)
Definition set2 {A} (m : list (list A)) (i j : Z) (x : A) : list (list A) :=
  alter (λ row, <[Z.to_nat j := x]> row) (Z.to_nat i) m.

(** [0, 1, ..., n - 1]: the values of [for (int i = 0; i < n; ++i)]. *)
Definition range (n : Z) : list Z := Z.of_nat <$> seq 0 (Z.to_nat n).

(** ** Topology *)

Definition get_gpu_count (cuda : CudaRuntime) : Z :=
  if has_cuda cuda then default 0 (device_count cuda) else 0.

Definition is_valid_gpu (cuda : CudaRuntime) (gpu_idx : Z) : bool :=
  (0 <=? gpu_idx) && (gpu_idx <? get_gpu_count cuda).

Definition set_link (topo : GpuTopology) (i j : Z) (kind : LinkType) (bandwidth : Z) : GpuTopology :=
  mkTopology (num_gpus topo) (set2 (link_kind topo) i j kind) (set2 (link_bandwidth topo) i j bandwidth).

(** The loop that sets the diagonal. *)
Definition set_self (topo : GpuTopology) (n : Z) : GpuTopology :=
  fold_left (λ topo i, set_link topo i i SELF 1000) (range n) topo.

(** The body of the pair loop of [detect]. *)
Definition detect_pair (cuda : CudaRuntime) (i : Z) (topo : GpuTopology) (j : Z) : GpuTopology :=
  if i =? j then topo
  else match can_access_peer cuda i j with
  | None | Some false => set_link topo i j NONE 0
  | Some true =>
      match performance_rank cuda i j with
      | None => set_link topo i j PCIE 10
      | Some perf_rank =>
          if (perf_rank =? 0) && native_atomics cuda i j then set_link topo i j NVLINK 100
          else if perf_rank =? 0 then set_link topo i j NVLINK 90
          else set_link topo i j PCIE 10
      end
  end.

Definition detect (cuda : CudaRuntime) : result GpuTopology :=
  let num_gpus := get_gpu_count cuda in
  _ <-! reject_if (num_gpus <=? 0) (str "No CUDA-enabled GPUs found.");;
  let topo := mkTopology num_gpus (matrix num_gpus NONE) (matrix num_gpus 0) in
  let topo := set_self topo num_gpus in
  Ok (if has_cuda cuda then
        fold_left (λ topo i, fold_left (detect_pair cuda i) (range num_gpus) topo)
          (range num_gpus) topo
      else topo).

Definition synthetic (num_gpus : Z) : result GpuTopology :=
  _ <-! reject_if (num_gpus <=? 0) (str "Synthetic topology requires at least one GPU.");;
  let topo := mkTopology num_gpus (matrix num_gpus PCIE) (matrix num_gpus 10) in
  Ok (set_self topo num_gpus).

Definition outside (topo : GpuTopology) (gpu : Z) : bool := (gpu <? 0) || (num_gpus topo <=? gpu).

Definition link (topo : GpuTopology) (from_gpu to_gpu : Z) : result LinkType :=
  if outside topo from_gpu || outside topo to_gpu then Ok NONE
  else at2 (link_kind topo) from_gpu to_gpu.

Definition bandwidth_hint (topo : GpuTopology) (from_gpu to_gpu : Z) : result Z :=
  if outside topo from_gpu || outside topo to_gpu then Ok 0
  else at2 (link_bandwidth topo) from_gpu to_gpu.

(** The search both peer functions run: [skip] is the test on the link kind
    that makes them [continue]. *)
Fixpoint peer_loop (topo : GpuTopology) (skip : LinkType → bool) (gpu : Z) (js : list Z)
    (best best_score : Z) : result Z :=
  match js with
  | [] => Ok best
  | j :: js =>
      if j =? gpu then peer_loop topo skip gpu js best best_score
      else
        kind <-! at2 (link_kind topo) gpu j;;
        if skip kind then peer_loop topo skip gpu js best best_score
        else
          bw <-! at2 (link_bandwidth topo) gpu j;;
          if best_score <? bw then peer_loop topo skip gpu js j bw
          else peer_loop topo skip gpu js best best_score
  end.

Definition best_nvlink_peer (topo : GpuTopology) (gpu : Z) : result Z :=
  if outside topo gpu then Ok (-1)
  else peer_loop topo (λ k, negb (bool_decide (k = NVLINK))) gpu (range (num_gpus topo)) (-1) (-1).

Definition best_peer (topo : GpuTopology) (gpu : Z) : result Z :=
  if outside topo gpu then Ok (-1)
  else peer_loop topo (λ k, bool_decide (k = NONE)) gpu (range (num_gpus topo)) (-1) (-1).

Definition has_nvlink (topo : GpuTopology) (from_gpu to_gpu : Z) : result bool :=
  lt <-! link topo from_gpu to_gpu;; Ok (bool_decide (lt = NVLINK)).

Definition can_access (topo : GpuTopology) (from_gpu to_gpu : Z) : result bool :=
  lt <-! link topo from_gpu to_gpu;; Ok (bool_decide (lt = NVLINK) || bool_decide (lt = PCIE)).

(** The calls of [cudaDeviceEnablePeerAccess] in a row of [enable_peer_access]. *)
Fixpoint enable_row (topo : GpuTopology) (i : Z) (js : list Z) : result (list (Z * Z)) :=
  match js with
  | [] => Ok []
  | j :: js =>
      if i =? j then enable_row topo i js
      else
        lt <-! at2 (link_kind topo) i j;;
        rest <-! enable_row topo i js;;
        Ok (if bool_decide (lt = NVLINK) || bool_decide (lt = PCIE) then (i, j) :: rest else rest)
  end.

(** [set_device] is whether [cudaSetDevice] succeeds. *)
Fixpoint enable_rows (set_device : Z → bool) (topo : GpuTopology) (is' : list Z) : result (list (Z * Z)) :=
  match is' with
  | [] => Ok []
  | i :: is' =>
      _ <-! reject_if (negb (set_device i)) (str "Failed to set device " ++ to_string i);;
      row <-! enable_row topo i (range (num_gpus topo));;
      rest <-! enable_rows set_device topo is';;
      Ok (row ++ rest)
  end.

(** The pairs for which access is asked for, in order; a failure of the call
    for a pair is only reported. *)
Definition enable_peer_access (cuda : CudaRuntime) (set_device : Z → bool) (topo : GpuTopology)
    : result (list (Z * Z)) :=
  if has_cuda cuda then enable_rows set_device topo (range (num_gpus topo)) else Ok [].

(** [to_string]; [name] is [get_gpu_name]. *)
Definition topology_to_string (name : Z → bytes) (topo : GpuTopology) : bytes :=
  to_string (num_gpus topo) ++ str " GPU(s): " ++
  concat ((λ i, name i ++ if i <? num_gpus topo - 1 then str ", " else []) <$> range (num_gpus topo)).

(** ** Placer *)

Record Placer := mkPlacer {
  topo : GpuTopology;
  backlog_threshold : Z;
  rr_counter : Z;
  affinity : gmap Z Z;
}.

Definition new_placer (t : GpuTopology) (threshold : Z) : Placer := mkPlacer t threshold 0 ∅.

(** [rr_counter_.fetch_add(1) % topo_.num_gpus()]: undefined for no GPUs. *)
Definition next_gpu (p : Placer) : result (Z * Placer) :=
  if num_gpus (topo p) =? 0 then OutOfBounds
  else Ok (to_signed 32 (wrap 32 (rr_counter p mod num_gpus (topo p))),
           mkPlacer (topo p) (backlog_threshold p) (wrap 64 (rr_counter p + 1)) (affinity p)).

(** The store under the lock. *)
Definition set_home (p : Placer) (client_id home : Z) : Placer :=
  mkPlacer (topo p) (backlog_threshold p) (rr_counter p) (<[client_id := home]> (affinity p)).

Definition assign_home (p : Placer) (client_id : Z) : result (Z * Placer) :=
  '(home, p) <-! next_gpu p;;
  Ok (home, set_home p client_id home).

Definition home_of (p : Placer) (client_id : Z) : Z :=
  match affinity p !! client_id with Some home => home | None => -1 end.

Definition release_client (p : Placer) (client_id : Z) : Placer :=
  mkPlacer (topo p) (backlog_threshold p) (rr_counter p) (delete client_id (affinity p)).

Definition num_clients (p : Placer) : Z := Z.of_nat (size (affinity p)).

(** The scan for the shortest queue; [call] numbers the samples. *)
Fixpoint depth_loop (queue_depth : nat → Z → Z) (call : nat) (gpus : list Z) (best best_depth : Z) : Z :=
  match gpus with
  | [] => best
  | i :: gpus =>
      let d := queue_depth call i in
      if d <? best_depth then depth_loop queue_depth (S call) gpus i d
      else depth_loop queue_depth (S call) gpus best best_depth
  end.

Definition place (p : Placer) (client_id : Z) (queue_depth : nat → Z → Z) : result (Z * Placer) :=
  let home := match affinity p !! client_id with Some home => home | None => -1 end in
  '(home, p) <-! (if (home <? 0) || (num_gpus (topo p) <=? home) then next_gpu p else Ok (home, p));;
  let home_depth := queue_depth 0%nat home in
  if home_depth <? backlog_threshold p then Ok (home, p)
  else
    peer <-! best_peer (topo p) home;;
    if (0 <=? peer) && (queue_depth 1%nat peer <? backlog_threshold p) then Ok (peer, p)
    else
      let call := if 0 <=? peer then 2%nat else 1%nat in
      Ok (depth_loop queue_depth call (range (num_gpus (topo p))) home home_depth, p).

(** ** Matrices of the right size *)

Definition square {A} (n : Z) (m : list (list A)) : Prop :=
  length m = Z.to_nat n ∧ Forall (λ row, length row = Z.to_nat n) m.

Definition in_range (n i : Z) : Prop := 0 ≤ i < n.

Lemma elem_of_range n i : i ∈ range n ↔ in_range n i.
Proof.
  unfold range, in_range. rewrite list_elem_of_fmap. setoid_rewrite elem_of_seq. split.
  - intros (k & -> & Hk). lia.
  - intros Hi. exists (Z.to_nat i). lia.
Qed.

Lemma square_matrix {A} n (x : A) : square n (matrix n x).
Proof.
  unfold square, matrix. rewrite length_replicate. split; [done|].
  apply Forall_replicate. apply length_replicate.
Qed.

Lemma at2_matrix {A} n (x : A) i j : in_range n i → in_range n j → at2 (matrix n x) i j = Ok x.
Proof.
  unfold in_range, at2, matrix. intros Hi Hj.
  rewrite (proj2 (Z.leb_le 0 i)), (proj2 (Z.leb_le 0 j)) by lia. cbn [andb].
  by rewrite !lookup_replicate_2 by lia.
Qed.

Lemma square_set2 {A} n (m : list (list A)) i j x : square n m → square n (set2 m i j x).
Proof.
  unfold square, set2. intros [Hl Hr]. rewrite length_alter. split; [done|].
  apply Forall_alter; [done|]. intros row _ Hrow. by rewrite length_insert.
Qed.

Lemma at2_square {A} n (m : list (list A)) i j :
  square n m → in_range n i → in_range n j → ∃ x, at2 m i j = Ok x.
Proof.
  unfold in_range, at2. intros [Hl Hr] Hi Hj.
  rewrite (proj2 (Z.leb_le 0 i)), (proj2 (Z.leb_le 0 j)) by lia. cbn [andb].
  destruct (lookup_lt_is_Some_2 m (Z.to_nat i)) as [row Hrow]; [lia|]. rewrite Hrow.
  assert (length row = Z.to_nat n) as Hlr by (by eapply (Forall_lookup_1 _ _ _ _ Hr)).
  destruct (lookup_lt_is_Some_2 row (Z.to_nat j)) as [x Hx]; [lia|]. rewrite Hx. eauto.
Qed.

Lemma at2_set2 {A} n (m : list (list A)) i j x i' j' :
  square n m → in_range n i → in_range n j → in_range n i' → in_range n j' →
  at2 (set2 m i j x) i' j' = if (i' =? i) && (j' =? j) then Ok x else at2 m i' j'.
Proof.
  unfold in_range, at2, set2. intros [Hl Hr] Hi Hj Hi' Hj'.
  rewrite !(proj2 (Z.leb_le 0 _)) by lia. cbn [andb].
  destruct (Z.eqb_spec i' i) as [->|Hne].
  - destruct (lookup_lt_is_Some_2 m (Z.to_nat i)) as [row Hrow]; [lia|].
    rewrite list_lookup_alter_eq, Hrow. cbn [fmap option_fmap option_map andb].
    assert (length row = Z.to_nat n) as Hlr by (by eapply (Forall_lookup_1 _ _ _ _ Hr)).
    destruct (Z.eqb_spec j' j) as [->|Hne]; [by rewrite list_lookup_insert_eq by lia|].
    by rewrite list_lookup_insert_ne by lia.
  - by rewrite list_lookup_alter_ne by lia.
Qed.

(** Both entries of a pair of devices. *)
Definition link_at (t : GpuTopology) (i j : Z) : result (LinkType * Z) :=
  k <-! at2 (link_kind t) i j;; b <-! at2 (link_bandwidth t) i j;; Ok (k, b).

Definition sized (t : GpuTopology) : Prop :=
  square (num_gpus t) (link_kind t) ∧ square (num_gpus t) (link_bandwidth t).

Lemma sized_set_link t i j k b : sized t → sized (set_link t i j k b).
Proof. intros [Hk Hb]. split; by apply square_set2. Qed.

Lemma link_at_set t i j k b i' j' :
  sized t → in_range (num_gpus t) i → in_range (num_gpus t) j →
  in_range (num_gpus t) i' → in_range (num_gpus t) j' →
  link_at (set_link t i j k b) i' j' = if (i' =? i) && (j' =? j) then Ok (k, b) else link_at t i' j'.
Proof.
  intros [Hk Hb] Hi Hj Hi' Hj'. unfold link_at, set_link. cbn [link_kind link_bandwidth].
  rewrite !(at2_set2 (num_gpus t)) by done. by destruct (_ && _).
Qed.

(** What [detect] should record for a pair. *)
Definition expected (cuda : CudaRuntime) (i j : Z) : LinkType * Z :=
  if i =? j then (SELF, 1000)
  else match can_access_peer cuda i j, performance_rank cuda i j with
  | Some true, Some r =>
      if r =? 0 then (NVLINK, if native_atomics cuda i j then 100 else 90) else (PCIE, 10)
  | Some true, None => (PCIE, 10)
  | _, _ => (NONE, 0)
  end.

Lemma detect_pair_eq cuda i t j :
  detect_pair cuda i t j =
  if i =? j then t else set_link t i j (expected cuda i j).1 (expected cuda i j).2.
Proof.
  unfold detect_pair, expected. destruct (i =? j); [done|].
  destruct (can_access_peer cuda i j) as [[]|], (performance_rank cuda i j) as [r|]; try done.
  by destruct (r =? 0), (native_atomics cuda i j).
Qed.

(** A topology of [n] devices whose entries are [f]. *)
Definition describes (t : GpuTopology) (n : Z) (f : Z → Z → LinkType * Z) : Prop :=
  num_gpus t = n ∧ sized t ∧ ∀ i j, in_range n i → in_range n j → link_at t i j = Ok (f i j).

Lemma describes_set t n f i j k b :
  describes t n f → in_range n i → in_range n j →
  describes (set_link t i j k b) n
    (λ i' j', if (i' =? i) && (j' =? j) then (k, b) else f i' j').
Proof.
  intros (Hn & Hs & Hf) Hi Hj. split_and!; [done|by apply sized_set_link|].
  intros i' j' Hi' Hj'. rewrite link_at_set by (done || by rewrite Hn).
  destruct (_ && _); [done|]. by apply Hf.
Qed.

Lemma describes_ext t n f g :
  describes t n f → (∀ i j, in_range n i → in_range n j → f i j = g i j) → describes t n g.
Proof.
  intros (Hn & Hs & Hf) Hfg. split_and!; [done..|]. intros i j Hi Hj. by rewrite Hf, Hfg.
Qed.

Lemma describes_matrix n k b :
  describes (mkTopology n (matrix n k) (matrix n b)) n (λ _ _, (k, b)).
Proof.
  split_and!; [done|split; apply square_matrix|]. intros i j Hi Hj.
  unfold link_at. cbn [link_kind link_bandwidth]. by rewrite !at2_matrix.
Qed.

Lemma describes_self n gpus : ∀ t f,
  Forall (in_range n) gpus → describes t n f →
  describes (fold_left (λ t i, set_link t i i SELF 1000) gpus t) n
    (λ i j, if (i =? j) && bool_decide (i ∈ gpus) then (SELF, 1000) else f i j).
Proof.
  induction gpus as [|g gpus IH]; intros t f Hr Ht; cbn [fold_left].
  - eapply describes_ext; [done|]. intros i j _ _. by rewrite andb_false_r.
  - inversion Hr; subst. eapply describes_ext; [apply IH; [done|by apply describes_set]|].
    intros i j _ _. cbv beta. destruct (Z.eqb_spec i j) as [<-|]; [|repeat case_match; lia || done].
    repeat (case_bool_decide || case_match); try done; set_solver by lia.
Qed.

Lemma describes_row cuda n i gpus : ∀ t f,
  in_range n i → Forall (in_range n) gpus → describes t n f →
  describes (fold_left (detect_pair cuda i) gpus t) n
    (λ i' j', if (i' =? i) && bool_decide (j' ∈ gpus) && negb (i' =? j') then expected cuda i' j'
              else f i' j').
Proof.
  induction gpus as [|g gpus IH]; intros t f Hi Hr Ht; cbn [fold_left].
  - eapply describes_ext; [done|]. intros i' j' _ _. by rewrite andb_false_r.
  - inversion Hr; subst. rewrite detect_pair_eq. destruct (Z.eqb_spec i g) as [<-|Hne].
    + eapply describes_ext; [by apply IH|]. intros i' j' _ _. cbv beta.
      destruct (Z.eqb_spec i' i) as [->|]; [|done]. destruct (Z.eqb_spec i j') as [->|];
        [by rewrite !andb_false_r|]. repeat case_bool_decide; try done; set_solver by lia.
    + eapply describes_ext; [apply IH; [done..|by apply describes_set]|]. intros i' j' _ _. cbv beta.
      destruct (Z.eqb_spec i' i) as [->|]; [|done]. cbn [andb].
      destruct (Z.eqb_spec j' g) as [->|].
      * rewrite (bool_decide_eq_true_2 (g ∈ g :: gpus)) by set_solver.
        destruct (Z.eqb_spec i g); [done|]. destruct (bool_decide (g ∈ gpus)); [done|].
        by destruct (expected cuda i g).
      * destruct (Z.eqb_spec i j'); [by rewrite !andb_false_r|].
        repeat case_bool_decide; try done; set_solver.
Qed.

Lemma range_in_range n : Forall (in_range n) (range n).
Proof. apply Forall_forall. intros j Hj. by apply elem_of_range. Qed.

Lemma describes_rows cuda n rows : ∀ t f,
  Forall (in_range n) rows → describes t n f →
  describes (fold_left (λ t i, fold_left (detect_pair cuda i) (range n) t) rows t) n
    (λ i j, if bool_decide (i ∈ rows) && negb (i =? j) then expected cuda i j else f i j).
Proof.
  pose proof (range_in_range n) as Hrange.
  induction rows as [|r rows IH]; intros t f Hr Ht; cbn [fold_left]; [done|].
  inversion Hr; subst. eapply describes_ext; [apply IH; [done|by apply describes_row]|].
  intros i j Hi Hj. cbv beta. rewrite (bool_decide_eq_true_2 (j ∈ range n)) by (by apply elem_of_range).
  destruct (Z.eqb_spec i r) as [->|]; [destruct (Z.eqb_spec r j)|destruct (Z.eqb_spec i j)];
    rewrite ?andb_false_r; cbn [andb negb]; repeat case_bool_decide; try done; set_solver.
Qed.

Lemma detect_describes cuda :
  0 < get_gpu_count cuda →
  ∃ t, detect cuda = Ok t ∧ describes t (get_gpu_count cuda) (expected cuda).
Proof.
  intros Hn. unfold detect. set (n := get_gpu_count cuda) in *.
  assert (has_cuda cuda = true) as Hcuda.
  { unfold n, get_gpu_count in Hn. by destruct (has_cuda cuda). }
  destruct (Z.leb_spec n 0); [lia|]. rewrite Hcuda. eexists. split; [done|].
  eapply describes_ext; [apply describes_rows; [apply range_in_range|];
    apply describes_self; [apply range_in_range|apply describes_matrix]|].
  intros i j Hi Hj. cbv beta. rewrite !bool_decide_eq_true_2 by (by apply elem_of_range).
  unfold expected. by destruct (i =? j).
Qed.

Definition synthetic_link (i j : Z) : LinkType * Z := if i =? j then (SELF, 1000) else (PCIE, 10).

Lemma synthetic_describes n :
  0 < n → ∃ t, synthetic n = Ok t ∧ describes t n synthetic_link.
Proof.
  intros Hn. unfold synthetic. destruct (Z.leb_spec n 0); [lia|]. eexists. split; [done|].
  eapply describes_ext; [apply describes_self; [apply range_in_range|apply describes_matrix]|].
  intros i j Hi Hj. cbv beta. rewrite bool_decide_eq_true_2 by (by apply elem_of_range).
  by rewrite andb_true_r.
Qed.

(** ** Peers *)

Section Peers.
Context (t : GpuTopology) (n : Z) (f : Z → Z → LinkType * Z) (skip : LinkType → bool) (gpu : Z).
Hypothesis Ht : describes t n f.
Hypothesis Hgpu : in_range n gpu.
Hypothesis Hbw : ∀ j, 0 ≤ (f gpu j).2.

Definition candidate (j : Z) : Prop := j ≠ gpu ∧ skip (f gpu j).1 = false.

(** The peer the scan of devices [0 .. m) should settle on: none, or the
    candidate of the highest bandwidth, the lowest-numbered one among equals. *)
Definition best_below (m b : Z) : Prop :=
  (b = -1 ∧ ∀ j, 0 ≤ j < m → ¬ candidate j) ∨
  (0 ≤ b < m ∧ candidate b ∧
   ∀ j, 0 ≤ j < m → candidate j → (f gpu j).2 ≤ (f gpu b).2 ∧ (j < b → (f gpu j).2 < (f gpu b).2)).

Definition score (b : Z) : Z := if b =? -1 then -1 else (f gpu b).2.

Lemma best_below_step m b :
  0 ≤ m → best_below m b →
  (¬ candidate m → best_below (m + 1) b) ∧
  (candidate m → score b < (f gpu m).2 → best_below (m + 1) m) ∧
  (candidate m → (f gpu m).2 ≤ score b → best_below (m + 1) b).
Proof.
  intros Hm Hb. unfold best_below, score in *. pose proof (Hbw m).
  assert (∀ j, 0 ≤ j < m + 1 → j = m ∨ 0 ≤ j < m) as Hj by lia.
  destruct Hb as [[-> Hn]|(Hr & Hc & Hbest)].
  - split_and!.
    + intros Hnc. left. split; [done|]. intros j [->|?]%Hj; auto.
    + intros Hc _. right. split; [lia|]. split; [done|]. intros j [->|?]%Hj Hcj; [lia|]. by destruct (Hn j).
    + intros _ Hle. rewrite Z.eqb_refl in Hle. lia.
  - destruct (Z.eqb_spec b (-1)); [lia|]. split_and!.
    + intros Hnc. right. split; [lia|]. split; [done|]. intros j [->|?]%Hj Hcj; [done|auto].
    + intros Hcm Hlt. right. split; [lia|]. split; [done|]. intros j [->|?]%Hj Hcj; [lia|].
      destruct (Hbest j); [done..|]. lia.
    + intros Hcm Hle. right. split; [lia|]. split; [done|]. intros j [->|?]%Hj Hcj; [lia|auto].
Qed.

Lemma peer_loop_spec k : ∀ m b,
  n = Z.of_nat (m + k) → best_below (Z.of_nat m) b →
  ∃ b', peer_loop t skip gpu (Z.of_nat <$> seq m k) b (score b) = Ok b' ∧ best_below n b'.
Proof.
  destruct Ht as (Hn & Hs & Hf).
  induction k as [|k IH]; intros m b Hmk Hb; cbn [seq fmap list_fmap peer_loop].
  { exists b. split; [done|]. by replace n with (Z.of_nat m) by lia. }
  destruct (best_below_step (Z.of_nat m) b) as (Hskip & Htake & Hkeep); [lia|done|].
  specialize (IH (S m)). replace (Z.of_nat (S m)) with (Z.of_nat m + 1) in IH by lia.
  destruct (Z.eqb_spec (Z.of_nat m) gpu) as [Heq|Hne].
  { apply IH; [lia|]. apply Hskip. unfold candidate. naive_solver. }
  assert (link_at t gpu (Z.of_nat m) = Ok (f gpu (Z.of_nat m))) as Hl.
  { apply Hf; unfold in_range in *; lia. }
  unfold link_at in Hl. apply rbind_Ok in Hl as (kd & Hkd & Hl). rewrite Hkd, rbind_ret.
  apply rbind_Ok in Hl as (bw & -> & [= Hl]). rewrite rbind_ret.
  assert (kd = (f gpu (Z.of_nat m)).1 ∧ bw = (f gpu (Z.of_nat m)).2) as [-> ->] by (by rewrite <- Hl).
  destruct (skip _) eqn:Hsk.
  { apply IH; [lia|]. apply Hskip. unfold candidate. rewrite Hsk. naive_solver. }
  destruct (Z.ltb_spec (score b) (f gpu (Z.of_nat m)).2) as [Hlt|Hge].
  - assert (score (Z.of_nat m) = (f gpu (Z.of_nat m)).2) as <-.
    { unfold score. by destruct (Z.eqb_spec (Z.of_nat m) (-1)); [lia|]. }
    apply IH; [lia|]. by apply Htake.
  - apply IH; [lia|]. by apply Hkeep.
Qed.

Lemma peer_search :
  ∃ b, peer_loop t skip gpu (range (num_gpus t)) (-1) (-1) = Ok b ∧ best_below n b.
Proof.
  unfold range. destruct Ht as (Hn & _). unfold in_range in Hgpu.
  apply (peer_loop_spec (Z.to_nat (num_gpus t)) 0 (-1)); [lia|]. left. split; [done|]. lia.
Qed.

Lemma best_below_unique m b b' : best_below m b → best_below m b' → b = b'.
Proof.
  unfold best_below. intros [[-> Hn]|(Hr & Hc & Hb)] [[-> Hn']|(Hr' & Hc' & Hb')]; [done|..].
  - by destruct (Hn b').
  - by destruct (Hn' b).
  - destruct (Hb b') as [? Hlt]; [done..|]. destruct (Hb' b) as [? Hlt']; [done..|].
    destruct (Z.lt_trichotomy b b') as [?|[?|?]]; [|done|]; intuition lia.
Qed.

End Peers.

(** The peer a device should spill to, over all accessible links or over
    NVLink only. *)
Definition skip_none (k : LinkType) : bool := bool_decide (k = NONE).
Definition skip_not_nvlink (k : LinkType) : bool := negb (bool_decide (k = NVLINK)).

Lemma best_peer_search t n f gpu :
  describes t n f → in_range n gpu → (∀ j, 0 ≤ (f gpu j).2) →
  (∃ b, best_peer t gpu = Ok b ∧ best_below f skip_none gpu n b) ∧
  (∃ b, best_nvlink_peer t gpu = Ok b ∧ best_below f skip_not_nvlink gpu n b).
Proof.
  intros Ht Hg Hbw. pose proof (λ sk, peer_search t n f sk gpu Ht Hg Hbw) as Hsearch.
  unfold best_peer, best_nvlink_peer, outside.
  assert (num_gpus t = n) as Hn by apply Ht. rewrite Hn in *. unfold in_range in Hg.
  destruct (Z.ltb_spec gpu 0); [lia|]. destruct (Z.leb_spec n gpu); [lia|].
  split; apply Hsearch.
Qed.

(** Bandwidths rank links as the hardware does: NVLink above PCIe. *)
Lemma expected_bandwidth cuda i j :
  0 ≤ (expected cuda i j).2 ∧
  ((expected cuda i j).1 = NVLINK → 90 ≤ (expected cuda i j).2) ∧
  (i ≠ j → (expected cuda i j).1 ≠ NVLINK → (expected cuda i j).2 ≤ 10).
Proof.
  unfold expected. destruct (Z.eqb_spec i j) as [->|Hne]; [split_and!; done|].
  repeat case_match; cbn; split_and!; try done; lia.
Qed.

(** ** Placement *)

Definition wf_placer (p : Placer) : Prop :=
  0 < num_gpus (topo p) < 2 ^ 31 ∧
  (∃ f, describes (topo p) (num_gpus (topo p)) f ∧ ∀ i j, 0 ≤ (f i j).2) ∧
  is_uint 64 (rr_counter p) ∧ map_Forall (λ _ home, in_range (num_gpus (topo p)) home) (affinity p).

Lemma next_gpu_spec p :
  wf_placer p → ∃ p', next_gpu p = Ok (rr_counter p mod num_gpus (topo p), p') ∧ wf_placer p' ∧
    topo p' = topo p ∧ backlog_threshold p' = backlog_threshold p ∧ affinity p' = affinity p ∧
    rr_counter p' = wrap 64 (rr_counter p + 1) ∧
    in_range (num_gpus (topo p)) (rr_counter p mod num_gpus (topo p)).
Proof.
  intros (Hn & Ht & Hr & Ha). unfold next_gpu. destruct (Z.eqb_spec (num_gpus (topo p)) 0); [lia|].
  assert (0 ≤ rr_counter p mod num_gpus (topo p) < num_gpus (topo p)) by (apply Z.mod_pos_bound; lia).
  eexists. rewrite wrap_small by (unfold is_uint; lia). split; [|split].
  - do 2 f_equal. unfold to_signed. by case_match; [|lia].
  - split; [done|]. split; [done|]. split; [apply Z.mod_pos_bound; lia|done].
  - done.
Qed.

(** Where a task of a client starts: its home, or the next device in turn. *)
Definition start_gpu (p : Placer) (client_id : Z) : Z :=
  match affinity p !! client_id with
  | Some home => home
  | None => rr_counter p mod num_gpus (topo p)
  end.

(** The device the queue lengths call for: the shortest queue; the starting
    device keeps a tie, and among other devices the lowest-numbered wins. *)
Definition shortest (d : Z → Z) (n home g : Z) : Prop :=
  in_range n g ∧ (∀ i, in_range n i → d g ≤ d i) ∧
  (g = home ∨ d g < d home ∧ ∀ i, in_range n i → i < g → d g < d i).

Lemma depth_loop_in q n gpus : ∀ call best d,
  Forall (in_range n) gpus → in_range n best → in_range n (depth_loop q call gpus best d).
Proof.
  induction gpus as [|i gpus IH]; intros call best d Hg Hb; cbn [depth_loop]; [done|].
  inversion Hg; subst. case_match; auto.
Qed.

Definition shortest_below (d : Z → Z) (m home g : Z) : Prop :=
  d g ≤ d home ∧ (∀ i, 0 ≤ i < m → d g ≤ d i) ∧
  (g = home ∨ 0 ≤ g < m ∧ d g < d home ∧ ∀ i, 0 ≤ i < g → d g < d i).

Lemma depth_loop_spec d home k : ∀ m call g,
  shortest_below d (Z.of_nat m) home g →
  shortest_below d (Z.of_nat (m + k)) home
    (depth_loop (λ _, d) call (Z.of_nat <$> seq m k) g (d g)).
Proof.
  induction k as [|k IH]; intros m call g Hg; cbn [seq fmap list_fmap depth_loop].
  { by rewrite Nat.add_0_r. }
  rewrite Nat.add_succ_r. change (S (m + k)) with (S m + k)%nat.
  destruct Hg as (Hh & Hmin & Htie).
  destruct (Z.ltb_spec (d (Z.of_nat m)) (d g)) as [Hlt|Hge]; apply IH.
  - split_and!; [lia| |right; split_and!; [lia..|]].
    + intros i Hi. destruct (decide (i = Z.of_nat m)) as [->|]; [lia|].
      specialize (Hmin i ltac:(lia)). lia.
    + intros i Hi. specialize (Hmin i ltac:(lia)). lia.
  - split_and!; [lia| |].
    + intros i Hi. destruct (decide (i = Z.of_nat m)) as [->|]; [lia|]. apply Hmin. lia.
    + destruct Htie as [->|(Hr & Hd & Hi)]; [by left|]. right. split_and!; [lia..|done].
Qed.

Lemma depth_loop_shortest d n home call :
  in_range n home →
  shortest d n home (depth_loop (λ _, d) call (range n) home (d home)).
Proof.
  intros Hh. unfold range.
  pose proof (depth_loop_spec d home (Z.to_nat n) 0 call home) as Hs.
  destruct Hs as (Hle & Hmin & Htie); [split_and!; [lia|lia|by left]|].
  unfold shortest, in_range in *. rewrite Nat.add_0_l, Z2Nat.id in Hmin, Htie by lia.
  split; [|split; [exact Hmin|]].
  - destruct Htie as [E|(Hr & _)]; [by rewrite E|exact Hr].
  - destruct Htie as [E|(_ & Hd & Hi)]; [by left|]. right. split; [done|]. intros i ? ?. apply Hi. lia.
Qed.

Lemma place_start p client_id :
  wf_placer p →
  ∃ p', (let home := match affinity p !! client_id with Some home => home | None => -1 end in
         if (home <? 0) || (num_gpus (topo p) <=? home) then next_gpu p else Ok (home, p))
        = Ok (start_gpu p client_id, p') ∧ wf_placer p' ∧ topo p' = topo p ∧
    backlog_threshold p' = backlog_threshold p ∧ affinity p' = affinity p ∧
    (is_Some (affinity p !! client_id) → p' = p) ∧
    in_range (num_gpus (topo p)) (start_gpu p client_id).
Proof.
  intros Hp. destruct (next_gpu_spec p Hp) as (p' & Hnext & Hwf & H1 & H2 & H3 & _ & Hr).
  unfold start_gpu. destruct (affinity p !! client_id) as [home|] eqn:E; cbv zeta.
  - assert (in_range (num_gpus (topo p)) home) as Hh.
    { destruct Hp as (_ & _ & _ & Ha). by apply (map_Forall_lookup_1 _ _ _ _ Ha E). }
    unfold in_range in *. destruct (Z.ltb_spec home 0); [lia|].
    destruct (Z.leb_spec (num_gpus (topo p)) home); [lia|]. exists p. split_and!; done || lia.
  - change (-1 <? 0) with true. exists p'. split; [done|]. split; [done|]. split_and!; try done.
Qed.

Lemma start_best_peer p client_id :
  wf_placer p → ∃ peer, best_peer (topo p) (start_gpu p client_id) = Ok peer ∧
    (0 ≤ peer → in_range (num_gpus (topo p)) peer).
Proof.
  intros Hp. pose proof Hp as (_ & (f & Hf & Hbw) & _).
  destruct (place_start p client_id Hp) as (_ & _ & _ & _ & _ & _ & _ & Hr).
  destruct (best_peer_search (topo p) _ f (start_gpu p client_id) Hf Hr (Hbw _)) as [(b & Hb & Hbest) _].
  exists b. split; [done|]. unfold best_below, in_range in *. lia.
Qed.

(** ** Theorems *)

(** Topology detection refuses to run without devices and otherwise
    records, for every pair of devices, exactly what the CUDA runtime
    answered: no access, PCIe (10), NVLink (90, or 100 with native atomics),
    and the device itself (1000) on the diagonal; pairs outside the device
    range read as unlinked. *)
Theorem detect_correct cuda :
  (get_gpu_count cuda ≤ 0 → detect cuda = Err (str "No CUDA-enabled GPUs found.")) ∧
  (0 < get_gpu_count cuda → ∃ t, detect cuda = Ok t ∧ num_gpus t = get_gpu_count cuda ∧
    ∀ i j, link t i j = Ok (if outside t i || outside t j then NONE else (expected cuda i j).1) ∧
           bandwidth_hint t i j = Ok (if outside t i || outside t j then 0 else (expected cuda i j).2)).
Proof.
  split.
  - intros Hn. unfold detect. by destruct (Z.leb_spec (get_gpu_count cuda) 0); [|lia].
  - intros Hn. destruct (detect_describes cuda Hn) as (t & Ht & Hd & _ & Hlink). exists t.
    split; [done|]. split; [done|]. intros i j. unfold link, bandwidth_hint.
    destruct (outside t i || outside t j) eqn:Ho; [done|]. unfold outside in Ho.
    destruct (expected cuda i j) as [k b] eqn:E. specialize (Hlink i j).
    unfold link_at, in_range in Hlink. rewrite E in Hlink.
    destruct (at2 (link_kind t) i j) as [k'| | |]; [|naive_solver lia..].
    destruct (at2 (link_bandwidth t) i j) as [b'| | |]; cbn [rbind] in Hlink; [|naive_solver lia..].
    assert (Ok (k', b') = Ok (k, b)) as [= -> ->] by (apply Hlink; lia). done.
Qed.

(** On a detected topology the spill-over peer of a device is the
    lowest-numbered accessible device of the highest bandwidth, or -1 when no
    other device is accessible; whenever the device has an NVLink peer, it is
    the best NVLink peer. *)
Theorem best_peer_correct cuda t gpu :
  detect cuda = Ok t → in_range (num_gpus t) gpu →
  ∃ b nv, best_peer t gpu = Ok b ∧ best_nvlink_peer t gpu = Ok nv ∧
    best_below (expected cuda) skip_none gpu (num_gpus t) b ∧ (0 ≤ nv → b = nv).
Proof.
  intros Ht Hg.
  assert (0 < get_gpu_count cuda) as Hn.
  { unfold detect in Ht. apply rbind_reject in Ht as [Ht _]. lia. }
  destruct (detect_describes cuda Hn) as (t' & Ht' & Hd). assert (t' = t) as -> by congruence.
  assert (num_gpus t = get_gpu_count cuda) as Hnum by apply Hd. rewrite <- Hnum in Hd.
  destruct (best_peer_search t _ _ gpu Hd Hg) as [(b & Hb & Hbest) (nv & Hnv & Hbestnv)].
  { intros j. apply expected_bandwidth. }
  exists b, nv. split_and!; [done..|]. intros Hnv0.
  eapply best_below_unique; [exact Hbest|].
  destruct Hbestnv as [[-> _]|(Hr & [Hne Hk] & Hmax)]; [lia|]. right.
  unfold candidate, skip_not_nvlink, skip_none in *.
  apply negb_false_iff, bool_decide_eq_true in Hk. split; [done|]. split; [by rewrite Hk|].
  intros j Hj [Hjne Hjk]. destruct (decide ((expected cuda gpu j).1 = NVLINK)) as [E|E].
  - apply Hmax; [done|]. split; [done|]. by rewrite bool_decide_eq_true_2.
  - pose proof (expected_bandwidth cuda gpu j). pose proof (expected_bandwidth cuda gpu nv).
    intuition lia.
Qed.

(** Access is enabled for exactly the pairs of devices that can reach each other. *)
Lemma enable_row_spec t n f i js :
  describes t n f → in_range n i → Forall (in_range n) js →
  ∃ pairs, enable_row t i js = Ok pairs ∧
    ∀ x y, (x, y) ∈ pairs ↔ x = i ∧ y ∈ js ∧ i ≠ y ∧ ((f i y).1 = NVLINK ∨ (f i y).1 = PCIE).
Proof.
  intros (Hn & _ & Hf) Hi Hjs. induction Hjs as [|j js Hj _ IH]; cbn [enable_row].
  { exists []. split; [done|]. set_solver. }
  destruct IH as (pairs & E & Hp). rewrite E. destruct (Z.eqb_spec i j) as [->|Hne].
  { exists pairs. split; [done|]. intros x y. rewrite Hp, elem_of_cons. naive_solver. }
  specialize (Hf i j Hi Hj). unfold link_at in Hf. apply rbind_Ok in Hf as (k & -> & Hf).
  apply rbind_Ok in Hf as (b & _ & Hf). injection Hf as Hf. rewrite !rbind_ret.
  eexists. split; [done|]. intros x y. assert ((f i j).1 = k) as Hk by (by rewrite <- Hf).
  destruct (bool_decide (k = NVLINK) || bool_decide (k = PCIE)) eqn:Ek.
  - apply orb_true_iff in Ek. rewrite !bool_decide_eq_true in Ek. rewrite !elem_of_cons, Hp.
    split; [|naive_solver]. intros [[= -> ->]|H]; [|naive_solver]. rewrite Hk. naive_solver.
  - apply orb_false_iff in Ek. rewrite !bool_decide_eq_false in Ek. rewrite Hp, elem_of_cons. naive_solver.
Qed.

Lemma enable_rows_spec t n f set_device rows :
  describes t n f → Forall (in_range n) rows → (∀ i, set_device i = true) →
  ∃ pairs, enable_rows set_device t rows = Ok pairs ∧
    ∀ x y, (x, y) ∈ pairs ↔ x ∈ rows ∧ in_range n y ∧ x ≠ y ∧ ((f x y).1 = NVLINK ∨ (f x y).1 = PCIE).
Proof.
  intros Hd Hrows Hset. pose proof Hd as (Hn & _). induction Hrows as [|i rows Hi _ IH]; cbn [enable_rows].
  { exists []. split; [done|]. set_solver. }
  destruct IH as (pairs & E & Hp). rewrite Hset. cbn [negb reject_if]. rewrite rbind_ret, E, Hn.
  destruct (enable_row_spec t n f i (range n) Hd Hi (range_in_range n)) as (row & -> & Hr).
  rewrite !rbind_ret. eexists. split; [done|]. intros x y.
  rewrite elem_of_app, Hr, Hp, elem_of_cons, elem_of_range. naive_solver.
Qed.

(** Enabling access fails exactly at a device that cannot be set. *)
Lemma enable_rows_result t n f set_device rows :
  describes t n f → Forall (in_range n) rows →
  match enable_rows set_device t rows with
  | Ok _ => ∀ i, i ∈ rows → set_device i = true
  | Err what => ∃ i, i ∈ rows ∧ set_device i = false ∧ what = str "Failed to set device " ++ to_string i
  | _ => False
  end.
Proof.
  intros Hd Hrows. pose proof Hd as (Hn & _). induction Hrows as [|i rows Hi _ IH]; cbn [enable_rows]; [set_solver|].
  destruct (set_device i) eqn:Es; cbn [negb reject_if]; [|exists i; split; [by left|done]]. rewrite rbind_ret, Hn.
  destruct (enable_row_spec t n f i (range n) Hd Hi (range_in_range n)) as (row & -> & _). rewrite rbind_ret.
  destruct (enable_rows set_device t rows) as [pairs|what| |]; try done.
  - cbn [rbind]. intros j [->|Hj]%elem_of_cons; [done|by apply IH].
  - destruct IH as (j & Hj & ?). exists j. split; [by right|done].
Qed.

(** Three devices: 0 and 2 share NVLink, 1 is on PCIe. *)
Definition sample_cuda : CudaRuntime :=
  mkCuda true (Some 3) (λ _ _, Some true) (λ i j, Some (if (i =? 1) || (j =? 1) then 1 else 0))
    (λ _ _, true).

Lemma best_peer_correct_witness :
  ∃ t, detect sample_cuda = Ok t ∧ ∃ b nv, best_peer t 0 = Ok b ∧ best_nvlink_peer t 0 = Ok nv ∧
    best_below (expected sample_cuda) skip_none 0 (num_gpus t) b ∧ (0 ≤ nv → b = nv).
Proof.
  eexists. split; [reflexivity|]. apply best_peer_correct; [reflexivity|]. split; vm_compute; congruence.
Defined.

Lemma place_safe p client_id q :
  wf_placer p → ∃ g p', place p client_id q = Ok (g, p') ∧ in_range (num_gpus (topo p)) g ∧
    wf_placer p' ∧ topo p' = topo p ∧ affinity p' = affinity p ∧
    (is_Some (affinity p !! client_id) → p' = p).
Proof.
  intros Hp. unfold place. destruct (place_start p client_id Hp)
    as (p' & Hstart & Hwf & Htopo & _ & Haff & Hsame & Hr).
  cbv zeta in Hstart. cbv zeta. rewrite Hstart, rbind_ret, Htopo.
  destruct (start_best_peer p client_id Hp) as (peer & Hpeer & Hin).
  destruct (_ <? backlog_threshold p'); [by exists (start_gpu p client_id), p'|].
  rewrite Hpeer, rbind_ret. destruct ((0 <=? peer) && _) eqn:E.
  - exists peer, p'. split; [done|]. split; [apply Hin; lia|done].
  - eexists _, p'. split; [done|]. split; [|done].
    apply depth_loop_in; [apply range_in_range|done].
Qed.

Lemma depth_loop_ext n q q' gpus : ∀ call best d,
  (∀ k g, in_range n g → q k g = q' k g) → Forall (in_range n) gpus →
  depth_loop q call gpus best d = depth_loop q' call gpus best d.
Proof.
  induction gpus as [|i gpus IH]; intros call best d Hq Hg; cbn [depth_loop]; [done|].
  inversion Hg; subst. rewrite Hq by done. case_match; by apply IH.
Qed.

(** Placement asks for the queues of the topology's devices only. *)
Lemma place_ext p client_id q q' :
  wf_placer p → (∀ k g, in_range (num_gpus (topo p)) g → q k g = q' k g) →
  place p client_id q = place p client_id q'.
Proof.
  intros Hp Hq. unfold place. destruct (place_start p client_id Hp)
    as (p' & Hstart & Hwf & Htopo & _ & _ & _ & Hr).
  cbv zeta in Hstart. cbv zeta. rewrite Hstart, !rbind_ret, Htopo, (Hq 0%nat) by done.
  destruct (_ <? backlog_threshold p'); [done|].
  destruct (start_best_peer p client_id Hp) as (peer & -> & Hin). rewrite !rbind_ret.
  rewrite (depth_loop_ext (num_gpus (topo p)) q q') by (done || apply range_in_range).
  destruct (Z.leb_spec 0 peer); [|done]. by rewrite (Hq 1%nat) by auto.
Qed.

(** A placer over the detected sample, with a home for client 7. *)
Definition sample_placer : Placer :=
  match detect sample_cuda with
  | Ok t => set_home (new_placer t 4) 7 0
  | _ => new_placer (mkTopology 0 [] []) 4
  end.

Lemma new_placer_wf t n f threshold :
  describes t n f → 0 < n < 2 ^ 31 → (∀ i j, 0 ≤ (f i j).2) → wf_placer (new_placer t threshold).
Proof.
  intros Ht Hn Hf. pose proof Ht as (Hnum & _). unfold wf_placer. cbn [topo rr_counter affinity new_placer].
  rewrite Hnum. split; [done|]. split; [by exists f|]. split; [done|]. apply map_Forall_empty.
Qed.

Lemma set_home_wf p client_id home :
  wf_placer p → in_range (num_gpus (topo p)) home → wf_placer (set_home p client_id home).
Proof.
  intros (Hn & Ht & Hr & Ha) Hh. split; [done|]. split; [done|]. split; [done|].
  by apply map_Forall_insert_2.
Qed.

Lemma sample_placer_wf : wf_placer sample_placer.
Proof.
  destruct (detect_describes sample_cuda) as (t & Ht & Hd); [done|].
  unfold sample_placer. rewrite Ht. apply set_home_wf.
  - eapply new_placer_wf; [done|done|]. intros i j. apply expected_bandwidth.
  - cbn [topo new_placer]. destruct Hd as (-> & _). done.
Qed.

(** The peer to spill to, by the link kinds and bandwidths [f] of the topology:
    the lowest-numbered of the accessible devices with the highest bandwidth,
    over NVLink or PCIe; -1 where no other device is accessible. *)
Definition spill_peer (f : Z → Z → LinkType * Z) (n home peer : Z) : Prop :=
  let accessible j := in_range n j ∧ j ≠ home ∧ (f home j).1 ≠ NONE in
  (peer = -1 ∧ ∀ j, ¬ accessible j) ∨
  (accessible peer ∧ ∀ j, accessible j →
     (f home j).2 ≤ (f home peer).2 ∧ ((f home j).2 = (f home peer).2 → peer ≤ j)).

Lemma best_below_spill f n home peer : best_below f skip_none home n peer → spill_peer f n home peer.
Proof.
  assert (∀ k, skip_none k = false ↔ k ≠ NONE) as Hk by (intros k; unfold skip_none; by rewrite bool_decide_eq_false).
  unfold best_below, candidate, spill_peer. intros [[-> Hno]|(Hr & [Hne Hs] & Hmax)].
  - left. split; [done|]. intros j (Hj & Hjn & Hjk). apply (Hno j Hj). split; [done|by apply Hk].
  - right. apply Hk in Hs. split; [done|]. intros j (Hj & Hjn & Hjk).
    destruct (Hmax j Hj) as [Hle Hlt]; [split; [done|by apply Hk]|]. lia.
Qed.

(** C32: with queues that do not change during the call, placement keeps the
    client's home (or the next device in turn) while its queue is below the
    threshold; otherwise it takes the accessible peer of the highest bandwidth,
    NVLink or PCIe, if there is one and its queue is below the threshold;
    otherwise a device of the shortest queue, the home on a tie and else the
    lowest-numbered. *)
Theorem place_policy p client_id d f :
  wf_placer p → describes (topo p) (num_gpus (topo p)) f → (∀ i j, 0 ≤ (f i j).2) →
  let home := start_gpu p client_id in
  ∃ g p' peer, place p client_id (λ _, d) = Ok (g, p') ∧ spill_peer f (num_gpus (topo p)) home peer ∧
    if d home <? backlog_threshold p then g = home
    else if (0 <=? peer) && (d peer <? backlog_threshold p) then g = peer
    else shortest d (num_gpus (topo p)) home g.
Proof.
  intros Hp Hf Hbw home. unfold place. destruct (place_start p client_id Hp)
    as (p' & Hstart & Hwf & Htopo & Hthr & Haff & Hsame & Hr).
  cbv zeta in Hstart. cbv zeta. rewrite Hstart, rbind_ret, Htopo, Hthr.
  fold home in Hr |- *. destruct (best_peer_search (topo p) _ f home Hf Hr (Hbw _)) as [(peer & Hpeer & Hbest) _].
  apply best_below_spill in Hbest. rewrite Hpeer, rbind_ret.
  destruct (d home <? backlog_threshold p); [by exists home, p', peer|].
  destruct ((0 <=? peer) && (d peer <? backlog_threshold p)) eqn:E.
  - exists peer, p', peer. by rewrite E.
  - eexists _, p', peer. split; [done|]. rewrite E. split; [done|]. by apply depth_loop_shortest.
Qed.

(** A full home spills to its NVLink peer, device 2 of the sample. *)
Lemma place_policy_witness :
  place sample_placer 7 (λ _ gpu, if gpu =? 0 then 9 else 1) = Ok (2, sample_placer) ∧
  ∃ peer, spill_peer (expected sample_cuda) 3 0 peer ∧
    if 9 <? 4 then 2 = 0 else if (0 <=? peer) && ((if peer =? 0 then 9 else 1) <? 4) then 2 = peer
    else shortest (λ gpu, if gpu =? 0 then 9 else 1) 3 0 2.
Proof.
  assert (describes (topo sample_placer) (num_gpus (topo sample_placer)) (expected sample_cuda)) as Hd.
  { destruct (detect_describes sample_cuda) as (t & Ht & Hd); [done|]. unfold sample_placer. rewrite Ht. cbn [topo set_home new_placer].
    by rewrite (proj1 Hd). }
  destruct (place_policy sample_placer 7 (λ gpu, if gpu =? 0 then 9 else 1) _ sample_placer_wf Hd)
    as (g & p' & peer & H1 & H2 & H3); [intros; apply expected_bandwidth|].
  assert (place sample_placer 7 (λ _ gpu, if gpu =? 0 then 9 else 1) = Ok (2, sample_placer)) as E by reflexivity.
  split; [exact E|]. rewrite E in H1. injection H1 as <- <-. exists peer. split; [exact H2|exact H3].
Defined.

(** Successive calls of [assign_home]. *)
Fixpoint assign_all (p : Placer) (clients : list Z) : result (list Z * Placer) :=
  match clients with
  | [] => Ok ([], p)
  | c :: cs =>
      '(home, p) <-! assign_home p c;;
      '(homes, p) <-! assign_all p cs;;
      Ok (home :: homes, p)
  end.

Lemma assign_all_spec clients : ∀ p,
  wf_placer p →
  ∃ p', assign_all p clients = Ok ((λ i, wrap 64 (rr_counter p + Z.of_nat i) mod num_gpus (topo p))
                                     <$> seq 0 (length clients), p') ∧
    wf_placer p' ∧ topo p' = topo p ∧ (∀ c, c ∉ clients → home_of p' c = home_of p c).
Proof.
  induction clients as [|c cs IH]; intros p Hp; cbn [assign_all].
  { exists p. by split_and!. }
  destruct (next_gpu_spec p Hp) as (p1 & Hnext & Hwf1 & Ht1 & _ & Ha1 & Hr1 & Hin).
  unfold assign_home. rewrite Hnext, !rbind_ret.
  set (h := rr_counter p mod num_gpus (topo p)) in *.
  assert (wf_placer (set_home p1 c h)) as Hwf2 by (apply set_home_wf; [done|by rewrite Ht1]).
  destruct (IH _ Hwf2) as (p' & Hall & Hwf' & Ht' & Hhome). exists p'.
  rewrite Hall, rbind_ret. split_and!; [|done|by rewrite Ht'|].
  - cbn [length seq fmap list_fmap]. rewrite Z.add_0_r. do 2 f_equal. f_equal.
    + unfold h. by rewrite wrap_small by apply Hp.
    + rewrite <- fmap_S_seq, <- list_fmap_compose. apply list_fmap_ext. intros i x _.
      cbn [compose set_home topo rr_counter]. unfold compose. cbn [rr_counter set_home topo].
      rewrite Ht1, Hr1. f_equal. unfold wrap. rewrite Zplus_mod_idemp_l. f_equal. lia.
  - intros c' Hc'. rewrite Hhome by set_solver. unfold home_of, set_home. cbn [affinity].
    rewrite Ha1, lookup_insert_ne by set_solver. done.
Qed.

(** Homes are dealt in turn: assigning homes to a list of clients gives
    the i-th one the device (r + i) mod n, with r the 64-bit counter at the
    start; a single assignment is what [home_of] then reports, and other
    clients keep their homes. *)
Theorem assign_home_round_robin p clients :
  wf_placer p →
  (∃ p', assign_all p clients =
     Ok ((λ i, wrap 64 (rr_counter p + Z.of_nat i) mod num_gpus (topo p)) <$> seq 0 (length clients), p')) ∧
  ∀ c, ∃ h p', assign_home p c = Ok (h, p') ∧ home_of p' c = h ∧ wf_placer p' ∧
    (∀ c', c' ≠ c → home_of p' c' = home_of p c') ∧ home_of (release_client p' c) c = -1.
Proof.
  intros Hp. split; [destruct (assign_all_spec clients p Hp) as (p' & H & _); by exists p'|].
  intros c. destruct (next_gpu_spec p Hp) as (p1 & Hnext & Hwf1 & Ht1 & _ & Ha1 & _ & Hin).
  unfold assign_home. rewrite Hnext, rbind_ret. eexists _, _. split; [done|].
  unfold home_of, set_home, release_client. cbn [affinity].
  rewrite lookup_insert_eq, lookup_delete_eq. split; [done|].
  split; [apply set_home_wf; [done|by rewrite Ht1]|]. split; [|done].
  intros c' Hc'. by rewrite lookup_insert_ne, Ha1.
Qed.

Lemma assign_home_round_robin_witness :
  ∃ p', assign_all sample_placer [10; 11; 12; 13] = Ok ([0; 1; 2; 0], p').
Proof.
  destruct (assign_home_round_robin sample_placer [10; 11; 12; 13] sample_placer_wf) as [(p' & E) _].
  exists p'. exact E.
Defined.

(** *** Interleavings

    [assign_home] draws from the counter before it takes the lock, so another
    thread may run in between: a state is the placer with the draws that are
    not stored yet. *)
Record placer_threads := mkThreads { shared : Placer; drawn : list (Z * Z) }.

Inductive placer_step : placer_threads → placer_threads → Prop :=
| step_draw p p' drawn client home :
    next_gpu p = Ok (home, p') →
    placer_step (mkThreads p drawn) (mkThreads p' ((client, home) :: drawn))
| step_store p d1 d2 client home :
    placer_step (mkThreads p (d1 ++ (client, home) :: d2))
      (mkThreads (set_home p client home) (d1 ++ d2))
| step_release p drawn client :
    placer_step (mkThreads p drawn) (mkThreads (release_client p client) drawn)
| step_place p p' drawn client queue_depth gpu :
    place p client queue_depth = Ok (gpu, p') →
    placer_step (mkThreads p drawn) (mkThreads p' drawn).

Definition threads_inv (t : GpuTopology) (s : placer_threads) : Prop :=
  wf_placer (shared s) ∧ topo (shared s) = t ∧ Forall (λ d, in_range (num_gpus t) d.2) (drawn s).

Lemma placer_step_inv t s s' : threads_inv t s → placer_step s s' → threads_inv t s'.
Proof.
  intros (Hp & Ht & Hd) Hstep. destruct Hstep as [p p' dr c h Hn|p d1 d2 c h|p dr c|p p' dr c q g Hpl];
    cbn [shared drawn] in *; subst t.
  - destruct (next_gpu_spec p Hp) as (p1 & Hnext & Hwf & Ht & _ & _ & _ & Hin).
    rewrite Hn in Hnext. injection Hnext as -> ->. split_and!; [exact Hwf|done|by constructor].
  - apply Forall_app in Hd as [Hd1 Hd2]. inversion Hd2; subst.
    split; [by apply set_home_wf|]. split; [done|]. by apply Forall_app.
  - destruct Hp as (Hn & Hf & Hr & Ha). split; [|done].
    split; [done|]. split; [done|]. split; [done|]. by apply map_Forall_delete.
  - destruct (place_safe p c q Hp) as (g' & p1 & Hpl' & _ & Hwf & Ht & _).
    rewrite Hpl in Hpl'. injection Hpl' as -> ->. by split_and!.
Qed.

(** C33: however threads interleave, from a fresh placer over a topology of at
    least one device every recorded or drawn home is a device of the topology,
    and every further operation returns: none meets an out-of-bounds access or
    a division by zero. *)
Theorem placer_reachable_safe t n f threshold s :
  describes t n f → 0 < n < 2 ^ 31 → (∀ i j, 0 ≤ (f i j).2) →
  rtc placer_step (mkThreads (new_placer t threshold) []) s →
  (∀ c, home_of (shared s) c = -1 ∨ in_range n (home_of (shared s) c)) ∧
  (∀ c q, ∃ g p', place (shared s) c q = Ok (g, p') ∧ in_range n g) ∧
  (∀ c, ∃ h p', assign_home (shared s) c = Ok (h, p') ∧ in_range n h).
Proof.
  intros Ht Hn Hf Hreach. pose proof Ht as (Hnum & _).
  assert (threads_inv t s) as (Hp & Hts & _).
  { eapply rtc_invariant; [apply placer_step_inv| |exact Hreach]. split_and!; [|done|constructor]. by eapply new_placer_wf. }
  rewrite <- Hnum, <- Hts. split_and!.
  - intros c. unfold home_of. destruct (affinity (shared s) !! c) as [h|] eqn:E; [right|by left].
    destruct Hp as (_ & _ & _ & Ha). by apply (map_Forall_lookup_1 _ _ _ _ Ha E).
  - intros c q. destruct (place_safe (shared s) c q Hp) as (g & p' & H1 & H2 & _). eauto.
  - intros c. destruct (next_gpu_spec (shared s) Hp) as (p' & H1 & _ & _ & _ & _ & _ & H2).
    unfold assign_home. rewrite H1. eexists _, _. split; [done|exact H2].
Qed.

Lemma placer_reachable_safe_witness :
  ∃ t, synthetic 2 = Ok t ∧
  ∃ s, rtc placer_step (mkThreads (new_placer t 32) []) s ∧ home_of (shared s) 5 = 0 ∧
    (∀ c q, ∃ g p', place (shared s) c q = Ok (g, p') ∧ in_range 2 g).
Proof.
  destruct (synthetic_describes 2) as (t & Ht & Hd); [done|]. exists t. split; [exact Ht|].
  assert (t = mkTopology 2 [[SELF; PCIE]; [PCIE; SELF]] [[1000; 10]; [10; 1000]]) as ->.
  { vm_compute in Ht. by injection Ht. }
  match type of Hd with describes ?t _ _ => set (t0 := t) in * end.
  set (p1 := mkPlacer t0 32 1 ∅).
  assert (rtc placer_step (mkThreads (new_placer t0 32) []) (mkThreads (set_home p1 5 0) [])) as Hr.
  { eapply rtc_l; [by apply (step_draw (new_placer t0 32) p1 [] 5 0)|].
    eapply rtc_l; [apply (step_store p1 [] [] 5 0)|]. apply rtc_refl. }
  eexists. split; [exact Hr|]. split; [reflexivity|].
  eapply (placer_reachable_safe _ 2 synthetic_link 32); [exact Hd|done| |exact Hr].
  intros i j. unfold synthetic_link. by destruct (i =? j).
Defined.

Example sample_peers :
  (t <-! detect sample_cuda;; enable_peer_access sample_cuda (λ _, true) t)
    = Ok [(0, 1); (0, 2); (1, 0); (1, 2); (2, 0); (2, 1)] ∧
  (t <-! detect sample_cuda;; Ok (topology_to_string (λ i, str "GPU" ++ to_string i) t))
    = Ok (str "3 GPU(s): GPU0, GPU1, GPU2").
Proof. by vm_compute. Qed.
