(* ===== verification/WasmCodec.v ===== *)
(** * The WSM1 frames (include/wasm_sandbox.h, src/wasm_sandbox.cpp, lines 1-730)

    Task and lifecycle requests and responses.  The scoped enumerations have
    an underlying [uint8_t] and the decoders cast raw bytes to them without a
    check, so each enumeration has a constructor for values that have no
    name. *)

From S2P Require Import Prelude HostBytes Wire.

(** ** Data *)

Definition WASM_MAGIC : Z := 0x57534D31.
Definition WASM_PROTOCOL_VERSION : Z := 1.

Definition kWasmTaskKind : bytes := str "wasm.task.v1".
Definition kWasmLifecycleKind : bytes := str "wasm.lifecycle.v1".
Definition kWasmLifecyclePrepareKind : bytes := str "wasm.lifecycle.prepare.v1".
Definition kWasmLifecycleDrainKind : bytes := str "wasm.lifecycle.drain.v1".
Definition kWasmLifecycleReleaseKind : bytes := str "wasm.lifecycle.release.v1".
Definition kWasmLifecycleQueryKind : bytes := str "wasm.lifecycle.query.v1".

Inductive WasmMessageType := MsgTaskRequest | MsgTaskResponse | MsgLifecycleRequest | MsgLifecycleResponse.
Definition WasmMessageType_u8 (t : WasmMessageType) : Z :=
  match t with
  | MsgTaskRequest => 1 | MsgTaskResponse => 2 | MsgLifecycleRequest => 3 | MsgLifecycleResponse => 4
  end.

Inductive WasmTaskStatus :=
| TaskOk | TaskRejected | TaskError | TaskTimeout | TaskModuleDraining | TaskModuleNotFound
| TaskVersionMismatch | TaskStatusUnnamed (raw : Z).
Definition WasmTaskStatus_u8 (s : WasmTaskStatus) : Z :=
  match s with
  | TaskOk => 0 | TaskRejected => 1 | TaskError => 2 | TaskTimeout => 3 | TaskModuleDraining => 4
  | TaskModuleNotFound => 5 | TaskVersionMismatch => 6 | TaskStatusUnnamed raw => raw
  end.
Definition WasmTaskStatus_of_u8 (v : Z) : WasmTaskStatus :=
  match v with
  | 0 => TaskOk | 1 => TaskRejected | 2 => TaskError | 3 => TaskTimeout | 4 => TaskModuleDraining
  | 5 => TaskModuleNotFound | 6 => TaskVersionMismatch | _ => TaskStatusUnnamed v
  end.

Inductive WasmLifecycleAction := Prepare | Drain | Release | Query | ActionUnnamed (raw : Z).
Definition WasmLifecycleAction_u8 (a : WasmLifecycleAction) : Z :=
  match a with Prepare => 1 | Drain => 2 | Release => 3 | Query => 4 | ActionUnnamed raw => raw end.
Definition WasmLifecycleAction_of_u8 (v : Z) : WasmLifecycleAction :=
  match v with 1 => Prepare | 2 => Drain | 3 => Release | 4 => Query | _ => ActionUnnamed v end.

Inductive WasmLifecycleStatus :=
| LifeOk | LifeRejected | LifeError | LifeBusy | LifeNotFound | LifeStatusUnnamed (raw : Z).
Definition WasmLifecycleStatus_u8 (s : WasmLifecycleStatus) : Z :=
  match s with
  | LifeOk => 0 | LifeRejected => 1 | LifeError => 2 | LifeBusy => 3 | LifeNotFound => 4
  | LifeStatusUnnamed raw => raw
  end.
Definition WasmLifecycleStatus_of_u8 (v : Z) : WasmLifecycleStatus :=
  match v with
  | 0 => LifeOk | 1 => LifeRejected | 2 => LifeError | 3 => LifeBusy | 4 => LifeNotFound
  | _ => LifeStatusUnnamed v
  end.

Inductive WasmModuleState :=
| Unknown | Prepared | Active | Draining | Stopped | Released | StateUnnamed (raw : Z).
#[export] Instance WasmModuleState_eq_dec : EqDecision WasmModuleState.
Proof. solve_decision. Defined.
Definition WasmModuleState_u8 (s : WasmModuleState) : Z :=
  match s with
  | Unknown => 0 | Prepared => 1 | Active => 2 | Draining => 3 | Stopped => 4 | Released => 5
  | StateUnnamed raw => raw
  end.
Definition WasmModuleState_of_u8 (v : Z) : WasmModuleState :=
  match v with
  | 0 => Unknown | 1 => Prepared | 2 => Active | 3 => Draining | 4 => Stopped | 5 => Released
  | _ => StateUnnamed v
  end.

Record WasmBufferDescriptor := mkBuffer {
  buffer_id : Z;
  buffer_flags : Z;
  buffer_offset : Z;
  buffer_length : Z;
  buffer_name : bytes;
}.

Record WasmLimits := mkWasmLimits {
  wl_max_string_bytes : Z;
  wl_max_payload_bytes : Z;
  wl_max_buffers : Z;
  wl_max_frame_bytes : Z;
}.
Definition default_wasm_limits : WasmLimits := mkWasmLimits 1024 (512 * 1024) 64 (1024 * 1024).

Record WasmTaskRequest := mkTaskRequest {
  tq_task_id : bytes;
  tq_sandbox_id : bytes;
  tq_module_id : bytes;
  tq_module_version : bytes;
  tq_task_kind : bytes;
  tq_priority : Z;
  tq_deadline_ms : Z;
  tq_buffers : list WasmBufferDescriptor;
  tq_payload : bytes;
}.

Record WasmTaskResponse := mkTaskResponse {
  tr_task_id : bytes;
  tr_status : WasmTaskStatus;
  tr_protocol_version : Z;
  tr_selected_gpu : Z;
  tr_latency_ms : Z;
  tr_buffers : list WasmBufferDescriptor;
  tr_result : bytes;
  tr_error : bytes;
}.

Record WasmLifecycleRequest := mkLifeRequest {
  lq_action : WasmLifecycleAction;
  lq_request_id : bytes;
  lq_sandbox_id : bytes;
  lq_module_id : bytes;
  lq_module_version : bytes;
  lq_target_gpu : Z;
  lq_grace_period_ms : Z;
  lq_ack_token : bytes;
  lq_payload : bytes;
}.

Record WasmLifecycleResponse := mkLifeResponse {
  lr_action : WasmLifecycleAction;
  lr_status : WasmLifecycleStatus;
  lr_protocol_version : Z;
  lr_request_id : bytes;
  lr_sandbox_id : bytes;
  lr_module_id : bytes;
  lr_module_version : bytes;
  lr_assigned_gpu : Z;
  lr_active_tasks : Z;
  lr_state : WasmModuleState;
  lr_lease_token : bytes;
  lr_error : bytes;
}.

(** The members' default initialisers. *)
Definition default_task_request : WasmTaskRequest := mkTaskRequest [] [] [] [] [] 0 0 [] [].
Definition default_task_response : WasmTaskResponse :=
  mkTaskResponse [] TaskError WASM_PROTOCOL_VERSION (-1) 0 [] [] [].
Definition default_life_request : WasmLifecycleRequest :=
  mkLifeRequest Prepare [] [] [] [] (-1) 0 [] [].
Definition default_life_response : WasmLifecycleResponse :=
  mkLifeResponse Prepare LifeError WASM_PROTOCOL_VERSION [] [] [] [] (-1) 0 Unknown [] [].

Definition is_wasm_request_kind (kind : bytes) : bool :=
  bool_decide (kind = kWasmTaskKind) || bool_decide (kind = kWasmLifecycleKind)
  || bool_decide (kind = kWasmLifecyclePrepareKind) || bool_decide (kind = kWasmLifecycleDrainKind)
  || bool_decide (kind = kWasmLifecycleReleaseKind) || bool_decide (kind = kWasmLifecycleQueryKind).

Definition wasm_task_status_name (s : WasmTaskStatus) : bytes :=
  match s with
  | TaskOk => str "Ok" | TaskRejected => str "Rejected" | TaskError => str "Error"
  | TaskTimeout => str "Timeout" | TaskModuleDraining => str "ModuleDraining"
  | TaskModuleNotFound => str "ModuleNotFound" | TaskVersionMismatch => str "VersionMismatch"
  | TaskStatusUnnamed _ => str "Unknown"
  end.

Definition wasm_lifecycle_action_name (a : WasmLifecycleAction) : bytes :=
  match a with
  | Prepare => str "Prepare" | Drain => str "Drain" | Release => str "Release"
  | Query => str "Query" | ActionUnnamed _ => str "Unknown"
  end.

Definition wasm_lifecycle_status_name (s : WasmLifecycleStatus) : bytes :=
  match s with
  | LifeOk => str "Ok" | LifeRejected => str "Rejected" | LifeError => str "Error"
  | LifeBusy => str "Busy" | LifeNotFound => str "NotFound" | LifeStatusUnnamed _ => str "Unknown"
  end.

Definition wasm_module_state_name (s : WasmModuleState) : bytes :=
  match s with
  | Unknown => str "Unknown" | Prepared => str "Prepared" | Active => str "Active"
  | Draining => str "Draining" | Stopped => str "Stopped" | Released => str "Released"
  | StateUnnamed _ => str "Unknown"
  end.

(** ** Encoding *)

Definition wsm_truncated : bytes := str "frame truncated or incomplete".
Definition wsm_task_ids_empty : bytes :=
  str "task_id, sandbox_id, module_id, module_version, and task_kind must be non-empty".
Definition wsm_life_ids_empty : bytes :=
  str "request_id, sandbox_id, module_id, and module_version must be non-empty".

Section Codec.
Context (h : endian).

Definition wsm_append_bytes (out data : bytes) : bytes := out ++ data.
Definition append_be16 (out : bytes) (v : Z) : bytes := wsm_append_bytes out (mem_store h 2 (htons h v)).
Definition append_be32 (out : bytes) (v : Z) : bytes := wsm_append_bytes out (mem_store h 4 (htonl h v)).
Definition append_be64 (out : bytes) (v : Z) : bytes :=
  let hi := htonl h (wrap 32 (Z.shiftr v 32)) in
  let lo := htonl h (wrap 32 (Z.land v 4294967295)) in
  wsm_append_bytes (wsm_append_bytes out (mem_store h 4 hi)) (mem_store h 4 lo).

Definition wsm_append_string (out value : bytes) (lim : WasmLimits) : result bytes :=
  _ <-! reject_if ((wl_max_string_bytes lim <? zlen value) || (u16_max <? zlen value))
          (str "string length exceeds maximum allowed limit");;
  Ok (wsm_append_bytes (append_be16 out (wrap 16 (zlen value))) value).

Definition wsm_append_blob (out blob : bytes) (lim : WasmLimits) : result bytes :=
  _ <-! reject_if ((wl_max_payload_bytes lim <? zlen blob) || (u32_max <? zlen blob))
          (str "payload blob exceeds maximum allowed limit");;
  Ok (wsm_append_bytes (append_be32 out (wrap 32 (zlen blob))) blob).

(** The loop over the descriptors. *)
Fixpoint append_descriptors (out : bytes) (buffers : list WasmBufferDescriptor) (lim : WasmLimits)
    : result bytes :=
  match buffers with
  | [] => Ok out
  | buf :: buffers =>
      let out := append_be32 out (buffer_id buf) in
      let out := append_be32 out (buffer_flags buf) in
      let out := append_be64 out (buffer_offset buf) in
      let out := append_be64 out (buffer_length buf) in
      out <-! wsm_append_string out (buffer_name buf) lim;;
      append_descriptors out buffers lim
  end.

Definition append_buffer_descriptors (out : bytes) (buffers : list WasmBufferDescriptor)
    (lim : WasmLimits) : result bytes :=
  _ <-! reject_if ((wl_max_buffers lim <? zlen buffers) || (u16_max <? zlen buffers))
          (str "buffer descriptor count exceeds maximum allowed limit");;
  append_descriptors (append_be16 out (wrap 16 (zlen buffers))) buffers lim.

Definition wsm_take (need : Z) : reader unit := take_need wsm_truncated need.
Definition read_be16 : reader Z := read_be h wsm_truncated 2.
Definition read_be32 : reader Z := read_be h wsm_truncated 4.
Definition read_be64 : reader Z :=
  b <~ read_raw wsm_truncated 8;;
  let hi_be := mem_load h (slice b 0 4) in
  let lo_be := mem_load h (slice b 4 4) in
  rret (Z.lor (wrap 64 (Z.shiftl (ntohl h hi_be) 32)) (ntohl h lo_be)).

Definition wsm_read_string (lim : WasmLimits) : reader bytes :=
  read_prefixed read_be16 wsm_truncated (str "string length exceeds configured limit")
    (wl_max_string_bytes lim).

Definition wsm_read_blob (lim : WasmLimits) : reader bytes :=
  read_prefixed read_be32 wsm_truncated (str "payload length exceeds configured limit")
    (wl_max_payload_bytes lim).

Definition read_descriptor (lim : WasmLimits) : reader WasmBufferDescriptor :=
  id <~ read_be32;;
  flags <~ read_be32;;
  offset <~ read_be64;;
  length <~ read_be64;;
  name <~ wsm_read_string lim;;
  rret (mkBuffer id flags offset length name).

Definition read_buffer_descriptors (lim : WasmLimits) : reader (list WasmBufferDescriptor) :=
  count <~ read_be16;;
  _ <~ rguard (wl_max_buffers lim <? count) (str "buffer descriptor count exceeds configured limit");;
  read_n (Z.to_nat count) (read_descriptor lim).

(** Returns the action or flags byte. *)
Definition decode_header (expected_type : WasmMessageType) (lim : WasmLimits) : reader Z :=
  size <~ frame_size;;
  _ <~ rguard ((size =? 0) || (wl_max_frame_bytes lim <? size)) (str "invalid frame size");;
  _ <~ wsm_take 8;;
  magic <~ read_be32;;
  _ <~ rguard (negb (magic =? WASM_MAGIC)) (str "invalid WSM1 protocol magic");;
  version <~ read_be16;;
  _ <~ rguard (negb (version =? WASM_PROTOCOL_VERSION)) (str "unsupported WSM1 protocol version");;
  msg_type_raw <~ load_adv 1;;
  _ <~ rguard (negb (mem_load h msg_type_raw =? WasmMessageType_u8 expected_type))
         (str "unexpected WSM1 message type");;
  action_or_flags <~ load_adv 1;;
  rret (mem_load h action_or_flags).

Definition append_header (frame : bytes) (t : WasmMessageType) (action_or_flags : Z) : bytes :=
  let frame := append_be32 frame WASM_MAGIC in
  let frame := append_be16 frame WASM_PROTOCOL_VERSION in
  let frame := wsm_append_bytes frame (mem_store h 1 (WasmMessageType_u8 t)) in
  wsm_append_bytes frame (mem_store h 1 action_or_flags).

(** [req.priority = frame[offset++]] after its [take(1)]. *)
Definition read_byte : reader Z := b <~ read_raw wsm_truncated 1;; rret (mem_load h b).

Definition task_ids_empty (req : WasmTaskRequest) : bool :=
  bool_decide (tq_task_id req = []) || bool_decide (tq_sandbox_id req = [])
  || bool_decide (tq_module_id req = []) || bool_decide (tq_module_version req = [])
  || bool_decide (tq_task_kind req = []).

(** The bodies of the encoders and decoders once [out] is non-null. *)
Definition task_request_encoder (req : WasmTaskRequest) (lim : WasmLimits) : result bytes :=
  _ <-! reject_if (task_ids_empty req) wsm_task_ids_empty;;
  let frame := append_header [] MsgTaskRequest 0 in
  frame <-! wsm_append_string frame (tq_task_id req) lim;;
  frame <-! wsm_append_string frame (tq_sandbox_id req) lim;;
  frame <-! wsm_append_string frame (tq_module_id req) lim;;
  frame <-! wsm_append_string frame (tq_module_version req) lim;;
  frame <-! wsm_append_string frame (tq_task_kind req) lim;;
  let frame := wsm_append_bytes frame (mem_store h 1 (tq_priority req)) in
  let frame := append_be64 frame (tq_deadline_ms req) in
  frame <-! append_buffer_descriptors frame (tq_buffers req) lim;;
  frame <-! wsm_append_blob frame (tq_payload req) lim;;
  _ <-! reject_if (wl_max_frame_bytes lim <? zlen frame)
          (str "encoded task request exceeds max_frame_bytes");;
  Ok frame.

Definition task_request_reader (lim : WasmLimits) : reader WasmTaskRequest :=
  _ <~ decode_header MsgTaskRequest lim;;
  task_id <~ wsm_read_string lim;;
  sandbox_id <~ wsm_read_string lim;;
  module_id <~ wsm_read_string lim;;
  module_version <~ wsm_read_string lim;;
  task_kind <~ wsm_read_string lim;;
  priority <~ read_byte;;
  deadline_ms <~ read_be64;;
  buffers <~ read_buffer_descriptors lim;;
  payload <~ wsm_read_blob lim;;
  extra <~ trailing;;
  _ <~ rguard extra (str "task request frame contains trailing bytes");;
  let req := mkTaskRequest task_id sandbox_id module_id module_version task_kind priority
               deadline_ms buffers payload in
  _ <~ rguard (task_ids_empty req) wsm_task_ids_empty;;
  rret req.

Definition task_response_encoder (resp : WasmTaskResponse) (lim : WasmLimits) : result bytes :=
  let frame := append_header [] MsgTaskResponse (WasmTaskStatus_u8 (tr_status resp)) in
  let frame := append_be16 frame (tr_protocol_version resp) in
  frame <-! wsm_append_string frame (tr_task_id resp) lim;;
  let frame := append_be32 frame (wrap 32 (tr_selected_gpu resp)) in
  let frame := append_be64 frame (tr_latency_ms resp) in
  frame <-! wsm_append_string frame (tr_error resp) lim;;
  frame <-! append_buffer_descriptors frame (tr_buffers resp) lim;;
  frame <-! wsm_append_blob frame (tr_result resp) lim;;
  _ <-! reject_if (wl_max_frame_bytes lim <? zlen frame)
          (str "encoded task response exceeds max_frame_bytes");;
  Ok frame.

Definition task_response_reader (lim : WasmLimits) : reader WasmTaskResponse :=
  status_raw <~ decode_header MsgTaskResponse lim;;
  protocol_version <~ read_be16;;
  task_id <~ wsm_read_string lim;;
  gpu <~ read_be32;;
  latency_ms <~ read_be64;;
  error <~ wsm_read_string lim;;
  buffers <~ read_buffer_descriptors lim;;
  res <~ wsm_read_blob lim;;
  extra <~ trailing;;
  _ <~ rguard extra (str "task response frame contains trailing bytes");;
  rret (mkTaskResponse task_id (WasmTaskStatus_of_u8 status_raw) protocol_version
          (to_signed 32 gpu) latency_ms buffers res error).

Definition life_ids_empty (req : WasmLifecycleRequest) : bool :=
  bool_decide (lq_request_id req = []) || bool_decide (lq_sandbox_id req = [])
  || bool_decide (lq_module_id req = []) || bool_decide (lq_module_version req = []).

Definition life_request_encoder (req : WasmLifecycleRequest) (lim : WasmLimits) : result bytes :=
  _ <-! reject_if (life_ids_empty req) wsm_life_ids_empty;;
  let frame := append_header [] MsgLifecycleRequest (WasmLifecycleAction_u8 (lq_action req)) in
  frame <-! wsm_append_string frame (lq_request_id req) lim;;
  frame <-! wsm_append_string frame (lq_sandbox_id req) lim;;
  frame <-! wsm_append_string frame (lq_module_id req) lim;;
  frame <-! wsm_append_string frame (lq_module_version req) lim;;
  let frame := append_be32 frame (wrap 32 (lq_target_gpu req)) in
  let frame := append_be32 frame (lq_grace_period_ms req) in
  frame <-! wsm_append_string frame (lq_ack_token req) lim;;
  frame <-! wsm_append_blob frame (lq_payload req) lim;;
  _ <-! reject_if (wl_max_frame_bytes lim <? zlen frame)
          (str "encoded lifecycle request exceeds max_frame_bytes");;
  Ok frame.

Definition life_request_reader (lim : WasmLimits) : reader WasmLifecycleRequest :=
  action_raw <~ decode_header MsgLifecycleRequest lim;;
  request_id <~ wsm_read_string lim;;
  sandbox_id <~ wsm_read_string lim;;
  module_id <~ wsm_read_string lim;;
  module_version <~ wsm_read_string lim;;
  target_gpu <~ read_be32;;
  grace_period_ms <~ read_be32;;
  ack_token <~ wsm_read_string lim;;
  payload <~ wsm_read_blob lim;;
  extra <~ trailing;;
  _ <~ rguard extra (str "lifecycle request frame contains trailing bytes");;
  let req := mkLifeRequest (WasmLifecycleAction_of_u8 action_raw) request_id sandbox_id module_id
               module_version (to_signed 32 target_gpu) grace_period_ms ack_token payload in
  _ <~ rguard (life_ids_empty req) wsm_life_ids_empty;;
  rret req.

Definition life_response_encoder (resp : WasmLifecycleResponse) (lim : WasmLimits) : result bytes :=
  let frame := append_header [] MsgLifecycleResponse (WasmLifecycleAction_u8 (lr_action resp)) in
  let frame := wsm_append_bytes frame (mem_store h 1 (WasmLifecycleStatus_u8 (lr_status resp))) in
  let frame := append_be16 frame (lr_protocol_version resp) in
  let frame := wsm_append_bytes frame (mem_store h 1 (WasmModuleState_u8 (lr_state resp))) in
  frame <-! wsm_append_string frame (lr_request_id resp) lim;;
  frame <-! wsm_append_string frame (lr_sandbox_id resp) lim;;
  frame <-! wsm_append_string frame (lr_module_id resp) lim;;
  frame <-! wsm_append_string frame (lr_module_version resp) lim;;
  let frame := append_be32 frame (wrap 32 (lr_assigned_gpu resp)) in
  let frame := append_be32 frame (lr_active_tasks resp) in
  frame <-! wsm_append_string frame (lr_lease_token resp) lim;;
  frame <-! wsm_append_string frame (lr_error resp) lim;;
  _ <-! reject_if (wl_max_frame_bytes lim <? zlen frame)
          (str "encoded lifecycle response exceeds max_frame_bytes");;
  Ok frame.

Definition life_response_reader (lim : WasmLimits) : reader WasmLifecycleResponse :=
  action_raw <~ decode_header MsgLifecycleResponse lim;;
  status_raw <~ read_byte;;
  protocol_version <~ read_be16;;
  state_raw <~ read_byte;;
  request_id <~ wsm_read_string lim;;
  sandbox_id <~ wsm_read_string lim;;
  module_id <~ wsm_read_string lim;;
  module_version <~ wsm_read_string lim;;
  assigned_gpu <~ read_be32;;
  active_tasks <~ read_be32;;
  lease_token <~ wsm_read_string lim;;
  error <~ wsm_read_string lim;;
  extra <~ trailing;;
  _ <~ rguard extra (str "lifecycle response frame contains trailing bytes");;
  rret (mkLifeResponse (WasmLifecycleAction_of_u8 action_raw) (WasmLifecycleStatus_of_u8 status_raw)
          protocol_version request_id sandbox_id module_id module_version (to_signed 32 assigned_gpu)
          active_tasks (WasmModuleState_of_u8 state_raw) lease_token error).

Definition encode_wasm_task_request req out error lim : result (bool * option bytes * option bytes) :=
  api_call (str "null output vector") out error (task_request_encoder req lim).
Definition decode_wasm_task_request frame out error lim :=
  api_call (str "null output pointer") out error (run_reader (task_request_reader lim) frame).
Definition encode_wasm_task_response resp out error lim : result (bool * option bytes * option bytes) :=
  api_call (str "null output vector") out error (task_response_encoder resp lim).
Definition decode_wasm_task_response frame out error lim :=
  api_call (str "null output pointer") out error (run_reader (task_response_reader lim) frame).
Definition encode_wasm_lifecycle_request req out error lim : result (bool * option bytes * option bytes) :=
  api_call (str "null output vector") out error (life_request_encoder req lim).
Definition decode_wasm_lifecycle_request frame out error lim :=
  api_call (str "null output pointer") out error (run_reader (life_request_reader lim) frame).
Definition encode_wasm_lifecycle_response resp out error lim : result (bool * option bytes * option bytes) :=
  api_call (str "null output vector") out error (life_response_encoder resp lim).
Definition decode_wasm_lifecycle_response frame out error lim :=
  api_call (str "null output pointer") out error (run_reader (life_response_reader lim) frame).

End Codec.

(** ** Wire layout *)

Definition wsm_header_layout (t : WasmMessageType) (action_or_flags : Z) : bytes :=
  store_be 4 WASM_MAGIC ++ store_be 2 WASM_PROTOCOL_VERSION ++
  store_be 1 (WasmMessageType_u8 t) ++ store_be 1 action_or_flags.

Definition descriptor_layout (d : WasmBufferDescriptor) : bytes :=
  store_be 4 (buffer_id d) ++ store_be 4 (buffer_flags d) ++ store_be 8 (buffer_offset d) ++
  store_be 8 (buffer_length d) ++ enc_prefixed 2 (buffer_name d).

Definition descriptors_layout (l : list WasmBufferDescriptor) : bytes :=
  store_be 2 (zlen l) ++ concat (descriptor_layout <$> l).

Definition wf_descriptor (d : WasmBufferDescriptor) : Prop :=
  is_uint 32 (buffer_id d) ∧ is_uint 32 (buffer_flags d) ∧ is_uint 64 (buffer_offset d) ∧
  is_uint 64 (buffer_length d).

Definition descriptors_fit (lim : WasmLimits) (l : list WasmBufferDescriptor) : Prop :=
  zlen l ≤ wl_max_buffers lim ∧ zlen l < 2 ^ 16 ∧
  Forall (λ d, fits 2 (wl_max_string_bytes lim) (buffer_name d)) l.

(** The frames of the four messages.  The flags byte of a task request is
    written as zero and not inspected when read. *)
Definition task_request_layout (flags : Z) (r : WasmTaskRequest) : bytes :=
  wsm_header_layout MsgTaskRequest flags ++ enc_prefixed 2 (tq_task_id r) ++
  enc_prefixed 2 (tq_sandbox_id r) ++ enc_prefixed 2 (tq_module_id r) ++
  enc_prefixed 2 (tq_module_version r) ++ enc_prefixed 2 (tq_task_kind r) ++
  store_be 1 (tq_priority r) ++ store_be 8 (tq_deadline_ms r) ++
  descriptors_layout (tq_buffers r) ++ enc_prefixed 4 (tq_payload r).

Definition task_response_layout (r : WasmTaskResponse) : bytes :=
  wsm_header_layout MsgTaskResponse (WasmTaskStatus_u8 (tr_status r)) ++
  store_be 2 (tr_protocol_version r) ++ enc_prefixed 2 (tr_task_id r) ++
  store_be 4 (wrap 32 (tr_selected_gpu r)) ++ store_be 8 (tr_latency_ms r) ++
  enc_prefixed 2 (tr_error r) ++ descriptors_layout (tr_buffers r) ++ enc_prefixed 4 (tr_result r).

Definition life_request_layout (r : WasmLifecycleRequest) : bytes :=
  wsm_header_layout MsgLifecycleRequest (WasmLifecycleAction_u8 (lq_action r)) ++
  enc_prefixed 2 (lq_request_id r) ++ enc_prefixed 2 (lq_sandbox_id r) ++
  enc_prefixed 2 (lq_module_id r) ++ enc_prefixed 2 (lq_module_version r) ++
  store_be 4 (wrap 32 (lq_target_gpu r)) ++ store_be 4 (lq_grace_period_ms r) ++
  enc_prefixed 2 (lq_ack_token r) ++ enc_prefixed 4 (lq_payload r).

Definition life_response_layout (r : WasmLifecycleResponse) : bytes :=
  wsm_header_layout MsgLifecycleResponse (WasmLifecycleAction_u8 (lr_action r)) ++
  store_be 1 (WasmLifecycleStatus_u8 (lr_status r)) ++ store_be 2 (lr_protocol_version r) ++
  store_be 1 (WasmModuleState_u8 (lr_state r)) ++ enc_prefixed 2 (lr_request_id r) ++
  enc_prefixed 2 (lr_sandbox_id r) ++ enc_prefixed 2 (lr_module_id r) ++
  enc_prefixed 2 (lr_module_version r) ++ store_be 4 (wrap 32 (lr_assigned_gpu r)) ++
  store_be 4 (lr_active_tasks r) ++ enc_prefixed 2 (lr_lease_token r) ++ enc_prefixed 2 (lr_error r).

(** A value of a scoped enumeration over [uint8_t]. *)
Definition wf_enum {E} (to_raw : E → Z) (of_raw : Z → E) (e : E) : Prop :=
  of_raw (to_raw e) = e ∧ is_uint 8 (to_raw e).

(** Values the members' types hold. *)
Definition wf_task_request (r : WasmTaskRequest) : Prop :=
  is_uint 8 (tq_priority r) ∧ is_uint 64 (tq_deadline_ms r) ∧ Forall wf_descriptor (tq_buffers r).
Definition wf_task_response (r : WasmTaskResponse) : Prop :=
  wf_enum WasmTaskStatus_u8 WasmTaskStatus_of_u8 (tr_status r) ∧ is_uint 16 (tr_protocol_version r) ∧
  is_int 32 (tr_selected_gpu r) ∧ is_uint 64 (tr_latency_ms r) ∧ Forall wf_descriptor (tr_buffers r).
Definition wf_life_request (r : WasmLifecycleRequest) : Prop :=
  wf_enum WasmLifecycleAction_u8 WasmLifecycleAction_of_u8 (lq_action r) ∧
  is_int 32 (lq_target_gpu r) ∧ is_uint 32 (lq_grace_period_ms r).
Definition wf_life_response (r : WasmLifecycleResponse) : Prop :=
  wf_enum WasmLifecycleAction_u8 WasmLifecycleAction_of_u8 (lr_action r) ∧
  wf_enum WasmLifecycleStatus_u8 WasmLifecycleStatus_of_u8 (lr_status r) ∧
  wf_enum WasmModuleState_u8 WasmModuleState_of_u8 (lr_state r) ∧
  is_uint 16 (lr_protocol_version r) ∧ is_int 32 (lr_assigned_gpu r) ∧ is_uint 32 (lr_active_tasks r).

(** The limits a message must meet. *)
Definition string_fits (lim : WasmLimits) (s : bytes) : Prop := fits 2 (wl_max_string_bytes lim) s.
Definition blob_fits (lim : WasmLimits) (s : bytes) : Prop := fits 4 (wl_max_payload_bytes lim) s.

Definition task_request_fits (lim : WasmLimits) (r : WasmTaskRequest) : Prop :=
  task_ids_empty r = false ∧ string_fits lim (tq_task_id r) ∧ string_fits lim (tq_sandbox_id r) ∧
  string_fits lim (tq_module_id r) ∧ string_fits lim (tq_module_version r) ∧
  string_fits lim (tq_task_kind r) ∧ descriptors_fit lim (tq_buffers r) ∧
  blob_fits lim (tq_payload r) ∧ zlen (task_request_layout 0 r) ≤ wl_max_frame_bytes lim.
Definition task_response_fits (lim : WasmLimits) (r : WasmTaskResponse) : Prop :=
  string_fits lim (tr_task_id r) ∧ string_fits lim (tr_error r) ∧ descriptors_fit lim (tr_buffers r) ∧
  blob_fits lim (tr_result r) ∧ zlen (task_response_layout r) ≤ wl_max_frame_bytes lim.
Definition life_request_fits (lim : WasmLimits) (r : WasmLifecycleRequest) : Prop :=
  life_ids_empty r = false ∧ string_fits lim (lq_request_id r) ∧ string_fits lim (lq_sandbox_id r) ∧
  string_fits lim (lq_module_id r) ∧ string_fits lim (lq_module_version r) ∧
  string_fits lim (lq_ack_token r) ∧ blob_fits lim (lq_payload r) ∧
  zlen (life_request_layout r) ≤ wl_max_frame_bytes lim.
Definition life_response_fits (lim : WasmLimits) (r : WasmLifecycleResponse) : Prop :=
  string_fits lim (lr_request_id r) ∧ string_fits lim (lr_sandbox_id r) ∧
  string_fits lim (lr_module_id r) ∧ string_fits lim (lr_module_version r) ∧
  string_fits lim (lr_lease_token r) ∧ string_fits lim (lr_error r) ∧
  zlen (life_response_layout r) ≤ wl_max_frame_bytes lim.

Ltac cbn_wasm := cbn [tq_task_id tq_sandbox_id tq_module_id tq_module_version tq_task_kind tq_priority
  tq_deadline_ms tq_buffers tq_payload tr_task_id tr_status tr_protocol_version tr_selected_gpu
  tr_latency_ms tr_buffers tr_result tr_error lq_action lq_request_id lq_sandbox_id lq_module_id
  lq_module_version lq_target_gpu lq_grace_period_ms lq_ack_token lq_payload lr_action lr_status
  lr_protocol_version lr_request_id lr_sandbox_id lr_module_id lr_module_version lr_assigned_gpu
  lr_active_tasks lr_state lr_lease_token lr_error] in *.

(** Every raw byte is a value of each enumeration. *)
Lemma task_status_raw v : WasmTaskStatus_u8 (WasmTaskStatus_of_u8 v) = v.
Proof. destruct v as [|p|p]; [done| |done]. by do 3 (destruct p as [p|p|]; try done). Qed.
Lemma action_raw v : WasmLifecycleAction_u8 (WasmLifecycleAction_of_u8 v) = v.
Proof. destruct v as [|p|p]; [done| |done]. by do 3 (destruct p as [p|p|]; try done). Qed.
Lemma life_status_raw v : WasmLifecycleStatus_u8 (WasmLifecycleStatus_of_u8 v) = v.
Proof. destruct v as [|p|p]; [done| |done]. by do 3 (destruct p as [p|p|]; try done). Qed.
Lemma state_raw v : WasmModuleState_u8 (WasmModuleState_of_u8 v) = v.
Proof. destruct v as [|p|p]; [done| |done]. by do 3 (destruct p as [p|p|]; try done). Qed.

Lemma wf_enum_of {E} (to_raw : E → Z) of_raw v :
  (∀ v, to_raw (of_raw v) = v) → is_uint 8 v → wf_enum to_raw of_raw (of_raw v).
Proof. intros Hr Hv. unfold wf_enum. by rewrite Hr. Qed.

Section CodecLemmas.
Context (h : endian) (lim : WasmLimits).

Lemma append_be16_layout out v : append_be16 h out v = out ++ store_be 2 v.
Proof. unfold append_be16, wsm_append_bytes, htons. by rewrite mem_store_hton. Qed.
Lemma append_be32_layout out v : append_be32 h out v = out ++ store_be 4 v.
Proof. unfold append_be32, wsm_append_bytes, htonl. by rewrite mem_store_hton. Qed.
Lemma append_be64_layout out v : is_uint 64 v → append_be64 h out v = out ++ store_be 8 v.
Proof.
  intros Hv. unfold append_be64, wsm_append_bytes, htonl. rewrite !mem_store_hton, <- app_assoc.
  f_equal. destruct (split64 v Hv) as (Hhi & Hlo & Heq).
  rewrite Heq at 3. change (2 ^ 32) with (256 ^ Z.of_nat 4). by rewrite (store_be_app 4 4).
Qed.

#[local] Instance codec_read_be16 : Codec (read_be16 h) (store_be 2) (is_uint 16).
Proof. apply codec_read_be. Qed.
#[local] Instance codec_read_be32 : Codec (read_be32 h) (store_be 4) (is_uint 32).
Proof. apply codec_read_be. Qed.

Lemma be64_halves b : zlen b = 8 →
  Z.lor (wrap 64 (Z.shiftl (ntohl h (mem_load h (slice b 0 4))) 32)) (ntohl h (mem_load h (slice b 4 4)))
  = load_be b.
Proof.
  intros Hb. destruct (split_at 4 b) as (b1 & b2 & -> & H1); [lia|]. rewrite zlen_app in Hb.
  assert (slice (b1 ++ b2) 0 4 = b1) as ->.
  { rewrite <- H1. by apply (slice_app [] b1 b2). }
  assert (slice (b1 ++ b2) 4 4 = b2) as ->.
  { replace 4 with (zlen b2) at 2 by lia. rewrite <- H1 at 1.
    rewrite <- (app_nil_r b2) at 1. apply slice_app. }
  unfold ntohl. rewrite !hton_mem_load_z by (simpl; lia).
  rewrite join64 by (apply load_be_uint; lia). rewrite load_be_app.
  replace (zlen b2) with 4 by lia. done.
Qed.

#[local] Instance codec_read_be64 : Codec (read_be64 h) (store_be 8) (is_uint 64).
Proof.
  apply (codec_map (read_raw wsm_truncated 8) id (λ b, zlen b = 8) _ (store_be 8) (is_uint 64)); [by apply codec_read_raw|..].
  - intros b Hb. rewrite be64_halves by done.
    split; [by apply store_load_be_z|apply load_be_uint; lia].
  - intros v Hv. rewrite be64_halves by apply zlen_store_be.
    split; [by apply load_store_be_uint|apply zlen_store_be].
Qed.

#[local] Instance codec_read_byte : Codec (read_byte h) (store_be 1) (is_uint 8).
Proof.
  apply (codec_map (read_raw wsm_truncated 1) id (λ b, zlen b = 1) _ (store_be 1) (is_uint 8)); [by apply codec_read_raw|..].
  - intros b Hb. rewrite mem_load_1 by done.
    split; [by apply store_load_be_z|apply load_be_uint; lia].
  - intros v Hv. rewrite mem_load_1 by apply zlen_store_be.
    split; [by apply load_store_be_uint|apply zlen_store_be].
Qed.

#[local] Instance codec_wsm_read_string :
  Codec (wsm_read_string h lim) (enc_prefixed 2) (fits 2 (wl_max_string_bytes lim)).
Proof. apply codec_read_prefixed, codec_read_be. Qed.
#[local] Instance codec_wsm_read_blob :
  Codec (wsm_read_blob h lim) (enc_prefixed 4) (fits 4 (wl_max_payload_bytes lim)).
Proof. apply codec_read_prefixed, codec_read_be. Qed.

Definition good_descriptor (d : WasmBufferDescriptor) : Prop :=
  wf_descriptor d ∧ fits 2 (wl_max_string_bytes lim) (buffer_name d).

#[local] Instance codec_read_descriptor :
  Codec (read_descriptor h lim) descriptor_layout good_descriptor.
Proof.
  split.
  - intros frame off l Q Hat HQ. unfold read_descriptor. do 10 wp_step. wp_step.
    match goal with H : at_off _ _ ?r |- Q ?d _ => specialize (HQ d r) end.
    unfold descriptor_layout in HQ. cbn [buffer_id buffer_flags buffer_offset buffer_length buffer_name] in HQ.
    rewrite !zlen_app, !Z.add_assoc, <- !app_assoc in HQ. apply HQ; [|done..]. by split.
  - intros frame off [i fl o n s] rest Hat [(H1 & H2 & H3 & H4) H5].
    unfold descriptor_layout in *. cbn [buffer_id buffer_flags buffer_offset buffer_length buffer_name] in *.
    rewrite <- !app_assoc in Hat. unfold read_descriptor.
    do 5 (eapply codec_step; [exact Hat|done|]; clear Hat; intros Hat).
    unfold rret. do 2 f_equal. rewrite !zlen_app. lia.
Qed.

#[local] Instance codec_read_buffers :
  Codec (read_buffer_descriptors h lim) descriptors_layout
    (λ l, Forall wf_descriptor l ∧ descriptors_fit lim l).
Proof.
  pose proof (λ n, codec_read_n (read_descriptor h lim) _ _ n codec_read_descriptor) as HC.
  split.
  - intros frame off l Q Hat HQ. unfold read_buffer_descriptors. do 4 wp_step.
    eapply (codec_wp (Codec := HC _)); [done|]. intros bs rest' [Hlen HF] -> Hat'.
    assert (zlen bs = a) as <- by (unfold zlen, is_uint in *; lia).
    specialize (HQ bs rest'). unfold descriptors_layout in HQ.
    rewrite zlen_app, Z.add_assoc, <- app_assoc in HQ. apply HQ; [|done..].
    split; [by eapply List.Forall_impl; [|exact HF]; intros ? []|].
    split_and!; [lia|by match goal with H : is_uint 16 _ |- _ => apply H end|].
    by eapply List.Forall_impl; [|exact HF]; intros ? [].
  - intros frame off bs rest Hat [Hwf (Hmax & Hlen & Hf)]. unfold descriptors_layout in *.
    rewrite <- app_assoc in Hat. unfold read_buffer_descriptors.
    eapply codec_step; [exact Hat|split; [apply zlen_nonneg|done]|]. clear Hat. intros Hat.
    eapply rseq_Ok; [unfold rguard; rewrite (proj2 (Z.ltb_ge _ _)) by lia; done|].
    rewrite zlen_app, Z.add_assoc. eapply (codec_run (Codec := HC _)); [done|].
    split; [unfold zlen; lia|]. by apply List.Forall_and.
Qed.

Lemma wp_wsm_header t frame (Q : Z → Z → Prop) :
  (∀ a rest, frame = wsm_header_layout t a ++ rest → is_uint 8 a →
     zlen frame ≤ wl_max_frame_bytes lim → at_off frame 8 rest → Q a 8) →
  wp (decode_header h t lim) frame 0 Q.
Proof.
  intros HQ. assert (Hat := at_off_start frame). unfold decode_header, wsm_take.
  do 17 wp_step. rewrite mem_load_1 by done. do 4 wp_step. rewrite mem_load_1 by done.
  match goal with H : at_off _ _ ?r |- Q ?a _ => specialize (HQ a r) end.
  rewrite !zlen_store_be in *. change (0 + Z.of_nat 4 + Z.of_nat 2 + 1 + 1) with 8 in *.
  apply HQ; [|by apply (load_be_uint_z _ 1)|lia|done]. unfold wsm_header_layout. rewrite <- !app_assoc.
  repeat (f_equal; try (symmetry; apply store_load_be_z; done); try lia).
  apply load_be_eq; [done|lia].
Qed.

Lemma runs_wsm_header t a rest (Q : Z → Z → Prop) :
  is_uint 8 a → zlen (wsm_header_layout t a ++ rest) ≤ wl_max_frame_bytes lim →
  (at_off (wsm_header_layout t a ++ rest) 8 rest → Q a 8) →
  runs (decode_header h t lim) (wsm_header_layout t a ++ rest) 0 Q.
Proof.
  intros Ha Hlim HQ. unfold decode_header, wsm_take.
  assert (zlen (wsm_header_layout t a) = 8) as Hh by (by unfold wsm_header_layout).
  pose proof (zlen_nonneg rest). assert (Hat := at_off_start (wsm_header_layout t a ++ rest)).
  do 4 run_step; [rewrite zlen_app in *; lia|]. do 2 run_step.
  unfold wsm_header_layout at 2 in Hat. rewrite <- !app_assoc in Hat.
  do 8 (run_step; try done). do 4 run_step; [by destruct t, h|].
  do 3 run_step. rewrite mem_load_1, load_store_be_uint by (done || apply zlen_store_be).
  match goal with H : at_off _ ?o _ |- Q a ?o => change o with 8 in * end. by apply HQ.
Qed.

Lemma append_header_layout t a : append_header h [] t a = wsm_header_layout t a.
Proof.
  unfold append_header, wsm_append_bytes.
  rewrite append_be32_layout, append_be16_layout, !mem_store_1. by rewrite app_nil_l, <- !app_assoc.
Qed.

Lemma wsm_append_string_spec out value :
  decides (wsm_append_string h out value lim)
    (λ f, fits 2 (wl_max_string_bytes lim) value ∧ f = out ++ enc_prefixed 2 value).
Proof.
  unfold wsm_append_string, wsm_append_bytes, fits, u16_max, enc_prefixed.
  change (256 ^ Z.of_nat 2) with 65536. pose proof (zlen_nonneg value).
  split; [by auto with codec|]. intros f. rewrite rbind_reject, orb_false_iff, !Z.ltb_ge, append_be16_layout.
  split.
  - intros [Hl [= <-]]. rewrite wrap_small by (unfold is_uint; lia). rewrite <- app_assoc.
    split; [lia|done].
  - intros [Hl ->]. rewrite wrap_small by (unfold is_uint; lia). rewrite <- app_assoc.
    split; [lia|done].
Qed.

Lemma wsm_append_blob_spec out value :
  decides (wsm_append_blob h out value lim)
    (λ f, fits 4 (wl_max_payload_bytes lim) value ∧ f = out ++ enc_prefixed 4 value).
Proof.
  unfold wsm_append_blob, wsm_append_bytes, fits, u32_max, enc_prefixed.
  change (256 ^ Z.of_nat 4) with 4294967296. pose proof (zlen_nonneg value).
  split; [by auto with codec|]. intros f. rewrite rbind_reject, orb_false_iff, !Z.ltb_ge, append_be32_layout.
  split.
  - intros [Hl [= <-]]. rewrite wrap_small by (unfold is_uint; lia). rewrite <- app_assoc.
    split; [lia|done].
  - intros [Hl ->]. rewrite wrap_small by (unfold is_uint; lia). rewrite <- app_assoc.
    split; [lia|done].
Qed.

Lemma append_descriptors_spec l : ∀ out,
  Forall wf_descriptor l →
  decides (append_descriptors h out l lim)
    (λ f, Forall (λ d, fits 2 (wl_max_string_bytes lim) (buffer_name d)) l ∧
          f = out ++ concat (descriptor_layout <$> l)).
Proof.
  induction l as [|d l IH]; intros out Hwf; cbn [append_descriptors fmap list_fmap concat].
  { rewrite app_nil_r. eapply decides_iff; [apply decides_ret|]. intros b.
    split; [intros ->; by split|by intros [_ ->]]. }
  inversion Hwf as [|? ? (H1 & H2 & H3 & H4) Hwf']; subst.
  rewrite !append_be64_layout, !append_be32_layout by done.
  eapply decides_iff.
  - eapply decides_bind; [apply wsm_append_string_spec|]. intros ? ?. by apply IH.
  - intros f. cbv beta. rewrite Forall_cons_iff. unfold descriptor_layout at 2. split.
    + intros (o & [Hs ->] & Hl & ->). by rewrite <- !app_assoc.
    + intros [[Hs Hl] ->]. eexists. split; [by split|]. by rewrite <- !app_assoc.
Qed.

Lemma append_buffers_spec out l :
  Forall wf_descriptor l →
  decides (append_buffer_descriptors h out l lim)
    (λ f, descriptors_fit lim l ∧ f = out ++ descriptors_layout l).
Proof.
  intros Hwf. unfold append_buffer_descriptors. eapply decides_iff.
  - eapply decides_bind; [apply decides_reject|]. intros ? ?. by apply append_descriptors_spec.
  - intros f. cbv beta. unfold descriptors_fit, descriptors_layout, u16_max.
    pose proof (zlen_nonneg l). rewrite append_be16_layout. split.
    + intros (_ & Hl & Hf & ->). rewrite wrap_small by (unfold is_uint; lia).
      rewrite <- app_assoc. split_and!; done || lia.
    + intros [(Hl1 & Hl2 & Hf) ->]. exists tt. rewrite wrap_small by (unfold is_uint; lia).
      rewrite <- app_assoc. split_and!; done || lia.
Qed.

(** *** Encoders *)

Ltac enc_step :=
  first [eapply decides_bind; [apply decides_reject|]; intros ? ?
        |eapply decides_bind; [apply wsm_append_string_spec|]; intros ? ?
        |eapply decides_bind; [apply wsm_append_blob_spec|]; intros ? ?
        |eapply decides_bind; [by apply append_buffers_spec|]; intros ? ?
        |apply decides_ret].

(** The layout the appends add up to, and the size test on it. *)
Ltac enc_layout L :=
  rewrite ?append_be64_layout, ?append_be32_layout, ?append_be16_layout in * by done;
  unfold L in *; rewrite <- ?app_assoc in *.

Ltac enc_close L :=
  split;
  [ intro; repeat match goal with
      | H : ∃ _, _ |- _ => destruct H
      | H : _ ∧ _ |- _ => destruct H
      end; subst; enc_layout L; split_and!; done || lia
  | intros [Hfit ->]; repeat match goal with H : _ ∧ _ |- _ => destruct H end;
    repeat first [exists tt; split; [done|] | eexists; split; [split; [done|reflexivity]|]];
    exists tt; enc_layout L; split; [lia|done] ].

Lemma task_request_encoder_spec r :
  wf_task_request r →
  decides (task_request_encoder h r lim)
    (λ f, task_request_fits lim r ∧ f = task_request_layout 0 r).
Proof.
  intros (H1 & H2 & H3). eapply decides_iff.
  - unfold task_request_encoder, wsm_append_bytes.
    rewrite append_header_layout, mem_store_1. repeat enc_step.
  - intros f. cbv beta. unfold task_request_fits, string_fits, blob_fits. enc_close task_request_layout.
Qed.

Lemma task_response_encoder_spec r :
  wf_task_response r →
  decides (task_response_encoder h r lim)
    (λ f, task_response_fits lim r ∧ f = task_response_layout r).
Proof.
  intros (H1 & H2 & H3 & H4 & H5). eapply decides_iff.
  - unfold task_response_encoder, wsm_append_bytes. rewrite append_header_layout. repeat enc_step.
  - intros f. cbv beta. unfold task_response_fits, string_fits, blob_fits. enc_close task_response_layout.
Qed.

Lemma life_request_encoder_spec r :
  decides (life_request_encoder h r lim)
    (λ f, life_request_fits lim r ∧ f = life_request_layout r).
Proof.
  eapply decides_iff.
  - unfold life_request_encoder, wsm_append_bytes. rewrite append_header_layout. repeat enc_step.
  - intros f. cbv beta. unfold life_request_fits, string_fits, blob_fits. enc_close life_request_layout.
Qed.

Lemma life_response_encoder_spec r :
  decides (life_response_encoder h r lim)
    (λ f, life_response_fits lim r ∧ f = life_response_layout r).
Proof.
  eapply decides_iff.
  - unfold life_response_encoder, wsm_append_bytes.
    rewrite append_header_layout, !mem_store_1. repeat enc_step.
  - intros f. cbv beta. unfold life_response_fits, string_fits. enc_close life_response_layout.
Qed.

(** *** Decoders *)

Lemma zlen_task_request_flags flags flags' r :
  zlen (task_request_layout flags r) = zlen (task_request_layout flags' r).
Proof. unfold task_request_layout, wsm_header_layout. by rewrite !zlen_app, !zlen_store_be. Qed.

Lemma wp_task_request frame :
  wp (task_request_reader h lim) frame 0 (λ r _,
    ∃ flags, is_uint 8 flags ∧ frame = task_request_layout flags r ∧ wf_task_request r ∧
      task_request_fits lim r).
Proof.
  unfold task_request_reader. wp_step. apply wp_wsm_header. intros flags rest Hf Hfl Hsz Hat.
  repeat wp_step. exists flags.
  match goal with |- _ ∧ _ = task_request_layout _ ?r ∧ _ => set (req := r) in * end.
  assert (frame = task_request_layout flags req) as Hlay by (rewrite Hf; done).
  rewrite Hlay in Hsz. unfold task_request_fits, wf_task_request.
  rewrite (zlen_task_request_flags 0 flags). break. by split_and!.
Qed.

Lemma run_task_request flags r :
  is_uint 8 flags → wf_task_request r → task_request_fits lim r →
  run_reader (task_request_reader h lim) (task_request_layout flags r) = Ok r.
Proof.
  intros Hfl (H1 & H2 & H3) (F0 & F1 & F2 & F3 & F4 & F5 & F6 & F7 & F8).
  rewrite (zlen_task_request_flags 0 flags) in F8.
  apply runs_reader. unfold task_request_reader. run_step. unfold task_request_layout in F8 |- *.
  apply runs_wsm_header; [done..|].
  match goal with |- context [at_off ?f] => set (frame := f) in * end. intros Hat.
  destruct r. cbn_wasm. repeat (run_step; try done).
Qed.

Lemma wp_task_response frame :
  wp (task_response_reader h lim) frame 0 (λ r _,
    frame = task_response_layout r ∧ wf_task_response r ∧ task_response_fits lim r).
Proof.
  unfold task_response_reader. wp_step. apply wp_wsm_header. intros a rest Hf Ha Hsz Hat.
  repeat wp_step.
  match goal with |- _ = task_response_layout ?r ∧ _ => set (resp := r) in * end.
  assert (frame = task_response_layout resp) as Hlay.
  { rewrite Hf. unfold task_response_layout, resp. cbn_wasm.
    by rewrite task_status_raw, wrap_to_signed. }
  rewrite Hlay in Hsz. unfold task_response_fits, wf_task_response. break.
  split_and!; try done; [by refine (wf_enum_of _ _ _ task_status_raw _)|by refine (to_signed_range 32 _ _ _)].
Qed.

Lemma run_task_response r :
  wf_task_response r → task_response_fits lim r →
  run_reader (task_response_reader h lim) (task_response_layout r) = Ok r.
Proof.
  intros ((E1 & E2) & H1 & H2 & H3 & H4) (F1 & F2 & F3 & F4 & F5).
  assert (is_uint 32 (wrap 32 (tr_selected_gpu r))) by (apply Z.mod_pos_bound; lia).
  apply runs_reader. unfold task_response_reader. run_step. unfold task_response_layout in F5 |- *.
  apply runs_wsm_header; [done..|].
  match goal with |- context [at_off ?f] => set (frame := f) in * end. intros Hat.
  destruct r. cbn_wasm. repeat (run_step; try done). by rewrite E1, to_signed_wrap.
Qed.

Lemma wp_life_request frame :
  wp (life_request_reader h lim) frame 0 (λ r _,
    frame = life_request_layout r ∧ wf_life_request r ∧ life_request_fits lim r).
Proof.
  unfold life_request_reader. wp_step. apply wp_wsm_header. intros a rest Hf Ha Hsz Hat.
  repeat wp_step.
  match goal with |- _ = life_request_layout ?r ∧ _ => set (req := r) in * end.
  assert (frame = life_request_layout req) as Hlay.
  { rewrite Hf. unfold life_request_layout, req. cbn_wasm. by rewrite action_raw, wrap_to_signed. }
  rewrite Hlay in Hsz. unfold life_request_fits, wf_life_request.
  split_and!; try done; [by refine (wf_enum_of _ _ _ action_raw _)|by refine (to_signed_range 32 _ _ _)].
Qed.

Lemma run_life_request r :
  wf_life_request r → life_request_fits lim r →
  run_reader (life_request_reader h lim) (life_request_layout r) = Ok r.
Proof.
  intros ((E1 & E2) & H1 & H2) (F0 & F1 & F2 & F3 & F4 & F5 & F6 & F7).
  assert (is_uint 32 (wrap 32 (lq_target_gpu r))) by (apply Z.mod_pos_bound; lia).
  apply runs_reader. unfold life_request_reader. run_step. unfold life_request_layout in F7 |- *.
  apply runs_wsm_header; [done..|].
  match goal with |- context [at_off ?f] => set (frame := f) in * end. intros Hat.
  destruct r. cbn_wasm. rewrite <- (to_signed_wrap 32 lq_target_gpu0) in F0 by done.
  repeat (run_step; try done). by rewrite E1, to_signed_wrap.
Qed.

Lemma wp_life_response frame :
  wp (life_response_reader h lim) frame 0 (λ r _,
    frame = life_response_layout r ∧ wf_life_response r ∧ life_response_fits lim r).
Proof.
  unfold life_response_reader. wp_step. apply wp_wsm_header. intros a rest Hf Ha Hsz Hat.
  repeat wp_step.
  match goal with |- _ = life_response_layout ?r ∧ _ => set (resp := r) in * end.
  assert (frame = life_response_layout resp) as Hlay.
  { rewrite Hf. unfold life_response_layout, resp. cbn_wasm.
    by rewrite action_raw, life_status_raw, state_raw, wrap_to_signed. }
  rewrite Hlay in Hsz. unfold life_response_fits, wf_life_response.
  split_and!; try done; [by refine (wf_enum_of _ _ _ action_raw _)|by refine (wf_enum_of _ _ _ life_status_raw _)
    |by refine (wf_enum_of _ _ _ state_raw _)|by refine (to_signed_range 32 _ _ _)].
Qed.

Lemma run_life_response r :
  wf_life_response r → life_response_fits lim r →
  run_reader (life_response_reader h lim) (life_response_layout r) = Ok r.
Proof.
  intros ((E1 & E2) & (E3 & E4) & (E5 & E6) & H1 & H2 & H3) (F1 & F2 & F3 & F4 & F5 & F6 & F7).
  assert (is_uint 32 (wrap 32 (lr_assigned_gpu r))) by (apply Z.mod_pos_bound; lia).
  apply runs_reader. unfold life_response_reader. run_step. unfold life_response_layout in F7 |- *.
  apply runs_wsm_header; [done..|].
  match goal with |- context [at_off ?f] => set (frame := f) in * end. intros Hat.
  destruct r. cbn_wasm. repeat (run_step; try done). by rewrite E1, E3, E5, to_signed_wrap.
Qed.

End CodecLemmas.

(** The encoders return for any member values. *)
Lemma wsm_append_string_safe h out value lim : safe (wsm_append_string h out value lim).
Proof. unfold wsm_append_string. auto with codec. Qed.

Lemma wsm_append_blob_safe h out blob lim : safe (wsm_append_blob h out blob lim).
Proof. unfold wsm_append_blob. auto with codec. Qed.
#[export] Hint Resolve wsm_append_string_safe wsm_append_blob_safe : codec.

Lemma append_descriptors_safe h lim l : ∀ out, safe (append_descriptors h out l lim).
Proof. induction l as [|d l IH]; intros out; cbn [append_descriptors]; auto with codec. Qed.
#[export] Hint Resolve append_descriptors_safe : codec.

Lemma task_response_encoder_safe h resp lim : safe (task_response_encoder h resp lim).
Proof. unfold task_response_encoder, append_buffer_descriptors. auto 20 with codec. Qed.

(** ** Theorems *)

(** A task-request frame is accepted exactly when it is the layout of the
    returned request with some flags byte, its identifiers are non-empty and
    it is within the limits; the encoder writes that layout with flags zero,
    so encoding then decoding, also across hosts of different byte order,
    returns the request. *)
Theorem wsm1_task_request_codec h h' lim frame old buf err r :
  wf_task_request r →
  (decode_wasm_task_request h frame (Some old) err lim = Ok (true, Some r, err) ↔
   (∃ flags, is_uint 8 flags ∧ frame = task_request_layout flags r) ∧ task_request_fits lim r) ∧
  (encode_wasm_task_request h' r (Some buf) err lim = Ok (true, Some frame, err) →
   decode_wasm_task_request h frame (Some old) err lim = Ok (true, Some r, err)).
Proof.
  intros Hwf. unfold decode_wasm_task_request, encode_wasm_task_request. rewrite !api_call_Ok.
  assert (∀ f, task_request_encoder h' r lim = Ok f ↔ task_request_fits lim r ∧ f = task_request_layout 0 r)
    as -> by apply (task_request_encoder_spec h' lim r Hwf).
  split; [split|].
  - intros Hrun. destruct (wp_run _ _ _ (wp_task_request h lim frame)) as [_ Hwp].
    destruct (Hwp _ Hrun) as (flags & Hfl & -> & _ & Hfit). eauto.
  - intros [(flags & Hfl & ->) Hfit]. by apply run_task_request.
  - intros [Hfit ->]. by apply run_task_request.
Qed.

Definition sample_task : WasmTaskRequest :=
  mkTaskRequest (str "t-9") (str "sb") (str "mod") (str "1.0.0") (str "compute") 3 5000
    [mkBuffer 1 3 0 16 (str "in")] (str "payload!").

(** C34: a task request is accepted exactly when the frame is its layout with
    some flags byte and it is within the limits, and one that was encoded, on a
    host of either byte order, decodes to itself; lifecycle requests and both
    responses have one encoding each: the decoder accepts exactly the bytes
    the encoder produces for the message it returns. *)
Theorem wsm1_messages_canonical h h' lim frame buf err :
  (∀ old r, wf_task_request r →
     (decode_wasm_task_request h frame (Some old) err lim = Ok (true, Some r, err) ↔
      (∃ flags, is_uint 8 flags ∧ frame = task_request_layout flags r) ∧ task_request_fits lim r) ∧
     (encode_wasm_task_request h' r (Some buf) err lim = Ok (true, Some frame, err) →
      decode_wasm_task_request h frame (Some old) err lim = Ok (true, Some r, err))) ∧
  (∀ old r, wf_life_request r →
     decode_wasm_lifecycle_request h frame (Some old) err lim = Ok (true, Some r, err) ↔
     encode_wasm_lifecycle_request h' r (Some buf) err lim = Ok (true, Some frame, err)) ∧
  (∀ old r, wf_task_response r →
     decode_wasm_task_response h frame (Some old) err lim = Ok (true, Some r, err) ↔
     encode_wasm_task_response h' r (Some buf) err lim = Ok (true, Some frame, err)) ∧
  (∀ old r, wf_life_response r →
     decode_wasm_lifecycle_response h frame (Some old) err lim = Ok (true, Some r, err) ↔
     encode_wasm_lifecycle_response h' r (Some buf) err lim = Ok (true, Some frame, err)).
Proof.
  split; [intros old r Hwf; by apply wsm1_task_request_codec|].
  unfold decode_wasm_lifecycle_request, encode_wasm_lifecycle_request, decode_wasm_task_response,
    encode_wasm_task_response, decode_wasm_lifecycle_response, encode_wasm_lifecycle_response.
  split_and!; intros old r Hwf; rewrite !api_call_Ok.
  - rewrite (proj2 (life_request_encoder_spec h' lim r)). split.
    + intros Hrun. destruct (wp_run _ _ _ (wp_life_request h lim frame)) as [_ Hwp].
      by destruct (Hwp _ Hrun) as (-> & _ & ?).
    + intros [Hfit ->]. by apply run_life_request.
  - rewrite (proj2 (task_response_encoder_spec h' lim r Hwf)). split.
    + intros Hrun. destruct (wp_run _ _ _ (wp_task_response h lim frame)) as [_ Hwp].
      by destruct (Hwp _ Hrun) as (-> & _ & ?).
    + intros [Hfit ->]. by apply run_task_response.
  - rewrite (proj2 (life_response_encoder_spec h' lim r)). split.
    + intros Hrun. destruct (wp_run _ _ _ (wp_life_response h lim frame)) as [_ Hwp].
      by destruct (Hwp _ Hrun) as (-> & _ & ?).
    + intros [Hfit ->]. by apply run_life_response.
Qed.

Lemma wsm1_messages_canonical_witness :
  decode_wasm_task_request BigEndian (task_request_layout 0 sample_task) (Some default_task_request)
    None default_wasm_limits = Ok (true, Some sample_task, None).
Proof.
  apply (wsm1_messages_canonical BigEndian LittleEndian _ _ []); [|reflexivity].
  split_and!; [done..|]. repeat constructor; vm_compute; congruence.
Defined.

(** Whatever bytes arrive, the four WSM1 decoders return without reading
    out of bounds and leave [*out] untouched when they reject; what they
    deliver is within the limits, and requests have non-empty identifiers. *)
Theorem wsm1_decoders_total h lim frame err :
  (∀ out, api_contract out err (λ r, wf_task_request r ∧ task_request_fits lim r)
     (decode_wasm_task_request h frame out err lim)) ∧
  (∀ out, api_contract out err (λ r, wf_task_response r ∧ task_response_fits lim r)
     (decode_wasm_task_response h frame out err lim)) ∧
  (∀ out, api_contract out err (λ r, wf_life_request r ∧ life_request_fits lim r)
     (decode_wasm_lifecycle_request h frame out err lim)) ∧
  (∀ out, api_contract out err (λ r, wf_life_response r ∧ life_response_fits lim r)
     (decode_wasm_lifecycle_response h frame out err lim)).
Proof.
  destruct (wp_run _ _ _ (wp_task_request h lim frame)) as [Hs1 Hw1].
  destruct (wp_run _ _ _ (wp_task_response h lim frame)) as [Hs2 Hw2].
  destruct (wp_run _ _ _ (wp_life_request h lim frame)) as [Hs3 Hw3].
  destruct (wp_run _ _ _ (wp_life_response h lim frame)) as [Hs4 Hw4].
  split_and!; intros out; (apply api_call_contract; [done|]); intros a Ha.
  - by destruct (Hw1 a Ha) as (flags & _ & _ & ? & ?).
  - by destruct (Hw2 a Ha) as (_ & ? & ?).
  - by destruct (Hw3 a Ha) as (_ & ? & ?).
  - by destruct (Hw4 a Ha) as (_ & ? & ?).
Qed.
