(* ===== verification/Ieee.v ===== *)
(** * IEEE-754 values as bit patterns

    The compute kernels multiply [double]s by a constant.  A double is its
    64-bit pattern; arithmetic goes through the Standard Library's
    specification of IEEE-754 ([SpecFloat]).  Which NaN an operation delivers
    is not fixed by the language, so it is the parameter [nan]. *)

From Stdlib Require Import Floats.SpecFloat.
From S2P Require Import Prelude.

Definition prec64 : Z := 53.
Definition emax64 : Z := 1024.

Definition sf_of_bits (b : Z) : spec_float :=
  let s := Z.testbit b 63 in
  let e := Z.land (Z.shiftr b 52) 2047 in
  let m := Z.land b (2 ^ 52 - 1) in
  if e =? 0 then match m with Zpos p => S754_finite s p (-1074) | _ => S754_zero s end
  else if e =? 2047 then if m =? 0 then S754_infinity s else S754_nan
  else match m + 2 ^ 52 with Zpos p => S754_finite s p (e - 1075) | _ => S754_nan end.

Definition sign_bit (s : bool) : Z := if s then 2 ^ 63 else 0.

(** [None] for NaN, whose pattern is not determined. *)
Definition bits_of_sf (f : spec_float) : option Z :=
  match f with
  | S754_zero s => Some (sign_bit s)
  | S754_infinity s => Some (sign_bit s + 2047 * 2 ^ 52)
  | S754_nan => None
  | S754_finite s m e =>
      Some (sign_bit s + if Zpos m <? 2 ^ 52 then Zpos m else (e + 1075) * 2 ^ 52 + (Zpos m - 2 ^ 52))
  end.

Section Arithmetic.
Context (nan : Z → Z → Z).

(** [a * b]. *)
Definition fmul (a b : Z) : Z :=
  default (nan a b) (bits_of_sf (SFmul prec64 emax64 (sf_of_bits a) (sf_of_bits b))).

(** [a - b]. *)
Definition fsub (a b : Z) : Z :=
  default (nan a b) (bits_of_sf (SFsub prec64 emax64 (sf_of_bits a) (sf_of_bits b))).

Definition two : Z := 0x4000000000000000.

Definition three : Z := 0x4008000000000000.

(** [for (double& value : values) value *= factor;] *)
Definition scale (factor : Z) (values : list Z) : list Z := (λ v, fmul v factor) <$> values.

End Arithmetic.

Example fmul_values nan :
  fmul nan 0x3ff0000000000000 two = 0x4000000000000000 ∧        (* 1 * 2 = 2 *)
  fmul nan 0xc00c000000000000 two = 0xc01c000000000000 ∧        (* -3.5 * 2 = -7 *)
  fmul nan 0x0000000000000001 two = 0x0000000000000002 ∧        (* subnormal *)
  fmul nan 0x7fefffffffffffff two = 0x7ff0000000000000 ∧        (* overflow *)
  fmul nan 0x8000000000000000 two = 0x8000000000000000 ∧        (* -0 *)
  fmul nan 0x7ff8000000000000 two = nan 0x7ff8000000000000 two.
Proof. repeat split; reflexivity. Qed.

Example fsub_values nan :
  fsub nan 0x4000000000000000 0x3ff0000000000000 = 0x3ff0000000000000 ∧   (* 2 - 1 = 1 *)
  fsub nan 0x3ff0000000000000 0x3ff0000000000000 = 0 ∧                    (* 1 - 1 = +0 *)
  fsub nan 0x7ff0000000000000 0x7ff0000000000000 = nan 0x7ff0000000000000 0x7ff0000000000000.
Proof. repeat split; reflexivity. Qed.

(** ** Single precision and conversions *)

Definition prec32 : Z := 24.
Definition emax32 : Z := 128.

Definition sf_of_bits32 (b : Z) : spec_float :=
  let s := Z.testbit b 31 in
  let e := Z.land (Z.shiftr b 23) 255 in
  let m := Z.land b (2 ^ 23 - 1) in
  if e =? 0 then match m with Zpos p => S754_finite s p (-149) | _ => S754_zero s end
  else if e =? 255 then if m =? 0 then S754_infinity s else S754_nan
  else match m + 2 ^ 23 with Zpos p => S754_finite s p (e - 150) | _ => S754_nan end.

Definition bits_of_sf32 (f : spec_float) : option Z :=
  let sign (s : bool) := if s then 2 ^ 31 else 0 in
  match f with
  | S754_zero s => Some (sign s)
  | S754_infinity s => Some (sign s + 255 * 2 ^ 23)
  | S754_nan => None
  | S754_finite s m e =>
      Some (sign s + if Zpos m <? 2 ^ 23 then Zpos m else (e + 150) * 2 ^ 23 + (Zpos m - 2 ^ 23))
  end.

(** [a - b] of [float]s. *)
Definition fsub32 (nan : Z → Z → Z) (a b : Z) : Z :=
  default (nan a b) (bits_of_sf32 (SFsub prec32 emax32 (sf_of_bits32 a) (sf_of_bits32 b))).

Example fsub32_values nan :
  fsub32 nan 0x40000000 0x3f800000 = 0x3f800000 ∧      (* 2 - 1 = 1 *)
  fsub32 nan 0x3f800000 0x4b800000 = 0xcb7fffff ∧      (* 1 - 2^24 = -16777215 *)
  fsub32 nan 0x00000002 0x00000001 = 0x00000001 ∧      (* subnormal *)
  fsub32 nan 0x7f800000 0x7f800000 = nan 0x7f800000 0x7f800000.
Proof. repeat split; vm_compute; reflexivity. Qed.

Definition sf_isfinite (f : spec_float) : bool :=
  match f with S754_zero _ | S754_finite _ _ _ => true | _ => false end.

(** [float] to [double], which is exact. *)
Definition widen (f : spec_float) : spec_float :=
  match f with
  | S754_finite s m e => binary_normalize prec64 emax64 (cond_Zopp s (Zpos m)) e s
  | _ => f
  end.

(** [int] to [double] (exact) and to [float] (rounded). *)
Definition double_of_int (n : Z) : spec_float := binary_normalize prec64 emax64 n 0 false.
Definition float_of_int (n : Z) : spec_float := binary_normalize prec32 emax32 n 0 false.

(** [m / 2^k], rounded to the nearest integer, ties to even. *)
Definition half_even (m k : Z) : Z :=
  let q := m / 2 ^ k in
  let r := m mod 2 ^ k in
  let half := 2 ^ (k - 1) in
  if r <? half then q else if half <? r then q + 1 else if Z.even q then q else q + 1.

(** [std::nearbyint] in the default rounding mode. *)
Definition nearbyint (f : spec_float) : spec_float :=
  match f with
  | S754_finite s m e =>
      if 0 <=? e then f
      else binary_normalize prec64 emax64 (cond_Zopp s (half_even (Zpos m) (- e))) 0 s
  | _ => f
  end.

(** A finite value is [fst * 2^snd]. *)
Definition dyadic (f : spec_float) : Z * Z :=
  match f with S754_finite s m e => (cond_Zopp s (Zpos m), e) | _ => (0, 0) end.

(** [f < g], on the values. *)
Definition sf_ltb (f g : spec_float) : bool :=
  match f, g with
  | S754_nan, _ | _, S754_nan => false
  | S754_infinity s, S754_infinity s' => s && negb s'
  | S754_infinity s, _ => s
  | _, S754_infinity s => negb s
  | _, _ =>
      let '(m1, e1) := dyadic f in
      let '(m2, e2) := dyadic g in
      let e := Z.min e1 e2 in
      m1 * 2 ^ (e1 - e) <? m2 * 2 ^ (e2 - e)
  end.

(** [std::min] and [std::max]. *)
Definition sf_min (a b : spec_float) : spec_float := if sf_ltb b a then b else a.
Definition sf_max (a b : spec_float) : spec_float := if sf_ltb a b then b else a.

(** The integer part, towards zero. *)
Definition truncate (f : spec_float) : option Z :=
  match f with
  | S754_zero _ => Some 0
  | S754_finite s m e =>
      Some (cond_Zopp s (if 0 <=? e then Zpos m * 2 ^ e else Zpos m / 2 ^ (- e)))
  | _ => None
  end.

(** [static_cast<int8_t>] of a double: undefined for values it cannot hold. *)
Definition cast_int8 (f : spec_float) : result Z :=
  match truncate f with
  | Some v => if (-128 <=? v) && (v <=? 127) then Ok v else OutOfBounds
  | None => OutOfBounds
  end.

(** The values [-128.0] and [127.0]. *)
Definition double_m128 : spec_float := S754_finite true 128 0.
Definition double_127 : spec_float := S754_finite false 127 0.

(** Clamped to these, every double, NaN included, is in the range of [int8_t]. *)
Lemma cast_clamped q : ∃ v, cast_int8 (sf_max double_m128 (sf_min double_127 q)) = Ok v ∧ -128 ≤ v ≤ 127.
Proof.
  unfold sf_min. destruct (sf_ltb q double_127) eqn:Hhi; [|by exists 127].
  unfold sf_max. destruct (sf_ltb double_m128 q) eqn:Hlo; [|by exists (-128)].
  unfold cast_int8. destruct q as [s|[]| |s m e]; try done; [by exists 0|].
  cbn in Hhi, Hlo. apply Z.ltb_lt in Hhi, Hlo. cbn [truncate].
  assert (∀ v, -128 ≤ v ≤ 127 → ∃ w, (if (-128 <=? v) && (v <=? 127) then Ok v else OutOfBounds) = Ok w ∧ -128 ≤ w ≤ 127) as Hok.
  { intros v Hv. exists v. by rewrite (proj2 (Z.leb_le _ _)), (proj2 (Z.leb_le _ _)) by lia. }
  destruct (Z.leb_spec 0 e) as [He|He]; apply Hok.
  - rewrite Z.min_r in Hhi by lia. rewrite Z.min_l in Hlo by lia. rewrite !Z.sub_0_r in *.
    set (p := 2 ^ e) in *. change (2 ^ 0) with 1 in *. destruct s; cbn [cond_Zopp Z.opp] in *; lia.
  - rewrite Z.min_l in Hhi by lia. rewrite Z.min_r in Hlo by lia. rewrite !Z.sub_diag in *.
    change (0 - e) with (- e) in *. change (2 ^ 0) with 1 in *. set (p := 2 ^ (- e)) in *.
    assert (0 < p) by (apply Z.pow_pos_nonneg; lia).
    pose proof (Z.div_pos (Zpos m) p ltac:(lia) ltac:(lia)).
    destruct s; cbn [cond_Zopp] in *.
    + pose proof (Z.div_lt_upper_bound (Zpos m) p 128 ltac:(lia) ltac:(lia)). lia.
    + pose proof (Z.div_lt_upper_bound (Zpos m) p 127 ltac:(lia) ltac:(lia)). lia.
Qed.

Example conversions :
  nearbyint (sf_of_bits 0x4004000000000000) = double_of_int 2 ∧          (* 2.5 rounds to 2 *)
  nearbyint (sf_of_bits 0xc00c000000000000) = double_of_int (-4) ∧       (* -3.5 rounds to -4 *)
  widen (sf_of_bits32 0x3f000000) = sf_of_bits 0x3fe0000000000000 ∧      (* 0.5 *)
  float_of_int 16777217 = sf_of_bits32 0x4b800000 ∧
  sf_ltb (sf_of_bits 0xbff0000000000000) (S754_zero false) = true.
Proof. repeat split; vm_compute; reflexivity. Qed.
