(* ===== verification/Sockets.v ===== *)
(** * The operating system's sockets

    What [recv] and [send] do on one connection, as a finite schedule chosen by
    the environment.  Both servers use it; each has its own loops for whole
    buffers, which differ in how they take interruptions. *)

From S2P Require Import Prelude Wire.

(** ** Receiving *)

(** One answer of [recv]: up to [n] bytes (at least one) are there, the call
    was interrupted, or it failed (a timeout included).  Past the schedule, all
    remaining bytes are there; past the bytes, the peer has closed. *)
Inductive arrival := Available (n : Z) | Interrupted | Broken.

Record Socket := mkSocket { inbox : bytes; arrivals : list arrival }.

Inductive received := Got (data : bytes) | Closed | Eintr | Failed.

Definition deliver (s : Socket) (n : Z) (rest : list arrival) : received * Socket :=
  if bool_decide (inbox s = []) then (Closed, mkSocket [] rest)
  else (Got (firstn (Z.to_nat n) (inbox s)), mkSocket (skipn (Z.to_nat n) (inbox s)) rest).

Definition recv (s : Socket) (size : Z) : received * Socket :=
  match arrivals s with
  | [] => deliver s size []
  | Available n :: rest => deliver s (Z.min (Z.max 1 n) size) rest
  | Interrupted :: rest => (Eintr, mkSocket (inbox s) rest)
  | Broken :: rest => (Failed, mkSocket (inbox s) rest)
  end.

(** ** Sending *)

(** [SendPipe] is a connection that is shut for writing: [send] fails with
    EPIPE, and unless the call suppresses it SIGPIPE ends the process. *)
Inductive departure := Accepts (n : Z) | SendInterrupted | SendBroken | SendPipe.

#[export] Instance departure_eq_dec : EqDecision departure.
Proof. solve_decision. Defined.

Record Outlet := mkOutlet { sent : bytes; departures : list departure }.

Inductive written := Wrote (n : Z) | WriteEintr | WriteFailed | WritePipe.

Definition send (o : Outlet) (data : bytes) : written * Outlet :=
  let take n rest := (Wrote n, mkOutlet (sent o ++ firstn (Z.to_nat n) data) rest) in
  match departures o with
  | [] => take (zlen data) []
  | Accepts n :: rest => take (Z.min (Z.max 1 n) (zlen data)) rest
  | SendInterrupted :: rest => (WriteEintr, mkOutlet (sent o) rest)
  | SendBroken :: rest => (WriteFailed, mkOutlet (sent o) rest)
  | SendPipe :: rest => (WritePipe, mkOutlet (sent o) rest)
  end.

(** ** Facts *)

(** The connection does not fail before its schedule ends. *)
Definition intact (s : Socket) : Prop := Broken ∉ arrivals s.
Definition accepting (o : Outlet) : Prop := SendBroken ∉ departures o ∧ SendPipe ∉ departures o.

Lemma recv_cases s n :
  0 < n →
  match recv s n with
  | (Got data, s') => inbox s = data ++ inbox s' ∧ 1 ≤ zlen data ≤ n ∧
      (arrivals s = [] ∧ arrivals s' = [] ∨ ∃ a, arrivals s = a :: arrivals s')
  | (Eintr, s') => inbox s' = inbox s ∧ ∃ a, arrivals s = a :: arrivals s'
  | (Closed, s') => inbox s = []
  | (Failed, s') => Broken ∈ arrivals s
  end.
Proof.
  intros Hn. assert (∀ k rest, 1 ≤ k ≤ n →
    match deliver s k rest with
    | (Got data, s') => inbox s = data ++ inbox s' ∧ 1 ≤ zlen data ≤ n ∧ arrivals s' = rest
    | (Closed, _) => inbox s = []
    | _ => False
    end) as Hd.
  { intros k rest Hk. unfold deliver. case_bool_decide as Hnil; [done|]. cbn [inbox arrivals].
    rewrite firstn_skipn. split; [done|]. split; [|done]. unfold zlen. rewrite length_firstn.
    destruct (inbox s); [done|]. cbn [length]. lia. }
  unfold recv. destruct (arrivals s) as [|[k| |] rest] eqn:E.
  - specialize (Hd n [] ltac:(lia)). destruct (deliver s n []) as [[data| | |] s']; try done.
    destruct Hd as (? & ? & ?). by auto.
  - specialize (Hd (Z.min (Z.max 1 k) n) rest ltac:(lia)).
    destruct (deliver s _ rest) as [[data| | |] s']; try done.
    destruct Hd as (? & ? & ->). split; [done|]. split; [done|]. right. by exists (Available k).
  - split; [done|]. by exists Interrupted.
  - set_solver.
Qed.

(** [send] takes a non-empty prefix, fails, or is interrupted. *)
Lemma send_cases o data :
  0 < zlen data →
  match send o data with
  | (Wrote n, o') => 1 ≤ n ≤ zlen data ∧ sent o' = sent o ++ firstn (Z.to_nat n) data ∧
      (departures o = [] ∧ departures o' = [] ∨ ∃ a, departures o = a :: departures o') ∧
      (accepting o → accepting o')
  | (WriteEintr, o') => sent o' = sent o ∧ (∃ a, departures o = a :: departures o') ∧
      (accepting o → accepting o')
  | (WriteFailed, o') => sent o' = sent o ∧ ¬ accepting o ∧ ∃ a, departures o = a :: departures o'
  | (WritePipe, o') => sent o' = sent o ∧ ¬ accepting o ∧ SendPipe ∈ departures o
  end.
Proof.
  intros Hd. unfold send, accepting. destruct (departures o) as [|[n| | |] rest] eqn:E; cbn [sent departures].
  - split; [lia|]. split; [done|]. split; [by left|]. done.
  - split; [lia|]. split; [done|]. split; [right; by eexists|set_solver].
  - split; [done|]. split; [by eexists|set_solver].
  - split; [done|]. split; [set_solver|by eexists].
  - split; [done|]. set_solver.
Qed.
