(* ===== verification/EthosU85.v ===== *)
(** * The Ethos-U85 executor (include/ethosu_u85_drm_executor.h,
      src/ethosu_u85_drm_executor.cpp)

    The bundle loader, the search for a device, and a run: buffer objects and
    mappings, quantisation, submission, waiting and dequantisation.  The file
    system and the kernel's DRM driver are parameters ([Drm]); what a run
    acquires and releases is a trace of events, so that the destructors that
    run when an exception is thrown are part of the model. *)

From stdpp Require Import pretty.
From S2P Require Import Prelude HostBytes Wire BackendDispatch Ieee.
From Stdlib Require Import Floats.SpecFloat.

(** ** Bundles *)

Definition kMaxRegions : Z := 8.
Definition kMaxCommandBytes : Z := 64 * 1024 * 1024.
Definition kMaxRegionBytes : Z := 256 * 1024 * 1024.

(** Scales are bit patterns of [float]. *)
Record Bundle := mkBundle {
  sram_size : Z;
  command_stream : bytes;
  regions : list bytes;
  input_region : Z;
  output_region : Z;
  input_offset : Z;
  output_offset : Z;
  input_elements : Z;
  output_elements : Z;
  input_scale : Z;
  output_scale : Z;
  input_zero : Z;
  output_zero : Z;
}.

Definition u32_of_bytes (b : bytes) : Z :=
  match b with
  | [b0; b1; b2; b3] =>
      Z.lor (Z.lor (Z.lor (u8 b0) (Z.shiftl (u8 b1) 8)) (Z.shiftl (u8 b2) 16)) (Z.shiftl (u8 b3) 24)
  | _ => 0
  end.

Definition truncated_header : bytes := str "truncated Ethos-U bundle header".

Definition read_u32 : reader Z := b <~ read_raw truncated_header 4;; rret (u32_of_bytes b).

Definition as_i32 (v : Z) : Z := to_signed 32 v.

(** [!std::isfinite(scale) || scale <= 0]. *)
Definition bad_scale (scale : Z) : bool :=
  let f := sf_of_bits32 scale in negb (sf_isfinite f) || negb (sf_ltb (S754_zero false) f).

Definition read_region : reader bytes :=
  size <~ read_u32;;
  _ <~ rguard ((size =? 0) || (kMaxRegionBytes <? size)) (str "invalid Ethos-U region size");;
  read_raw (str "truncated Ethos-U region data") size.

(** [offset + elements > region.size()]; [std::vector::operator[]] does not
    check its index. *)
Definition exceeds (regions : list bytes) (region offset elements : Z) : result bool :=
  match regions !! Z.to_nat region with
  | Some r => Ok (zlen r <? wrap 64 (offset + elements))
  | None => OutOfBounds
  end.

(** [load_bundle] once the file is open. *)
Definition bundle_reader : reader Bundle :=
  let bad_magic := str "invalid Ethos-U bundle magic (expected YU85BND1)" in
  magic <~ read_raw bad_magic 8;;
  _ <~ rguard (negb (bool_decide (magic = str "YU85BND1"))) bad_magic;;
  version <~ read_u32;;
  _ <~ rguard (negb (version =? 1)) (str "unsupported Ethos-U bundle version");;
  sram_size <~ read_u32;;
  cmd_size <~ read_u32;;
  region_count <~ read_u32;;
  input_region <~ read_u32;;
  output_region <~ read_u32;;
  input_offset <~ read_u32;;
  output_offset <~ read_u32;;
  input_elements <~ read_u32;;
  output_elements <~ read_u32;;
  input_scale <~ read_u32;;
  input_zero <~ read_u32;;
  output_scale <~ read_u32;;
  output_zero <~ read_u32;;
  _ <~ rguard ((cmd_size =? 0) || (kMaxCommandBytes <? cmd_size) || (region_count =? 0)
               || (kMaxRegions <? region_count) || (sram_size =? 0)
               || (region_count <=? input_region) || (region_count <=? output_region)
               || (input_elements =? 0) || (output_elements =? 0)
               || bad_scale input_scale || bad_scale output_scale)
         (str "invalid Ethos-U bundle dimensions or quantization");;
  command_stream <~ read_raw (str "truncated Ethos-U command stream") cmd_size;;
  regions <~ read_n (Z.to_nat region_count) read_region;;
  extra <~ trailing;;
  _ <~ rguard extra (str "trailing bytes in Ethos-U bundle");;
  in_exceeds <~ rlift (exceeds regions input_region input_offset input_elements);;
  out_exceeds <~ rlift (exceeds regions output_region output_offset output_elements);;
  _ <~ rguard (in_exceeds || out_exceeds) (str "Ethos-U tensor range exceeds its region");;
  rret (mkBundle sram_size command_stream regions input_region output_region input_offset
          output_offset input_elements output_elements input_scale output_scale
          (as_i32 input_zero) (as_i32 output_zero)).

(** [files] is the file system: the contents of a file that opens. *)
Definition load_bundle (files : bytes → option bytes) (path : bytes) : result Bundle :=
  match files path with
  | None => Err (str "cannot open Ethos-U bundle: " ++ path)
  | Some contents => run_reader bundle_reader contents
  end.

(** ** The documented layout *)

(** docs/ETHOSU_U85_BUNDLE.md: all integers are little-endian. *)
Definition region_layout (r : bytes) : bytes := store_le 4 (zlen r) ++ r.

Definition bundle_layout (b : Bundle) : bytes :=
  str "YU85BND1" ++ store_le 4 1 ++ store_le 4 (sram_size b) ++
  store_le 4 (zlen (command_stream b)) ++ store_le 4 (zlen (regions b)) ++
  store_le 4 (input_region b) ++ store_le 4 (output_region b) ++
  store_le 4 (input_offset b) ++ store_le 4 (output_offset b) ++
  store_le 4 (input_elements b) ++ store_le 4 (output_elements b) ++
  store_le 4 (input_scale b) ++ store_le 4 (wrap 32 (input_zero b)) ++
  store_le 4 (output_scale b) ++ store_le 4 (wrap 32 (output_zero b)) ++
  command_stream b ++ concat (region_layout <$> regions b).

(** A tensor of [elements] bytes lies in its region. *)
Definition tensor_in (regions : list bytes) (region offset elements : Z) : Prop :=
  ∃ r, regions !! Z.to_nat region = Some r ∧ offset + elements ≤ zlen r.

Definition positive_scale (scale : Z) : Prop :=
  ∃ m e, sf_of_bits32 scale = S754_finite false m e.

Definition wf_bundle (b : Bundle) : Prop :=
  (is_uint 32 (sram_size b) ∧ sram_size b ≠ 0) ∧
  1 ≤ zlen (command_stream b) ≤ kMaxCommandBytes ∧
  (1 ≤ zlen (regions b) ≤ kMaxRegions ∧ Forall (λ r, 1 ≤ zlen r ≤ kMaxRegionBytes) (regions b)) ∧
  (0 ≤ input_region b < zlen (regions b) ∧ 0 ≤ output_region b < zlen (regions b)) ∧
  (is_uint 32 (input_offset b) ∧ is_uint 32 (output_offset b)) ∧
  (is_uint 32 (input_elements b) ∧ input_elements b ≠ 0 ∧
   is_uint 32 (output_elements b) ∧ output_elements b ≠ 0) ∧
  (is_uint 32 (input_scale b) ∧ positive_scale (input_scale b) ∧
   is_uint 32 (output_scale b) ∧ positive_scale (output_scale b)) ∧
  (is_int 32 (input_zero b) ∧ is_int 32 (output_zero b)) ∧
  tensor_in (regions b) (input_region b) (input_offset b) (input_elements b) ∧
  tensor_in (regions b) (output_region b) (output_offset b) (output_elements b).

Lemma u32_of_bytes_load b : zlen b = 4 → u32_of_bytes b = load_le b.
Proof.
  unfold zlen. intros Hl. destruct b as [|b0 [|b1 [|b2 [|b3 [|]]]]]; cbn in Hl; try lia.
  unfold u32_of_bytes. cbn [load_le]. pose proof (u8_range b0). pose proof (u8_range b1).
  pose proof (u8_range b2).
  assert (∀ a k c, 0 ≤ k → 0 ≤ a < 2 ^ k → Z.lor a (Z.shiftl c k) = c * 2 ^ k + a) as Hlor.
  { intros a k c Hk Ha. by rewrite Z.lor_comm, lor_shiftl_add. }
  rewrite (Hlor _ 8), (Hlor _ 16), (Hlor _ 24) by lia. lia.
Qed.

Lemma zlen_store_le n v : zlen (store_le n v) = Z.of_nat n.
Proof. unfold zlen. by rewrite length_store_le. Qed.
#[local] Hint Rewrite zlen_store_le : wire.

#[local] Instance codec_read_u32 : Codec read_u32 (store_le 4) (is_uint 32).
Proof.
  apply (codec_map (read_raw truncated_header 4) id _ u32_of_bytes (store_le 4) _ (codec_read_raw _ 4 ltac:(lia))).
  - intros b Hb. rewrite u32_of_bytes_load by done. pose proof (load_le_range b). rewrite Hb in *.
    split; [|done]. unfold id. pose proof (store_load_le b) as E. unfold zlen in Hb.
    by replace (length b) with 4%nat in E by lia.
  - intros v Hv. rewrite u32_of_bytes_load by apply zlen_store_le. rewrite load_store_le.
    split; [by apply Z.mod_small|apply zlen_store_le].
Qed.

#[local] Instance codec_read_region : Codec read_region region_layout (λ r, 1 ≤ zlen r ≤ kMaxRegionBytes).
Proof.
  split.
  - intros frame off l Q Hat HQ. unfold read_region. apply wp_seq. eapply codec_wp; [done|].
    intros size rest Hs -> Hat'. apply wp_seq, wp_guard. intros Hg.
    eapply (codec_wp (Codec := codec_read_raw _ size (proj1 Hs))); [done|]. unfold id.
    intros r rest' <- -> Hat''. specialize (HQ r rest'). unfold region_layout in HQ.
    rewrite zlen_app, Z.add_assoc, <- app_assoc in HQ. pose proof (zlen_nonneg r). apply HQ; [lia|done..].
  - intros frame off r rest Hat Hr. unfold read_region, region_layout in *. rewrite <- app_assoc in Hat.
    unfold kMaxRegionBytes in *. rewrite zlen_app, Z.add_assoc.
    eapply codec_step; [exact Hat|unfold is_uint; lia|]. intros Hat'.
    unfold rseq at 1, rguard. destruct (Z.eqb_spec (zlen r) 0); [lia|].
    destruct (Z.ltb_spec (256 * 1024 * 1024) (zlen r)); [lia|]. cbn [orb].
    eapply (codec_run (Codec := codec_read_raw _ (zlen r) ltac:(lia))); done.
Qed.

Lemma bad_scale_spec scale : bad_scale scale = false ↔ positive_scale scale.
Proof.
  unfold bad_scale, positive_scale. rewrite orb_false_iff, !negb_false_iff.
  destruct (sf_of_bits32 scale) as [s|s| |s m e]; cbn [sf_isfinite].
  1-3: split; [by intros [? ?]|]; by intros (? & ? & [=]).
  split.
  - intros [_ Hlt]. destruct s; [|by eauto]. exfalso. revert Hlt. unfold sf_ltb, dyadic.
    cbn [cond_Zopp]. rewrite Z.mul_0_l. intros Hlt%Z.ltb_lt.
    assert (0 < 2 ^ (e - Z.min 0 e)) by (apply Z.pow_pos_nonneg; lia). nia.
  - intros (m' & e' & [= -> <- <-]). split; [done|]. unfold sf_ltb, dyadic. cbn [cond_Zopp].
    rewrite Z.mul_0_l. apply Z.ltb_lt. assert (0 < 2 ^ (e - Z.min 0 e)) by (apply Z.pow_pos_nonneg; lia). nia.
Qed.

Lemma exceeds_spec regions region offset elements :
  0 ≤ region < zlen regions → is_uint 32 offset → is_uint 32 elements →
  ∃ e, exceeds regions region offset elements = Ok e ∧
    (e = false ↔ tensor_in regions region offset elements).
Proof.
  unfold zlen, is_uint. intros Hr Ho He.
  destruct (lookup_lt_is_Some_2 regions (Z.to_nat region)) as [r E]; [lia|].
  unfold exceeds, tensor_in. rewrite E. eexists. split; [done|].
  rewrite wrap_small by (unfold is_uint; lia). rewrite Z.ltb_ge. naive_solver.
Qed.

Ltac cbn_bundle := cbn [sram_size command_stream regions input_region output_region input_offset
  output_offset input_elements output_elements input_scale output_scale input_zero output_zero] in *.

(** The checks of the header, as the code combines them. *)
Lemma header_checks cmd_size region_count sram_size input_region output_region in_el out_el in_sc out_sc :
  (cmd_size =? 0) || (kMaxCommandBytes <? cmd_size) || (region_count =? 0)
    || (kMaxRegions <? region_count) || (sram_size =? 0)
    || (region_count <=? input_region) || (region_count <=? output_region)
    || (in_el =? 0) || (out_el =? 0) || bad_scale in_sc || bad_scale out_sc = false ↔
  (cmd_size ≠ 0 ∧ cmd_size ≤ kMaxCommandBytes) ∧ (region_count ≠ 0 ∧ region_count ≤ kMaxRegions) ∧
  sram_size ≠ 0 ∧ (input_region < region_count ∧ output_region < region_count) ∧
  (in_el ≠ 0 ∧ out_el ≠ 0) ∧ positive_scale in_sc ∧ positive_scale out_sc.
Proof.
  rewrite !orb_false_iff, !Z.eqb_neq, !Z.ltb_ge, !Z.leb_gt, !bad_scale_spec. tauto.
Qed.

Lemma as_i32_wrap v : is_uint 32 v → wrap 32 (as_i32 v) = v ∧ is_int 32 (as_i32 v).
Proof. intros Hv. split; [by apply wrap_to_signed|by apply to_signed_range]. Qed.

Lemma wp_bundle contents :
  wp bundle_reader contents 0 (λ b _, contents = bundle_layout b ∧ wf_bundle b).
Proof.
  assert (Hat := at_off_start contents). unfold bundle_reader. cbv zeta.
  apply wp_seq. eapply (codec_wp (Codec := codec_read_raw _ 8 ltac:(lia))); [done|].
  unfold id. clear Hat. intros magic rest Hmagic -> Hat. do 34 wp_step.
  match goal with H : _ = false |- _ => apply header_checks in H as (Hcmd & Hcount & Hsram & Hreg & Hel & Hsc1 & Hsc2) end.
  assert (magic = str "YU85BND1") as -> by (by apply negb_false_iff, bool_decide_eq_true in H).
  assert (a = 1) as -> by lia.
  apply wp_seq. eapply (codec_wp (Codec := codec_read_raw _ a1 (proj1 H3))); [done|]. unfold id.
  intros cmd rest' Hcl -> Hat'. apply wp_seq.
  eapply (codec_wp (Codec := codec_read_n _ _ _ (Z.to_nat a2) codec_read_region)); [done|].
  intros regs rest'' [Hrl Hrf] -> Hat''.
  assert (zlen regs = a2) as Hrz by (unfold zlen, is_uint in *; lia).
  wp_step.
  destruct (exceeds_spec regs a3 a5 a7) as (e1 & E1 & Hin1); [unfold is_uint in *; lia|done..|].
  destruct (exceeds_spec regs a4 a6 a8) as (e2 & E2 & Hin2); [unfold is_uint in *; lia|done..|].
  unfold rlift. rewrite E1, E2. cbn [rbind].
  apply wp_seq, wp_ret, wp_seq, wp_ret. do 3 wp_step.
  match goal with H : e1 || e2 = false |- _ => apply orb_false_iff in H as [He1 He2] end.
  apply Hin1 in He1. apply Hin2 in He2. destruct (as_i32_wrap a10), (as_i32_wrap a12); [done..|].
  unfold bundle_layout, wf_bundle. cbn_bundle. rewrite Hrz, Hcl. unfold is_uint, kMaxRegions in *.
  split; [congruence|]. split_and!; done || lia.
Qed.

Lemma run_bundle b : wf_bundle b → run_reader bundle_reader (bundle_layout b) = Ok b.
Proof.
  intros ([Hs Hs0] & [Hc1 Hc2] & ([Hr1 Hr2] & Hrf) & [Hi Ho] & [Hio Hoo] & (Hie & Hie0 & Hoe & Hoe0) &
    (His & Hisc & Hos & Hosc) & [Hiz Hoz] & Hti & Hto).
  apply runs_reader. assert (Hat := at_off_start (bundle_layout b)).
  unfold bundle_reader. cbv zeta. unfold bundle_layout at 2 in Hat.
  unfold kMaxCommandBytes, kMaxRegions in *.
  assert (is_uint 32 (wrap 32 (input_zero b)) ∧ is_uint 32 (wrap 32 (output_zero b))) as [Hwi Hwo].
  { split; apply Z.mod_pos_bound; lia. }
  apply runs_seq. eapply (runs_codec (Codec0 := codec_read_raw _ 8 ltac:(lia))); [exact Hat|done|].
  clear Hat. intros Hat. unfold id in Hat. run_step. run_step; [by rewrite bool_decide_true|].
  do 30 (run_step; try (done || unfold is_uint; lia)).
  run_step. run_step.
  { apply header_checks. unfold kMaxCommandBytes, kMaxRegions. split_and!; done || lia. }
  apply runs_seq. eapply (runs_codec (Codec0 := codec_read_raw _ (zlen (command_stream b)) ltac:(lia))); [exact H|done|].
  clear H. intros Hat. apply runs_seq. rewrite <- (app_nil_r (concat _)) in Hat.
  eapply (runs_codec (Codec0 := codec_read_n _ _ _ (Z.to_nat (zlen (regions b))) codec_read_region));
    [exact Hat|split; [unfold zlen; lia|done]|]. clear Hat. intros Hat. run_step.
  destruct (exceeds_spec (regions b) (input_region b) (input_offset b) (input_elements b)) as (e1 & E1 & Hin1); [done..|].
  destruct (exceeds_spec (regions b) (output_region b) (output_offset b) (output_elements b)) as (e2 & E2 & Hin2); [done..|].
  run_step. eapply runs_lift; [exact E1|]. run_step. eapply runs_lift; [exact E2|].
  rewrite (proj2 Hin1 Hti), (proj2 Hin2 Hto). run_step. run_step; [done|]. run_step.
  unfold as_i32. rewrite !to_signed_wrap by done. by destruct b.
Qed.

Lemma bundle_layout_inj b b' : wf_bundle b → wf_bundle b' → bundle_layout b = bundle_layout b' → b = b'.
Proof. intros Hb Hb' E. apply run_bundle in Hb, Hb'. rewrite E in Hb. congruence. Qed.

Lemma load_bundle_wf files path b : load_bundle files path = Ok b → wf_bundle b.
Proof.
  unfold load_bundle. destruct (files path) as [contents|]; [|done].
  destruct (wp_run _ _ _ (wp_bundle contents)) as [_ Hw]. intros E. by destruct (Hw b E).
Qed.

Lemma load_bundle_safe files path : safe (load_bundle files path).
Proof.
  unfold load_bundle. destruct (files path) as [contents|]; [|done]. by destruct (wp_run _ _ _ (wp_bundle contents)).
Qed.

Lemma load_bundle_iff files path b :
  load_bundle files path = Ok b ↔ wf_bundle b ∧ files path = Some (bundle_layout b).
Proof.
  split.
  - intros E. split; [by eapply load_bundle_wf|]. unfold load_bundle in E. destruct (files path) as [contents|]; [|done].
    destruct (wp_run _ _ _ (wp_bundle contents)) as [_ Hw]. by destruct (Hw b E) as [-> _].
  - intros [Hb E]. unfold load_bundle. rewrite E. apply run_bundle, Hb.
Qed.

(** The table of docs/ETHOSU_U85_BUNDLE.md, and the loader's own limits. *)
Definition documented (b : Bundle) : Prop :=
  (is_uint 32 (sram_size b) ∧ 1 ≤ zlen (regions b) ≤ 8) ∧
  (0 ≤ input_region b < zlen (regions b) ∧ 0 ≤ output_region b < zlen (regions b)) ∧
  (is_uint 32 (input_offset b) ∧ is_uint 32 (output_offset b)) ∧
  (is_uint 32 (input_elements b) ∧ is_uint 32 (output_elements b)) ∧
  (is_uint 32 (input_scale b) ∧ positive_scale (input_scale b) ∧
   is_uint 32 (output_scale b) ∧ positive_scale (output_scale b)) ∧
  (is_int 8 (input_zero b) ∧ is_int 8 (output_zero b)) ∧
  tensor_in (regions b) (input_region b) (input_offset b) (input_elements b) ∧
  tensor_in (regions b) (output_region b) (output_offset b) (output_elements b).

Definition within_limits (b : Bundle) : Prop :=
  sram_size b ≠ 0 ∧ 1 ≤ zlen (command_stream b) ≤ 64 * 1024 * 1024 ∧
  Forall (λ r, 1 ≤ zlen r ≤ 256 * 1024 * 1024) (regions b) ∧ input_elements b ≠ 0 ∧ output_elements b ≠ 0.

Lemma documented_wf b : documented b → within_limits b → wf_bundle b.
Proof.
  intros ([Hs Hr] & Hio & Hoff & [Hie Hoe] & Hsc & [Hiz Hoz] & Hti & Hto) (Hs0 & Hc & Hrf & Hi0 & Ho0).
  destruct Hio, Hoff, Hsc as (? & ? & ? & ?). unfold is_int in Hiz, Hoz. unfold wf_bundle, kMaxCommandBytes, kMaxRegions, kMaxRegionBytes, is_int.
  change (2 ^ (8 - 1)) with 128 in *. change (2 ^ (32 - 1)) with 2147483648.
  split_and!; try done; try apply Hsc; lia.
Qed.

(** C19: The bundle loader accepts exactly the layout of a well-formed bundle,
    and returns that bundle; on any other contents, and for a file that does
    not open, it throws, without reading out of bounds.  Well-formed is not
    quite the layout of docs/ETHOSU_U85_BUNDLE.md: the loader adds limits (no
    size is 0, a command stream of at most 64 MiB, regions of at most 256 MiB,
    finite scales), and it takes any 32-bit zero points where the document has
    signed 8-bit ones.  So within the limits every documented bundle is loaded,
    but not only those. *)
Theorem load_bundle_correct files path :
  safe (load_bundle files path) ∧
  (∀ b, load_bundle files path = Ok b ↔ wf_bundle b ∧ files path = Some (bundle_layout b)) ∧
  (∀ b, documented b → within_limits b → files path = Some (bundle_layout b) → load_bundle files path = Ok b).
Proof.
  split; [apply load_bundle_safe|]. split; [apply load_bundle_iff|].
  intros b Hd Hl E. apply load_bundle_iff. split; [by apply documented_wf|done].
Qed.

(** ** Devices *)

(** [access] tells which render nodes can be read and written; [env] is
    [ETHOSU_DRM_DEVICE]. *)
Fixpoint first_device (access : bytes → bool) (nodes : list Z) : bytes :=
  match nodes with
  | [] => []
  | i :: nodes =>
      let p := str "/dev/dri/renderD" ++ str (pretty i) in
      if access p then p else first_device access nodes
  end.

Definition find_device (env : option bytes) (access : bytes → bool) (requested : bytes) : bytes :=
  if negb (bool_decide (requested = [])) then requested
  else
    match env with
    | Some ((_ :: _) as env) => env
    | _ => first_device access ((λ i, 128 + Z.of_nat i) <$> seq 0 128)
    end.

(** ** Runs *)

Record DrmJob := mkJob {
  cmd_bo : Z;
  job_sram_size : Z;
  region_bo_handles : list Z;
}.

(** The kernel's answers: an [inl] or [Some] is a failure with its [strerror]
    text.  [npu] is what the job leaves in the buffer objects, which it is given
    with their handles and contents. *)
Record Drm := mkDrm {
  device_open : bytes → option Z;
  device_query : Z → bool;
  bo_create : nat → Z → bytes + Z;
  bo_mmap_offset : Z → bytes + Z;
  bo_mmap : Z → Z → Z → option bytes;
  cmdstream_create : bytes → bytes + Z;
  job_submit : DrmJob → option bytes;
  npu : DrmJob → list (Z * bytes) → list bytes;
  clock_monotonic : option (Z * Z);
  bo_wait : Z → Z → option bytes;
}.

Definition kJobTimeoutNs : Z := 30 * 1000 * 1000 * 1000.

Definition open_ethosu (drm : Drm) (path : bytes) : Z :=
  if bool_decide (path = []) then -1
  else
    match device_open drm path with
    | None => -1
    | Some fd => if device_query drm fd then fd else -1
    end.

Inductive event := Created (handle : Z) | Mapped (handle : Z) | Unmapped (handle : Z) | Closed (handle : Z).

(** The local objects of [run] that own something: the handles, the mappings
    with the memory behind them, the command handle once there is one; and what
    happened. *)
Record Owned := mkOwned {
  handles : list Z;
  maps : list (Z * bytes);
  commands : list Z;
  events : list event;
}.

(** A computation that may throw, keeping what it owns by then. *)
Definition owning (A : Type) : Type := Owned → result A * Owned.

Definition oret {A} (a : A) : owning A := λ o, (Ok a, o).
Definition oresult {A} (m : result A) : owning A := λ o, (m, o).
Definition obind {A B} (m : owning A) (k : A → owning B) : owning B := λ o,
  match m o with
  | (Ok a, o) => k a o
  | (Err e, o) => (Err e, o)
  | (OutOfBounds, o) => (OutOfBounds, o)
  | (NoFuel, o) => (NoFuel, o)
  end.
Notation "x <-@ m ;; k" := (obind m (fun x => k))
  (at level 100, m at next level, right associativity) : wire_scope.

(** What the kernel did for the process, and the local objects that take it
    over. *)
Definition log (e : event) : owning unit := λ o,
  (Ok tt, mkOwned (handles o) (maps o) (commands o) (events o ++ [e])).
Definition own_handle (h : Z) : owning unit := λ o,
  (Ok tt, mkOwned (handles o ++ [h]) (maps o) (commands o) (events o)).
Definition own_map (h : Z) (memory : bytes) : owning unit := λ o,
  (Ok tt, mkOwned (handles o) (maps o ++ [(h, memory)]) (commands o) (events o)).
Definition own_command (h : Z) : owning unit := λ o,
  (Ok tt, mkOwned (handles o) (maps o) (commands o ++ [h]) (events o)).
Definition get_owned : owning Owned := λ o, (Ok o, o).
Definition set_maps (m : list (Z * bytes)) : owning unit := λ o,
  (Ok tt, mkOwned (handles o) m (commands o) (events o)).

(** [what] is the message's first part; [None] is success. *)
Definition ocheck (what : bytes) (failure : option bytes) : owning unit :=
  oresult match failure with Some text => Err (what ++ text) | None => Ok tt end.
Definition oget {A} (what : bytes) (answer : bytes + A) : owning A :=
  oresult match answer with inl text => Err (what ++ text) | inr a => Ok a end.

(** A successful BO_CREATE or CMDSTREAM_BO_CREATE, and a successful [mmap]. *)
Definition ocreate (what : bytes) (answer : bytes + Z) : owning Z :=
  handle <-@ oget what answer;; _ <-@ log (Created handle);; oret handle.
Definition ommap (handle : Z) (what : bytes) (failure : option bytes) : owning unit :=
  _ <-@ ocheck what failure;; log (Mapped handle).

(** The destructors, last declared first; a handle of value 0 owns nothing. *)
Definition close_events (l : list Z) : list event := Closed <$> filter (λ h, h ≠ 0) l.
Definition destructors (o : Owned) : list event :=
  close_events (commands o) ++ (Unmapped <$> (maps o).*1) ++ close_events (handles o).

Section Run.
Context (drm : Drm) (nan : Z → Z → Z).

(** A buffer object for each region, mapped and filled. *)
Fixpoint map_regions (i : nat) (regions : list bytes) : owning unit :=
  match regions with
  | [] => oret tt
  | region :: regions =>
      handle <-@ ocreate (str "Ethos-U BO_CREATE failed: ") (bo_create drm i (zlen region));;
      _ <-@ own_handle handle;;
      offset <-@ oget (str "Ethos-U DRM BO_MMAP_OFFSET failed: ") (bo_mmap_offset drm handle);;
      _ <-@ ommap handle (str "Ethos-U DRM mmap failed: ") (bo_mmap drm handle (zlen region) offset);;
      _ <-@ own_map handle region;;
      map_regions (S i) regions
  end.

(** [std::nearbyint(x / scale) + zero], clamped to [int8_t]. *)
Definition quantize (scale zero x : Z) : result Z :=
  _ <-! reject_if (negb (sf_isfinite (sf_of_bits x))) (str "Ethos-U input contains NaN or infinity");;
  let q := SFadd prec64 emax64
             (nearbyint (SFdiv prec64 emax64 (sf_of_bits x) (widen (sf_of_bits32 scale))))
             (double_of_int zero) in
  cast_int8 (sf_max double_m128 (sf_min double_127 q)).

(** A store into a mapping; outside it is undefined. *)
Definition store_byte (memory : bytes) (pos : Z) (v : byte) : result bytes :=
  if (0 <=? pos) && (pos <? zlen memory) then Ok (<[Z.to_nat pos := v]> memory) else OutOfBounds.

Fixpoint quantize_loop (b : Bundle) (memory : bytes) (pos : Z) (input : list Z) : result bytes :=
  match input with
  | [] => Ok memory
  | x :: input =>
      v <-! quantize (input_scale b) (input_zero b) x;;
      memory <-! store_byte memory pos (to_u8 v);;
      quantize_loop b memory (pos + 1) input
  end.

(** The loop writes through the mapping, so what it wrote before it throws
    stays there; nothing reads it after that. *)
Definition write_input (b : Bundle) (input : list Z) : owning unit :=
  o <-@ get_owned;;
  match maps o !! Z.to_nat (input_region b) with
  | None => oresult OutOfBounds
  | Some (h, memory) =>
      memory <-@ oresult (quantize_loop b memory (input_offset b) input);;
      set_maps (<[Z.to_nat (input_region b) := (h, memory)]> (maps o))
  end.

(** [job.region_bo_handles[i] = handles[i].value], an array of eight. *)
Definition make_job (b : Bundle) (command_handle : Z) (handles : list Z) : result DrmJob :=
  if 8 <? zlen handles then OutOfBounds
  else Ok (mkJob command_handle (sram_size b) (handles ++ replicate (8 - length handles) 0)).

(** Signed 64-bit arithmetic: overflow is undefined. *)
Definition job_deadline (now : Z * Z) : result Z :=
  let deadline := now.1 * 1000000000 + now.2 + kJobTimeoutNs in
  if (- 2 ^ 63 <=? deadline) && (deadline <? 2 ^ 63) then Ok deadline else OutOfBounds.

(** [(static_cast<int>(byte) - zero) * scale]: the subtraction is signed. *)
Definition dequantize (scale zero : Z) (b : byte) : result Z :=
  let d := to_signed 8 (u8 b) - zero in
  if (- 2 ^ 31 <=? d) && (d <? 2 ^ 31) then
    Ok (default (nan d scale)
          (bits_of_sf (widen (SFmul prec32 emax32 (float_of_int d) (sf_of_bits32 scale)))))
  else OutOfBounds.

Fixpoint dequantize_loop (b : Bundle) (memory : bytes) (pos : nat) (n : nat) : result (list Z) :=
  match n with
  | O => Ok []
  | S n =>
      match memory !! pos with
      | None => OutOfBounds
      | Some byte =>
          v <-! dequantize (output_scale b) (output_zero b) byte;;
          rest <-! dequantize_loop b memory (S pos) n;;
          Ok (v :: rest)
      end
  end.

(** The body of [run] with the lock held. *)
Definition run_body (b : Bundle) (fd : Z) (input : list Z) : owning (list Z) :=
  _ <-@ oresult (reject_if (fd <? 0) (str "mainline Ethos-U DRM device is unavailable"));;
  _ <-@ oresult (reject_if (negb (zlen input =? input_elements b))
                   (str "input element count does not match Ethos-U bundle"));;
  _ <-@ map_regions 0 (regions b);;
  _ <-@ write_input b input;;
  cs <-@ ocreate (str "Ethos-U CMDSTREAM_BO_CREATE failed: ") (cmdstream_create drm (command_stream b));;
  _ <-@ own_command cs;;
  o <-@ get_owned;;
  job <-@ oresult (make_job b cs (handles o));;
  _ <-@ ocheck (str "Ethos-U SUBMIT failed: ") (job_submit drm job);;
  now <-@ oresult match clock_monotonic drm with
                  | Some now => Ok now
                  | None => Err (str "clock_gettime failed while waiting for Ethos-U job")
                  end;;
  deadline <-@ oresult (job_deadline now);;
  match handles o !! Z.to_nat (output_region b) with
  | None => oresult OutOfBounds
  | Some output_handle =>
      _ <-@ ocheck (str "Ethos-U BO_WAIT failed: ") (bo_wait drm output_handle deadline);;
      match npu drm job (maps o) !! Z.to_nat (output_region b) with
      | None => oresult OutOfBounds
      | Some memory =>
          oresult (dequantize_loop b memory (Z.to_nat (output_offset b)) (Z.to_nat (output_elements b)))
      end
  end.

(** What [run] returns, and everything it did to the device. *)
Definition ethos_run (b : Bundle) (fd : Z) (input : list Z) : result (list Z) * list event :=
  let '(r, o) := run_body b fd input (mkOwned [] [] [] []) in
  (r, events o ++ destructors o).

(** The constructor, and the executor as the broker service sees it. *)
Definition EthosU85DrmExecutor (files : bytes → option bytes) (env : option bytes) (access : bytes → bool)
    (bundle_path device_path : bytes) : result NpuExecutor :=
  bundle <-! load_bundle files bundle_path;;
  let fd := open_ethosu drm (find_device env access device_path) in
  Ok (mkNpu (0 <=? fd) (λ input, (ethos_run bundle fd input).1)).

End Run.

(** ** What a run acquires, it releases *)

Definition created (es : list event) : list Z := omap (λ e, match e with Created h => Some h | _ => None end) es.
Definition mapped (es : list event) : list Z := omap (λ e, match e with Mapped h => Some h | _ => None end) es.
Definition closed (es : list event) : list Z := omap (λ e, match e with Closed h => Some h | _ => None end) es.
Definition unmapped (es : list event) : list Z := omap (λ e, match e with Unmapped h => Some h | _ => None end) es.

(** The events so far acquired what is owned now, and released nothing. *)
Definition tracked (o : Owned) : Prop :=
  created (events o) ≡ₚ commands o ++ handles o ∧ mapped (events o) = (maps o).*1 ∧
  closed (events o) = [] ∧ unmapped (events o) = [].

Definition keeps {A} (m : owning A) : Prop := ∀ o, tracked o → tracked (m o).2.

Lemma keeps_obind {A B} (m : owning A) (k : A → owning B) :
  keeps m → (∀ a, keeps (k a)) → keeps (obind m k).
Proof.
  intros Hm Hk o Ho. unfold obind. specialize (Hm o Ho). destruct (m o) as [[a|e| |] o']; try done.
  by apply Hk.
Qed.

Lemma keeps_oresult {A} (m : result A) : keeps (oresult m).
Proof. by intros o Ho. Qed.

Lemma keeps_get : keeps get_owned.
Proof. by intros o Ho. Qed.

Ltac track := unfold tracked, obind, oget, oresult, ocheck, oret, log, own_handle, own_command, own_map,
  created, mapped, closed, unmapped in *; cbn [fst snd events handles maps commands] in *.

(** What the kernel creates or maps has its owner in the next statement. *)
Lemma keeps_handle {A} what answer (k : Z → owning A) :
  (∀ h, keeps (k h)) → keeps (obind (ocreate what answer) (λ h, obind (own_handle h) (λ _, k h))).
Proof.
  intros Hk o (Hc & Hm & Hcl & Hu). destruct answer as [text|h]; [done|]. unfold ocreate. track. apply Hk. track.
  rewrite !omap_app, Hc, Hm, Hcl, Hu. cbn [omap list_omap]. rewrite !app_nil_r, app_assoc. by repeat split.
Qed.

Lemma keeps_command {A} what answer (k : Z → owning A) :
  (∀ h, keeps (k h)) → keeps (obind (ocreate what answer) (λ h, obind (own_command h) (λ _, k h))).
Proof.
  intros Hk o (Hc & Hm & Hcl & Hu). destruct answer as [text|h]; [done|]. unfold ocreate. track. apply Hk. track.
  rewrite !omap_app, Hc, Hm, Hcl, Hu. cbn [omap list_omap]. rewrite !app_nil_r. split; [|done].
  rewrite <- !app_assoc. apply Permutation_app_head, Permutation_app_comm.
Qed.

Lemma keeps_mapping {A} h memory what failure (k : owning A) :
  keeps k → keeps (obind (ommap h what failure) (λ _, obind (own_map h memory) (λ _, k))).
Proof.
  intros Hk o (Hc & Hm & Hcl & Hu). destruct failure as [text|]; [done|]. unfold ommap. track. apply Hk. track.
  rewrite !omap_app, Hc, Hm, Hcl, Hu. cbn [omap list_omap]. rewrite !app_nil_r, fmap_app. by repeat split.
Qed.

#[local] Hint Resolve keeps_obind keeps_oresult keeps_get : codec.

Section RunProofs.
Context (drm : Drm) (nan : Z → Z → Z).

Lemma keeps_map_regions regions : ∀ i, keeps (map_regions drm i regions).
Proof.
  induction regions as [|r regions IH]; intros i; cbn [map_regions]; [apply (keeps_oresult (Ok tt))|].
  apply keeps_handle. intros h. apply keeps_obind; [apply keeps_oresult|]. intros offset. by apply keeps_mapping.
Qed.

Lemma keeps_write_input b input : keeps (write_input b input).
Proof.
  intros o Ho. unfold write_input, obind, get_owned. destruct (maps o !! _) as [[h memory]|] eqn:E; [|done].
  unfold oresult. destruct (quantize_loop _ _ _ _) as [memory'| | |]; try done.
  destruct Ho as (Hc & Hm & Ho). unfold tracked, set_maps. cbn [snd events handles maps commands].
  split; [done|]. split; [|done]. rewrite Hm, list_fmap_insert. cbn [fst]. symmetry. apply list_insert_id.
  by rewrite list_lookup_fmap, E.
Qed.
#[local] Hint Resolve keeps_map_regions keeps_write_input : codec.

Lemma keeps_run_body b fd input : keeps (run_body drm nan b fd input).
Proof.
  unfold run_body, oget, ocheck.
  repeat first [apply keeps_command; intros ?|apply keeps_obind; [by auto with codec|intros ?]].
  case_match; [|auto with codec]. apply keeps_obind; [auto with codec|intros _]. case_match; auto with codec.
Qed.

Lemma close_events_closed l : closed (close_events l) = filter (λ h, h ≠ 0) l ∧ unmapped (close_events l) = [].
Proof.
  unfold close_events, closed, unmapped. generalize (filter (λ h, h ≠ 0) l) as k. intros k.
  split; induction k as [|h k IH]; cbn; congruence.
Qed.

(** C18: No run leaks: whatever the kernel answers and wherever the run fails, the
    destructors close exactly the buffer objects that the kernel's successful
    create calls returned (the kernel's handles are not 0) and unmap exactly
    the mappings that its successful mmap calls made, after everything else it
    does. *)
Theorem ethos_run_releases b fd input :
  ∃ acquired released, (ethos_run drm nan b fd input).2 = acquired ++ released ∧
    closed acquired = [] ∧ unmapped acquired = [] ∧ created released = [] ∧ mapped released = [] ∧
    closed released ≡ₚ filter (λ h, h ≠ 0) (created acquired) ∧ unmapped released = mapped acquired.
Proof.
  unfold ethos_run. pose proof (keeps_run_body b fd input (mkOwned [] [] [] [])) as Hk.
  destruct (run_body drm nan b fd input (mkOwned [] [] [] [])) as [r o]. cbn [snd] in *.
  destruct Hk as (Hc & Hm & Hcl & Hu); [done|]. exists (events o), (destructors o).
  destruct (close_events_closed (commands o)) as [E1 U1]. destruct (close_events_closed (handles o)) as [E2 U2].
  assert (∀ (f : event → option Z) l, (∀ h, f (Closed h) = None) → omap f (close_events l) = []) as Hnone.
  { intros f l Hf. unfold close_events. induction (filter _ l); cbn; [done|]. by rewrite Hf. }
  assert (∀ (f : event → option Z) l, (∀ h, f (Unmapped h) = None) → omap f (Unmapped <$> l) = []) as Hnone'.
  { intros f l Hf. induction l; cbn; [done|]. by rewrite Hf. }
  unfold destructors, created, mapped, closed, unmapped in *. rewrite !omap_app.
  rewrite !Hnone, !Hnone' by done. split; [done|]. split; [done|]. split; [done|]. split; [done|].
  split; [done|]. split.
  - rewrite E1, E2. by rewrite Hc, filter_app.
  - rewrite U1, U2, Hm, app_nil_r, app_nil_l. generalize ((maps o).*1) as l. intros l.
    induction l as [|h l IH]; cbn in *; [done|]. by f_equal.
Qed.

(** ** What a run computes *)

(** [m] returns without undefined behaviour, and satisfies [Q] if it does not
    throw. *)
Definition owp {A} (m : owning A) (o : Owned) (Q : A → Owned → Prop) : Prop :=
  match m o with
  | (Ok a, o') => Q a o'
  | (Err _, _) => True
  | _ => False
  end.

Lemma owp_bind {A B} (m : owning A) (k : A → owning B) o Q :
  owp m o (λ a o', owp (k a) o' Q) → owp (obind m k) o Q.
Proof. unfold owp, obind. by destruct (m o) as [[a|e| |] o']. Qed.

Lemma owp_result {A} (m : result A) o (Q : A → Owned → Prop) :
  safe m → (∀ a, m = Ok a → Q a o) → owp (oresult m) o Q.
Proof. unfold owp, oresult. destruct m; naive_solver. Qed.

Lemma owp_mono {A} (m : owning A) o (Q Q' : A → Owned → Prop) :
  owp m o Q → (∀ a o', Q a o' → Q' a o') → owp m o Q'.
Proof. unfold owp. destruct (m o) as [[a|e| |] o']; naive_solver. Qed.

Lemma owp_get {A} what (answer : bytes + A) o (Q : A → Owned → Prop) :
  (∀ a, answer = inr a → Q a o) → owp (oget what answer) o Q.
Proof. intros HQ. apply owp_result; destruct answer; naive_solver. Qed.

Lemma owp_check what failure o (Q : unit → Owned → Prop) :
  Q tt o → owp (ocheck what failure) o Q.
Proof. intros HQ. apply owp_result; destruct failure; naive_solver. Qed.

(** The buffer objects of regions: one for each, of its size. *)
Definition buffers_of (i : nat) (rs : list bytes) (hs : list Z) : Prop :=
  length hs = length rs ∧ ∀ j r h, rs !! j = Some r → hs !! j = Some h → bo_create drm (i + j) (zlen r) = inr h.

Lemma owp_map_regions rs : ∀ i o,
  owp (map_regions drm i rs) o (λ _ o', ∃ hs, buffers_of i rs hs ∧
    handles o' = handles o ++ hs ∧ maps o' = maps o ++ zip hs rs).
Proof.
  induction rs as [|r rs IH]; intros i o; cbn [map_regions].
  { unfold owp, oret. exists []. by rewrite !app_nil_r. }
  apply owp_bind. unfold ocreate. apply owp_bind, owp_get. intros h Hh. apply owp_bind. unfold owp at 1, log, oret.
  apply owp_bind. unfold owp at 1, own_handle. apply owp_bind, owp_get. intros off _. apply owp_bind. unfold ommap.
  apply owp_bind, owp_check. unfold owp at 1, log. apply owp_bind. unfold owp at 1, own_map.
  eapply owp_mono; [apply IH|]. cbn [maps handles]. intros _ o' (hs & [Hl Hb] & -> & ->).
  exists (h :: hs). rewrite <- !app_assoc. split; [|done]. split; [by cbn; rewrite Hl|].
  intros [|j] r' h' Hr Hh'; cbn in Hr, Hh'; [rewrite Nat.add_0_r; congruence|].
  rewrite Nat.add_succ_r. by apply (Hb j).
Qed.

Lemma store_byte_ok memory pos v :
  0 ≤ pos < zlen memory → store_byte memory pos v = Ok (<[Z.to_nat pos := v]> memory).
Proof. intros Hp. unfold store_byte. by rewrite (proj2 (Z.leb_le _ _)), (proj2 (Z.ltb_lt _ _)) by lia. Qed.

(** Quantisation never leaves [int8_t]. *)
Lemma quantize_safe scale zero x :
  safe (quantize scale zero x) ∧ ∀ v, quantize scale zero x = Ok v → -128 ≤ v ≤ 127.
Proof.
  unfold quantize. destruct (reject_if _ _) eqn:E; [|done|by destruct (negb _) in E..]. cbn [rbind].
  match goal with |- context [sf_min double_127 ?q] => destruct (cast_clamped q) as (v & Ev & Hv) end.
  rewrite Ev. split; [done|]. congruence.
Qed.

Lemma quantize_loop_ok b input : ∀ memory pos,
  0 ≤ pos → pos + zlen input ≤ zlen memory →
  safe (quantize_loop b memory pos input) ∧
  ∀ memory', quantize_loop b memory pos input = Ok memory' →
    ∃ qs, Forall2 (λ x q, quantize (input_scale b) (input_zero b) x = Ok q) input qs ∧
      memory' = list_inserts (Z.to_nat pos) (to_u8 <$> qs) memory.
Proof.
  induction input as [|x input IH]; intros memory pos Hpos Hfit; cbn [quantize_loop].
  { split; [done|]. intros m [= <-]. by exists []. }
  rewrite zlen_cons in Hfit. pose proof (zlen_nonneg input).
  destruct (quantize_safe (input_scale b) (input_zero b) x) as [Hs _].
  destruct (quantize (input_scale b) (input_zero b) x) as [v|e| |] eqn:E; try done. cbn [rbind].
  rewrite store_byte_ok by lia. cbn [rbind].
  destruct (IH (<[Z.to_nat pos := to_u8 v]> memory) (pos + 1)) as [Hsafe Hok];
    [lia|unfold zlen in *; rewrite length_insert; lia|].
  split; [done|]. intros memory' Hm. destruct (Hok _ Hm) as (qs & Hqs & ->).
  exists (v :: qs). split; [by constructor|]. replace (Z.to_nat (pos + 1)) with (S (Z.to_nat pos)) by lia.
  cbn [fmap list_fmap list_inserts]. symmetry. apply list_insert_inserts_lt. lia.
Qed.

(** No byte minus the zero point leaves [int]. *)
Definition zero_in_range (zero : Z) : Prop := 128 - 2 ^ 31 ≤ zero ≤ 2 ^ 31 - 128.

Lemma dequantize_loop_ok b memory n : ∀ pos,
  zero_in_range (output_zero b) → (pos + n ≤ length memory)%nat →
  ∃ out, dequantize_loop nan b memory pos n = Ok out ∧
    Forall2 (λ byte v, dequantize nan (output_scale b) (output_zero b) byte = Ok v)
      (firstn n (skipn pos memory)) out.
Proof.
  induction n as [|n IH]; intros pos Hz Hfit; cbn [dequantize_loop]; [by exists []|].
  destruct (lookup_lt_is_Some_2 memory pos) as [byte Hb]; [lia|]. rewrite Hb.
  assert (∃ v, dequantize nan (output_scale b) (output_zero b) byte = Ok v) as [v Hv].
  { unfold dequantize, zero_in_range in *. pose proof (to_signed_range 8 (u8 byte) ltac:(lia) (is_uint_8_u8 byte)) as Hr.
    unfold is_int in Hr. destruct (_ && _) eqn:E; [by eexists|]. apply andb_false_iff in E as [E|E]; lia. }
  destruct (IH (S pos) Hz) as (out & Hout & Hall); [lia|]. rewrite Hv, Hout. exists (v :: out). split; [done|].
  rewrite (drop_S memory byte pos Hb). by constructor.
Qed.

(** What the driver documents: buffers keep their sizes, and the monotonic
    clock is a small number of seconds and nanoseconds. *)
Definition driver_ok : Prop :=
  (∀ job mems, length (npu drm job mems) = length mems ∧
     ∀ i h m m', mems !! i = Some (h, m) → npu drm job mems !! i = Some m' → length m' = length m) ∧
  (∀ now, clock_monotonic drm = Some now → 0 ≤ now.1 < 2 ^ 32 ∧ 0 ≤ now.2 < 10 ^ 9).

(** The result of running the input on the device: one job, of the command
    stream's buffer object and the regions' in their order, on the regions'
    contents with the quantised input in its place; the wait is for the output's
    buffer object, thirty seconds from now. *)
Definition computed (b : Bundle) (fd : Z) (input out : list Z) : Prop :=
  0 ≤ fd ∧ zlen input = input_elements b ∧
  ∃ qs region hs cs job now output memory,
    Forall2 (λ x q, quantize (input_scale b) (input_zero b) x = Ok q) input qs ∧
    regions b !! Z.to_nat (input_region b) = Some region ∧
    buffers_of 0 (regions b) hs ∧ cmdstream_create drm (command_stream b) = inr cs ∧
    job = mkJob cs (sram_size b) (hs ++ replicate (8 - length hs) 0) ∧ job_submit drm job = None ∧
    clock_monotonic drm = Some now ∧ hs !! Z.to_nat (output_region b) = Some output ∧
    bo_wait drm output (now.1 * 10 ^ 9 + now.2 + 30 * 10 ^ 9) = None ∧
    npu drm job (zip hs (<[Z.to_nat (input_region b) :=
                     list_inserts (Z.to_nat (input_offset b)) (to_u8 <$> qs) region]> (regions b)))
      !! Z.to_nat (output_region b) = Some memory ∧
    Forall2 (λ byte v, dequantize nan (output_scale b) (output_zero b) byte = Ok v)
      (firstn (Z.to_nat (output_elements b)) (skipn (Z.to_nat (output_offset b)) memory)) out.

Lemma job_deadline_ok now : 0 ≤ now.1 < 2 ^ 32 → 0 ≤ now.2 < 10 ^ 9 →
  job_deadline now = Ok (now.1 * 10 ^ 9 + now.2 + 30 * 10 ^ 9).
Proof. intros H1 H2. unfold job_deadline, kJobTimeoutNs. case_match eqn:E; [done|]. lia. Qed.

Lemma owp_write_input b input hs o :
  wf_bundle b → zlen input = input_elements b → length hs = length (regions b) → maps o = zip hs (regions b) →
  owp (write_input b input) o (λ _ o', handles o' = handles o ∧
    ∃ qs region, Forall2 (λ x q, quantize (input_scale b) (input_zero b) x = Ok q) input qs ∧
      regions b !! Z.to_nat (input_region b) = Some region ∧
      maps o' = zip hs (<[Z.to_nat (input_region b) :=
        list_inserts (Z.to_nat (input_offset b)) (to_u8 <$> qs) region]> (regions b))).
Proof.
  intros (_ & _ & _ & _ & [[Hoff _] _] & _ & _ & _ & (region & Hreg & Hfit) & _) Hlen Hhs Hmaps.
  unfold write_input. apply owp_bind. unfold owp at 1, get_owned. rewrite Hmaps.
  destruct (lookup_lt_is_Some_2 hs (Z.to_nat (input_region b))) as [h Hh].
  { rewrite Hhs. by eapply lookup_lt_Some. }
  assert (zip hs (regions b) !! Z.to_nat (input_region b) = Some (h, region)) as -> by (apply lookup_zip_Some; by split).
  destruct (quantize_loop_ok b input region (input_offset b)) as [Hs Hok]; [done|lia|].
  apply owp_bind, owp_result; [done|]. intros memory' Hm. destruct (Hok _ Hm) as (qs & Hqs & ->).
  unfold owp, set_maps. cbn [handles maps]. split; [done|]. exists qs, region. split; [done|]. split; [done|].
  rewrite (insert_zip_with pair). by rewrite (list_insert_id hs _ h).
Qed.

(** The memory of the output region after the job. *)
Lemma output_memory b hs inp job :
  wf_bundle b → driver_ok → length hs = length (regions b) →
  (∀ r, regions b !! Z.to_nat (input_region b) = Some r → length inp = length r) →
  ∃ output memory, hs !! Z.to_nat (output_region b) = Some output ∧
    npu drm job (zip hs (<[Z.to_nat (input_region b) := inp]> (regions b))) !! Z.to_nat (output_region b) = Some memory ∧
    (Z.to_nat (output_offset b) + Z.to_nat (output_elements b) ≤ length memory)%nat.
Proof.
  intros (_ & _ & _ & _ & [_ [Hoo _]] & (_ & _ & [Hoe _] & _) & _ & _ & _ & (outr & Hout & Hofit)) [Hnpu _] Hhs Hin.
  destruct (lookup_lt_is_Some_2 hs (Z.to_nat (output_region b))) as [output Hoh].
  { rewrite Hhs. by eapply lookup_lt_Some. }
  set (mems := <[_ := _]> (regions b)).
  assert (∃ m, mems !! Z.to_nat (output_region b) = Some m ∧ length m = length outr) as (m & Hm & Hml).
  { unfold mems. destruct (decide (Z.to_nat (output_region b) = Z.to_nat (input_region b))) as [E|E].
    - rewrite E, list_lookup_insert_eq by (rewrite <- E; by eapply lookup_lt_Some). rewrite E in Hout. eauto.
    - rewrite list_lookup_insert_ne by done. by exists outr. }
  assert (zip hs mems !! Z.to_nat (output_region b) = Some (output, m)) as Hz by (apply lookup_zip_Some; by split).
  destruct (Hnpu job (zip hs mems)) as [Hnl Hns].
  destruct (lookup_lt_is_Some_2 (npu drm job (zip hs mems)) (Z.to_nat (output_region b))) as [memory Hmem].
  { rewrite Hnl. by eapply lookup_lt_Some. }
  exists output, memory. split; [done|]. split; [done|]. rewrite (Hns _ _ _ _ Hz Hmem), Hml. unfold zlen in Hofit. lia.
Qed.

Lemma owp_run_body b fd input o :
  wf_bundle b → zero_in_range (output_zero b) → driver_ok → maps o = [] → handles o = [] →
  owp (run_body drm nan b fd input) o (λ out _, computed b fd input out).
Proof.
  intros Hwf Hzero Hdrv Hm0 Hh0. unfold run_body.
  apply owp_bind, owp_result; [auto with codec|]. intros [] Hfd%reject_if_Ok.
  apply owp_bind, owp_result; [auto with codec|]. intros [] Hlen%reject_if_Ok.
  apply negb_false_iff, Z.eqb_eq in Hlen. apply Z.ltb_ge in Hfd.
  apply owp_bind. eapply owp_mono; [apply owp_map_regions|]. rewrite Hm0, Hh0. intros [] o1 (hs & Hbuf & Hh1 & Hm1).
  pose proof Hbuf as [Hhs _]. cbn [app] in Hh1, Hm1.
  apply owp_bind. eapply owp_mono; [by apply (owp_write_input b input hs)|].
  intros [] o2 (Hh2 & qs & region & Hqs & Hreg & Hm2).
  apply owp_bind. unfold ocreate. apply owp_bind, owp_get. intros cs Hcs. apply owp_bind. unfold owp at 1, log, oret.
  apply owp_bind. unfold owp at 1, own_command. apply owp_bind. unfold owp at 1, get_owned. cbn [handles maps].
  rewrite Hh2, Hh1. pose proof Hwf as (_ & _ & ([_ Hmax] & _) & _). unfold kMaxRegions, zlen in Hmax.
  apply owp_bind, owp_result; unfold make_job; destruct (Z.ltb_spec 8 (zlen hs)) as [Hgt|_];
    try (unfold zlen in Hgt; lia); [done|].
  intros job [= <-]. set (job := mkJob _ _ _). apply owp_bind, owp_result; [by destruct (job_submit drm job)|].
  intros [] Hsub. apply owp_bind, owp_result; [by destruct (clock_monotonic drm)|].
  intros now Hnow. destruct (clock_monotonic drm) as [now'|] eqn:Ec; [|done]. injection Hnow as ->.
  destruct (proj2 Hdrv _ Ec) as [Hs Hns]. rewrite (job_deadline_ok _ Hs Hns).
  apply owp_bind, owp_result; [done|]. intros deadline [= <-].
  destruct (output_memory b hs (list_inserts (Z.to_nat (input_offset b)) (to_u8 <$> qs) region) job Hwf Hdrv Hhs)
    as (output & memory & Hoh & Hmem & Hsize).
  { intros r Hr. rewrite length_inserts. congruence. }
  rewrite Hoh. apply owp_bind, owp_result; [by destruct (bo_wait drm _ _)|]. intros [] Hwait. rewrite Hm2, Hmem.
  destruct (dequantize_loop_ok b memory (Z.to_nat (output_elements b)) (Z.to_nat (output_offset b)) Hzero Hsize)
    as (out & Eout & Hall). apply owp_result; rewrite Eout; [done|]. intros out' [= <-].
  split; [done|]. split; [done|]. exists qs, region, hs, cs, job, now, output, memory.
  destruct (job_submit drm job) eqn:Ej; [done|]. destruct (bo_wait drm _ _) eqn:Ew; [done|]. by split_and!.
Qed.

Lemma ethos_run_safe b fd input :
  wf_bundle b → zero_in_range (output_zero b) → driver_ok → safe (ethos_run drm nan b fd input).1.
Proof.
  intros Hwf Hzero Hdrv. unfold ethos_run.
  pose proof (owp_run_body b fd input (mkOwned [] [] [] []) Hwf Hzero Hdrv eq_refl eq_refl) as H.
  unfold owp in H. by destruct (run_body drm nan b fd input (mkOwned [] [] [] [])) as [[out|e| |] o].
Qed.

Lemma executor_safe files env access bundle device x :
  driver_ok → (∀ b, load_bundle files bundle = Ok b → zero_in_range (output_zero b)) →
  EthosU85DrmExecutor drm nan files env access bundle device = Ok x → ∀ input, safe (BackendDispatch.run x input).
Proof.
  intros Hdrv Hzero E input. apply rbind_Ok in E as (b & Hb & [= <-]).
  cbn [BackendDispatch.run]. apply ethos_run_safe; [by eapply load_bundle_wf|by apply Hzero|done].
Qed.

(** C17: A run on a loaded bundle whose zero point is in range never reads or
    writes outside its buffers and never overflows; when it returns, the
    output is the dequantised output tensor of the device's memory after one
    job: the buffer object of the bundle's command stream with the buffer objects
    of all its regions in their order, which hold the regions' contents with the
    quantised input written into the input tensor and nothing else changed; the
    wait was for the output region's buffer object. *)
Theorem ethos_run_correct b fd input :
  wf_bundle b → zero_in_range (output_zero b) → driver_ok →
  safe (ethos_run drm nan b fd input).1 ∧
  ∀ out, (ethos_run drm nan b fd input).1 = Ok out → computed b fd input out.
Proof.
  intros Hwf Hzero Hdrv. unfold ethos_run.
  pose proof (owp_run_body b fd input (mkOwned [] [] [] []) Hwf Hzero Hdrv eq_refl eq_refl) as H.
  unfold owp in H. destruct (run_body drm nan b fd input (mkOwned [] [] [] [])) as [[out|e| |] o]; try done.
  cbn [fst]. split; [done|]. by intros out' [= <-].
Qed.

End RunProofs.

(** ** Samples *)

(** A driver whose NPU copies its buffers unchanged. *)
Definition sample_drm : Drm :=
  mkDrm (λ _, Some 3) (λ _, true) (λ i _, inr (Z.of_nat i + 1)) (λ h, inr (h * 4096)) (λ _ _ _, None)
    (λ _, inr 99) (λ _, None) (λ _ mems, mems.*2) (Some (1000, 5)) (λ _ _, None).

Definition sample_bundle (zero : Z) : Bundle :=
  mkBundle 4096 (str "cmd") [[Byte.x00; Byte.x00; Byte.x00]] 0 0 1 1 2 2 0x3f000000 0x3f000000 0 zero.

Lemma sample_bundle_wf zero : is_int 32 zero → wf_bundle (sample_bundle zero).
Proof.
  intros Hz. unfold wf_bundle, sample_bundle, is_uint, kMaxCommandBytes, kMaxRegions. cbn_bundle.
  assert (positive_scale 0x3f000000) by (by eexists _, _).
  assert (tensor_in [[Byte.x00; Byte.x00; Byte.x00]] 0 1 2) by (eexists; split; [reflexivity|done]).
  assert (is_int 32 0) by done.
  assert (Forall (λ r, 1 ≤ zlen r ≤ kMaxRegionBytes) [[Byte.x00; Byte.x00; Byte.x00]]) by (by repeat constructor).
  split_and!; done.
Qed.

Lemma load_bundle_correct_witness :
  documented (sample_bundle 0) ∧
  load_bundle (λ _, Some (bundle_layout (sample_bundle 0))) [] = Ok (sample_bundle 0).
Proof.
  assert (documented (sample_bundle 0)) as Hd.
  { destruct (sample_bundle_wf 0) as (Hs & _ & _ & ? & ? & (? & _ & ? & _) & ? & _ & ?); [done|].
    unfold documented. split_and!; try done; tauto. }
  split; [exact Hd|]. apply (load_bundle_correct (λ _, Some (bundle_layout (sample_bundle 0))) []); [exact Hd| |reflexivity].
  unfold within_limits. by split_and!; repeat constructor.
Defined.

(** 1.25 / 0.5 rounds to 2, which comes back as 1.0; -3.0 comes back as -3.0. *)
Definition sample_floats : list Z := [0x3ff4000000000000; 0xc008000000000000].

Lemma sample_drm_ok : driver_ok sample_drm.
Proof.
  split; [|intros now [= <-]; by repeat split]. intros job mems. split; [apply length_fmap|].
  intros i h m m' Hm Hm'. cbn [npu sample_drm] in Hm'. rewrite list_lookup_fmap, Hm in Hm'. by injection Hm' as <-.
Qed.

Lemma ethos_run_correct_witness :
  ethos_run sample_drm (λ _ _, 0) (sample_bundle 0) 3 sample_floats
    = (Ok [0x3ff0000000000000; 0xc008000000000000],
       [Created 1; Mapped 1; Created 99; Closed 99; Unmapped 1; Closed 1]) ∧
  computed sample_drm (λ _ _, 0) (sample_bundle 0) 3 sample_floats [0x3ff0000000000000; 0xc008000000000000].
Proof.
  destruct (ethos_run_correct sample_drm (λ _ _, 0) (sample_bundle 0) 3 sample_floats) as [_ Hrun].
  - by apply sample_bundle_wf.
  - by split.
  - apply sample_drm_ok.
  - split; [vm_compute; reflexivity|]. apply Hrun. vm_compute. reflexivity.
Defined.

(** A zero point outside [int8_t] is accepted by the loader, and the
    subtraction then overflows [int]. *)
Example zero_point_overflow :
  load_bundle (λ _, Some (bundle_layout (sample_bundle (- 2 ^ 31)))) [] = Ok (sample_bundle (- 2 ^ 31)) ∧
  (ethos_run sample_drm (λ _ _, 0) (sample_bundle (- 2 ^ 31)) 3 sample_floats).1 = OutOfBounds.
Proof. split; vm_compute; reflexivity. Qed.
