(* ===== verification/AdiServer.v ===== *)
(** * The compute kernel of the ADI server (src/adi_server.cpp)

    [default_gpu_compute] is the kernel the ADI server and the broker share:
    cuBLAS when the build has it, a loop on the host otherwise.  The answers of
    CUDA and cuBLAS are the record [Cublas]. *)

From S2P Require Import Prelude HostBytes Wire NvlinkPlacement Ieee.

(** ** The compute kernel *)

(** What the CUDA runtime and cuBLAS answer: [None] is success, [Some] the
    text of [cudaGetErrorString]. *)
Record Cublas := mkCublas {
  cudaSetDevice : Z → option bytes;
  cublasCreate : bool;
  cudaMalloc : Z → option bytes;
  cudaMemcpyHostToDevice : option bytes;
  cublasDscal : Z → Z → list Z → option (list Z);
  cudaMemcpyDeviceToHost : option bytes;
}.

Definition check_cuda (status : option bytes) (step : bytes) : result unit :=
  match status with
  | None => Ok tt
  | Some text => Err (step ++ str ": " ++ text)
  end.

Definition check_cublas (ok : bool) (step : bytes) : result unit :=
  reject_if (negb ok) (step ++ str " failed").

(** [lib] is [None] in a build without CUDA or without cuBLAS. *)
Definition default_gpu_compute (nan : Z → Z → Z) (lib : option Cublas) (input : list Z) (gpu_idx : Z)
    : result (list Z) :=
  match lib with
  | Some lib =>
      if bool_decide (input = []) then Ok input
      else
        _ <-! check_cuda (cudaSetDevice lib gpu_idx) (str "cudaSetDevice");;
        _ <-! check_cublas (cublasCreate lib) (str "cublasCreate");;
        _ <-! check_cuda (cudaMalloc lib (zlen input * 8)) (str "cudaMalloc");;
        _ <-! check_cuda (cudaMemcpyHostToDevice lib) (str "cudaMemcpyHostToDevice");;
        let scaled := cublasDscal lib (to_signed 32 (wrap 32 (zlen input))) two input in
        _ <-! check_cublas (bool_decide (is_Some scaled)) (str "cublasDscal");;
        _ <-! check_cuda (cudaMemcpyDeviceToHost lib) (str "cudaMemcpyDeviceToHost");;
        Ok (default input scaled)
  | None => Ok (scale nan two input)
  end.

(** What cuBLAS documents of [cublasDscal]: it multiplies the first [n]
    elements by the factor. *)
Definition dscal_correct (nan : Z → Z → Z) (lib : Cublas) : Prop :=
  ∀ n factor values scaled, cublasDscal lib n factor values = Some scaled →
    scaled = scale nan factor (firstn (Z.to_nat n) values) ++ skipn (Z.to_nat n) values.

Lemma check_cuda_safe status step : safe (check_cuda status step).
Proof. by destruct status. Qed.
#[export] Hint Resolve check_cuda_safe : codec.

Lemma default_gpu_compute_safe nan lib input gpu : safe (default_gpu_compute nan lib input gpu).
Proof.
  unfold default_gpu_compute, check_cublas. destruct lib as [lib|]; [|done].
  case_bool_decide; [done|]. auto 20 with codec.
Qed.

(** When the kernel succeeds on a device, its answer is the one of the host. *)
Lemma default_gpu_compute_host nan lib input gpu out :
  (∀ l, lib = Some l → dscal_correct nan l) → zlen input < 2 ^ 31 →
  default_gpu_compute nan lib input gpu = Ok out → out = scale nan two input.
Proof.
  intros Hlib Hlen. unfold default_gpu_compute, check_cublas.
  destruct lib as [lib|]; [|congruence]. specialize (Hlib lib eq_refl).
  case_bool_decide as Hnil; [intros [= <-]; by rewrite Hnil|].
  rewrite !rbind_Ok. setoid_rewrite rbind_Ok. intros E. break.
  repeat match goal with H : rbind _ _ = Ok _ |- _ => apply rbind_Ok in H; break end.
  match goal with H : reject_if (negb (bool_decide _)) _ = _ |- _ =>
    apply reject_if_Ok, negb_false_iff, bool_decide_eq_true in H as [scaled Hs] end.
  rewrite Hs. cbn [default]. apply Hlib in Hs as ->.
  pose proof (Zle_0_nat (length input)). unfold zlen in *.
  rewrite wrap_small by (unfold is_uint; lia). unfold to_signed.
  case_match; [|lia]. rewrite Nat2Z.id, firstn_all, skipn_all. by rewrite app_nil_r.
Qed.
