(* ===== verification/AdiSession.v ===== *)
(** * The ADI server's sessions (include/adi_server.h, src/adi_server.cpp)

    A session reads requests of five doubles, places each on a GPU, and answers
    with a primary packet and, from the second exchange on, a delta packet.
    The wall clock, the queue depths the placer samples, the socket schedules,
    what other sessions do to the placer between the rounds, the compute
    function, and whether the GPU's worker gets to a round's task are
    parameters.  A round's task goes through a GPU's queue to its worker
    (AdiWorkers.v), which answers it with the compute function's result, unless
    it had returned before the task was queued: then the session waits for
    ever.  [send] is called without MSG_NOSIGNAL, so a write to a connection
    that the client has shut ends the process. *)

From S2P Require Import Prelude Numbers HostBytes Wire NvlinkPlacement Ieee Sockets.

(** ** Byte order *)

Definition byteswap64 (n : Z) : Z :=
  Z.lor (Z.lor (Z.lor (Z.lor (Z.lor (Z.lor (Z.lor
    (wrap 64 (Z.shiftl (Z.land n 0x00000000000000ff) 56))
    (wrap 64 (Z.shiftl (Z.land n 0x000000000000ff00) 40)))
    (wrap 64 (Z.shiftl (Z.land n 0x0000000000ff0000) 24)))
    (wrap 64 (Z.shiftl (Z.land n 0x00000000ff000000) 8)))
    (Z.shiftr (Z.land n 0x000000ff00000000) 8))
    (Z.shiftr (Z.land n 0x0000ff0000000000) 24))
    (Z.shiftr (Z.land n 0x00ff000000000000) 40))
    (Z.shiftr (Z.land n 0xff00000000000000) 56).

Section Session.
Context (h : endian) (nan : Z → Z → Z).

Definition adi_host_to_be64 (n : Z) : Z :=
  match h with LittleEndian => byteswap64 n | BigEndian => n end.
Definition adi_be64_to_host (n : Z) : Z :=
  match h with LittleEndian => byteswap64 n | BigEndian => n end.

Definition double_to_be64 (value : Z) : Z := adi_host_to_be64 value.
Definition be64_to_double (value : Z) : Z := adi_be64_to_host value.

(** ** Whole buffers: anything but data ends the loop *)

Fixpoint adi_recv_loop (fuel : nat) (s : Socket) (size : Z) (got : bytes) : result (option bytes * Socket) :=
  if zlen got <? size then
    match fuel with
    | O => NoFuel
    | S fuel =>
        match recv s (size - zlen got) with
        | (Got data, s) => adi_recv_loop fuel s size (got ++ data)
        | (_, s) => Ok (None, s)
        end
    end
  else Ok (Some got, s).

(** Every round but the last takes at least one byte. *)
Definition adi_read_exact (s : Socket) (size : Z) : result (option bytes * Socket) :=
  adi_recv_loop (Z.to_nat size) s size [].

(** [true], [false], and the end of the process by SIGPIPE. *)
Inductive sending := Complete | Incomplete | Killed.

Fixpoint adi_send_loop (fuel : nat) (o : Outlet) (data : bytes) : result (sending * Outlet) :=
  if 0 <? zlen data then
    match fuel with
    | O => NoFuel
    | S fuel =>
        match send o data with
        | (Wrote n, o) => adi_send_loop fuel o (skipn (Z.to_nat n) data)
        | (WritePipe, o) => Ok (Killed, o)
        | (_, o) => Ok (Incomplete, o)
        end
    end
  else Ok (Complete, o).

Definition adi_write_exact (o : Outlet) (data : bytes) : result (sending * Outlet) :=
  adi_send_loop (length data) o data.

(** ** Packets *)

Definition PAYLOAD_DOUBLES : Z := 5.
Definition PAYLOAD_BYTES : Z := PAYLOAD_DOUBLES * 8.
Definition EXPECTED_LENGTH : Z := PAYLOAD_BYTES.

Inductive PacketType := Primary | Delta.
Definition PacketType_u8 (t : PacketType) : Z := match t with Primary => 0 | Delta => 1 end.

(** [Incomplete] for the exceptions: a payload of another size, a failed write. *)
Definition send_packet (o : Outlet) (timestamp_ns sequence_id : Z) (packet_type : PacketType)
    (payload : list Z) : result (sending * Outlet) :=
  if negb (zlen payload =? PAYLOAD_DOUBLES) then Ok (Incomplete, o)
  else
    let header := mem_store h 8 (adi_host_to_be64 timestamp_ns) ++
                  mem_store h 4 (htonl h sequence_id) ++ mem_store h 1 (PacketType_u8 packet_type) in
    let payload_words := concat ((λ v, mem_store h 8 (double_to_be64 v)) <$> payload) in
    '(ok, o) <-! adi_write_exact o header;;
    match ok with Complete => adi_write_exact o payload_words | _ => Ok (ok, o) end.

(** A request's five doubles, or [None] when the connection ends; another
    length is an exception. *)
Definition read_request (s : Socket) : result (option (list Z) * Socket) :=
  '(len, s) <-! adi_read_exact s 4;;
  match len with
  | None => Ok (None, s)
  | Some length_be =>
      let len := ntohl h (mem_load h length_be) in
      _ <-! reject_if (negb (len =? EXPECTED_LENGTH)) (str "Invalid ADI payload length: " ++ to_string len);;
      '(payload, s) <-! adi_read_exact s PAYLOAD_BYTES;;
      Ok (match payload with
          | None => None
          | Some words =>
              Some ((λ i, be64_to_double (mem_load h (slice words (Z.of_nat i * 8) 8)))
                      <$> seq 0 (Z.to_nat PAYLOAD_DOUBLES))
          end, s)
  end.

(** ** The session *)

Record AdiSession := mkAdiSession {
  previous_payload : list Z;
  first_exchange : bool;
  sequence_id : Z;
}.

(** [delta[i] = current[i] - previous_payload[i]]. *)
Fixpoint delta_loop (current previous : list Z) : result (list Z) :=
  match current, previous with
  | [], _ => Ok []
  | c :: current, p :: previous =>
      rest <-! delta_loop current previous;;
      Ok (fsub nan c p :: rest)
  | _ :: _, [] => OutOfBounds
  end.

(** The packets of one exchange; [clock] is the time stamped on a packet. *)
Definition respond (clock : PacketType → Z) (o : Outlet) (st : AdiSession) (current : list Z)
    : result (sending * Outlet * AdiSession) :=
  '(ok, o) <-! send_packet o (clock Primary) (sequence_id st) Primary current;;
  match ok with
  | Complete =>
      '(ok, o) <-! (if first_exchange st then Ok (Complete, o)
                    else
                      delta <-! delta_loop current (previous_payload st);;
                      send_packet o (clock Delta) (sequence_id st) Delta delta);;
      match ok with
      | Complete => Ok (Complete, o, mkAdiSession current false (wrap 32 (sequence_id st + 1)))
      | _ => Ok (ok, o, st)
      end
  | _ => Ok (ok, o, st)
  end.

(** What a session meets in its round number [n]: the clock, the queue depths
    sampled, what other threads did to the placer since its last operation on
    it, whether the server is still running, and whether the GPU's worker gets
    to the round's task. *)
Record Round := mkRound {
  clock : PacketType → Z;
  depths : nat → Z → Z;
  others : Placer → Placer;
  running : bool;
  served : bool;
}.

(** How a session's thread ends: it returns, waits for a promise that is never
    set, or dies with the process. *)
Inductive session_end := Returns | Waits | Dies.

Context (compute_fn : list Z → Z → result (list Z)) (rounds : nat → Round) (client_id : Z).

(** The loop from round [n] on; the exceptions, which the session catches, end
    it.  [result_future.get()] returns or throws what the worker computed. *)
Fixpoint adi_rounds (fuel n : nat) (p : Placer) (s : Socket) (o : Outlet) (st : AdiSession)
    : result (session_end * Placer * Outlet) :=
  if negb (running (rounds n)) then Ok (Returns, p, o)
  else
    match fuel with
    | O => NoFuel
    | S fuel =>
        match read_request s with
        | Ok (Some request, s) =>
            '(target_gpu, p) <-! place (others (rounds n) p) client_id (depths (rounds n));;
            if negb (served (rounds n)) then Ok (Waits, p, o)
            else
              match compute_fn request target_gpu with
              | Ok current =>
                  '(ok, o, st) <-! respond (clock (rounds n)) o st current;;
                  match ok with
                  | Complete => adi_rounds fuel (S n) p s o st
                  | Incomplete => Ok (Returns, p, o)
                  | Killed => Ok (Dies, p, o)
                  end
              | Err _ => Ok (Returns, p, o)
              | OutOfBounds => OutOfBounds
              | NoFuel => NoFuel
              end
        | Ok (None, _) | Err _ => Ok (Returns, p, o)
        | OutOfBounds => OutOfBounds
        | NoFuel => NoFuel
        end
    end.

(** Every full round consumes a request.  Past the loop the client is released;
    the socket is then shut down and closed. *)
Definition session_loop (p : Placer) (s : Socket) (o : Outlet) : result (session_end * Placer * Outlet) :=
  '(_, p) <-! assign_home p client_id;;
  '(e, p, o) <-! adi_rounds (S (length (inbox s))) 0 p s o (mkAdiSession [] true 0);;
  Ok (e, match e with Returns => release_client p client_id | _ => p end, o).

End Session.

(** ** The byte swap *)

Lemma land_byte v i :
  0 ≤ i → Z.land v (Z.shiftl 255 i) = Z.shiftl ((v / 2 ^ i) mod 256) i.
Proof.
  intros Hi. change 256 with (2 ^ 8). rewrite <- Z.land_ones, <- Z.shiftr_div_pow2 by lia.
  change 255 with (Z.ones 8). rewrite Z.shiftl_land. apply Z.bits_inj'. intros k Hk.
  rewrite !Z.land_spec, !Z.shiftl_spec by lia. destruct (decide (k < i)).
  - rewrite !(Z.testbit_neg_r _ (k - i)) by lia. by rewrite !andb_false_r.
  - rewrite Z.shiftr_spec by lia. by rewrite Z.sub_add.
Qed.

Lemma byte_of_load l : ∀ i b,
  l !! i = Some b → (load_le l / 2 ^ (8 * Z.of_nat i)) mod 256 = u8 b.
Proof.
  induction l as [|c l IH]; intros i b E; [done|]. pose proof (u8_range c).
  destruct i as [|i]; cbn [lookup list_lookup] in E.
  - injection E as ->. cbn [load_le]. rewrite Z.mul_0_r, Z.div_1_r, Z.add_comm, Z.mul_comm.
    rewrite Z_mod_plus_full || rewrite Z.add_comm, Z_mod_plus_full. by apply Z.mod_small.
  - cbn [load_le]. rewrite <- (IH i b E). f_equal.
    replace (2 ^ (8 * Z.of_nat (S i))) with (256 * 2 ^ (8 * Z.of_nat i)).
    + rewrite <- Z.div_div by lia. f_equal. rewrite Z.mul_comm, Z_div_plus_full by lia.
      rewrite Z.div_small; lia.
    + change 256 with (2 ^ 8). rewrite <- Z.pow_add_r by lia. f_equal. lia.
Qed.

(** The bits of a byte below those of a number. *)
Lemma lor_below a x k k8 :
  k8 = k + 8 → 0 ≤ k → 0 ≤ x < 256 → Z.lor (a * 2 ^ k8) (Z.shiftl x k) = (a * 256 + x) * 2 ^ k.
Proof.
  intros -> Hk Hx. rewrite <- Z.shiftl_mul_pow2, (Z.add_comm k), <- Z.shiftl_shiftl, <- Z.shiftl_lor by lia.
  rewrite lor_shiftl_add, Z.shiftl_mul_pow2 by lia. done.
Qed.

Lemma byteswap64_load l : length l = 8%nat → byteswap64 (load_le l) = load_be l.
Proof.
  intros Hl. do 9 (destruct l as [|? l]; [try done|]); [|done].
  match goal with |- byteswap64 (load_le ?l) = _ => set (bs := l); set (v := load_le bs) end.
  assert (∀ i c, bs !! i = Some c →
    Z.land v (Z.shiftl 255 (8 * Z.of_nat i)) = Z.shiftl (u8 c) (8 * Z.of_nat i)) as Hbyte.
  { intros i c E. rewrite land_byte by lia. unfold v. by rewrite (byte_of_load bs i c E). }
  unfold byteswap64.
  rewrite (Hbyte 0%nat _ eq_refl : Z.land v 0x00000000000000ff = _).
  rewrite (Hbyte 1%nat _ eq_refl : Z.land v 0x000000000000ff00 = _).
  rewrite (Hbyte 2%nat _ eq_refl : Z.land v 0x0000000000ff0000 = _).
  rewrite (Hbyte 3%nat _ eq_refl : Z.land v 0x00000000ff000000 = _).
  rewrite (Hbyte 4%nat _ eq_refl : Z.land v 0x000000ff00000000 = _).
  rewrite (Hbyte 5%nat _ eq_refl : Z.land v 0x0000ff0000000000 = _).
  rewrite (Hbyte 6%nat _ eq_refl : Z.land v 0x00ff000000000000 = _).
  rewrite (Hbyte 7%nat _ eq_refl : Z.land v 0xff00000000000000 = _).
  rewrite !Z.shiftl_shiftl, !Z.shiftr_shiftl_l by lia.
  assert (∀ c k, 0 ≤ k ≤ 56 → wrap 64 (Z.shiftl (u8 c) k) = Z.shiftl (u8 c) k) as Hwrap.
  { intros c k Hk. apply wrap_small. pose proof (u8_range c). rewrite Z.shiftl_mul_pow2 by lia.
    assert (0 < 2 ^ k ≤ 2 ^ 56) by (split; [lia|apply Z.pow_le_mono_r; lia]). unfold is_uint. nia. }
  rewrite !Hwrap by lia. clear Hbyte Hwrap.
  unfold load_be, bs. cbn [rev app load_le].
  repeat match goal with |- context [u8 ?b] =>
    let x := fresh "x" in let H := fresh "Hx" in
    pose proof (u8_range b) as H; set (x := u8 b) in *; clearbody x end.
  match goal with |- context [Z.shiftl ?x (8 * Z.of_nat 0 + 56)] =>
    replace (Z.shiftl x (8 * Z.of_nat 0 + 56)) with (x * 2 ^ 56) by (by rewrite Z.shiftl_mul_pow2) end.
  change (8 * Z.of_nat 1 + 40) with 48. change (8 * Z.of_nat 2 + 24) with 40.
  change (8 * Z.of_nat 3 + 8) with 32. change (8 * Z.of_nat 4 - 8) with 24.
  change (8 * Z.of_nat 5 - 24) with 16. change (8 * Z.of_nat 6 - 40) with 8.
  change (8 * Z.of_nat 7 - 56) with 0.
  rewrite (lor_below _ _ 48), (lor_below _ _ 40), (lor_below _ _ 32), (lor_below _ _ 24),
    (lor_below _ _ 16), (lor_below _ _ 8), (lor_below _ _ 0) by (done || lia).
  lia.
Qed.

Lemma byteswap64_mod v : byteswap64 (v mod 2 ^ 64) = byteswap64 v.
Proof.
  assert (∀ m, 0 ≤ m < 2 ^ 64 → Z.land (v mod 2 ^ 64) m = Z.land v m) as Hm.
  { intros m Hm. rewrite <- Z.land_ones, <- Z.land_assoc, (Z.land_comm (Z.ones 64)), Z.land_ones by lia.
    by rewrite (Z.mod_small m) by lia. }
  unfold byteswap64. by rewrite !Hm by lia.
Qed.

(** On every host, doubles travel in network order. *)
Lemma mem_store_be64 h v : mem_store h 8 (adi_host_to_be64 h v) = store_be 8 v.
Proof.
  destruct h; [|done]. cbn [adi_host_to_be64 mem_store].
  rewrite <- byteswap64_mod. change (2 ^ 64) with (256 ^ Z.of_nat 8). rewrite <- load_store_le.
  rewrite byteswap64_load by apply length_store_le. unfold load_be.
  pose proof (store_load_le (rev (store_le 8 v))) as H. by rewrite length_rev, length_store_le in H.
Qed.

Lemma be64_to_double_load h l : zlen l = 8 → be64_to_double h (mem_load h l) = load_be l.
Proof.
  unfold zlen. intros Hl. destruct h; [|done]. cbn [be64_to_double adi_be64_to_host mem_load].
  apply byteswap64_load. lia.
Qed.

(** ** Whole buffers *)

(** The peer's bytes are there, in whatever pieces. *)
Definition prompt (s : Socket) : Prop := Forall (λ a, ∃ n, a = Available n) (arrivals s).
Definition writable (o : Outlet) : Prop := Forall (λ d, ∃ n, d = Accepts n) (departures o).

(** The client does not shut the connection while it is written to. *)
Definition no_pipe (o : Outlet) : Prop := SendPipe ∉ departures o.

Lemma recv_prompt s n data s' :
  0 < n → prompt s → recv s n = (Got data, s') → prompt s'.
Proof.
  intros Hn Hp E. pose proof (recv_cases s n Hn) as Hr. rewrite E in Hr.
  destruct Hr as (_ & _ & [[H1 H2]|[a H1]]); unfold prompt in *; [by rewrite H2|].
  rewrite H1 in Hp. by inversion Hp.
Qed.

Lemma recv_prompt_got s n :
  0 < n → prompt s → inbox s ≠ [] → ∃ data s', recv s n = (Got data, s').
Proof.
  intros Hn Hp Hin. pose proof (recv_cases s n Hn) as Hr.
  destruct (recv s n) as [[data| | |] s'] eqn:E; [by eauto|done| |].
  - destruct Hr as (_ & a & Ha). unfold recv in E. unfold prompt in Hp. rewrite Ha in *.
    inversion Hp as [|? ? [k ->] ?]; subst. unfold deliver in E. case_bool_decide; simplify_eq.
  - destruct (proj1 (Forall_forall _ _) Hp Broken Hr) as [k [=]].
Qed.

Lemma adi_recv_loop_spec size fuel : ∀ s got,
  zlen got ≤ size → (Z.to_nat (size - zlen got) ≤ fuel)%nat →
  ∃ r s', adi_recv_loop fuel s size got = Ok (r, s') ∧
    (∀ data, r = Some data → zlen data = size ∧ got ++ inbox s = data ++ inbox s' ∧
       (prompt s → prompt s')) ∧
    (prompt s → size - zlen got ≤ zlen (inbox s) → r ≠ None).
Proof.
  induction fuel as [|fuel IH]; intros s got Hgot Hfuel; cbn [adi_recv_loop];
    destruct (Z.ltb_spec (zlen got) size) as [Hlt|Hge]; try lia.
  1, 3: exists (Some got), s; split; [done|]; split; [|done]; intros data [= <-]; split; [lia|done].
  pose proof (recv_cases s (size - zlen got) ltac:(lia)) as Hr.
  pose proof (recv_prompt_got s (size - zlen got) ltac:(lia)) as Hg.
  pose proof (λ d s', recv_prompt s (size - zlen got) d s' ltac:(lia)) as Hp.
  assert (∀ s', prompt s → (∀ data, recv s (size - zlen got) ≠ (Got data, s')) →
    recv s (size - zlen got) = ((recv s (size - zlen got)).1, s') → ¬ size - zlen got ≤ zlen (inbox s)) as Hno.
  { intros s' Hs Hne E Hle. destruct (Hg Hs) as (d & s2 & E2); [|rewrite E2 in E, Hne; naive_solver].
    intros H0. rewrite H0 in Hle. change (zlen []) with 0 in Hle. lia. }
  destruct (recv s (size - zlen got)) as [[data| | |] s1].
  2-4: exists None, s1; split; [done|]; split; [done|]; intros Hs Hle; by destruct (Hno s1).
  destruct Hr as (Hin & Hlen & _). destruct (IH s1 (got ++ data)) as (r & s' & E & Hok & Hall);
    [rewrite zlen_app; lia..|].
  exists r, s'. split; [done|]. split.
  - intros d Hd. destruct (Hok d Hd) as (? & He & ?). rewrite Hin, app_assoc. eauto.
  - intros Hi Hle. apply Hall; [by eapply Hp|]. rewrite Hin in Hle. rewrite zlen_app in *. lia.
Qed.

Lemma adi_read_exact_ok s size :
  0 ≤ size →
  ∃ r s', adi_read_exact s size = Ok (r, s') ∧
    (∀ data, r = Some data → zlen data = size ∧ inbox s = data ++ inbox s' ∧ (prompt s → prompt s')) ∧
    (prompt s → size ≤ zlen (inbox s) → r ≠ None).
Proof.
  intros Hsize. destruct (adi_recv_loop_spec size (Z.to_nat size) s []) as (r & s' & E & Hok & Hall);
    [done|change (zlen []) with 0; lia|].
  exists r, s'. split; [done|]. split; [done|]. change (zlen []) with 0 in Hall.
  by rewrite Z.sub_0_r in Hall.
Qed.

Lemma adi_read_exact_app s data rest :
  prompt s → inbox s = data ++ rest →
  ∃ s', adi_read_exact s (zlen data) = Ok (Some data, s') ∧ inbox s' = rest ∧ prompt s'.
Proof.
  intros Hi Hin. destruct (adi_read_exact_ok s (zlen data) (zlen_nonneg _)) as (r & s' & E & Hok & Hall).
  destruct r as [d|]; [|exfalso; apply Hall; [done| |done]].
  - destruct (Hok d eq_refl) as (Hlen & He & Hint). rewrite Hin in He.
    apply app_inj_1 in He as [-> ->]; [|unfold zlen in Hlen; lia]. exists s'. by auto.
  - rewrite Hin, zlen_app. pose proof (zlen_nonneg rest). lia.
Qed.

(** A write appends a prefix of the data: all of it when it succeeds, and it
    succeeds when the connection takes data. *)
Definition write_spec (o : Outlet) (data : bytes) (r : result (sending * Outlet)) : Prop :=
  ∃ ok o' k, r = Ok (ok, o') ∧ sent o' = sent o ++ firstn k data ∧
    (ok = Complete → sent o' = sent o ++ data) ∧ (writable o → ok = Complete ∧ writable o') ∧
    (no_pipe o → ok ≠ Killed ∧ no_pipe o').

Lemma write_nothing o data e :
  e ≠ Complete → ¬ writable o → (no_pipe o → e ≠ Killed) →
  ∀ o', sent o' = sent o → (no_pipe o → no_pipe o') → write_spec o data (Ok (e, o')).
Proof.
  intros He Hw Hp o' Hs Hp'. exists e, o', 0%nat. rewrite firstn_O, app_nil_r. split; [done|]. split; [done|].
  split; [by intros|]. split; [by intros|auto].
Qed.

Lemma adi_send_loop_spec fuel : ∀ o data,
  (length data ≤ fuel)%nat → write_spec o data (adi_send_loop fuel o data).
Proof.
  induction fuel as [|fuel IH]; intros o data Hfuel; cbn [adi_send_loop];
    destruct (Z.ltb_spec 0 (zlen data)) as [Hlt|Hge]; unfold zlen in *; try lia.
  1, 3: destruct data; [|cbn in Hge; lia]; exists Complete, o, 0%nat; cbn [firstn];
    rewrite app_nil_r; split_and!; auto.
  pose proof (send_cases o data ltac:(unfold zlen; lia)) as Hs.
  destruct (send o data) as [[n| | |] o1] eqn:E.
  - destruct Hs as (Hn & Hsent & Hdep & _). unfold zlen in Hn.
    destruct (IH o1 (skipn (Z.to_nat n) data)) as (ok & o' & k & E' & Hs & Hall & Hok & Hp).
    { rewrite length_skipn. lia. }
    exists ok, o', (Z.to_nat n + k)%nat. split; [done|]. rewrite Hsent, <- app_assoc in *.
    rewrite <- take_take_drop. split; [done|]. split; [intros Ht; by rewrite (Hall Ht), firstn_skipn|]. split.
    + intros Hw. apply Hok. unfold writable in *. destruct Hdep as [[_ H2]|[a H1]]; [by rewrite H2|].
      rewrite H1 in Hw. by inversion Hw.
    + intros Hw. apply Hp. unfold no_pipe in *. destruct Hdep as [[_ H2]|[a H1]]; [rewrite H2; set_solver|].
      rewrite H1 in Hw. set_solver.
  - destruct Hs as (Hsent & [a Ha] & _). apply write_nothing; [done| |done|done|].
    + unfold writable, send in *. rewrite Ha in *. intros Hw. by inversion Hw as [|? ? [k ->] ?]; subst.
    + unfold no_pipe. rewrite Ha. set_solver.
  - destruct Hs as (Hsent & Hacc & a & Ha). apply write_nothing; [done| |done|done|].
    + unfold writable, send in *. rewrite Ha in *. intros Hw. by inversion Hw as [|? ? [k ->] ?]; subst.
    + unfold no_pipe. rewrite Ha. set_solver.
  - destruct Hs as (Hsent & Hacc & Hin). apply write_nothing; [done| |by intros []|done|by intros []].
    intros Hw. destruct (proj1 (Forall_forall _ _) Hw _ Hin) as [k [=]].
Qed.

Lemma adi_write_exact_ok o data : write_spec o data (adi_write_exact o data).
Proof. by apply adi_send_loop_spec. Qed.

(** ** Packets on the wire *)

(** A request: its length in bytes, then its doubles. *)
Definition request_frame (request : list Z) : bytes := store_be 4 EXPECTED_LENGTH ++ be64s request.

Definition is_request (request : list Z) : Prop :=
  zlen request = PAYLOAD_DOUBLES ∧ Forall (is_uint 64) request.

Lemma zlen_request_frame request : is_request request → zlen (request_frame request) = 44.
Proof.
  intros [Hl _]. unfold request_frame. by rewrite zlen_app, zlen_store_be, zlen_be64s, Hl.
Qed.

(** The documented packet: 13 bytes of header, then the doubles. *)
Definition packet (timestamp_ns sequence : Z) (packet_type : PacketType) (payload : list Z) : bytes :=
  store_be 8 timestamp_ns ++ store_be 4 sequence ++ store_be 1 (PacketType_u8 packet_type) ++ be64s payload.

Section Wire.
Context (h : endian) (nan : Z → Z → Z).

Lemma read_request_cases s :
  match read_request h s with
  | Ok (Some request, s') => is_request request ∧ inbox s = request_frame request ++ inbox s' ∧
      (prompt s → prompt s')
  | Ok (None, _) => prompt s → zlen (inbox s) < 44
  | Err _ => True
  | _ => False
  end.
Proof.
  unfold read_request. destruct (adi_read_exact_ok s 4) as (r & s1 & -> & Hok & Hall); [done|].
  rewrite rbind_ret. destruct r as [len|]; cycle 1.
  { intros Hp. destruct (Z.lt_ge_cases (zlen (inbox s)) 4); [lia|]. by destruct (Hall Hp). }
  destruct (Hok len eq_refl) as (Hlen & Hin & Hp1). cbv zeta. unfold ntohl. rewrite hton_mem_load_z by done.
  destruct (negb _) eqn:Hl; [done|]. apply negb_false_iff, Z.eqb_eq in Hl. cbn [reject_if]. rewrite rbind_ret.
  destruct (adi_read_exact_ok s1 PAYLOAD_BYTES) as (r & s2 & -> & Hok2 & Hall2); [done|]. rewrite rbind_ret.
  destruct r as [words|]; cycle 1.
  { intros Hp. rewrite Hin, zlen_app, Hlen.
    destruct (Z.lt_ge_cases (zlen (inbox s1)) 40); [lia|]. by destruct (Hall2 (Hp1 Hp)). }
  destruct (Hok2 words eq_refl) as (Hlen2 & Hin2 & Hp2).
  change PAYLOAD_BYTES with 40 in Hlen2. change (Z.to_nat PAYLOAD_DOUBLES) with 5%nat.
  destruct (be64s_words 5 words) as (Hw & Hu & Hk); [unfold zlen in Hlen2; lia|].
  assert (((λ i, be64_to_double h (mem_load h (slice words (Z.of_nat i * 8) 8))) <$> seq 0 5) =
    ((λ i, load_be (slice words (Z.of_nat i * 8) 8)) <$> seq 0 5)) as ->.
  { apply list_fmap_ext. intros j i Hi. apply lookup_seq in Hi as [-> Hi]. apply be64_to_double_load.
    unfold zlen, slice in *. rewrite length_firstn, length_skipn. lia. }
  split; [by split|]. split; [|by auto]. unfold request_frame.
  rewrite Hin, Hin2, (load_be_eq 4 len _ Hlen Hl), Hw. by rewrite app_assoc.
Qed.

(** Bytes that are there are read. *)
Lemma read_request_app s request rest :
  prompt s → is_request request → inbox s = request_frame request ++ rest →
  ∃ s', read_request h s = Ok (Some request, s') ∧ inbox s' = rest ∧ prompt s'.
Proof.
  intros Hp Hr Hin. pose proof (read_request_cases s) as Hc.
  pose proof (zlen_request_frame _ Hr) as Hl. pose proof (zlen_nonneg rest).
  destruct (adi_read_exact_app s (store_be 4 EXPECTED_LENGTH) (be64s request ++ rest) Hp)
    as (s1 & E1 & Hin1 & Hp1); [by rewrite Hin; unfold request_frame; rewrite <- app_assoc|].
  destruct (adi_read_exact_app s1 _ _ Hp1 Hin1) as (s2 & E2 & Hin2 & Hp2).
  destruct Hr as [Hlen Hu]. rewrite zlen_store_be in E1. rewrite zlen_be64s, Hlen in E2.
  change (Z.of_nat 4) with 4 in E1. change (8 * PAYLOAD_DOUBLES) with PAYLOAD_BYTES in E2.
  assert (∃ req', read_request h s = Ok (Some req', s2)) as [req' E].
  { eexists. unfold read_request. rewrite E1, rbind_ret. cbv zeta. unfold ntohl.
    rewrite hton_mem_load_z, load_store_be_uint by done. change (negb (EXPECTED_LENGTH =? EXPECTED_LENGTH)) with false.
    cbn [reject_if]. rewrite rbind_ret, E2, rbind_ret. done. }
  rewrite E in Hc. destruct Hc as ([Hlen' Hu'] & He & _). exists s2. split; [|done].
  rewrite E. do 3 f_equal. rewrite Hin, Hin2 in He. unfold request_frame in He.
  rewrite <- !app_assoc in He. apply app_inv_head in He.
  apply app_inj_1 in He as [He _]; [by apply be64s_inj|].
  pose proof (zlen_be64s request). pose proof (zlen_be64s req'). unfold zlen in *. lia.
Qed.

(** A part of a buffer is a part of a longer one. *)
Lemma take_of_app {A} k (a b : list A) : ∃ k', firstn k a = firstn k' (a ++ b).
Proof.
  exists (min k (length a)). rewrite take_app_le by lia. destruct (Nat.le_ge_cases k (length a)).
  - by rewrite Nat.min_l.
  - by rewrite Nat.min_r, firstn_all, firstn_all2 by lia.
Qed.

(** A packet goes out whole, in part, or not at all. *)
Lemma send_packet_ok o timestamp_ns sequence packet_type payload :
  ∃ ok o' k, send_packet h o timestamp_ns sequence packet_type payload = Ok (ok, o') ∧
    sent o' = sent o ++ firstn k (packet timestamp_ns sequence packet_type payload) ∧
    (ok = Complete → zlen payload = PAYLOAD_DOUBLES ∧
       sent o' = sent o ++ packet timestamp_ns sequence packet_type payload) ∧
    (writable o → zlen payload = PAYLOAD_DOUBLES → ok = Complete ∧ writable o') ∧
    (no_pipe o → ok ≠ Killed ∧ no_pipe o').
Proof.
  unfold send_packet. destruct (negb _) eqn:E.
  { apply negb_true_iff, Z.eqb_neq in E. exists Incomplete, o, 0%nat. rewrite firstn_O, app_nil_r. split_and!; done. }
  apply negb_false_iff, Z.eqb_eq in E. cbv zeta.
  assert (concat ((λ v, mem_store h 8 (double_to_be64 h v)) <$> payload) = be64s payload) as ->.
  { unfold be64s. f_equal. apply list_fmap_ext. intros _ v _. apply mem_store_be64. }
  rewrite mem_store_be64, mem_store_1. unfold htonl. rewrite mem_store_hton.
  set (header := store_be 8 timestamp_ns ++ store_be 4 sequence ++ store_be 1 (PacketType_u8 packet_type)).
  assert (packet timestamp_ns sequence packet_type payload = header ++ be64s payload) as ->
    by (unfold packet, header; by rewrite <- !app_assoc).
  destruct (adi_write_exact_ok o header) as (ok & o1 & k & -> & Hpre & Hs & Ha & Hp). rewrite rbind_ret.
  assert (ok ≠ Complete → ∃ k', sent o1 = sent o ++ firstn k' (header ++ be64s payload) ∧
    ¬ writable o) as Hpart.
  { intros Hok. destruct (take_of_app k header (be64s payload)) as [k' Hk]. exists k'. rewrite Hpre, Hk.
    split; [done|]. intros Hw. by destruct (Ha Hw). }
  destruct ok; [|destruct (Hpart ltac:(done)) as (k' & Hk & Hw); eexists _, o1, k'; by split_and!..].
  destruct (adi_write_exact_ok o1 (be64s payload)) as (ok & o2 & k2 & -> & Hpre2 & Hs2 & Ha2 & Hp2).
  exists ok, o2, (length header + k2)%nat. split; [done|].
  split; [by rewrite Hpre2, (Hs eq_refl), <- app_assoc, take_app_add|]. split; [|split].
  - intros Hok. split; [done|]. by rewrite (Hs2 Hok), (Hs eq_refl), <- app_assoc.
  - intros Hw _. by apply Ha2, Ha.
  - intros Hw. by apply Hp2, Hp.
Qed.

Lemma delta_loop_zip current : ∀ previous,
  (length current ≤ length previous)%nat → delta_loop nan current previous = Ok (zip_with (fsub nan) current previous).
Proof.
  induction current as [|c current IH]; intros [|p previous] Hl; cbn [length] in Hl; [done|done|lia|].
  cbn [delta_loop]. by rewrite IH, rbind_ret by lia.
Qed.

End Wire.

(** ** What a session writes *)

Section Transcript.
Context (nan : Z → Z → Z) (clocks : nat → PacketType → Z).

(** The packets of exchange [n], after an exchange with result [previous]. *)
Definition exchange (n : nat) (previous : option (list Z)) (current : list Z) : bytes :=
  let sequence := wrap 32 (Z.of_nat n) in
  packet (clocks n Primary) sequence Primary current ++
  match previous with
  | None => []
  | Some previous => packet (clocks n Delta) sequence Delta (zip_with (fsub nan) current previous)
  end.

(** The exchanges from number [n] on, with these results. *)
Fixpoint transcript (n : nat) (previous : option (list Z)) (results : list (list Z)) : bytes :=
  match results with
  | [] => []
  | current :: results => exchange n previous current ++ transcript (S n) (Some current) results
  end.

(** The session's variables before exchange [n]. *)
Definition remembers (st : AdiSession) (n : nat) (previous : option (list Z)) : Prop :=
  sequence_id st = wrap 32 (Z.of_nat n) ∧
  match previous with
  | None => first_exchange st = true
  | Some previous => first_exchange st = false ∧ previous_payload st = previous ∧
      zlen previous = PAYLOAD_DOUBLES
  end.

Lemma respond_ok h o st n previous current :
  remembers st n previous →
  ∃ ok o' st' k, respond h nan (clocks n) o st current = Ok (ok, o', st') ∧
    sent o' = sent o ++ firstn k (exchange n previous current) ∧
    (ok = Complete → zlen current = PAYLOAD_DOUBLES ∧ sent o' = sent o ++ exchange n previous current ∧
       remembers st' (S n) (Some current)) ∧
    (writable o → zlen current = PAYLOAD_DOUBLES → ok = Complete ∧ writable o') ∧
    (no_pipe o → ok ≠ Killed ∧ no_pipe o').
Proof.
  intros [Hseq Hprev]. unfold respond, exchange. cbv zeta. rewrite Hseq.
  set (p1 := packet (clocks n Primary) (wrap 32 (Z.of_nat n)) Primary current).
  destruct (send_packet_ok h o (clocks n Primary) (wrap 32 (Z.of_nat n)) Primary current)
    as (ok & o1 & k & -> & Hpre & Hs & Ha & Hp). fold p1 in Hpre, Hs. rewrite rbind_ret.
  assert (ok ≠ Complete → ∀ b, ∃ k', sent o1 = sent o ++ firstn k' (p1 ++ b) ∧
    (writable o → zlen current ≠ PAYLOAD_DOUBLES)) as Hpart.
  { intros Hok b. destruct (take_of_app k p1 b) as [k' Hk]. exists k'. rewrite Hpre, Hk.
    split; [done|]. intros Hw Hl. by destruct (Ha Hw Hl). }
  destruct ok; [|edestruct (Hpart ltac:(done)) as (k' & Hk & Hw); eexists _, o1, st, k'; split; [done|];
    split; [exact Hk|]; split; [done|]; split; [by intros ? ?%Hw|done]..].
  destruct (Hs eq_refl) as [Hl Hs1].
  assert (remembers (mkAdiSession current false (wrap 32 (wrap 32 (Z.of_nat n) + 1))) (S n) (Some current)) as Hrem.
  { split; [|done]. cbn [sequence_id]. unfold wrap. rewrite Zplus_mod_idemp_l. f_equal. lia. }
  destruct previous as [previous|].
  - destruct Hprev as (Hfirst & Hpay & Hlp). rewrite Hfirst, Hpay.
    rewrite delta_loop_zip, rbind_ret by (unfold zlen in *; lia).
    set (delta := zip_with (fsub nan) current previous).
    assert (zlen delta = PAYLOAD_DOUBLES) as Hld.
    { unfold delta, zlen in *. rewrite length_zip_with. lia. }
    destruct (send_packet_ok h o1 (clocks n Delta) (wrap 32 (Z.of_nat n)) Delta delta)
      as (ok & o2 & k2 & -> & Hpre2 & Hs2 & Ha2 & Hp2). rewrite rbind_ret.
    eexists ok, o2, (match ok with Complete => _ | _ => st end), (length p1 + k2)%nat. split; [by destruct ok|].
    split; [by rewrite Hpre2, Hs1, <- app_assoc, take_app_add|]. split; [|split].
    + intros ->. destruct (Hs2 eq_refl) as [_ ->]. by rewrite Hs1, <- app_assoc.
    + intros Hw _. by apply Ha2; [apply Ha|].
    + intros Hw. by apply Hp2, Hp.
  - rewrite Hprev, rbind_ret. eexists Complete, o1, _, (length p1).
    rewrite app_nil_r, firstn_all. split; [done|]. split; [done|]. split; [done|]. split; [intros; by apply Ha|done].
Qed.

End Transcript.

(** ** Sessions *)

Section Sessions.
Context (h : endian) (nan : Z → Z → Z) (compute_fn : list Z → Z → result (list Z)).
Context (rounds : nat → Round) (client_id : Z).

(** Other sessions use the placer through its operations. *)
Hypothesis others_ok : ∀ n p, wf_placer p →
  wf_placer (others (rounds n) p) ∧ topo (others (rounds n) p) = topo p.





(** On a connection that delivers and takes data, every request is answered. *)
Lemma adi_rounds_complete f : ∀ requests fuel n p s o st previous,
  (∀ n, running (rounds n) = true ∧ served (rounds n) = true) →
  Forall (λ request, is_request request ∧ zlen (f request) = PAYLOAD_DOUBLES ∧
    ∀ gpu, in_range (num_gpus (topo p)) gpu → compute_fn request gpu = Ok (f request)) requests →
  prompt s → writable o → inbox s = concat (request_frame <$> requests) →
  (length requests < fuel)%nat → wf_placer p → remembers st n previous →
  ∃ p' o', adi_rounds h nan compute_fn rounds client_id fuel n p s o st = Ok (Returns, p', o') ∧
    sent o' = sent o ++ transcript nan (λ n, clock (rounds n)) n previous (f <$> requests).
Proof.
  intros requests fuel n p s o st previous Hrun. revert fuel n p s o st previous.
  induction requests as [|request requests IH]; intros [|fuel] n p s o st previous Hf Hi Ho Hin Hfuel Hp Hst;
    cbn [length] in Hfuel; try lia; cbn [adi_rounds]; destruct (Hrun n) as [-> ->]; cbn [negb].
  - pose proof (read_request_cases h s) as Hr. exists p, o. rewrite app_nil_r. split; [|done].
    destruct (read_request h s) as [[[request|] s1]| | |]; try done.
    destruct Hr as (Hreq & Hs & _). pose proof (zlen_request_frame _ Hreq). exfalso.
    rewrite Hin in Hs. apply (f_equal zlen) in Hs. rewrite zlen_app in Hs.
    pose proof (zlen_nonneg (inbox s1)). change (zlen (concat (request_frame <$> []))) with 0 in Hs. lia.
  - inversion Hf as [|? ? (Hreq & Hlf & Hcomp) Hf']; subst.
    rewrite fmap_cons in Hin. cbn [concat] in Hin.
    destruct (read_request_app h s request _ Hi Hreq Hin) as (s1 & -> & Hin1 & Hi1).
    destruct (others_ok n p Hp) as [Hop Hot].
    destruct (place_safe _ client_id (depths (rounds n)) Hop) as (gpu & p1 & -> & Hgpu & Hp1 & Ht1 & _).
    rewrite Hot in Ht1, Hgpu. rewrite rbind_ret, (Hcomp gpu Hgpu).
    destruct (respond_ok nan (λ n, clock (rounds n)) h o st n previous (f request) Hst)
      as (ok & o1 & st1 & k & -> & _ & Hs & Hw & _). rewrite rbind_ret.
    destruct (Hw Ho Hlf) as [-> Ho1]. destruct (Hs eq_refl) as (_ & Hs1 & Hst1).
    destruct (IH fuel (S n) p1 s1 o1 st1 (Some (f request))) as (p2 & o2 & -> & Hs2); try done; [|lia|].
    { by rewrite Ht1. }
    exists p2, o2. split; [done|]. rewrite Hs2, Hs1, fmap_cons. cbn [transcript]. by rewrite <- app_assoc.
Qed.

Lemma requests_length requests :
  Forall is_request requests → (length requests ≤ length (concat (request_frame <$> requests)))%nat.
Proof.
  induction 1 as [|request requests Hr _ IH]; [done|]. rewrite fmap_cons. cbn [concat length].
  rewrite length_app. pose proof (zlen_request_frame _ Hr). unfold zlen in *. lia.
Qed.

Lemma assign_home_ok p :
  wf_placer p → ∃ home p', assign_home p client_id = Ok (home, p') ∧ wf_placer p' ∧ topo p' = topo p.
Proof.
  intros Hp. destruct (next_gpu_spec p Hp) as (p' & E & Hwf & Ht & _ & _ & _ & Hin).
  unfold assign_home. rewrite E, rbind_ret. eexists _, _. split; [done|].
  split; [apply set_home_wf; [done|by rewrite Ht]|exact Ht].
Qed.




(** C21: An ADI client that sends requests of five doubles over a connection that
    delivers and takes data, in whatever pieces, gets every answer in order
    while the server runs and its workers get to the session's tasks:
    for each request a primary packet with the result, and from the second on
    a delta packet with the differences to the previous result, both stamped
    with the number of the exchange. *)
Theorem adi_session_output f requests p s o :
  wf_placer p → (∀ n, running (rounds n) = true ∧ served (rounds n) = true) →
  Forall (λ request, is_request request ∧ zlen (f request) = PAYLOAD_DOUBLES ∧
    ∀ gpu, in_range (num_gpus (topo p)) gpu → compute_fn request gpu = Ok (f request)) requests →
  prompt s → writable o → inbox s = concat (request_frame <$> requests) →
  ∃ p' o', session_loop h nan compute_fn rounds client_id p s o = Ok (Returns, p', o') ∧
    sent o' = sent o ++ transcript nan (λ n, clock (rounds n)) 0 None (f <$> requests).
Proof.
  intros Hp Hrun Hf Hi Ho Hin. unfold session_loop.
  destruct (assign_home_ok p Hp) as (home & p1 & -> & Hp1 & Ht1). rewrite rbind_ret.
  destruct (adi_rounds_complete f requests (S (length (inbox s))) 0 p1 s o (mkAdiSession [] true 0) None)
    as (p2 & o2 & -> & Hs); try done; [by rewrite Ht1| |].
  { rewrite Hin. apply Nat.lt_succ_r. apply (requests_length requests).
    eapply Forall_impl; [exact Hf|]. by intros ? (? & _). }
  rewrite rbind_ret. by eexists _, o2.
Qed.

End Sessions.

(** ** Sample sessions *)

Definition sample_nan (a b : Z) : Z := 0x7ff8000000000000.
Definition sample_compute (input : list Z) (gpu : Z) : result (list Z) := Ok (scale sample_nan two input).
Definition sample_rounds (n : nat) : Round :=
  mkRound (λ t, 1000 * Z.of_nat n + PacketType_u8 t) (λ _ _, 0) (λ p, p) true true.

Definition ones : list Z := replicate 5 0x3ff0000000000000.
Definition twos : list Z := replicate 5 two.
Definition fours : list Z := replicate 5 0x4010000000000000.

(** Two requests, delivered in pieces, and an outlet that takes small writes. *)
Definition sample_inlet : Socket :=
  mkSocket (concat (request_frame <$> [ones; twos])) [Available 3; Available 7; Available 1; Available 60].
Definition sample_outlet : Outlet := mkOutlet [] [Accepts 5; Accepts 100; Accepts 1].

Lemma sample_others n p :
  wf_placer p → wf_placer (others (sample_rounds n) p) ∧ topo (others (sample_rounds n) p) = topo p.
Proof. by intros Hp. Qed.


Lemma adi_session_output_witness :
  ∃ p' o', session_loop LittleEndian sample_nan sample_compute sample_rounds 3 sample_placer
             sample_inlet sample_outlet = Ok (Returns, p', o') ∧
    sent o' = packet 0 0 Primary twos ++ packet 1000 1 Primary fours ++ packet 1001 1 Delta twos.
Proof.
  destruct (adi_session_output LittleEndian sample_nan sample_compute sample_rounds 3 sample_others
    (scale sample_nan two) [ones; twos] sample_placer sample_inlet sample_outlet)
    as (p' & o' & E & Hs).
  - apply sample_placer_wf.
  - done.
  - repeat constructor; done.
  - repeat constructor; by eexists.
  - repeat constructor; by eexists.
  - done.
  - exists p', o'. split; [exact E|]. rewrite Hs. vm_compute. reflexivity.
Defined.

(** The exceptional ends: a worker that has returned, and a client that is
    gone. *)
Example adi_exceptional_ends :
  let ends rounds o := match session_loop LittleEndian sample_nan sample_compute rounds 3 sample_placer sample_inlet o with
                       | Ok (e, _, _) => Some e | _ => None end in
  ends (λ n, mkRound (λ _, 0) (λ _ _, 0) (λ p, p) true (bool_decide (n = 0%nat))) sample_outlet = Some Waits ∧
  ends sample_rounds (mkOutlet [] [Accepts 5; SendPipe]) = Some Dies ∧
  ends sample_rounds (mkOutlet [] [Accepts 5; SendBroken]) = Some Returns.
Proof. by vm_compute. Qed.
