(* ===== verification/AdiWorkers.v ===== *)
(** * The ADI server's threads (src/adi_server.cpp)

    Every GPU has a queue under a mutex and a worker thread
    ([gpu_worker_loop]); sessions read requests, push tasks and wait for their
    promises ([session_loop]); the thread in [run] accepts clients and, at the
    end, joins everything ([accept_loop], [join_all]); [stop] clears
    [running_], closes the listener, shuts the clients' sockets and sets every
    queue's [stopping] flag.  [server_step] interleaves the critical sections
    of the server's own threads; [peer_step] is what clients and the callers
    of [stop] do.  What a session reads, and the device [place] chooses for
    it, are left open: AdiSession.v has them. *)

From S2P Require Import Prelude.

(** ** State *)

(** [task_id] tells tasks apart, as the addresses of the shared tasks do. *)
Record GpuTask := mkTask {
  task_id : nat;
  input_data : list Z;
  target_gpu : nat;
}.

(** [working] is the task the worker thread has taken; [exited] its return.
    [late] records the tasks queued after that. *)
Record WorkerState := mkWorker {
  queue : list GpuTask;
  stopping : bool;
  working : option GpuTask;
  exited : bool;
  late : list GpuTask;
}.

(** A session before its test of [running_], in [read_exact], with a request,
    in [result_future.get()], in [send_packet], and past its end. *)
Inductive session_phase :=
  AtCheck | Reading | Placing (request : list Z) | Waiting (task : GpuTask) | Writing | Over.

(** [shut] is what [stop] did to its socket. *)
Record Session := mkSession { phase : session_phase; shut : bool }.

(** The thread in [run]: before the loop's test, in [accept], with a socket,
    in the handler of an exception, in the handler's [stop], and in
    [join_all]: flagging the workers, joining the sessions and the workers. *)
Inductive accept_phase :=
  AtTop | InAccept | Accepted | Catch | Catching | Joining (gpu : nat) | JoinSessions | JoinWorkers | Returned.

(** How far the call of [stop] is that cleared [running_]. *)
Inductive stop_phase := NotStopped | CloseListener | ShutClients | Flagging (gpu : nat) | StopDone.

(** [promises] are the results set so far, [pushed] the tasks queued so far, in
    order. *)
Record AdiState := mkAdi {
  running : bool;
  workers : list WorkerState;
  sessions : list Session;
  promises : list (GpuTask * result (list Z));
  pushed : list GpuTask;
  acceptor : accept_phase;
  listener_open : bool;
  stopper : stop_phase;
}.

(** The constructor, [start_workers] and [open_listener]. *)
Definition start_workers (gpus : nat) : AdiState :=
  mkAdi true (replicate gpus (mkWorker [] false None false [])) [] [] [] AtTop true NotStopped.

Section Updates.
Context (s : AdiState).
Definition set_worker (gpu : nat) (w : WorkerState) : AdiState :=
  mkAdi (running s) (<[gpu := w]> (workers s)) (sessions s) (promises s) (pushed s) (acceptor s) (listener_open s) (stopper s).
Definition set_sessions (l : list Session) : AdiState :=
  mkAdi (running s) (workers s) l (promises s) (pushed s) (acceptor s) (listener_open s) (stopper s).
Definition set_promise (p : GpuTask * result (list Z)) : AdiState :=
  mkAdi (running s) (workers s) (sessions s) (promises s ++ [p]) (pushed s) (acceptor s) (listener_open s) (stopper s).
Definition note_pushed (task : GpuTask) : AdiState :=
  mkAdi (running s) (workers s) (sessions s) (promises s) (pushed s ++ [task]) (acceptor s) (listener_open s) (stopper s).
Definition set_acceptor (a : accept_phase) : AdiState :=
  mkAdi (running s) (workers s) (sessions s) (promises s) (pushed s) a (listener_open s) (stopper s).
Definition close_listener : AdiState :=
  mkAdi (running s) (workers s) (sessions s) (promises s) (pushed s) (acceptor s) false (stopper s).
Definition set_stopper (p : stop_phase) : AdiState :=
  mkAdi (running s) (workers s) (sessions s) (promises s) (pushed s) (acceptor s) (listener_open s) p.
(** The exchange of [running_] in [stop] by the call that goes on. *)
Definition begin_stop : AdiState :=
  mkAdi false (workers s) (sessions s) (promises s) (pushed s) (acceptor s) (listener_open s) CloseListener.
End Updates.

Definition set_phase (s : AdiState) (i : nat) (x : Session) (ph : session_phase) : AdiState :=
  set_sessions s (<[i := mkSession ph (shut x)]> (sessions s)).

(** ** Operations *)

(** [state.queue.push_back(task)]. *)
Definition push_back (w : WorkerState) (task : GpuTask) : WorkerState :=
  mkWorker (queue w ++ [task]) (stopping w) (working w) (exited w) (if exited w then late w ++ [task] else late w).

(** The worker's critical section, once its wait is over; [None] while it
    waits. *)
Definition worker_wake (w : WorkerState) : option WorkerState :=
  if exited w then None
  else if bool_decide (is_Some (working w)) then None
  else if negb (stopping w || negb (bool_decide (queue w = []))) then None
  else
    match queue w with
    | [] => Some (mkWorker [] (stopping w) None true (late w))
    | task :: rest => Some (mkWorker rest (stopping w) (Some task) false (late w))
    end.

(** [state->stopping = true]. *)
Definition set_stopping (w : WorkerState) : WorkerState :=
  mkWorker (queue w) true (working w) (exited w) (late w).

(** The next client's identifier: the counter starts at 1 and counts sessions;
    [None] is the exception for an exhausted identifier space. *)
Definition accept_client (sessions_so_far : Z) : option Z :=
  let raw_client_id := 1 + sessions_so_far in
  if 2 ^ 31 - 1 <? raw_client_id then None else Some raw_client_id.

(** [shutdown_socket] of every socket in [client_sockets_]; a session that is
    over has left the table. *)
Definition shut_clients (l : list Session) : list Session := (λ x, mkSession (phase x) true) <$> l.

(** A session goes on to write a result of five doubles; an exception of the
    computation or of [send_packet] ends it. *)
Definition after_get (answer : result (list Z)) : session_phase :=
  match answer with Ok l => if zlen l =? 5 then Writing else Over | _ => Over end.

Section Steps.
Context (compute_fn : list Z → nat → result (list Z)).

(** [set_value(compute_fn_(task->input_data, gpu_idx))], or [set_exception]. *)
Definition compute (task : GpuTask) (gpu_idx : nat) : GpuTask * result (list Z) :=
  (task, compute_fn (input_data task) gpu_idx).

(** A step of the worker thread of a GPU. *)
Inductive worker_step (gpu_idx : nat) (s : AdiState) : AdiState → Prop :=
| step_wake w w' :
    workers s !! gpu_idx = Some w → worker_wake w = Some w' →
    worker_step gpu_idx s (set_worker s gpu_idx w')
| step_compute q st l task :
    workers s !! gpu_idx = Some (mkWorker q st (Some task) false l) →
    worker_step gpu_idx s (set_promise (set_worker s gpu_idx (mkWorker q st None false l)) (compute task gpu_idx)).

(** A step of a session's thread.  [recv] and [send] on a socket that is shut
    return. *)
Inductive session_step (s : AdiState) (i : nat) (x : Session) : AdiState → Prop :=
| step_check :
    phase x = AtCheck → session_step s i x (set_phase s i x (if running s then Reading else Over))
| step_shut :
    phase x = Reading ∨ phase x = Writing → shut x = true → session_step s i x (set_phase s i x Over)
| step_push gpu w request :
    phase x = Placing request → workers s !! gpu = Some w →
    let task := mkTask (length (pushed s)) request gpu in
    session_step s i x (note_pushed (set_worker (set_phase s i x (Waiting task)) gpu (push_back w task)) task)
| step_get task answer :
    phase x = Waiting task → (task, answer) ∈ promises s →
    session_step s i x (set_phase s i x (after_get answer)).

(** A step of the thread in [run]. *)
Inductive accept_step (s : AdiState) : AdiState → Prop :=
| step_top :
    acceptor s = AtTop →
    accept_step s (if running s then set_acceptor s InAccept else set_acceptor (close_listener s) (Joining 0))
| step_accept_closed :
    acceptor s = InAccept → listener_open s = false →
    accept_step s (set_acceptor s (if running s then Catch else Joining 0))
| step_register client_id :
    acceptor s = Accepted → accept_client (zlen (sessions s)) = Some client_id →
    accept_step s (set_acceptor (set_sessions s (sessions s ++ [mkSession AtCheck false])) AtTop)
| step_exhausted :
    acceptor s = Accepted → accept_client (zlen (sessions s)) = None → accept_step s (set_acceptor s Catch)
| step_catch :
    acceptor s = Catch →
    accept_step s (if running s then set_acceptor (begin_stop s) Catching
                   else set_acceptor (close_listener s) (Joining 0))
| step_caught :
    acceptor s = Catching → stopper s = StopDone → accept_step s (set_acceptor s (Joining 0))
| step_join_flag gpu w :
    acceptor s = Joining gpu → workers s !! gpu = Some w →
    accept_step s (set_acceptor (set_worker s gpu (set_stopping w)) (Joining (S gpu)))
| step_join_flagged gpu :
    acceptor s = Joining gpu → workers s !! gpu = None → accept_step s (set_acceptor s JoinSessions)
| step_join_sessions :
    acceptor s = JoinSessions → Forall (λ x, phase x = Over) (sessions s) →
    accept_step s (set_acceptor s JoinWorkers)
| step_join_workers :
    acceptor s = JoinWorkers → Forall (λ w, exited w = true) (workers s) →
    accept_step s (set_acceptor s Returned).

(** A step of the call of [stop] that cleared [running_]. *)
Inductive stop_step (s : AdiState) : AdiState → Prop :=
| step_stop_listener :
    stopper s = CloseListener → stop_step s (set_stopper (close_listener s) ShutClients)
| step_stop_clients :
    stopper s = ShutClients →
    stop_step s (set_stopper (set_sessions s (shut_clients (sessions s))) (Flagging 0))
| step_stop_worker gpu w :
    stopper s = Flagging gpu → workers s !! gpu = Some w →
    stop_step s (set_stopper (set_worker s gpu (set_stopping w)) (Flagging (S gpu)))
| step_stop_done gpu :
    stopper s = Flagging gpu → workers s !! gpu = None → stop_step s (set_stopper s StopDone).

Inductive server_step (s : AdiState) : AdiState → Prop :=
| server_worker gpu_idx s' : worker_step gpu_idx s s' → server_step s s'
| server_session i x s' : sessions s !! i = Some x → session_step s i x s' → server_step s s'
| server_accept s' : accept_step s s' → server_step s s'
| server_stop s' : stop_step s s' → server_step s s'.

(** What the server waits for: clients that connect, send a request, take an
    answer or go (or send a wrong length), an accept that is interrupted or
    fails, and a call of [stop]. *)
Inductive peer_step (s : AdiState) : AdiState → Prop :=
| peer_connect : acceptor s = InAccept → listener_open s = true → peer_step s (set_acceptor s Accepted)
| peer_interrupt : acceptor s = InAccept → running s = true → peer_step s (set_acceptor s AtTop)
| peer_accept_fails :
    acceptor s = InAccept →
    peer_step s (if running s then set_acceptor s Catch else set_acceptor (close_listener s) (Joining 0))
| peer_request i x request :
    sessions s !! i = Some x → phase x = Reading → peer_step s (set_phase s i x (Placing request))
| peer_takes i x :
    sessions s !! i = Some x → phase x = Writing → peer_step s (set_phase s i x AtCheck)
| peer_gone i x :
    sessions s !! i = Some x → phase x = Reading ∨ phase x = Writing → peer_step s (set_phase s i x Over)
| peer_stop : running s = true → peer_step s (begin_stop s).

Inductive adi_step (s s' : AdiState) : Prop :=
| adi_server : server_step s s' → adi_step s s'
| adi_peer : peer_step s s' → adi_step s s'.

(** ** The invariant *)

(** What a worker still has to do. *)
Definition pending (w : WorkerState) : list GpuTask := option_list (working w) ++ queue w.

(** A worker has computed its tasks in order: the ones whose promises are set,
    then what is pending; it stops only when the server does, and returns only
    with an empty queue. *)
Definition worker_inv (s : AdiState) (gpu : nat) (w : WorkerState) : Prop :=
  filter (λ t, target_gpu t = gpu) (pushed s) =
    filter (λ t, target_gpu t = gpu) (promises s).*1 ++ pending w ∧
  (stopping w = true → running s = false) ∧
  (exited w = true → stopping w = true ∧ working w = None ∧ queue w = late w) ∧
  (exited w = false → late w = []).

Definition numbered (l : list GpuTask) : Prop := ∀ k t, l !! k = Some t → task_id t = k.

(** What the session in a phase waits for has been queued. *)
Definition waits_for (P : GpuTask → Prop) (x : Session) : Prop := ∀ t, phase x = Waiting t → P t.

Definition adi_inv (s : AdiState) : Prop :=
  numbered (pushed s) ∧
  (∀ gpu w, workers s !! gpu = Some w → worker_inv s gpu w) ∧
  (∀ t, t ∈ pushed s → (target_gpu t < length (workers s))%nat) ∧
  (∀ t r, (t, r) ∈ promises s → t ∈ pushed s ∧ r = compute_fn (input_data t) (target_gpu t)) ∧
  Forall (waits_for (.∈ pushed s)) (sessions s).

Lemma start_workers_inv gpus : adi_inv (start_workers gpus).
Proof.
  split; [done|]. split; [|split; [set_solver|split; [set_solver|constructor]]].
  intros gpu w Hw. apply lookup_replicate in Hw as [-> _]. by split_and!.
Qed.

Lemma numbered_snoc l input gpu : numbered l → numbered (l ++ [mkTask (length l) input gpu]).
Proof.
  intros Hl k t Ht. apply lookup_app_Some in Ht as [Ht|[Hk Ht]]; [by apply Hl|].
  apply list_lookup_singleton_Some in Ht as [? <-]. cbn. lia.
Qed.

Lemma numbered_NoDup l : numbered l → NoDup l.
Proof.
  intros Hl. apply NoDup_alt. intros i j t Hi Hj. by rewrite <- (Hl i t Hi), <- (Hl j t Hj).
Qed.

Lemma pending_pushed s gpu w t :
  worker_inv s gpu w → t ∈ pending w → target_gpu t = gpu ∧ t ∈ pushed s.
Proof.
  intros (Hf & _) Ht. apply (list_elem_of_filter (λ t, target_gpu t = gpu)). rewrite Hf. set_solver.
Qed.

(** Waking moves at most the head of the queue to the thread. *)
Lemma worker_wake_pending w w' :
  worker_wake w = Some w' →
  pending w' = pending w ∧ stopping w' = stopping w ∧ late w' = late w ∧
  (exited w' = true → stopping w' = true ∧ working w' = None ∧ queue w' = []) ∧
  exited w = false ∧ working w = None.
Proof.
  unfold worker_wake, pending. destruct w as [q st wk ex l]; cbn. destruct ex; [done|].
  destruct wk as [t|]; cbn; [done|]. destruct (negb _) eqn:E; [done|].
  destruct q as [|t q]; intros [= <-]; cbn; [|done]. by destruct st.
Qed.

(** A worker's part of the invariant, where the rest of the state changed in
    ways that do not concern it. *)
Lemma worker_inv_ext s s' gpu w :
  filter (λ t, target_gpu t = gpu) (pushed s') = filter (λ t, target_gpu t = gpu) (pushed s) →
  filter (λ t, target_gpu t = gpu) (promises s').*1 = filter (λ t, target_gpu t = gpu) (promises s).*1 →
  (running s = false → running s' = false) →
  worker_inv s gpu w → worker_inv s' gpu w.
Proof. intros E1 E2 Hr (Hf & Hs & He). unfold worker_inv. rewrite E1, E2. auto. Qed.

(** Updating one worker and leaving the sessions' and the others' share. *)
Lemma workers_update (P : nat → WorkerState → Prop) (ws : list WorkerState) gpu w w' :
  ws !! gpu = Some w → P gpu w' → (∀ g v, g ≠ gpu → ws !! g = Some v → P g v) →
  ∀ g v, <[gpu := w']> ws !! g = Some v → P g v.
Proof.
  intros Hw HP Ho g v Hv. destruct (decide (g = gpu)) as [->|Hne].
  - rewrite list_lookup_insert_eq in Hv by (by eapply lookup_lt_Some). by injection Hv as <-.
  - rewrite list_lookup_insert_ne in Hv by done. by apply Ho.
Qed.

(** Steps of the control: tasks and promises stay as they are, and a worker
    may be told to stop. *)
Lemma control_inv s s' :
  adi_inv s → pushed s' = pushed s → promises s' = promises s →
  (running s = false → running s' = false) →
  Forall (waits_for (.∈ pushed s)) (sessions s') →
  length (workers s') = length (workers s) →
  (∀ g v, workers s' !! g = Some v →
     workers s !! g = Some v ∨ running s' = false ∧ ∃ w, workers s !! g = Some w ∧ v = set_stopping w) →
  adi_inv s'.
Proof.
  intros (Hn & Hw & Ht & Hp & Hs) E1 E2 Hr Hs' Hlen Hws. unfold adi_inv. rewrite E1, E2, Hlen.
  split; [done|]. split; [|done]. intros g v Hv.
  destruct (Hws g v Hv) as [Hv'|(Hrun & w & Hw' & ->)].
  - eapply worker_inv_ext; [..|by apply (Hw g v)]; by rewrite ?E1, ?E2.
  - destruct (Hw g w Hw') as (Hf & Hst & He & Hl). unfold worker_inv. rewrite E1, E2. split; [done|]. split; [done|].
    split; [|done]. intros Hex. split; [done|]. by apply He.
Qed.

Lemma flag_workers (ws : list WorkerState) gpu w :
  ws !! gpu = Some w → ∀ g v, <[gpu := set_stopping w]> ws !! g = Some v →
  ws !! g = Some v ∨ ∃ w, ws !! g = Some w ∧ v = set_stopping w.
Proof.
  intros Hw g v Hv. destruct (decide (g = gpu)) as [->|Hne].
  - rewrite list_lookup_insert_eq in Hv by (by eapply lookup_lt_Some). injection Hv as <-. right. eauto.
  - rewrite list_lookup_insert_ne in Hv by done. by left.
Qed.

Lemma worker_step_inv gpu s s' : adi_inv s → worker_step gpu s s' → adi_inv s'.
Proof.
  intros (Hn & Hw & Ht & Hp & Hs) [w w' Hg Hwake|q st l t Hg];
    unfold adi_inv, set_promise, set_worker; cbn [pushed workers sessions promises]; rewrite length_insert.
  - split; [done|]. split; [|done]. eapply workers_update; [done| |].
    + destruct (Hw _ _ Hg) as (Hf & Hst & He & Hl).
      destruct (worker_wake_pending _ _ Hwake) as (Hpend & Hstop & Hlate & Hex & Hne & Hwk).
      unfold worker_inv. cbn [pushed promises running]. rewrite Hpend, Hstop, Hlate, (Hl Hne).
      rewrite Hstop in Hex. by split_and!.
    + intros g v _ Hv. by apply (Hw g v).
  - pose proof (Hw _ _ Hg) as Hwg. destruct (pending_pushed _ _ _ t Hwg) as [Htg Htp]; [by left|].
    split; [done|]. split; [|split; [done|split; [|done]]].
    + eapply workers_update; [done| |].
      * destruct Hwg as (Hf & Hst & He & Hl). unfold worker_inv in *. cbn [pushed promises late exited] in *.
        rewrite fmap_app, filter_app. cbn [fmap list_fmap fst compute].
        rewrite filter_cons_True, filter_nil, Hf, <- app_assoc by done. by split_and!.
      * intros g v Hne Hv. eapply worker_inv_ext; [| | |by apply (Hw g v)]; cbn [pushed promises running]; try done.
        rewrite fmap_app, filter_app. cbn [fmap list_fmap fst compute].
        rewrite filter_cons_False, filter_nil, app_nil_r by (by rewrite Htg). done.
    + intros t' r [Hin|Hin%list_elem_of_singleton]%elem_of_app; [by apply Hp|].
      injection Hin as -> ->. by rewrite Htg.
Qed.

(** A session queues its task. *)
Lemma push_inv s i x gpu w request :
  adi_inv s → sessions s !! i = Some x → workers s !! gpu = Some w →
  let task := mkTask (length (pushed s)) request gpu in
  adi_inv (note_pushed (set_worker (set_phase s i x (Waiting task)) gpu (push_back w task)) task).
Proof.
  intros (Hn & Hw & Ht & Hp & Hs) Hi Hg task.
  unfold adi_inv, note_pushed, set_worker, set_phase, set_sessions; cbn [pushed workers sessions promises].
  rewrite length_insert. split; [by apply numbered_snoc|]. split; [|split; [|split]].
  - eapply workers_update; [done| |].
    + destruct (Hw _ _ Hg) as (Hf & Hst & He & Hl). unfold worker_inv, push_back, pending in *.
      cbn [pushed promises working queue stopping exited late] in *.
      rewrite filter_app, filter_cons_True, filter_nil, Hf, !app_assoc by done.
      split; [done|]. split; [done|]. split; intros Hex; rewrite Hex; [|by apply Hl].
      destruct (He Hex) as (? & ? & ->). done.
    + intros g v Hne Hv. eapply worker_inv_ext; [| | |by apply (Hw g v)]; cbn [pushed promises running]; try done.
      rewrite filter_app, filter_cons_False, filter_nil, app_nil_r by done. done.
  - intros t [Hin|Hin%list_elem_of_singleton]%elem_of_app; [by apply Ht|].
    subst t. by eapply lookup_lt_Some.
  - intros t r Hin. destruct (Hp t r Hin). split; [set_solver|done].
  - apply Forall_insert.
    + eapply List.Forall_impl; [|exact Hs]. intros y Hy t Hph. apply elem_of_app. left. by apply Hy.
    + intros t [= <-]. set_solver.
Qed.

Lemma phase_inv s i x ph :
  adi_inv s → (∀ t, ph = Waiting t → t ∈ pushed s) → adi_inv (set_phase s i x ph).
Proof.
  intros Hinv Hph. pose proof Hinv as (_ & _ & _ & _ & Hs). eapply control_inv; try done; [|by left].
  apply Forall_insert; [done|]. intros t E. by apply Hph.
Qed.

Lemma session_step_inv i x s s' :
  adi_inv s → sessions s !! i = Some x → session_step s i x s' → adi_inv s'.
Proof.
  intros Hinv Hi [Hph|Hph Hsh|gpu w request Hph Hg task|task answer Hph Hin].
  - apply phase_inv; [done|]. by destruct (running s).
  - by apply phase_inv.
  - by apply push_inv.
  - apply phase_inv; [done|]. unfold after_get. by destruct answer; [destruct (_ =? 5)|..].
Qed.

(** A worker is told to stop, by [stop] or by [join_all]. *)
Lemma flag_inv s gpu w :
  adi_inv s → running s = false → workers s !! gpu = Some w → adi_inv (set_worker s gpu (set_stopping w)).
Proof.
  intros Hinv Hrun Hg. pose proof Hinv as (_ & _ & _ & _ & Hs). eapply control_inv; try done.
  - apply length_insert.
  - intros g v Hv. destruct (flag_workers _ _ _ Hg g v Hv) as [?|?]; auto.
Qed.

(** What the control keeps: who may stop, and what a call of [stop] has done. *)
Definition in_loop (ph : session_phase) : Prop := match ph with AtCheck | Over => False | _ => True end.

Record control_ok (s : AdiState) : Prop := {
  ok_ending : match acceptor s with
              | Catching | Joining _ | JoinSessions | JoinWorkers | Returned => running s = false
              | _ => True
              end;
  ok_stopping : running s = false ↔ stopper s ≠ NotStopped;
  ok_closed : match stopper s with ShutClients | Flagging _ | StopDone => listener_open s = false | _ => True end;
  ok_shut : match stopper s with
            | Flagging _ | StopDone => Forall (λ x, in_loop (phase x) → shut x = true) (sessions s)
            | _ => True
            end;
  ok_flagged : match stopper s with
               | Flagging k => ∀ g w, (g < k)%nat → workers s !! g = Some w → stopping w = true
               | StopDone => Forall (λ w, stopping w = true) (workers s)
               | _ => True
               end;
  ok_joined : match acceptor s with
              | JoinWorkers | Returned => Forall (λ x, phase x = Over) (sessions s)
              | _ => True
              end;
}.

Lemma control_ok_start gpus : control_ok (start_workers gpus).
Proof. by split. Qed.

(** Workers' steps. *)
Lemma control_ok_workers s s' :
  control_ok s → acceptor s' = acceptor s → running s' = running s → stopper s' = stopper s →
  listener_open s' = listener_open s → sessions s' = sessions s →
  (∀ g v, workers s' !! g = Some v → ∃ w, workers s !! g = Some w ∧ (stopping w = true → stopping v = true)) →
  control_ok s'.
Proof.
  intros [H1 H2 H3 H4 H5 H6] Ea Er Es El Ess Hw. split; rewrite ?Ea, ?Er, ?Es, ?El, ?Ess; try done.
  destruct (stopper s); try done.
  - intros g v Hg Hv. destruct (Hw g v Hv) as (w & Hw' & Hst). eauto.
  - apply Forall_lookup_2. intros g v Hv. destruct (Hw g v Hv) as (w & Hw' & Hst).
    by eapply Hst, (Forall_lookup_1 _ _ _ _ H5).
Qed.

Lemma insert_keeps (ws : list WorkerState) gpu w w' :
  ws !! gpu = Some w → (stopping w = true → stopping w' = true) →
  ∀ g v, <[gpu := w']> ws !! g = Some v → ∃ w, ws !! g = Some w ∧ (stopping w = true → stopping v = true).
Proof.
  intros Hw Hst. eapply (workers_update (λ g v, ∃ w, ws !! g = Some w ∧ _)); [done|by eauto|]. eauto.
Qed.

(** Sessions' steps: a session enters its loop only while the server runs. *)
Lemma control_ok_session s i x ph :
  control_ok s → sessions s !! i = Some x → phase x ≠ Over →
  (in_loop ph → in_loop (phase x) ∨ running s = true) → control_ok (set_phase s i x ph).
Proof.
  intros [H1 H2 H3 H4 H5 H6] Hi Hne Hph.
  split; unfold set_phase, set_sessions; cbn [running sessions acceptor listener_open stopper workers]; try done.
  - assert (stopper s ≠ NotStopped → Forall (λ x, in_loop (phase x) → shut x = true) (sessions s) →
      Forall (λ x, in_loop (phase x) → shut x = true) (<[i := mkSession ph (shut x)]> (sessions s))) as Hins.
    { intros Hs Hall. apply Forall_insert; [done|]. cbn [phase shut]. intros Hin.
      destruct (Hph Hin) as [Hl|Hr]; [by eapply (Forall_lookup_1 _ _ _ _ Hall)|]. apply H2 in Hs. congruence. }
    destruct (stopper s); try done; by apply Hins.
  - assert (¬ Forall (λ x, phase x = Over) (sessions s)) as Hno by (intros Hall; apply Hne; by eapply (Forall_lookup_1 _ _ _ _ Hall)).
    by destruct (acceptor s).
Qed.

Lemma worker_step_control gpu s s' : control_ok s → worker_step gpu s s' → control_ok s'.
Proof.
  intros Hok [w w' Hg Hwake|q st l t Hg]; (eapply control_ok_workers; [exact Hok|done..|]);
    unfold set_promise, set_worker; cbn [workers]; (eapply insert_keeps; [exact Hg|]).
  - destruct (worker_wake_pending _ _ Hwake) as (_ & -> & _). done.
  - done.
Qed.

Lemma session_step_control i x s s' :
  control_ok s → sessions s !! i = Some x → session_step s i x s' → control_ok s'.
Proof.
  intros Hok Hi [Hph|Hph Hsh|gpu w request Hph Hg task|task answer Hph Hin].
  - apply control_ok_session; [done|done|by rewrite Hph|]. destruct (running s); [by right|by intros []].
  - apply control_ok_session; [done|done|by destruct Hph as [-> | ->]|by intros []].
  - eapply (control_ok_workers (set_phase s i x (Waiting task))); try done.
    + apply control_ok_session; [done|done|by rewrite Hph|]. intros _. left. by rewrite Hph.
    + unfold note_pushed, set_worker, set_phase, set_sessions. cbn [workers]. by eapply insert_keeps.
  - apply control_ok_session; [done|done|by rewrite Hph|]. intros _. left. by rewrite Hph.
Qed.

(** Steps of the thread in [run] that move only that thread. *)
Lemma control_ok_acceptor s a (closing : bool) :
  control_ok s →
  match a with
  | Catching | Joining _ | JoinSessions => running s = false
  | JoinWorkers | Returned => running s = false ∧ Forall (λ x, phase x = Over) (sessions s)
  | _ => True
  end → control_ok (set_acceptor (if closing then close_listener s else s) a).
Proof.
  intros [H1 H2 H3 H4 H5 H6] Ha. destruct closing; split; unfold set_acceptor, close_listener;
    cbn [running sessions acceptor listener_open stopper workers]; try done; try (by destruct a as [| | | | | | | |]; naive_solver);
    by destruct (stopper s).
Qed.

Lemma accept_step_control s s' : control_ok s → accept_step s s' → control_ok s'.
Proof.
  intros Hok Hstep. pose proof Hok as [H1 H2 H3 H4 H5 H6].
  destruct Hstep as [Ha|Ha Hl|c Ha Hc|Ha Hc|Ha|Ha Hs|gpu w Ha Hg|gpu Ha Hg|Ha Hall|Ha Hall]; rewrite Ha in *.
  - destruct (running s) eqn:E; [by apply (control_ok_acceptor s _ false)|by apply (control_ok_acceptor s _ true)].
  - apply (control_ok_acceptor s _ false); [done|]. by destruct (running s).
  - apply (control_ok_acceptor (set_sessions s _) _ false); [|done].
    split; unfold set_sessions; cbn [running sessions acceptor listener_open stopper workers]; rewrite ?Ha; try done.
    destruct (stopper s); try done; (apply Forall_app; split; [done|by apply Forall_singleton]).
  - by apply (control_ok_acceptor s _ false).
  - destruct (running s) eqn:E; [|by apply (control_ok_acceptor s _ true)]. by split.
  - by apply (control_ok_acceptor s _ false).
  - apply (control_ok_acceptor (set_worker s gpu (set_stopping w)) _ false); [|done].
    eapply control_ok_workers; [exact Hok|done..|]. unfold set_worker. cbn [workers]. by eapply insert_keeps.
  - by apply (control_ok_acceptor s _ false).
  - by apply (control_ok_acceptor s _ false).
  - apply (control_ok_acceptor s _ false); [done|]. by split.
Qed.

Lemma stop_step_control s s' : control_ok s → stop_step s s' → control_ok s'.
Proof.
  intros [H1 H2 H3 H4 H5 H6] [Hs|Hs|gpu w Hs Hg|gpu Hs Hg]; rewrite Hs in *;
    (split; unfold set_stopper, set_sessions, set_worker, close_listener;
     cbn [running sessions acceptor listener_open stopper workers]; rewrite ?H2; try done).
  - unfold shut_clients. apply Forall_fmap, Forall_true. done.
  - intros g v Hg. lia.
  - unfold shut_clients. destruct (acceptor s); try done; by apply Forall_fmap.
  - intros g v Hlt Hv. destruct (decide (g = gpu)) as [->|Hne].
    + rewrite list_lookup_insert_eq in Hv by (by eapply lookup_lt_Some). by injection Hv as <-.
    + rewrite list_lookup_insert_ne in Hv by done. apply (H5 g v); [lia|done].
  - apply Forall_lookup_2. intros g v Hv. apply (H5 g v); [|done].
    apply lookup_ge_None_1 in Hg. apply lookup_lt_Some in Hv. lia.
Qed.

Lemma peer_step_control s s' : control_ok s → peer_step s s' → control_ok s'.
Proof.
  intros Hok [Ha Hl|Ha Hr|Ha|i x request Hi Hph|i x Hi Hph|i x Hi Hph|Hr].
  - by apply (control_ok_acceptor s _ false).
  - by apply (control_ok_acceptor s _ false).
  - destruct (running s) eqn:E; [by apply (control_ok_acceptor s _ false)|by apply (control_ok_acceptor s _ true)].
  - apply control_ok_session; [done|done|by rewrite Hph|]. intros _. left. by rewrite Hph.
  - apply control_ok_session; [done|done|by rewrite Hph|by intros []].
  - apply control_ok_session; [done|done|by destruct Hph as [-> | ->]|by intros []].
  - pose proof Hok as [H1 H2 H3 H4 H5 H6]. split; unfold begin_stop; cbn [running sessions acceptor listener_open stopper workers]; try done.
    by destruct (acceptor s).
Qed.

Lemma adi_step_control s s' : control_ok s → adi_step s s' → control_ok s'.
Proof.
  intros Hok [[gpu s1 H|i x s1 Hi H|s1 H|s1 H]|H];
    eauto using worker_step_control, session_step_control, accept_step_control, stop_step_control, peer_step_control.
Qed.

(** The tasks' side of the control's steps. *)
Lemma accept_step_inv s s' : control_ok s → adi_inv s → accept_step s s' → adi_inv s'.
Proof.
  intros [H1 _ _ _ _ _] Hinv Hstep. pose proof Hinv as (_ & _ & _ & _ & Hs).
  destruct Hstep as [Ha|Ha Hl|c Ha Hc|Ha Hc|Ha|Ha Hst|gpu w Ha Hg|gpu Ha Hg|Ha Hall|Ha Hall]; rewrite ?Ha in H1;
    try (by destruct (running s) eqn:?; (eapply control_inv; [exact Hinv|done..|by left]));
    try (by eapply control_inv; [exact Hinv|done..|by left]).
  - eapply control_inv; [exact Hinv|done..| |done|by left]. apply Forall_app. split; [done|]. by apply Forall_singleton.
  - eapply control_inv; [by apply (flag_inv s gpu w)|done..|by left].
Qed.

Lemma stop_step_inv s s' : control_ok s → adi_inv s → stop_step s s' → adi_inv s'.
Proof.
  intros [_ H2 _ _ _ _] Hinv Hstep. pose proof Hinv as (_ & _ & _ & _ & Hs).
  destruct Hstep as [Hst|Hst|gpu w Hst Hg|gpu Hst Hg].
  - eapply control_inv; [exact Hinv|done..|by left].
  - eapply control_inv; [exact Hinv|done..| |done|by left]. unfold set_stopper, set_sessions, shut_clients. cbn [sessions].
    by apply Forall_fmap.
  - eapply control_inv; [apply (flag_inv s gpu w); [done|apply H2; by rewrite Hst|done]|done..|by left].
  - eapply control_inv; [exact Hinv|done..|by left].
Qed.

Lemma peer_step_inv s s' : adi_inv s → peer_step s s' → adi_inv s'.
Proof.
  intros Hinv Hstep. pose proof Hinv as (_ & _ & _ & _ & Hs).
  destruct Hstep as [Ha Hl|Ha Hr|Ha|i x request Hi Hph|i x Hi Hph|i x Hi Hph|Hr];
    try (by apply phase_inv); try (by eapply control_inv; [exact Hinv|done..|by left]).
  destruct (running s); (eapply control_inv; [exact Hinv|done..|by left]).
Qed.

Lemma adi_step_inv s s' : control_ok s → adi_inv s → adi_step s s' → adi_inv s'.
Proof.
  intros Hok Hinv [[gpu s1 H|i x s1 Hi H|s1 H|s1 H]|H];
    eauto using worker_step_inv, session_step_inv, accept_step_inv, stop_step_inv, peer_step_inv.
Qed.

Lemma workers_reachable_inv gpus s : rtc adi_step (start_workers gpus) s → adi_inv s ∧ control_ok s.
Proof.
  apply (rtc_invariant adi_step (λ s, adi_inv s ∧ control_ok s)).
  - intros x y [Hx Hc] Hxy. split; [by eapply adi_step_inv|by eapply adi_step_control].
  - split; [apply start_workers_inv|apply control_ok_start].
Qed.

(** ** Service *)

(** A worker that has not returned takes and computes its next task. *)
Lemma worker_advance gpu s w t rest :
  workers s !! gpu = Some w → exited w = false → pending w = t :: rest →
  ∃ s1 w1, rtc (worker_step gpu) s s1 ∧ workers s1 !! gpu = Some w1 ∧ exited w1 = false ∧
    pending w1 = rest ∧ (promises s1).*1 = (promises s).*1 ++ [t] ∧
    sessions s1 = sessions s ∧ pushed s1 = pushed s.
Proof.
  destruct w as [q st wk ex l]. unfold pending. cbn. intros Hw -> Hp.
  assert (∀ s' q', workers s' !! gpu = Some (mkWorker q' st (Some t) false l) →
    ∃ s1 w1, rtc (worker_step gpu) s' s1 ∧ workers s1 !! gpu = Some w1 ∧
      exited w1 = false ∧ pending w1 = q' ∧ (promises s1).*1 = (promises s').*1 ++ [t] ∧
      sessions s1 = sessions s' ∧ pushed s1 = pushed s') as Hcompute.
  { intros s' q' Hw'. eexists _, (mkWorker q' st None false l).
    split; [by eapply rtc_once, step_compute|]. unfold set_promise, set_worker. cbn. split.
    { apply list_lookup_insert_eq. by eapply lookup_lt_Some. }
    by rewrite fmap_app. }
  destruct wk as [t'|]; cbn in Hp; [injection Hp as -> ->; by apply Hcompute|]. subst q.
  destruct (Hcompute (set_worker s gpu (mkWorker rest st (Some t) false l)) rest) as (s1 & w1 & Hr & ?).
  { apply list_lookup_insert_eq. by eapply lookup_lt_Some. }
  exists s1, w1. split; [|done]. eapply rtc_l; [|exact Hr]. eapply step_wake; [done|].
  unfold worker_wake. cbn. by rewrite orb_true_r.
Qed.

Lemma worker_serves gpu todo : ∀ s w,
  workers s !! gpu = Some w → exited w = false → pending w = todo →
  ∃ s', rtc (worker_step gpu) s s' ∧ (promises s').*1 = (promises s).*1 ++ todo ∧
    sessions s' = sessions s ∧ pushed s' = pushed s.
Proof.
  induction todo as [|t todo IH]; intros s w Hw He Hp.
  { exists s. rewrite app_nil_r. split; [constructor|done]. }
  destruct (worker_advance gpu s w t todo Hw He Hp) as (s1 & w1 & Hr & Hw1 & He1 & Hp1 & Hpr & Hs & Hpu).
  destruct (IH s1 w1 Hw1 He1 Hp1) as (s' & Hr' & Hpr' & Hs' & Hpu').
  exists s'. split; [by etransitivity|]. rewrite Hpr', Hpr, <- app_assoc. by rewrite Hs', Hpu'.
Qed.

(** C23: Every task is computed at most once, on its own GPU, in the order in which
    the GPU's tasks were queued; a session that waits for its task gets the
    compute function's result for its own input once its GPU's worker runs,
    unless that worker has returned, which it does only after [stop] and with
    an empty queue. *)
Theorem adi_tasks_served gpus s :
  rtc adi_step (start_workers gpus) s →
  NoDup (pushed s) ∧
  (∀ gpu w, workers s !! gpu = Some w →
     filter (λ t, target_gpu t = gpu) (pushed s) =
     filter (λ t, target_gpu t = gpu) (promises s).*1 ++ pending w) ∧
  (∀ t r, (t, r) ∈ promises s → r = compute_fn (input_data t) (target_gpu t)) ∧
  ∀ i x t, sessions s !! i = Some x → phase x = Waiting t →
    ∃ w, workers s !! target_gpu t = Some w ∧ (exited w = true → running s = false ∧ queue w = late w) ∧
      (exited w = false → ∃ s', rtc (worker_step (target_gpu t)) s s' ∧ sessions s' = sessions s ∧
         (t, compute_fn (input_data t) (target_gpu t)) ∈ promises s').
Proof.
  intros Hr. destruct (workers_reachable_inv _ _ Hr) as [Hinv _]. pose proof Hinv as (Hn & Hw & Ht & Hp & Hs).
  split; [by apply numbered_NoDup|]. split; [intros gpu w Hg; by apply Hw|].
  split; [intros t r Hin; by apply Hp|]. intros i x t Hi Hph. pose proof (Forall_lookup_1 _ _ _ _ Hs Hi t Hph) as Hin.
  destruct (lookup_lt_is_Some_2 (workers s) (target_gpu t) (Ht t Hin)) as [w Hg].
  destruct (Hw _ _ Hg) as (Hf & Hst & He & _). exists w. split; [done|]. split; [naive_solver|].
  intros Hex. destruct (worker_serves _ _ s w Hg Hex eq_refl) as (s' & Hr' & Hpr & Hss & _).
  exists s'. split; [done|]. split; [done|].
  assert (t ∈ (promises s').*1) as Hd.
  { rewrite Hpr. assert (t ∈ filter (λ t', target_gpu t' = target_gpu t) (pushed s)) as Hfil
      by (by apply list_elem_of_filter). rewrite Hf in Hfil.
    apply elem_of_app in Hfil as [Hfil|]; [|set_solver]. apply list_elem_of_filter in Hfil as [_ ?]. set_solver. }
  apply list_elem_of_fmap in Hd as ([t' r] & -> & Hd). cbn [fst].
  assert (adi_inv s') as (_ & _ & _ & Hp' & _).
  { eapply (rtc_invariant (worker_step _) adi_inv); [|exact Hinv|exact Hr'].
    intros a b Ha Hab. by eapply worker_step_inv. }
  by destruct (Hp' _ _ Hd) as [_ <-].
Qed.

(** ** Shutdown *)

(** A session waits for a task that it queued after the worker of its GPU had
    returned. *)
Definition stranded (s : AdiState) (i : nat) (t : GpuTask) : Prop :=
  (∃ x, sessions s !! i = Some x ∧ phase x = Waiting t) ∧
  ∃ w, workers s !! target_gpu t = Some w ∧ exited w = true ∧ t ∈ late w.

(** The promise of a late task is never set. *)
Lemma late_unanswered s gpu w t :
  adi_inv s → workers s !! gpu = Some w → exited w = true → t ∈ late w → t ∉ (promises s).*1.
Proof.
  intros (Hn & Hw & _) Hg Hex Hl Hin. destruct (Hw _ _ Hg) as (Hf & _ & He & _).
  destruct (He Hex) as (_ & Hwk & Hq).
  assert (t ∈ pending w) as Hpd by (unfold pending; rewrite Hwk, Hq; done).
  destruct (pending_pushed _ _ _ _ (Hw _ _ Hg) Hpd) as [Ht _].
  pose proof (numbered_NoDup _ Hn) as Hnd. apply (NoDup_filter (λ t, target_gpu t = gpu)) in Hnd.
  rewrite Hf in Hnd. apply NoDup_app in Hnd as (_ & Hdis & _). apply (Hdis t); [|done].
  by apply list_elem_of_filter.
Qed.

(** Steps keep a worker's return and what it left behind. *)
Lemma late_stays s s' gpu w :
  adi_inv s → adi_step s s' → workers s !! gpu = Some w → exited w = true →
  ∃ w', workers s' !! gpu = Some w' ∧ exited w' = true ∧ late w ⊆ late w'.
Proof.
  intros Hinv Hstep Hw He.
  assert (∀ g v v', workers s !! g = Some v → exited v = false ∨ exited v' = exited v ∧ late v ⊆ late v' →
    ∃ w', <[g := v']> (workers s) !! gpu = Some w' ∧ exited w' = true ∧ late w ⊆ late w') as Hupd.
  { intros g v v' Hg Hv. destruct (decide (g = gpu)) as [->|Hne].
    - rewrite list_lookup_insert_eq by (by eapply lookup_lt_Some). assert (v = w) as -> by congruence.
      eexists. split; [done|]. destruct Hv as [?|[-> ?]]; [congruence|done].
    - rewrite list_lookup_insert_ne by done. eauto. }
  assert (∃ w', workers s !! gpu = Some w' ∧ exited w' = true ∧ late w ⊆ late w') as Hsame by eauto.
  destruct Hstep as [[g s1 [v v' Hg Hwake|q st l t Hg]|i x s1 Hi [?|? ?|g v request Hph Hg task|? ? ? ?]
    |s1 [?|? ?|? ? ?|? ?|?|? ?|g v Ha Hg|? ? ?|? ?|? ?]|s1 [?|?|g v ? Hg|? ? ?]]|[? ?|? ?|?|? ? ? ? ?|? ? ? ?|? ? ? ?|?]];
    try exact Hsame; try (by destruct (running s); exact Hsame); eapply (Hupd g); try exact Hg.
  - left. by apply (worker_wake_pending v v').
  - by left.
  - right. unfold push_back. cbn. split; [done|]. destruct (exited v); set_solver.
  - by right.
  - by right.
Qed.

Lemma stranded_step s s' i t : adi_inv s → stranded s i t → adi_step s s' → stranded s' i t.
Proof.
  intros Hinv ((x & Hi & Hph) & w & Hw & He & Hl) Hstep.
  pose proof (late_unanswered _ _ _ _ Hinv Hw He Hl) as Hpr.
  destruct (late_stays s s' _ w Hinv Hstep Hw He) as (w' & Hw' & He' & Hsub).
  split; [|exists w'; split; [done|]; split; [done|by apply Hsub]]. clear w' Hw' He' Hsub.
  assert (∀ j y ph, sessions s !! j = Some y → phase y ≠ Waiting t →
    ∃ x, <[j := mkSession ph (shut y)]> (sessions s) !! i = Some x ∧ phase x = Waiting t) as Hupd.
  { intros j y ph Hj Hy. rewrite list_lookup_insert_ne by congruence. eauto. }
  assert (∃ x, sessions s !! i = Some x ∧ phase x = Waiting t) as Hsame by eauto.
  destruct Hstep as [[g s1 [v v' Hg Hwake|q st l t' Hg]|j y s1 Hj [Hy|Hy ?|g v request Hy Hg task|t' r Hy Hr]
    |s1 [?|? ?|? ? ?|? ?|?|? ?|g v Ha Hg|? ? ?|? ?|? ?]|s1 [?|?|g v ? Hg|? ? ?]]|[? ?|? ?|?|j y req Hj Hy|j y Hj Hy|j y Hj Hy|?]];
    try exact Hsame; try (by destruct (running s); exact Hsame);
    try (eapply (Hupd j); [exact Hj|by rewrite Hy || destruct Hy as [-> | ->]]).
  - eapply (Hupd j); [exact Hj|]. rewrite Hy. intros [= ->]. apply Hpr. apply list_elem_of_fmap. by exists (t, r).
  - exists x. split; [by apply lookup_app_l_Some|done].
  - exists (mkSession (phase x) true). unfold set_stopper, set_sessions, shut_clients. cbn [sessions].
    by rewrite list_lookup_fmap, Hi.
Qed.

(** Shutdown can hang: once a worker has returned, a session that queues its
    task there (it had passed the [running_] check before [stop]) waits for
    ever, whatever the threads do; [join_all] joins the sessions first. *)
Theorem adi_stop_strands gpus s s' i t :
  rtc adi_step (start_workers gpus) s → stranded s i t → rtc adi_step s s' →
  stranded s' i t ∧ acceptor s' ≠ Returned.
Proof.
  intros Hr Hst Hr'. assert ((adi_inv s' ∧ control_ok s') ∧ stranded s' i t) as [[_ Hok] H].
  { eapply (rtc_invariant adi_step (λ s, (adi_inv s ∧ control_ok s) ∧ stranded s i t));
      [|split; [by eapply workers_reachable_inv|exact Hst]|exact Hr'].
    intros x y [[Hx Hc] Hsx] Hxy. split; [split|]; [by eapply adi_step_inv|by eapply adi_step_control|by eapply stranded_step]. }
  split; [done|]. intros Ha. destruct H as [(x & Hi & Hph) _]. destruct Hok as [_ _ _ _ _ Hj]. rewrite Ha in Hj.
  apply (Forall_lookup_1 _ _ _ _ Hj) in Hi. congruence.
Qed.

(** *** Shutdown ends *)

Definition phase_weight (x : Session) : nat :=
  match phase x with Reading => 7 | Placing _ => 6 | Waiting _ => 3 | Writing => 2 | AtCheck => 1 | Over => 0 end.

Definition worker_weight (w : WorkerState) : nat :=
  2 * length (queue w) + length (option_list (working w)) + if exited w then 0 else 1.

Definition accept_weight (n : nat) (a : accept_phase) : nat :=
  match a with
  | InAccept => n + 7 | Accepted => n + 6 | Catch => n + 5 | AtTop | Catching => n + 4
  | Joining k => n - k + 3 | JoinSessions => 2 | JoinWorkers => 1 | Returned => 0
  end.

Definition stop_weight (n : nat) (p : stop_phase) : nat :=
  match p with CloseListener => n + 3 | ShutClients => n + 2 | Flagging k => n - k + 1 | _ => 0 end.

Definition weight (s : AdiState) : nat :=
  sum_list_with phase_weight (sessions s) + sum_list_with worker_weight (workers s) +
  accept_weight (length (workers s)) (acceptor s) + stop_weight (length (workers s)) (stopper s).

Lemma worker_wake_weight w w' : worker_wake w = Some w' → (worker_weight w' < worker_weight w)%nat.
Proof.
  unfold worker_wake, worker_weight. destruct w as [q st wk ex l]; cbn. destruct ex; [done|].
  destruct wk as [t|]; cbn; [done|]. destruct (negb _); [done|].
  destruct q as [|t q]; intros [= <-]; cbn; lia.
Qed.

Lemma push_weight w t : (worker_weight (push_back w t) = worker_weight w + 2)%nat.
Proof. unfold worker_weight, push_back. cbn. rewrite length_app. cbn. lia. Qed.

Lemma weight_set_worker s g w w' :
  workers s !! g = Some w →
  (weight (set_worker s g w') + worker_weight w = weight s + worker_weight w')%nat.
Proof.
  intros Hg. unfold weight, set_worker. cbn [sessions workers acceptor stopper]. rewrite length_insert.
  pose proof (sum_list_with_insert worker_weight (workers s) g w w' Hg). lia.
Qed.

Lemma weight_set_phase s i x ph :
  sessions s !! i = Some x →
  (weight (set_phase s i x ph) + phase_weight x = weight s + phase_weight (mkSession ph (shut x)))%nat.
Proof.
  intros Hi. unfold weight, set_phase, set_sessions. cbn [sessions workers acceptor stopper].
  pose proof (sum_list_with_insert phase_weight (sessions s) i x (mkSession ph (shut x)) Hi). lia.
Qed.

Ltac weigh := unfold weight, set_acceptor, set_stopper, close_listener, set_promise, note_pushed; cbn [sessions workers acceptor stopper].

Lemma session_step_weight i x s s' :
  running s = false → sessions s !! i = Some x → session_step s i x s' → (weight s' < weight s)%nat.
Proof.
  intros Hrun Hi [Hph|Hph Hsh|gpu w request Hph Hg task|task answer Hph Hin].
  - rewrite Hrun. pose proof (weight_set_phase s i x Over Hi) as H. unfold phase_weight in H. rewrite Hph in H.
    cbn [phase] in H. lia.
  - pose proof (weight_set_phase s i x Over Hi) as H. unfold phase_weight in H.
    destruct Hph as [Hph|Hph]; rewrite Hph in H; cbn [phase] in H; lia.
  - pose proof (weight_set_phase s i x (Waiting task) Hi) as H. unfold phase_weight in H. rewrite Hph in H. cbn [phase] in H.
    assert (workers (set_phase s i x (Waiting task)) !! gpu = Some w) as Hg' by done.
    pose proof (weight_set_worker _ _ _ (push_back w task) Hg') as H2. rewrite push_weight in H2.
    change (weight (note_pushed ?y task)) with (weight y). lia.
  - pose proof (weight_set_phase s i x (after_get answer) Hi) as H. unfold phase_weight in H. rewrite Hph in H. cbn [phase] in H.
    destruct answer as [l| | |]; cbn [after_get] in *; [destruct (zlen l =? 5)|..]; lia.
Qed.

Lemma accept_step_weight s s' :
  running s = false → accept_step s s' → (weight s' < weight s)%nat.
Proof.
  intros Hrun [Ha|Ha Hl|c Ha Hc|Ha Hc|Ha|Ha Hs|gpu w Ha Hg|gpu Ha Hg|Ha Hall|Ha Hall]; rewrite ?Hrun;
    try (weigh; rewrite Ha; cbn [accept_weight]; lia).
  - weigh. unfold set_sessions. cbn [sessions workers acceptor stopper]. rewrite Ha, sum_list_with_app.
    cbn [accept_weight sum_list_with phase_weight phase]. lia.
  - pose proof (weight_set_worker s gpu w (set_stopping w) Hg) as H. change (worker_weight (set_stopping w)) with (worker_weight w) in H.
    apply lookup_lt_Some in Hg. revert H. weigh. unfold set_worker. cbn [sessions workers acceptor stopper].
    rewrite Ha. cbn [accept_weight]. rewrite length_insert. lia.
Qed.

Lemma stop_step_weight s s' : stop_step s s' → (weight s' < weight s)%nat.
Proof.
  intros [Hs|Hs|gpu w Hs Hg|gpu Hs Hg]; try (weigh; rewrite Hs; cbn [stop_weight]; lia).
  - weigh. unfold set_sessions, shut_clients. cbn [sessions workers acceptor stopper]. rewrite Hs.
    assert (sum_list_with phase_weight ((λ x, mkSession (phase x) true) <$> sessions s) = sum_list_with phase_weight (sessions s)) as ->.
    { induction (sessions s) as [|x l IH]; [done|]. cbn. by rewrite IH. }
    cbn [stop_weight]. lia.
  - pose proof (weight_set_worker s gpu w (set_stopping w) Hg) as H. change (worker_weight (set_stopping w)) with (worker_weight w) in H.
    apply lookup_lt_Some in Hg. revert H. weigh. unfold set_worker. cbn [sessions workers acceptor stopper].
    rewrite Hs. cbn [stop_weight]. rewrite length_insert. lia.
Qed.

Lemma adi_step_weight s s' :
  running s = false → adi_step s s' → running s' = false ∧ (weight s' < weight s)%nat.
Proof.
  intros Hrun Hstep. split.
  - destruct Hstep as [[g s1 [? ? ? ?|? ? ? ? ?]|i x s1 Hi [?|? ?|? ? ? ? ? ?|? ? ? ?]
      |s1 [?|? ?|? ? ?|? ?|?|? ?|? ? ? ?|? ? ?|? ?|? ?]|s1 [?|?|? ? ? ?|? ? ?]]|[? ?|? ?|?|? ? ? ? ?|? ? ? ?|? ? ? ?|?]];
      try done; try exact Hrun; by rewrite Hrun.
  - destruct Hstep as [[g s1 [w w' Hg Hwake|q st l t Hg]|i x s1 Hi H|s1 H|s1 H]|[Ha Hl|Ha Hr|Ha|i x request Hi Hph|i x Hi Hph|i x Hi Hph|Hr]];
      eauto using session_step_weight, accept_step_weight, stop_step_weight; try congruence.
    + pose proof (weight_set_worker s g w w' Hg). pose proof (worker_wake_weight _ _ Hwake). lia.
    + pose proof (weight_set_worker s g _ (mkWorker q st None false l) Hg) as H. unfold worker_weight in H. cbn [queue working exited option_list length] in H.
      change (weight (set_promise ?y _)) with (weight y). 
      change (length (option_list (Some t))) with 1%nat in H. change (length (option_list None)) with 0%nat in H. lia.
    + weigh. rewrite Ha. cbn [accept_weight]. lia.
    + rewrite Hrun. weigh. rewrite Ha. cbn [accept_weight]. lia.
    + pose proof (weight_set_phase s i x (Placing request) Hi) as H. unfold phase_weight in H. rewrite Hph in H. cbn [phase] in H. lia.
    + pose proof (weight_set_phase s i x AtCheck Hi) as H. unfold phase_weight in H. rewrite Hph in H. cbn [phase] in H. lia.
    + pose proof (weight_set_phase s i x Over Hi) as H. unfold phase_weight in H.
      destruct Hph as [Hph|Hph]; rewrite Hph in H; cbn [phase] in H; lia.
Qed.

Lemma adi_step_workers s s' : adi_step s s' → length (workers s') = length (workers s).
Proof.
  intros [[g s1 [? ? ? ?|? ? ? ? ?]|i x s1 Hi [?|? ?|? ? ? ? ? ?|? ? ? ?]
    |s1 [?|? ?|? ? ?|? ?|?|? ?|? ? ? ?|? ? ?|? ?|? ?]|s1 [?|?|? ? ? ?|? ? ?]]|[? ?|? ?|?|? ? ? ? ?|? ? ? ?|? ? ? ?|?]];
    try done; try apply length_insert; by destruct (running s).
Qed.

(** Where the server's threads can do nothing more, [stop] is done, the
    workers have returned, and a session has returned or is stranded. *)
Lemma final_workers s :
  control_ok s → running s = false → nf server_step s →
  stopper s = StopDone ∧ Forall (λ w, exited w = true) (workers s).
Proof.
  intros [H1 H2 H3 H4 H5 H6] Hrun Hnf.
  assert (stopper s = StopDone) as Hdone.
  { destruct (stopper s) as [| | |k|] eqn:E; [by apply H2 in Hrun| | | |done]; exfalso; apply Hnf.
    - eexists. by apply server_stop, step_stop_listener.
    - eexists. by apply server_stop, step_stop_clients.
    - destruct (workers s !! k) as [w|] eqn:Ew; eexists; apply server_stop;
        [by eapply step_stop_worker|by eapply step_stop_done]. }
  split; [done|]. rewrite Hdone in H5. apply Forall_lookup_2. intros g w Hg.
  destruct (exited w) eqn:He; [done|exfalso]. assert (stopping w = true) as Hst by (by eapply (Forall_lookup_1 _ _ _ _ H5)).
  destruct (working w) as [t|] eqn:Ewk.
  - apply Hnf. destruct w as [q st wk ex l]. cbn in *. subst. eexists. by eapply server_worker, step_compute.
  - destruct (worker_wake w) as [w'|] eqn:Ewake; [apply Hnf; eexists; by eapply server_worker, step_wake|].
    unfold worker_wake in Ewake. rewrite He, Ewk, Hst in Ewake. by destruct (queue w).
Qed.

Lemma final_sessions s :
  adi_inv s → control_ok s → running s = false → nf server_step s → workers s ≠ [] →
  ∀ i x, sessions s !! i = Some x → phase x = Over ∨ ∃ t, stranded s i t.
Proof.
  intros Hinv Hok Hrun Hnf Hws i x Hi. destruct (final_workers s Hok Hrun Hnf) as [Hdone Hex].
  destruct Hok as [_ _ _ Hshut _ _]. rewrite Hdone in Hshut. pose proof (Forall_lookup_1 _ _ _ _ Hshut Hi) as Hsh. cbv beta in Hsh.
  assert (∀ s', session_step s i x s' → False) as Hno by (intros s' Hs; apply Hnf; eexists; by eapply server_session).
  destruct (phase x) as [| |request|t| |] eqn:Hph; [exfalso|exfalso|exfalso| |exfalso|by left].
  - by eapply Hno, step_check.
  - eapply Hno, step_shut; [by left|by apply Hsh].
  - destruct (workers s) as [|w ws] eqn:Ew; [done|]. eapply Hno, (step_push _ _ _ 0 w request); [done|by rewrite Ew].
  - right. exists t. pose proof Hinv as (Hn & Hw & Ht & _ & Hs).
    pose proof (Forall_lookup_1 _ _ _ _ Hs Hi t Hph) as Hin.
    destruct (lookup_lt_is_Some_2 (workers s) (target_gpu t) (Ht t Hin)) as [w Hg].
    pose proof (Forall_lookup_1 _ _ _ _ Hex Hg) as He. split; [by eauto|]. exists w. split; [done|]. split; [done|].
    destruct (Hw _ _ Hg) as (Hf & _ & Hq & _). destruct (Hq He) as (_ & Hwk & E). rewrite <- E.
    assert (t ∈ filter (λ t', target_gpu t' = target_gpu t) (pushed s)) as Hfil by (by apply list_elem_of_filter).
    rewrite Hf in Hfil. apply elem_of_app in Hfil as [Hpr|Hpd]; [exfalso|by unfold pending in Hpd; rewrite Hwk in Hpd].
    apply list_elem_of_filter in Hpr as [_ ([t' r] & -> & Hpr)%list_elem_of_fmap].
    by eapply Hno, (step_get _ _ _ t' r).
  - eapply Hno, step_shut; [by right|by apply Hsh].
Qed.

Lemma over_or_not (l : list Session) :
  Forall (λ x, phase x = Over) l ∨ ∃ i x, l !! i = Some x ∧ phase x ≠ Over.
Proof.
  induction l as [|x l [IH|(i & y & Hi & Hy)]]; [by left| |by right; exists (S i), y].
  destruct (phase x) eqn:E; try (right; exists 0%nat, x; split; [done|congruence]). left. by constructor.
Qed.

(** The thread in [run] has returned, or joins a stranded session. *)
Lemma final_acceptor s :
  adi_inv s → control_ok s → running s = false → nf server_step s → workers s ≠ [] →
  (acceptor s = Returned ∧ Forall (λ x, phase x = Over) (sessions s)) ∨
  (acceptor s = JoinSessions ∧ ∃ i t, stranded s i t).
Proof.
  intros Hinv Hok Hrun Hnf Hws. destruct (final_workers s Hok Hrun Hnf) as [Hdone Hex].
  pose proof (final_sessions s Hinv Hok Hrun Hnf Hws) as Hss.
  assert (∀ s', accept_step s s' → False) as Hno by (intros s' Hs; apply Hnf; eexists; by eapply server_accept).
  destruct Hok as [_ _ Hcl _ _ Hj]. rewrite Hdone in Hcl.
  destruct (acceptor s) as [| | | | |k| | |] eqn:Ha; [exfalso..| | |by left].
  - by eapply Hno, step_top.
  - by eapply Hno, step_accept_closed.
  - destruct (accept_client (zlen (sessions s))) eqn:Ec; [by eapply Hno, step_register|by eapply Hno, step_exhausted].
  - by eapply Hno, step_catch.
  - by eapply Hno, step_caught.
  - destruct (workers s !! k) eqn:Ek; [by eapply Hno, step_join_flag|by eapply Hno, step_join_flagged].
  - right. split; [done|]. destruct (over_or_not (sessions s)) as [Hall|(i & x & Hi & Hx)];
      [exfalso; by eapply Hno, step_join_sessions|].
    destruct (Hss i x Hi) as [?|[t Ht]]; [done|by eauto].
  - exfalso. by eapply Hno, step_join_workers.
Qed.

(** C20: Shutdown terminates: once [stop] has cleared [running_], the server's
    threads and its clients make finitely many more steps in any order, and
    where the server's own threads can do nothing more (whatever the clients
    still owe), [stop] is done, every worker has returned, and either [run] has
    returned with every session over, or it joins a session that is stranded:
    one that queued its task after its GPU's worker had returned.  No session
    is left in [recv] or [send], and no task queued in time is left behind.
    Computations end, and no SIGPIPE (AdiSession.v) ends the process first. *)
Theorem adi_shutdown_terminates gpus s :
  (0 < gpus)%nat → rtc adi_step (start_workers gpus) s → running s = false →
  sn adi_step s ∧
  ∀ s', rtc adi_step s s' → nf server_step s' →
    stopper s' = StopDone ∧ Forall (λ w, exited w = true) (workers s') ∧
    (∀ i x, sessions s' !! i = Some x → phase x = Over ∨ ∃ t, stranded s' i t) ∧
    ((acceptor s' = Returned ∧ Forall (λ x, phase x = Over) (sessions s')) ∨
     (acceptor s' = JoinSessions ∧ ∃ i t, stranded s' i t)).
Proof.
  intros Hgpus Hr Hrun. split.
  { apply (sn_measure adi_step (λ s, running s = false) weight); [|done]. intros x y. apply adi_step_weight. }
  intros s' Hr' Hnf.
  destruct (workers_reachable_inv gpus s') as [Hinv Hok]; [by etransitivity|].
  assert (running s' = false) as Hrun'.
  { eapply (rtc_invariant adi_step (λ s, running s = false)); [|exact Hrun|exact Hr'].
    intros x y Hx Hxy. by apply (adi_step_weight x). }
  assert (workers s' ≠ []) as Hws.
  { enough (length (workers s') = gpus) by (destruct (workers s'); [cbn in *; lia|done]).
    apply (rtc_invariant adi_step (λ s, length (workers s) = gpus) (start_workers gpus)); [|apply length_replicate|by etransitivity].
    intros x y Hx Hxy. rewrite <- Hx. by apply adi_step_workers. }
  destruct (final_workers s' Hok Hrun' Hnf). split; [done|]. split; [done|].
  split; [by apply final_sessions|by apply final_acceptor].
Qed.

End Steps.

(** ** Samples *)

Definition echo (input : list Z) (gpu : nat) : result (list Z) := Ok input.
Definition late_task : GpuTask := mkTask 0 [1] 0.

(** A client connects and its session sends a request to a running worker. *)
Definition waiting_state : AdiState :=
  mkAdi true [mkWorker [late_task] false None false []] [mkSession (Waiting late_task) false] [] [late_task] AtTop true NotStopped.

Definition reading_state : AdiState :=
  mkAdi true [mkWorker [] false None false []] [mkSession Reading false] [] [] AtTop true NotStopped.

Lemma reading_reachable : rtc (adi_step echo) (start_workers 1) reading_state.
Proof.
  eapply rtc_l; [by apply adi_server, server_accept, step_top|].
  eapply rtc_l; [by apply adi_peer, peer_connect|].
  eapply rtc_l; [by eapply adi_server, server_accept, step_register|].
  eapply rtc_l; [by eapply adi_server, (server_session _ _ 0), step_check|]. apply rtc_refl.
Qed.

Lemma request_reachable :
  rtc (adi_step echo) (start_workers 1)
    (mkAdi true [mkWorker [] false None false []] [mkSession (Placing [1]) false] [] [] AtTop true NotStopped).
Proof.
  eapply rtc_r; [apply reading_reachable|].
  exact (adi_peer _ _ _ (peer_request reading_state 0 (mkSession Reading false) [1] eq_refl (eq_refl))).
Qed.

Lemma waiting_reachable : rtc (adi_step echo) (start_workers 1) waiting_state.
Proof.
  eapply rtc_r; [apply request_reachable|].
  eapply adi_server, (server_session _ _ 0); [done|].
  exact (step_push (mkAdi true [mkWorker [] false None false []] [mkSession (Placing [1]) false] [] [] AtTop true NotStopped)
    0 (mkSession (Placing [1]) false) 0 (mkWorker [] false None false []) [1] eq_refl eq_refl).
Qed.

(** The server stops and the worker returns before the session queues its
    task. *)
Definition stranded_state : AdiState :=
  mkAdi false [mkWorker [late_task] true None true [late_task]] [mkSession (Waiting late_task) true] [] [late_task] AtTop false StopDone.

Lemma stranded_reachable : rtc (adi_step echo) (start_workers 1) stranded_state.
Proof.
  etransitivity; [apply request_reachable|].
  eapply rtc_l; [by apply adi_peer, peer_stop|].
  eapply rtc_l; [by apply adi_server, server_stop, step_stop_listener|].
  eapply rtc_l; [by apply adi_server, server_stop, step_stop_clients|].
  eapply rtc_l; [by eapply adi_server, server_stop, (step_stop_worker _ 0)|].
  eapply rtc_l; [by eapply adi_server, server_stop, (step_stop_done _ 1)|].
  eapply rtc_l; [by eapply adi_server, (server_worker _ _ 0), step_wake|].
  eapply rtc_once, adi_server, (server_session _ _ 0); [done|].
  exact (step_push (mkAdi false [mkWorker [] true None true []] [mkSession (Placing [1]) true] [] [] AtTop false StopDone)
    0 (mkSession (Placing [1]) true) 0 (mkWorker [] true None true []) [1] eq_refl eq_refl).
Qed.

Lemma stranded_state_stranded : stranded stranded_state 0 late_task.
Proof.
  split; [by exists (mkSession (Waiting late_task) true)|].
  exists (mkWorker [late_task] true None true [late_task]). split_and!; [done|done|by left].
Qed.

Lemma adi_stop_strands_witness :
  rtc (adi_step echo) (start_workers 1) stranded_state ∧
  ∀ s', rtc (adi_step echo) stranded_state s' → acceptor s' ≠ Returned.
Proof.
  split; [apply stranded_reachable|]. intros s' Hr.
  by apply (adi_stop_strands echo 1 stranded_state s' 0 late_task stranded_reachable stranded_state_stranded).
Defined.

Lemma adi_tasks_served_witness :
  rtc (adi_step echo) (start_workers 1) waiting_state ∧
  ∃ s', rtc (worker_step echo 0) waiting_state s' ∧ (late_task, Ok [1]) ∈ promises s'.
Proof.
  split; [apply waiting_reachable|].
  destruct (adi_tasks_served echo 1 waiting_state waiting_reachable) as (_ & _ & _ & Hs).
  destruct (Hs 0%nat (mkSession (Waiting late_task) false) late_task eq_refl eq_refl) as (w & Hw & _ & Hserve).
  destruct Hserve as (s' & Hr & _ & Hp); [by injection Hw as <-|]. by exists s'.
Defined.

(** The server stops while the session waits in [recv] and another client has
    been accepted. *)
Definition stopping_state : AdiState :=
  mkAdi false [mkWorker [] false None false []] [mkSession Reading false] [] [] Accepted true CloseListener.

Lemma stopping_reachable : rtc (adi_step echo) (start_workers 1) stopping_state.
Proof.
  etransitivity; [apply reading_reachable|].
  eapply rtc_l; [by apply adi_server, server_accept, step_top|].
  eapply rtc_l; [by apply adi_peer, peer_connect|].
  by apply rtc_once, adi_peer, peer_stop.
Qed.

Lemma adi_shutdown_terminates_witness :
  rtc (adi_step echo) (start_workers 1) stopping_state ∧ sn (adi_step echo) stopping_state.
Proof.
  split; [apply stopping_reachable|].
  apply (adi_shutdown_terminates echo 1 stopping_state); [lia|apply stopping_reachable|done].
Defined.
