(* ===== verification/WasmManager.v ===== *)
(** * The WASM module manager (src/wasm_sandbox.cpp, lines 736-1068)

    Registered module versions and their lifecycle.  Every lifecycle operation
    runs under the manager's mutex and is one atomic step; a task is two
    critical sections, [task_begin] and [task_end], with the computation in
    between, so other operations may come between them ([handle_task] takes
    what they do as [between], and [manager_step] is the interleaving
    semantics).  The GPU selector is a callback with a state of its own. *)

From stdpp Require Import pretty.
From S2P Require Import Prelude HostBytes Wire WasmCodec Ieee.

(** ** Data *)

Record ModuleRecord := mkModule {
  mr_sandbox_id : bytes;
  mr_module_id : bytes;
  mr_version : bytes;
  mr_state : WasmModuleState;
  mr_assigned_gpu : Z;
  mr_lease_token : bytes;
  mr_active_tasks : Z;
}.

Definition with_state (r : ModuleRecord) (s : WasmModuleState) : ModuleRecord :=
  mkModule (mr_sandbox_id r) (mr_module_id r) (mr_version r) s (mr_assigned_gpu r)
    (mr_lease_token r) (mr_active_tasks r).
Definition with_tasks (r : ModuleRecord) (n : Z) : ModuleRecord :=
  mkModule (mr_sandbox_id r) (mr_module_id r) (mr_version r) (mr_state r) (mr_assigned_gpu r)
    (mr_lease_token r) n.

Definition make_key (sandbox_id module_id version : bytes) : bytes :=
  sandbox_id ++ str ":" ++ module_id ++ str ":" ++ version.

Definition life_key (req : WasmLifecycleRequest) : bytes :=
  make_key (lq_sandbox_id req) (lq_module_id req) (lq_module_version req).
Definition task_key (req : WasmTaskRequest) : bytes :=
  make_key (tq_sandbox_id req) (tq_module_id req) (tq_module_version req).

(** [std::to_string] of an unsigned value. *)
Definition dec (v : Z) : bytes := str (pretty v).

Section Manager.
Context {St : Type}.

(** The selector's answer and its state afterwards. *)
Definition GpuSelectorFn : Type := bytes → Z → St → result (Z * St).

Record Manager := mkManager {
  modules : gmap bytes ModuleRecord;
  force_cpu : bool;
  gpu_selector : option GpuSelectorFn;
  next_lease_id : Z;
}.

Definition new_manager (force_cpu : bool) (gpu_selector : option GpuSelectorFn) : Manager :=
  mkManager ∅ force_cpu gpu_selector 1.

Definition set_force_cpu (m : Manager) (b : bool) : Manager :=
  mkManager (modules m) b (gpu_selector m) (next_lease_id m).
Definition set_gpu_selector (m : Manager) (sel : option GpuSelectorFn) : Manager :=
  mkManager (modules m) (force_cpu m) sel (next_lease_id m).
Definition set_modules (m : Manager) (ms : gmap bytes ModuleRecord) : Manager :=
  mkManager ms (force_cpu m) (gpu_selector m) (next_lease_id m).

(** ** Lifecycle *)

(** A response to [req] with the members the operations set. *)
Definition life_reply (action : WasmLifecycleAction) (req : WasmLifecycleRequest)
    (status : WasmLifecycleStatus) (gpu tasks : Z) (state : WasmModuleState) (lease error : bytes)
    : WasmLifecycleResponse :=
  mkLifeResponse action status WASM_PROTOCOL_VERSION (lq_request_id req) (lq_sandbox_id req)
    (lq_module_id req) (lq_module_version req) gpu tasks state lease error.

Definition record_reply (action : WasmLifecycleAction) (req : WasmLifecycleRequest)
    (status : WasmLifecycleStatus) (r : ModuleRecord) (error : bytes) : WasmLifecycleResponse :=
  life_reply action req status (mr_assigned_gpu r) (mr_active_tasks r) (mr_state r)
    (mr_lease_token r) error.

(** The device of a new module version. *)
Definition choose_gpu (m : Manager) (req : WasmLifecycleRequest) (st : St) : result (Z * St) :=
  if 0 <=? lq_target_gpu req then Ok (lq_target_gpu req, st)
  else if force_cpu m then Ok (-1, st)
  else match gpu_selector m with
  | Some sel => sel (lq_sandbox_id req) (lq_target_gpu req) st
  | None => Ok (-1, st)
  end.

(** Registration, past the early returns of [prepare_module]. *)
Definition register_module (m : Manager) (req : WasmLifecycleRequest) (st : St)
    : result (WasmLifecycleResponse * Manager * St) :=
  '(assigned_gpu, st) <-! choose_gpu m req st;;
  let lease := str "lease-" ++ lq_sandbox_id req ++ str "-" ++ lq_module_id req ++ str "-" ++
               lq_module_version req ++ str "-" ++ dec (next_lease_id m) in
  let rec := mkModule (lq_sandbox_id req) (lq_module_id req) (lq_module_version req) Prepared
               assigned_gpu lease 0 in
  Ok (life_reply Prepare req LifeOk assigned_gpu 0 Prepared lease [],
      mkManager (<[life_key req := rec]> (modules m)) (force_cpu m) (gpu_selector m)
        (wrap 64 (next_lease_id m + 1)), st).

Definition prepare_module (m : Manager) (req : WasmLifecycleRequest) (st : St)
    : result (WasmLifecycleResponse * Manager * St) :=
  if bool_decide (lq_sandbox_id req = []) || bool_decide (lq_module_id req = [])
     || bool_decide (lq_module_version req = []) then
    Ok (life_reply Prepare req LifeRejected (-1) 0 Unknown []
          (str "sandbox_id, module_id, and module_version must be non-empty"), m, st)
  else match modules m !! life_key req with
  | Some r =>
      if bool_decide (mr_state r = Prepared) || bool_decide (mr_state r = Active) then
        Ok (record_reply Prepare req LifeOk r [], m, st)
      else if bool_decide (mr_state r = Draining) || bool_decide (mr_state r = Stopped) then
        Ok (life_reply Prepare req LifeBusy (-1) 0 (mr_state r) []
              (str "module version is currently draining or stopped; cannot prepare until released"),
            m, st)
      else register_module m req st
  | None => register_module m req st
  end.

Definition drain_module (m : Manager) (req : WasmLifecycleRequest) : WasmLifecycleResponse * Manager :=
  match modules m !! life_key req with
  | None => (life_reply Drain req LifeNotFound (-1) 0 Unknown [] (str "module version not registered"), m)
  | Some r =>
      if bool_decide (mr_state r = Released) then
        (life_reply Drain req LifeNotFound (-1) 0 Unknown [] (str "module version already released"), m)
      else
        let r := with_state r (if mr_active_tasks r =? 0 then Stopped else Draining) in
        (record_reply Drain req LifeOk r [], set_modules m (<[life_key req := r]> (modules m)))
  end.

Definition release_module (m : Manager) (req : WasmLifecycleRequest) : WasmLifecycleResponse * Manager :=
  match modules m !! life_key req with
  | None => (life_reply Release req LifeNotFound (-1) 0 Unknown [] (str "module version not registered"), m)
  | Some r =>
      if 0 <? mr_active_tasks r then
        (record_reply Release req LifeBusy r
           (str "cannot release module version while tasks are in-flight; wait for drain to complete"), m)
      else
        (life_reply Release req LifeOk (mr_assigned_gpu r) 0 Released (mr_lease_token r) [],
         set_modules m (delete (life_key req) (modules m)))
  end.

Definition query_module (m : Manager) (req : WasmLifecycleRequest) : WasmLifecycleResponse :=
  match modules m !! life_key req with
  | None => life_reply Query req LifeNotFound (-1) 0 Unknown [] (str "module version not registered")
  | Some r => record_reply Query req LifeOk r []
  end.

Definition handle_lifecycle (m : Manager) (req : WasmLifecycleRequest) (st : St)
    : result (WasmLifecycleResponse * Manager * St) :=
  match lq_action req with
  | Prepare => prepare_module m req st
  | Drain => let '(resp, m) := drain_module m req in Ok (resp, m, st)
  | Release => let '(resp, m) := release_module m req in Ok (resp, m, st)
  | Query => Ok (query_module m req, m, st)
  | ActionUnnamed _ =>
      Ok (life_reply (lq_action req) req LifeError (-1) 0 Unknown [] (str "unknown lifecycle action"), m, st)
  end.

Definition is_module_active (m : Manager) (sandbox_id module_id version : bytes) : bool :=
  match modules m !! make_key sandbox_id module_id version with
  | None => false
  | Some r => bool_decide (mr_state r = Prepared) || bool_decide (mr_state r = Active)
  end.
Definition get_module_state (m : Manager) (sandbox_id module_id version : bytes) : WasmModuleState :=
  match modules m !! make_key sandbox_id module_id version with
  | None => Unknown
  | Some r => mr_state r
  end.
Definition get_active_tasks (m : Manager) (sandbox_id module_id version : bytes) : Z :=
  match modules m !! make_key sandbox_id module_id version with
  | None => 0
  | Some r => mr_active_tasks r
  end.

(** ** Tasks *)

Definition task_reply (req : WasmTaskRequest) (status : WasmTaskStatus) (gpu latency : Z)
    (res error : bytes) : WasmTaskResponse :=
  mkTaskResponse (tq_task_id req) status WASM_PROTOCOL_VERSION gpu latency (tq_buffers req) res error.

Definition version_msg (req : WasmTaskRequest) (what : bytes) : bytes :=
  str "module version " ++ tq_module_version req ++ what.

(** The first critical section: the early return, or the device assigned. *)
Definition task_begin (m : Manager) (req : WasmTaskRequest) : (WasmTaskResponse + Z) * Manager :=
  match modules m !! task_key req with
  | None => (inl (task_reply req TaskModuleNotFound (-1) 0 [] (version_msg req (str " is not registered"))), m)
  | Some r =>
      if bool_decide (mr_state r = Draining) then
        (inl (task_reply req TaskModuleDraining (-1) 0 []
                (version_msg req (str " is draining; hotswap in progress"))), m)
      else if bool_decide (mr_state r = Stopped) || bool_decide (mr_state r = Released) then
        (inl (task_reply req TaskRejected (-1) 0 []
                (version_msg req (str " is stopped or released"))), m)
      else
        (inr (mr_assigned_gpu r),
         set_modules m (<[task_key req := with_tasks (with_state r Active)
                                            (wrap 32 (mr_active_tasks r + 1))]> (modules m)))
  end.

(** The second critical section. *)
Definition task_end (m : Manager) (key : bytes) : Manager :=
  match modules m !! key with
  | None => m
  | Some r =>
      let r := if 0 <? mr_active_tasks r then with_tasks r (mr_active_tasks r - 1) else r in
      let r := if bool_decide (mr_state r = Draining) && (mr_active_tasks r =? 0)
               then with_state r Stopped else r in
      set_modules m (<[key := r]> (modules m))
  end.

(** Consecutive eight-byte groups, as [memcpy] to an array of doubles. *)
Fixpoint words (h : endian) (n : nat) (l : bytes) : list Z :=
  match n with
  | O => []
  | S n => mem_load h (firstn 8 l) :: words h n (skipn 8 l)
  end.

(** The [try] block: [gpu_compute] is [default_gpu_compute], [compute_fn] the
    optional override. *)
Definition task_compute (h : endian) (gpu_compute : list Z → Z → result (list Z))
    (compute_fn : option (Z → WasmTaskRequest → result bytes)) (gpu : Z) (req : WasmTaskRequest)
    : result bytes :=
  match compute_fn with
  | Some f => f gpu req
  | None =>
      if bool_decide (tq_payload req = []) then Ok []
      else if zlen (tq_payload req) mod 8 =? 0 then
        let doubles := words h (Z.to_nat (zlen (tq_payload req) / 8)) (tq_payload req) in
        let compute_gpu := if 0 <=? gpu then gpu else 0 in
        out_doubles <-! gpu_compute doubles compute_gpu;;
        Ok (concat (mem_store h 8 <$> out_doubles))
      else Ok (tq_payload req)
  end.

(** The whole handler; [between] is what other threads do to the manager
    while the task computes, [latency] the measured time. *)
Definition handle_task (m : Manager) (req : WasmTaskRequest) (compute : Z → result bytes)
    (between : Manager → Manager) (latency : Z) : result (WasmTaskResponse * Manager) :=
  let '(start, m) := task_begin m req in
  match start with
  | inl resp => Ok (resp, m)
  | inr gpu =>
      resp <-! match compute gpu with
               | Ok res => Ok (task_reply req TaskOk gpu latency res [])
               | Err what => Ok (task_reply req TaskError gpu latency [] what)
               | OutOfBounds => OutOfBounds
               | NoFuel => NoFuel
               end;;
      Ok (resp, task_end (between m) (task_key req))
  end.

End Manager.
Arguments Manager : clear implicits.
Arguments GpuSelectorFn : clear implicits.

(** ** Interleavings *)

(** The tasks between their two critical sections, by module key. *)
Record system (St : Type) := mkSystem { manager : Manager St; inflight : list bytes }.
Arguments mkSystem {St}.
Arguments manager {St}.
Arguments inflight {St}.

Section Steps.
Context {St : Type}.

(** One critical section of one thread.  A task may begin while fewer than
    2^32 - 1 are in flight (there are fewer threads than that). *)
Inductive manager_step : system St → system St → Prop :=
| step_lifecycle m fl req st resp m' st' :
    handle_lifecycle m req st = Ok (resp, m', st') →
    manager_step (mkSystem m fl) (mkSystem m' fl)
| step_begin m fl req gpu m' :
    zlen fl < u32_max → task_begin m req = (inr gpu, m') →
    manager_step (mkSystem m fl) (mkSystem m' (task_key req :: fl))
| step_end m fl1 fl2 key :
    manager_step (mkSystem m (fl1 ++ key :: fl2)) (mkSystem (task_end m key) (fl1 ++ fl2))
| step_force_cpu m fl b :
    manager_step (mkSystem m fl) (mkSystem (set_force_cpu m b) fl)
| step_selector m fl sel :
    manager_step (mkSystem m fl) (mkSystem (set_gpu_selector m sel) fl).

(** A module's record against the tasks in flight for it. *)
Definition record_ok (r : ModuleRecord) (n : Z) : Prop :=
  mr_active_tasks r = n ∧
  match mr_state r with
  | Prepared | Stopped => n = 0
  | Active => True
  | Draining => 0 < n
  | _ => False
  end.

Definition system_inv (s : system St) : Prop :=
  zlen (inflight s) ≤ u32_max ∧
  (∀ key r, modules (manager s) !! key = Some r → record_ok r (tasks_of key (inflight s))) ∧
  (∀ key, key ∈ inflight s → is_Some (modules (manager s) !! key)).

Lemma inv_new force_cpu sel : system_inv (mkSystem (new_manager force_cpu sel) []).
Proof.
  split_and!; [by vm_compute| |set_solver]. intros key r. cbn. by rewrite lookup_empty.
Qed.

(** Replacing one record. *)
Lemma inv_update m fl key r :
  system_inv (mkSystem m fl) → record_ok r (tasks_of key fl) →
  system_inv (mkSystem (set_modules m (<[key := r]> (modules m))) fl).
Proof.
  intros (Hz & Hr & Hk) Hok. split; [done|]. cbn [manager inflight modules set_modules] in *. split.
  - intros k r'. destruct (decide (k = key)) as [->|Hne].
    + rewrite lookup_insert_eq. by intros [= <-].
    + rewrite lookup_insert_ne by done. apply Hr.
  - intros k Hin. destruct (decide (k = key)) as [->|Hne].
    + rewrite lookup_insert_eq. eauto.
    + rewrite lookup_insert_ne by done. by apply Hk.
Qed.

Lemma inv_same_modules m m' fl :
  modules m' = modules m → system_inv (mkSystem m fl) → system_inv (mkSystem m' fl).
Proof. unfold system_inv. cbn. by intros ->. Qed.

Lemma inv_unregistered m fl key : system_inv (mkSystem m fl) → modules m !! key = None → tasks_of key fl = 0.
Proof.
  intros (_ & _ & Hk) Hn. pose proof (tasks_of_range key fl).
  destruct (decide (0 < tasks_of key fl)) as [Hp|]; [|lia].
  apply tasks_of_pos, Hk in Hp. cbn in Hp. rewrite Hn in Hp. by destruct Hp.
Qed.

Lemma inv_register m fl req st resp m' st' :
  system_inv (mkSystem m fl) → modules m !! life_key req = None →
  register_module m req st = Ok (resp, m', st') → system_inv (mkSystem m' fl).
Proof.
  intros Hinv Hn E. unfold register_module in E. apply rbind_Ok in E as ([gpu st1] & _ & E).
  injection E as _ <- _.
  eapply inv_same_modules; [|eapply (inv_update _ _ (life_key req)); [exact Hinv|]]; [done|].
  split; cbn; by rewrite (inv_unregistered m fl).
Qed.

Lemma inv_prepare m fl req st resp m' st' :
  system_inv (mkSystem m fl) → prepare_module m req st = Ok (resp, m', st') →
  system_inv (mkSystem m' fl).
Proof.
  intros Hinv. unfold prepare_module. case_match; [by intros [= _ <- _]|].
  destruct (modules m !! life_key req) as [r|] eqn:E; [|by eapply inv_register].
  pose proof Hinv as (_ & Hr & _). destruct (Hr _ _ E) as [_ Hs].
  destruct (mr_state r); try done; cbn; by intros [= _ <- _].
Qed.

Lemma inv_drain m fl req :
  system_inv (mkSystem m fl) → system_inv (mkSystem (drain_module m req).2 fl).
Proof.
  intros Hinv. unfold drain_module. destruct (modules m !! life_key req) as [r|] eqn:E; [|done].
  pose proof Hinv as (_ & Hr & _). destruct (Hr _ _ E) as [Hn _]. cbn in Hn.
  case_match; [done|]. apply inv_update; [done|]. pose proof (tasks_of_range (life_key req) fl).
  destruct (Z.eqb_spec (mr_active_tasks r) 0); split; cbn; lia.
Qed.

Lemma inv_release m fl req :
  system_inv (mkSystem m fl) → system_inv (mkSystem (release_module m req).2 fl).
Proof.
  intros Hinv. unfold release_module. destruct (modules m !! life_key req) as [r|] eqn:E; [|done].
  pose proof Hinv as (Hz & Hr & Hk). destruct (Hr _ _ E) as [Hn _]. cbn in Hn, Hk, Hr.
  destruct (Z.ltb_spec 0 (mr_active_tasks r)); [done|]. split; [done|].
  cbn [snd manager inflight modules set_modules]. split.
  - intros k r' Hk'. apply lookup_delete_Some in Hk' as [_ Hk']. by apply Hr.
  - intros k Hin. rewrite lookup_delete_ne; [by apply Hk|]. intros <-.
    apply tasks_of_pos in Hin. lia.
Qed.

Lemma inv_lifecycle m fl req st resp m' st' :
  system_inv (mkSystem m fl) → handle_lifecycle m req st = Ok (resp, m', st') →
  system_inv (mkSystem m' fl).
Proof.
  intros Hinv. unfold handle_lifecycle.
  destruct (lq_action req); [by eapply inv_prepare| | |by intros [= _ <- _]..].
  - pose proof (inv_drain m fl req Hinv) as H. destruct (drain_module m req). by intros [= _ <- _].
  - pose proof (inv_release m fl req Hinv) as H. destruct (release_module m req). by intros [= _ <- _].
Qed.

Lemma inv_begin m fl req gpu m' :
  system_inv (mkSystem m fl) → zlen fl < u32_max → task_begin m req = (inr gpu, m') →
  system_inv (mkSystem m' (task_key req :: fl)).
Proof.
  intros (Hz & Hr & Hk) Hlt. unfold task_begin. cbn [manager inflight] in *.
  destruct (modules m !! task_key req) as [r|] eqn:E; [|done]. do 2 (case_match; [done|]).
  intros [= _ <-]. destruct (Hr _ _ E) as [Hn _]. pose proof (tasks_of_range (task_key req) fl).
  split; [cbn; rewrite zlen_cons; lia|]. cbn [manager inflight modules set_modules]. split.
  - intros k r'. rewrite tasks_of_cons. destruct (decide (task_key req = k)) as [<-|Hne].
    + rewrite lookup_insert_eq. intros [= <-]. split; [|done]. cbn. rewrite Hn.
      rewrite wrap_small; [lia|]. unfold is_uint, u32_max in *. lia.
    + rewrite lookup_insert_ne by done. intros Hk'. apply Hr in Hk'. by rewrite Z.add_0_l.
  - intros k [->|Hin]%elem_of_cons; [rewrite lookup_insert_eq; eauto|].
    destruct (decide (k = task_key req)) as [->|Hne]; [rewrite lookup_insert_eq; eauto|].
    rewrite lookup_insert_ne by done. by apply Hk.
Qed.

(** The record after the second critical section of one of its tasks. *)
Lemma task_end_record r n :
  record_ok r n → 0 < n →
  let r1 := if 0 <? mr_active_tasks r then with_tasks r (mr_active_tasks r - 1) else r in
  let r2 := if bool_decide (mr_state r1 = Draining) && (mr_active_tasks r1 =? 0)
            then with_state r1 Stopped else r1 in
  record_ok r2 (n - 1) ∧
  mr_state r2 = (if bool_decide (mr_state r = Draining) && (n =? 1) then Stopped else mr_state r).
Proof.
  intros [Ha Hs] Hn. destruct r as [sb mo ve st g le a]. cbn in Ha, Hs |- *. subst a.
  destruct (Z.ltb_spec 0 n); [|lia].
  unfold record_ok. destruct st; cbn; try lia; repeat (case_bool_decide; try done); cbn.
  replace (n - 1 =? 0) with (n =? 1) by lia.
  destruct (Z.eqb_spec n 1); cbn; (split; [split|]); lia || done.
Qed.

Lemma inv_end m fl1 key fl2 :
  system_inv (mkSystem m (fl1 ++ key :: fl2)) → system_inv (mkSystem (task_end m key) (fl1 ++ fl2)).
Proof.
  intros (Hz & Hr & Hk). cbn [manager inflight] in *. unfold task_end.
  pose proof (λ k, tasks_of_remove k key fl1 fl2) as Hc.
  destruct (Hk key) as [r E]; [set_solver|]. rewrite E. specialize (Hr key) as Hrk. rewrite Hc in Hrk.
  destruct (decide (key = key)); [|done]. pose proof (tasks_of_range key (fl1 ++ fl2)).
  destruct (task_end_record r _ (Hrk r E)) as [Hok _]; [lia|].
  split; [cbn; rewrite zlen_app, zlen_cons in Hz; rewrite zlen_app; lia|].
  cbn [manager inflight modules set_modules]. split.
  - intros k r'. destruct (decide (k = key)) as [->|Hne].
    + rewrite lookup_insert_eq. intros [= <-]. by rewrite Z.add_simpl_r in Hok.
    + rewrite lookup_insert_ne by done. intros Hk'. apply Hr in Hk'. rewrite Hc in Hk'.
      destruct (decide (key = k)); [done|]. by rewrite Z.add_0_r in Hk'.
  - intros k Hin. destruct (decide (k = key)) as [->|Hne]; [rewrite lookup_insert_eq; eauto|].
    rewrite lookup_insert_ne by done. apply Hk. set_solver.
Qed.

Lemma step_inv s s' : system_inv s → manager_step s s' → system_inv s'.
Proof.
  intros Hinv Hstep. destruct Hstep.
  - by eapply inv_lifecycle.
  - by eapply inv_begin.
  - by apply inv_end.
  - by eapply inv_same_modules.
  - by eapply inv_same_modules.
Qed.

(** The states a manager can reach from its construction. *)
Definition reachable (s : system St) : Prop :=
  ∃ force_cpu sel, rtc manager_step (mkSystem (new_manager force_cpu sel) []) s.

Lemma reachable_inv s : reachable s → system_inv s.
Proof.
  intros (b & sel & Hr). eapply rtc_invariant; [apply step_inv|apply (inv_new b sel)|exact Hr].
Qed.

End Steps.

(** ** Theorems *)

(** C2: in every reachable state of the manager, whatever the interleaving of
    lifecycle operations and tasks, the task counter of each registered module
    version equals the number of its tasks in flight; a prepared or stopped
    version has none, a draining one has some; no registered version is in the
    unknown or released state; and a task in flight keeps its version
    registered. *)
Theorem manager_invariant {St} (s : system St) :
  reachable s →
  (∀ key r, modules (manager s) !! key = Some r →
     mr_active_tasks r = tasks_of key (inflight s) ∧
     (mr_state r = Prepared ∨ mr_state r = Stopped → tasks_of key (inflight s) = 0) ∧
     (mr_state r = Draining → 0 < tasks_of key (inflight s)) ∧
     mr_state r ∈ [Prepared; Active; Draining; Stopped]) ∧
  (∀ key, key ∈ inflight s → is_Some (modules (manager s) !! key)).
Proof.
  intros Hr. destruct (reachable_inv s Hr) as (_ & Hrec & Hk). split; [|done].
  intros key r E. destruct (Hrec key r E) as [Hn Hs].
  destruct (mr_state r); try done; split_and!; try done; try (intros [?|?]; done); set_solver.
Qed.

(** A run: prepare, a task begins, and a drain while it computes. *)
Definition sample_life (a : WasmLifecycleAction) : WasmLifecycleRequest :=
  mkLifeRequest a (str "r1") (str "sb") (str "mod") (str "1.0.0") (-1) 0 [] [].

Definition sample_manager : Manager unit := new_manager true None.
Definition manager_after (m : Manager unit) (req : WasmLifecycleRequest) : Manager unit :=
  match handle_lifecycle m req tt with Ok (_, m', _) => m' | _ => m end.
Definition sample_prepared : Manager unit := manager_after sample_manager (sample_life Prepare).
Definition sample_active : Manager unit := (task_begin sample_prepared sample_task).2.
Definition sample_draining : system unit :=
  mkSystem (manager_after sample_active (sample_life Drain)) [task_key sample_task].

Lemma lifecycle_after m fl req :
  is_ok (handle_lifecycle m req tt) = true →
  manager_step (mkSystem m fl) (mkSystem (manager_after m req) fl).
Proof.
  unfold manager_after. destruct (handle_lifecycle m req tt) as [[[resp m'] []]| | |] eqn:E; try done.
  intros _. by eapply step_lifecycle.
Qed.

Lemma sample_draining_reachable : reachable sample_draining.
Proof.
  exists true, None. eapply rtc_l; [by apply (lifecycle_after _ _ (sample_life Prepare))|].
  eapply rtc_l; [|eapply rtc_once; by apply (lifecycle_after _ _ (sample_life Drain))].
  apply (step_begin _ _ sample_task (-1)); [done|]. by vm_compute.
Qed.

Lemma manager_invariant_witness :
  (∃ r, modules (manager sample_draining) !! task_key sample_task = Some r ∧ mr_state r = Draining) ∧
  (∀ key r, modules (manager sample_draining) !! key = Some r →
     mr_active_tasks r = tasks_of key (inflight sample_draining)).
Proof.
  split; [eexists; split; reflexivity|]. intros key r E.
  exact (proj1 (proj1 (manager_invariant sample_draining sample_draining_reachable) key r E)).
Defined.

(** C4: releasing a module version in a reachable state frees it exactly when
    none of its tasks is in flight: then the version, and no other, is
    unregistered; otherwise the answer is busy (or not found) and nothing
    changes. *)
Theorem release_safe {St} (s : system St) req :
  reachable s →
  let '(resp, m') := release_module (manager s) req in
  match modules (manager s) !! life_key req with
  | None => lr_status resp = LifeNotFound ∧ m' = manager s
  | Some r =>
      if 0 <? tasks_of (life_key req) (inflight s) then lr_status resp = LifeBusy ∧ m' = manager s
      else lr_status resp = LifeOk ∧ life_key req ∉ inflight s ∧
           modules m' = delete (life_key req) (modules (manager s)) ∧ lr_lease_token resp = mr_lease_token r
  end.
Proof.
  intros Hr. destruct (reachable_inv s Hr) as (_ & Hrec & Hk). unfold release_module.
  destruct (modules (manager s) !! life_key req) as [r|] eqn:E; [|done].
  destruct (Hrec _ _ E) as [-> _].
  destruct (Z.ltb_spec 0 (tasks_of (life_key req) (inflight s))); [done|]. split_and!; [done| |done..].
  rewrite <- tasks_of_pos. lia.
Qed.

Lemma release_safe_witness :
  lr_status (release_module (manager sample_draining) (sample_life Release)).1 = LifeBusy.
Proof.
  pose proof (release_safe sample_draining (sample_life Release) sample_draining_reachable) as H.
  vm_compute in H. vm_compute. apply H.
Defined.

(** Draining or stopped: the version accepts no more tasks. *)
Definition closed (r : ModuleRecord) : Prop := mr_state r = Draining ∨ mr_state r = Stopped.

Section Drain.
Context {St : Type}.

Lemma register_modules (m m' : Manager St) req st resp st' :
  register_module m req st = Ok (resp, m', st') →
  ∃ r, modules m' = <[life_key req := r]> (modules m) ∧ mr_state r = Prepared ∧
    mr_lease_token r = lr_lease_token resp ∧ mr_assigned_gpu r = lr_assigned_gpu resp ∧
    mr_active_tasks r = 0 ∧ lr_status resp = LifeOk.
Proof.
  unfold register_module. intros E. apply rbind_Ok in E as ([gpu st1] & _ & E).
  injection E as <- <- _. eexists. split; [done|]. by split_and!.
Qed.

Lemma prepare_cases (m m' : Manager St) req st resp st' :
  prepare_module m req st = Ok (resp, m', st') →
  (m' = m ∧ st' = st) ∨
  (register_module m req st = Ok (resp, m', st') ∧
   ∀ r, modules m !! life_key req = Some r → ¬ closed r).
Proof.
  unfold prepare_module, closed. case_match; [intros; simplify_eq; by left|].
  destruct (modules m !! life_key req) as [r|]; [|by right].
  case_match; [intros; simplify_eq; by left|].
  destruct (bool_decide (mr_state r = Draining) || _) eqn:E; [intros; simplify_eq; by left|].
  apply orb_false_iff in E as [E1%bool_decide_eq_false E2%bool_decide_eq_false].
  right. split; [done|]. by intros ? [= <-] [?|?].
Qed.

(** Operations touch only the version they name. *)
Lemma lifecycle_other (m m' : Manager St) req st resp st' key :
  handle_lifecycle m req st = Ok (resp, m', st') → key ≠ life_key req →
  modules m' !! key = modules m !! key.
Proof.
  intros E Hne. unfold handle_lifecycle in E. destruct (lq_action req).
  - apply prepare_cases in E as [[-> _]|[E _]]; [done|].
    apply register_modules in E as (r & -> & _). by rewrite lookup_insert_ne.
  - unfold drain_module in E. repeat (case_match; simplify_eq); try done;
      cbn [set_modules modules]; by rewrite lookup_insert_ne.
  - unfold release_module in E. repeat (case_match; simplify_eq); try done;
      cbn [set_modules modules]; by rewrite lookup_delete_ne.
  - by simplify_eq.
  - by simplify_eq.
Qed.

Lemma lifecycle_closed (m m' : Manager St) req st resp st' key r :
  handle_lifecycle m req st = Ok (resp, m', st') → modules m !! key = Some r → closed r →
  (modules m' !! key = None ∧ mr_active_tasks r ≤ 0) ∨
  (∃ r', modules m' !! key = Some r' ∧ closed r' ∧ mr_lease_token r' = mr_lease_token r).
Proof.
  intros E Hr Hc. destruct (decide (key = life_key req)) as [->|Hne].
  2: { right. exists r. by rewrite (lifecycle_other _ _ _ _ _ _ _ E). }
  unfold handle_lifecycle in E. destruct (lq_action req).
  - apply prepare_cases in E as [[-> _]|[_ Hn]]; [eauto|]. by destruct (Hn r).
  - unfold drain_module in E. rewrite Hr in E. right.
    case_bool_decide; [destruct Hc; congruence|]. simplify_eq. cbn [set_modules modules].
    rewrite lookup_insert_eq. eexists. split; [done|]. split; [|done]. unfold closed. cbn.
    case_match; auto.
  - unfold release_module in E. rewrite Hr in E.
    destruct (Z.ltb_spec 0 (mr_active_tasks r)); simplify_eq; [right; eauto|]. left.
    cbn [set_modules modules]. by rewrite lookup_delete_eq.
  - simplify_eq. eauto.
  - simplify_eq. eauto.
Qed.

Lemma begin_closed (m m' : Manager St) req gpu key r :
  task_begin m req = (inr gpu, m') → modules m !! key = Some r → closed r →
  key ≠ task_key req ∧ modules m' !! key = Some r.
Proof.
  unfold task_begin. intros E Hr Hc. destruct (decide (key = task_key req)) as [->|Hne].
  - rewrite Hr in E. destruct Hc as [Hs|Hs]; rewrite Hs in E; done.
  - split; [done|]. repeat case_match; simplify_eq. cbn [set_modules modules].
    by rewrite lookup_insert_ne.
Qed.

Lemma end_closed (m : Manager St) k key r :
  modules m !! key = Some r → closed r →
  ∃ r', modules (task_end m k) !! key = Some r' ∧ closed r' ∧ mr_lease_token r' = mr_lease_token r.
Proof.
  unfold task_end. intros Hr Hc. destruct (decide (key = k)) as [<-|Hne].
  - rewrite Hr. cbn [set_modules modules]. rewrite lookup_insert_eq. eexists. split; [done|].
    unfold closed in *. repeat case_match; cbn; auto.
  - exists r. split; [|done]. case_match; [|done]. cbn [set_modules modules].
    by rewrite lookup_insert_ne.
Qed.

Lemma step_closed (s s' : system St) key r :
  system_inv s → manager_step s s' → modules (manager s) !! key = Some r → closed r →
  (modules (manager s') !! key = None ∧ tasks_of key (inflight s) = 0) ∨
  (∃ r', modules (manager s') !! key = Some r' ∧ closed r' ∧ mr_lease_token r' = mr_lease_token r ∧
     tasks_of key (inflight s') ≤ tasks_of key (inflight s)).
Proof.
  intros (_ & Hrec & _) Hstep Hr Hc. destruct (Hrec _ _ Hr) as [Hn _].
  pose proof (tasks_of_range key (inflight s)).
  destruct Hstep as [m fl req st resp m' st' E|m fl req gpu m' _ E|m fl1 fl2 k|m fl b|m fl sel];
    cbn [manager inflight] in *.
  - destruct (lifecycle_closed _ _ _ _ _ _ _ _ E Hr Hc) as [[? ?]|(r' & ? & ? & ?)].
    + left. split; [done|lia].
    + right. exists r'. split_and!; done || lia.
  - right. destruct (begin_closed _ _ _ _ _ _ E Hr Hc) as [Hne Hr']. exists r. split_and!; try done.
    rewrite tasks_of_cons. destruct (decide _); [congruence|lia].
  - right. destruct (end_closed m k key r Hr Hc) as (r' & ? & ? & ?). exists r'. split_and!; try done.
    rewrite !tasks_of_app, tasks_of_cons. case_match; lia.
  - right. exists r. split_and!; done || lia.
  - right. exists r. split_and!; done || lia.
Qed.

End Drain.

(** C3: draining is final: from any reachable state in which a version is
    draining or stopped, any step leaves it draining or stopped with the same
    lease and no more tasks in flight than before, or releases it, which only
    happens when it has no task in flight.  In particular no task begins on
    it and it cannot be prepared again before it is released. *)
Theorem drain_is_final {St} (s s' : system St) key r :
  reachable s → manager_step s s' → modules (manager s) !! key = Some r → closed r →
  (modules (manager s') !! key = None ∧ tasks_of key (inflight s) = 0) ∨
  (∃ r', modules (manager s') !! key = Some r' ∧ closed r' ∧ mr_lease_token r' = mr_lease_token r ∧
     tasks_of key (inflight s') ≤ tasks_of key (inflight s)).
Proof. intros Hr. apply step_closed. by apply reachable_inv. Qed.

Lemma drain_is_final_witness :
  ∃ r, modules (manager sample_draining) !! task_key sample_task = Some r ∧
  let s' := mkSystem (task_end (manager sample_draining) (task_key sample_task)) [] in
  ((modules (manager s') !! task_key sample_task = None ∧
    tasks_of (task_key sample_task) (inflight sample_draining) = 0) ∨
   ∃ r', modules (manager s') !! task_key sample_task = Some r' ∧ closed r' ∧
     mr_lease_token r' = mr_lease_token r ∧
     tasks_of (task_key sample_task) [] ≤ tasks_of (task_key sample_task) (inflight sample_draining)).
Proof.
  eexists. split; [reflexivity|].
  apply (drain_is_final sample_draining); [exact sample_draining_reachable| |reflexivity|by left].
  apply (step_end _ [] []).
Defined.

Lemma closed_progress {St} n : ∀ (s : system St) key r,
  system_inv s → modules (manager s) !! key = Some r → closed r → tasks_of key (inflight s) = Z.of_nat n →
  ∃ s' r', rtc manager_step s s' ∧ system_inv s' ∧ modules (manager s') !! key = Some r' ∧
    mr_state r' = Stopped ∧ tasks_of key (inflight s') = 0.
Proof.
  induction n as [|n IH]; intros s key r Hinv Hr Hc Hn.
  - exists s, r. split; [apply rtc_refl|]. split_and!; try done.
    destruct Hinv as (_ & Hrec & _). destruct (Hrec _ _ Hr) as [_ Hs].
    destruct Hc as [E|E]; [rewrite E in Hs; lia|done].
  - destruct s as [m fl]. cbn [manager inflight] in *.
    assert (key ∈ fl) as (fl1 & fl2 & ->)%list_elem_of_split by (apply tasks_of_pos; lia).
    destruct (end_closed m key key r Hr Hc) as (r1 & Hr1 & Hc1 & _).
    assert (tasks_of key (fl1 ++ fl2) = Z.of_nat n) as Hn1.
    { rewrite tasks_of_app, tasks_of_cons in Hn. rewrite tasks_of_app.
      destruct (decide (key = key)); [lia|done]. }
    destruct (IH (mkSystem (task_end m key) (fl1 ++ fl2)) key r1) as (s' & r' & Hrtc & Hrest);
      [by apply inv_end|done..|].
    exists s', r'. split; [|done]. eapply rtc_l; [apply step_end|done].
Qed.

(** C5: draining completes: from a reachable state in which a version is
    draining or stopped, letting its tasks in flight finish leads to a state
    where it is stopped with none, and there a release succeeds and
    unregisters it. *)
Theorem drain_completes {St} (s : system St) key r :
  reachable s → modules (manager s) !! key = Some r → closed r →
  ∃ s' r', rtc manager_step s s' ∧ modules (manager s') !! key = Some r' ∧ mr_state r' = Stopped ∧
    tasks_of key (inflight s') = 0 ∧
    ∀ req, life_key req = key →
      lr_status (release_module (manager s') req).1 = LifeOk ∧
      modules (release_module (manager s') req).2 !! key = None.
Proof.
  intros Hreach Hr Hc. apply reachable_inv in Hreach.
  destruct (closed_progress (Z.to_nat (tasks_of key (inflight s))) s key r)
    as (s' & r' & Hrtc & Hinv' & Hr' & Hs' & Hn'); [done..| |].
  { pose proof (tasks_of_range key (inflight s)). lia. }
  exists s', r'. split_and!; [done..|]. intros req <-. unfold release_module. rewrite Hr'.
  destruct Hinv' as (_ & Hrec & _). destruct (Hrec _ _ Hr') as [-> _]. rewrite Hn'. cbn.
  by rewrite lookup_delete_eq.
Qed.

Lemma drain_completes_witness :
  ∃ s' r', rtc manager_step sample_draining s' ∧
    modules (manager s') !! task_key sample_task = Some r' ∧ mr_state r' = Stopped.
Proof.
  edestruct (drain_completes sample_draining (task_key sample_task))
    as (s' & r' & H1 & H2 & H3 & _); [exact sample_draining_reachable|reflexivity|by left|].
  by exists s', r'.
Defined.

(** A task on an accepting version, when no other thread intervenes,
    reports success with the computed bytes or the error of the computation,
    on the device the version was assigned, and leaves the manager as it found
    it except that the version is active; a task on any other version is
    refused with the status for its state and changes nothing. *)
Theorem handle_task_spec {St} (m : Manager St) req compute latency :
  match modules m !! task_key req with
  | None => ∃ e, handle_task m req compute id latency
                   = Ok (task_reply req TaskModuleNotFound (-1) 0 [] e, m)
  | Some r =>
      if bool_decide (mr_state r = Draining) then
        ∃ e, handle_task m req compute id latency = Ok (task_reply req TaskModuleDraining (-1) 0 [] e, m)
      else if bool_decide (mr_state r = Stopped) || bool_decide (mr_state r = Released) then
        ∃ e, handle_task m req compute id latency = Ok (task_reply req TaskRejected (-1) 0 [] e, m)
      else
        let m' := set_modules m (<[task_key req := with_state r Active]> (modules m)) in
        0 ≤ mr_active_tasks r < u32_max →
        (∀ res, compute (mr_assigned_gpu r) = Ok res →
           handle_task m req compute id latency
             = Ok (task_reply req TaskOk (mr_assigned_gpu r) latency res [], m')) ∧
        (∀ what, compute (mr_assigned_gpu r) = Err what →
           handle_task m req compute id latency
             = Ok (task_reply req TaskError (mr_assigned_gpu r) latency [] what, m'))
  end.
Proof.
  unfold handle_task, task_begin. destruct (modules m !! task_key req) as [r|] eqn:E; [|by eexists].
  case_bool_decide as Hd; [by eexists|]. case_match eqn:Hs; [by eexists|]. cbv zeta. intros Hn.
  assert (task_end (set_modules m (<[task_key req :=
      with_tasks (with_state r Active) (wrap 32 (mr_active_tasks r + 1))]> (modules m))) (task_key req)
    = set_modules m (<[task_key req := with_state r Active]> (modules m))) as Hend.
  { unfold task_end. cbn [modules set_modules]. rewrite lookup_insert_eq, wrap_small
      by (unfold is_uint, u32_max in *; lia). cbn [mr_active_tasks with_tasks].
    destruct (Z.ltb_spec 0 (mr_active_tasks r + 1)); [|lia]. case_match eqn:Hb.
    { apply andb_true_iff in Hb as [Hb%bool_decide_eq_true _]. done. }
    unfold set_modules. cbn. rewrite insert_insert_eq. f_equal. f_equal.
    unfold with_tasks, with_state. cbn. f_equal. lia. }
  split; intros x ->; cbn [rbind]; unfold id; by rewrite Hend.
Qed.

Definition accepting (r : ModuleRecord) : bool :=
  bool_decide (mr_state r = Prepared) || bool_decide (mr_state r = Active).

Definition unnamed (req : WasmLifecycleRequest) : bool :=
  bool_decide (lq_sandbox_id req = []) || bool_decide (lq_module_id req = [])
  || bool_decide (lq_module_version req = []).

Lemma prepare_accepting {St} (m : Manager St) req st r :
  unnamed req = false → modules m !! life_key req = Some r → accepting r = true →
  prepare_module m req st = Ok (record_reply Prepare req LifeOk r [], m, st).
Proof. unfold unnamed, accepting, prepare_module. by intros -> -> ->. Qed.

(** A successful prepare leaves an accepting record that matches its answer. *)
Lemma prepare_ok {St} (m m' : Manager St) req st st' resp :
  prepare_module m req st = Ok (resp, m', st') → lr_status resp = LifeOk →
  unnamed req = false ∧ ∃ r, modules m' !! life_key req = Some r ∧ accepting r = true ∧
    mr_lease_token r = lr_lease_token resp ∧ mr_assigned_gpu r = lr_assigned_gpu resp.
Proof.
  intros E Hok. assert (register_module m req st = Ok (resp, m', st') →
    ∃ r, modules m' !! life_key req = Some r ∧ accepting r = true ∧
      mr_lease_token r = lr_lease_token resp ∧ mr_assigned_gpu r = lr_assigned_gpu resp) as Hreg.
  { intros (r & -> & Hs & Hl & Hg & _)%register_modules. exists r. unfold accepting.
    by rewrite lookup_insert_eq, Hs. }
  unfold prepare_module in E. fold (unnamed req) in E.
  destruct (unnamed req); [by injection E as <- _ _|]. split; [done|].
  destruct (modules m !! life_key req) as [r|] eqn:Er; [|by apply Hreg]. fold (accepting r) in E.
  destruct (accepting r) eqn:Ha; [injection E as <- <- _; by exists r|].
  case_match; [by injection E as <- _ _|by apply Hreg].
Qed.

(** Registering a version again while it is prepared or active is
    idempotent: after a successful prepare, a second one answers with the same
    device and lease and changes neither the manager nor the selector. *)
Theorem prepare_idempotent {St} (m m' : Manager St) req st st' resp st2 :
  prepare_module m req st = Ok (resp, m', st') → lr_status resp = LifeOk →
  ∃ resp', prepare_module m' req st2 = Ok (resp', m', st2) ∧ lr_status resp' = LifeOk ∧
    lr_lease_token resp' = lr_lease_token resp ∧ lr_assigned_gpu resp' = lr_assigned_gpu resp.
Proof.
  intros E Hok. destruct (prepare_ok m m' req st st' resp E Hok) as (Hids & r & Hr & Ha & Hl & Hg).
  eexists. by rewrite (prepare_accepting m' req st2 r).
Qed.

Lemma prepare_idempotent_witness :
  ∃ resp', prepare_module sample_prepared (sample_life Prepare) tt = Ok (resp', sample_prepared, tt) ∧
    lr_lease_token resp' = str "lease-sb-mod-1.0.0-1".
Proof.
  edestruct (prepare_idempotent sample_manager sample_prepared (sample_life Prepare) tt tt)
    as (resp' & H1 & H2 & H3 & H4); [vm_compute; reflexivity|reflexivity|].
  exists resp'. split; [exact H1|exact H3].
Defined.

(** The first occurrence of a separator determines both sides. *)
Lemma split_first (c : byte) l1 : ∀ l2 r1 r2,
  c ∉ l1 → c ∉ l2 → l1 ++ c :: r1 = l2 ++ c :: r2 → l1 = l2 ∧ r1 = r2.
Proof.
  induction l1 as [|a l1 IH]; intros [|b l2] r1 r2 H1 H2 E; simplify_eq/=; [done|set_solver..|].
  destruct (IH l2 r1 r2) as [-> ->]; [set_solver..|done|done].
Qed.

Definition colon : byte := Byte.x3a.

(** Module versions are kept apart: when sandbox and module identifiers
    contain no colon, two versions with the same key are the same version. *)
Theorem make_key_injective s1 m1 v1 s2 m2 v2 :
  colon ∉ s1 → colon ∉ m1 → colon ∉ s2 → colon ∉ m2 →
  make_key s1 m1 v1 = make_key s2 m2 v2 → s1 = s2 ∧ m1 = m2 ∧ v1 = v2.
Proof.
  unfold make_key. change (str ":") with [colon]. cbn [app]. intros H1 H2 H3 H4 E.
  apply split_first in E as [-> E]; [|done..]. apply split_first in E as [-> ->]; done.
Qed.

Lemma make_key_injective_witness :
  make_key (str "sb") (str "mod") (str "1:0") = str "sb:mod:1:0" ∧
  (∀ v, make_key (str "sb") (str "mod") v = make_key (str "sb") (str "mod") (str "1:0") → v = str "1:0").
Proof.
  split; [reflexivity|]. intros v E.
  apply (make_key_injective (str "sb") (str "mod") v (str "sb") (str "mod") (str "1:0"));
    [by apply (bool_decide_unpack (colon ∉ str "sb"))|by apply (bool_decide_unpack (colon ∉ str "mod"))
    |by apply (bool_decide_unpack (colon ∉ str "sb"))|by apply (bool_decide_unpack (colon ∉ str "mod"))
    |exact E].
Defined.

(** Nothing rules a colon out, and then different versions collide: after
    sandbox "a" registers module "b:c", sandbox "a:b" is told that its module
    "c" is active with the first sandbox's lease. *)
Theorem make_key_collision :
  let req sb mo := mkLifeRequest Query (str "q") sb mo (str "1") (-1) 0 [] [] in
  ∃ m' resp, prepare_module sample_manager (req (str "a") (str "b:c")) tt = Ok (resp, m', tt) ∧
    lr_status (query_module m' (req (str "a:b") (str "c"))) = LifeOk ∧
    lr_lease_token (query_module m' (req (str "a:b") (str "c"))) = lr_lease_token resp ∧
    get_module_state m' (str "a:b") (str "c") (str "1") = Prepared.
Proof. eexists _, _. split; [reflexivity|]. by vm_compute. Qed.
