(* ===== verification/BrokerService.v ===== *)
(** * The broker service (include/broker_service.h, src/broker_service.cpp)

    One request in, one response out: validation, the deadline, the dispatch on
    the request's kind, backend selection and the CPU, GPU and NPU paths.  The
    state the requests share ([Core]: the placer, the per-GPU counters and the
    client table) is passed explicitly; each of its critical sections is one
    operation.  What other threads and the clock do while a request runs is the
    record [Env]: the theorems about a whole request either hold for every
    environment or say which one they are about. *)

From S2P Require Import Prelude HostBytes Wire BackendDispatch BrokerProtocol GeospatialFrame.
From S2P Require Import MediaStream NvlinkPlacement WasmCodec Ieee AdiServer WasmManager.

(** ** State *)

Record Core := mkCore {
  placer : option Placer;
  gpu_inflight : list Z;
  source_to_client : gmap bytes Z;
  next_client_id : Z;
}.

Definition set_placer (c : Core) (p : Placer) : Core :=
  mkCore (Some p) (gpu_inflight c) (source_to_client c) (next_client_id c).
Definition set_inflight (c : Core) (gpu n : Z) : Core :=
  mkCore (placer c) (<[Z.to_nat gpu := n]> (gpu_inflight c)) (source_to_client c) (next_client_id c).

(** [gpu_inflight_[gpu]]. *)
Definition inflight_at (c : Core) (gpu : Z) : result Z :=
  if 0 <=? gpu then
    match gpu_inflight c !! Z.to_nat gpu with Some n => Ok n | None => OutOfBounds end
  else OutOfBounds.

(** The depth callback given to the placer.  The placer asks only for devices
    of its topology ([place_ext]), so the value elsewhere does not matter. *)
Definition depth_of (c : Core) (gpu : Z) : Z :=
  match inflight_at c gpu with Ok n => n | _ => 0 end.

Record BrokerServiceConfig := mkConfig {
  cfg_backlog_threshold : Z;
  cfg_max_inflight_per_gpu : Z;
  cfg_force_cpu_fallback : bool;
  cfg_default_backend : BackendKind;
  cfg_gpu_offload_threshold_bytes : Z;
  cfg_gpu_offload_threshold_flops : Z;
  cfg_npu_enabled : bool;
  cfg_npu_executor : option NpuExecutor;
  cfg_synthetic_gpu_count : Z;
  cfg_gpu_compute_fn : option (list Z → Z → result (list Z));
  cfg_simulated_latency_ms : Z;
  cfg_protocol_limits : ProtocolLimits;
  cfg_wasm_manager : option (Manager Core);
}.

Definition default_config : BrokerServiceConfig :=
  mkConfig 32 1024 false Cpu (1024 * 1024) 0 false None (-1) None 0 default_limits None.

Record Service := mkService {
  config : BrokerServiceConfig;
  use_gpu_placement : bool;
  core : Core;
  wasm_manager : Manager Core;
}.

Definition with_core (s : Service) (c : Core) : Service :=
  mkService (config s) (use_gpu_placement s) c (wasm_manager s).
Definition with_manager (s : Service) (m : Manager Core) : Service :=
  mkService (config s) (use_gpu_placement s) (core s) m.

(** ** Payloads *)

Definition decode_payload_as_doubles (payload : bytes) : result (list Z) :=
  _ <-! reject_if (negb (zlen payload mod 8 =? 0)) (str "payload must be a packed array of doubles");;
  Ok ((λ i, load_loop (slice payload (Z.of_nat i * 8) 8)) <$> seq 0 (Z.to_nat (zlen payload / 8))).

Definition encode_doubles_as_payload (values : list Z) : bytes := concat (store_loop 8 <$> values).

(** ** Clients and devices *)

(** One critical section of [client_mutex_]. *)
Definition get_or_assign_client_id (c : Core) (source : bytes) : result (Z * Core) :=
  match source_to_client c !! source with
  | Some client_id => Ok (client_id, c)
  | None =>
      let client_id := next_client_id c in
      match placer c with
      | None => OutOfBounds
      | Some p =>
          '(_, p) <-! assign_home p client_id;;
          Ok (client_id, mkCore (Some p) (gpu_inflight c) (<[source := client_id]> (source_to_client c))
                           (to_signed 32 (wrap 32 (next_client_id c + 1))))
      end
  end.

(** [placer_->place]; [depth] is what the callback returns, call by call. *)
Definition place_client (c : Core) (client_id : Z) (depth : nat → Z → Z) : result (Z * Core) :=
  match placer c with
  | None => OutOfBounds
  | Some p => '(gpu, p) <-! place p client_id depth;; Ok (gpu, set_placer c p)
  end.

(** The selector the constructor hands to the module manager. *)
Definition service_selector : GpuSelectorFn Core := λ source target_gpu c,
  if 0 <=? target_gpu then Ok (target_gpu, c)
  else
    '(client_id, c) <-! get_or_assign_client_id c source;;
    place_client c client_id (λ _, depth_of c).

Definition new_service (cuda : CudaRuntime) (cfg : BrokerServiceConfig) : result Service :=
  let synthetic_count := cfg_synthetic_gpu_count cfg in
  let gpu_total := if 0 <=? synthetic_count then synthetic_count else get_gpu_count cuda in
  '(use_gpu, c) <-!
    (if negb (cfg_force_cpu_fallback cfg) && (0 <? gpu_total) then
       topology <-! (if 0 <=? synthetic_count then synthetic gpu_total else detect cuda);;
       Ok (true, mkCore (Some (new_placer topology (cfg_backlog_threshold cfg)))
                   (replicate (Z.to_nat (num_gpus topology)) 0) ∅ 1)
     else Ok (false, mkCore None [] ∅ 1));;
  let manager := match cfg_wasm_manager cfg with
                 | Some m => m
                 | None => new_manager (cfg_force_cpu_fallback cfg || negb use_gpu)
                             (if use_gpu then Some service_selector else None)
                 end in
  Ok (mkService cfg use_gpu c manager).

Definition has_gpu_topology (s : Service) : bool := use_gpu_placement s.
Definition gpu_count (s : Service) : Z :=
  match placer (core s) with None => 0 | Some p => num_gpus (topo p) end.

(** ** Responses *)

(** A response with the members the handlers set; the rest are defaults. *)
Definition reply (req : BrokerRequest) (status : TaskStatus) (res error : bytes) : BrokerResponse :=
  mkResponse (req_task_id req) status (-1) 0 res error Cpu false.

Definition gpu_reply (req : BrokerRequest) (status : TaskStatus) (gpu : Z) (res error : bytes)
    : BrokerResponse :=
  mkResponse (req_task_id req) status gpu 0 res error Gpu false.

(** ** The GPU path *)

Inductive gpu_start := GpuFull (gpu : Z) | GpuRunning (gpu : Z).

(** Up to the end of the first critical section of [inflight_mutex_]. *)
Definition gpu_begin (cfg : BrokerServiceConfig) (c : Core) (source : bytes) (depth : Core → nat → Z → Z)
    : result (gpu_start * Core) :=
  '(client_id, c) <-! get_or_assign_client_id c source;;
  '(gpu, c) <-! place_client c client_id (depth c);;
  n <-! inflight_at c gpu;;
  let inflight := wrap 64 (n + 1) in
  Ok (if cfg_max_inflight_per_gpu cfg <? inflight
      then (GpuFull gpu, set_inflight c gpu (wrap 64 (inflight - 1)))
      else (GpuRunning gpu, set_inflight c gpu inflight)).

(** The second critical section. *)
Definition gpu_end (c : Core) (gpu : Z) : result Core :=
  n <-! inflight_at c gpu;;
  Ok (if 0 <? n then set_inflight c gpu (n - 1) else c).

(** ** The environment of a request *)

(** Clock readings in nanoseconds, and what other threads do: to the queues as
    the placer samples them, to the core while a GPU computes, to the manager
    while a WASM task computes. *)
Record Env := mkEnv {
  t_started : Z;
  t_awake : Z;
  t_ended : Z;
  depth_samples : Core → nat → Z → Z;
  during_gpu : Core → Core;
  during_task : Manager Core → Manager Core;
  task_latency : Z;
}.

Definition ms : Z := 1000000.

Section Service.
Context (h : endian).
Context (gpu_compute : list Z → Z → result (list Z)) (nan : Z → Z → Z).

Definition cpu_compute (values : list Z) : list Z := scale nan two values.

(** The kernel the GPU path runs: the configured one or [default_gpu_compute]. *)
Definition gpu_kernel (cfg : BrokerServiceConfig) : list Z → Z → result (list Z) :=
  match cfg_gpu_compute_fn cfg with Some f => f | None => gpu_compute end.

Definition run_on_gpu (cfg : BrokerServiceConfig) (e : Env) (c : Core) (req : BrokerRequest)
    (input : list Z) : result (BrokerResponse * Core) :=
  match gpu_begin cfg c (req_source req) (depth_samples e) with
  | Ok (GpuFull gpu, c) =>
      Ok (gpu_reply req StatusRejected gpu [] (str "selected GPU queue is at capacity"), c)
  | Ok (GpuRunning gpu, c) =>
      resp <-! match gpu_kernel cfg input gpu with
               | Ok output => Ok (gpu_reply req StatusOk gpu (encode_doubles_as_payload output) [])
               | Err what => Ok (gpu_reply req StatusError gpu [] what)
               | OutOfBounds => OutOfBounds
               | NoFuel => NoFuel
               end;;
      c <-! gpu_end (during_gpu e c) gpu;;
      Ok (resp, c)
  | Err what => Ok (gpu_reply req StatusError (-1) [] what, c)
  | OutOfBounds => OutOfBounds
  | NoFuel => NoFuel
  end.

(** ** Echoed frames *)

(** The [bool] result of a codec call with its out and error arguments:
    the value or the message. *)
Definition outcome {A} (r : result (bool * option A * option bytes)) : result (A + bytes) :=
  '(ok, out, error) <-! r;;
  if (ok : bool) then match out with Some a => Ok (inl a) | None => OutOfBounds end
  else Ok (inr (default [] error)).

Definition handle_geospatial_frame_request (cfg : BrokerServiceConfig) (req : BrokerRequest)
    : result BrokerResponse :=
  let max := max_payload_bytes (cfg_protocol_limits cfg) in
  decoded <-! outcome (decode_nxr1_frame h (req_payload req) (Some default_geo) (Some []) max);;
  match decoded with
  | inr decode_error => Ok (reply req StatusRejected [] decode_error)
  | inl frame =>
      encoded <-! outcome (encode_nxr1_frame h frame (Some []) (Some []) max);;
      match encoded with
      | inr encode_error => Ok (reply req StatusError [] encode_error)
      | inl encoded => Ok (reply req StatusOk encoded [])
      end
  end.

Definition handle_media_stream_request (cfg : BrokerServiceConfig) (req : BrokerRequest)
    : result BrokerResponse :=
  let max := max_payload_bytes (cfg_protocol_limits cfg) in
  let max_string := max_string_bytes (cfg_protocol_limits cfg) in
  decoded <-! outcome (decode_media_stream_frame (req_payload req) (Some default_media) (Some [])
                         max max_string);;
  match decoded with
  | inr decode_error => Ok (reply req StatusRejected [] decode_error)
  | inl frame =>
      encoded <-! outcome (encode_media_stream_frame frame (Some []) (Some []) max max_string);;
      match encoded with
      | inr encode_error => Ok (reply req StatusError [] encode_error)
      | inl encoded => Ok (reply req StatusOk encoded [])
      end
  end.

(** ** WASM requests *)

Definition wasm_limits (lim : ProtocolLimits) : WasmLimits :=
  mkWasmLimits (max_string_bytes lim) (max_payload_bytes lim) (wl_max_buffers default_wasm_limits)
    (max_frame_bytes lim).

Definition task_status (s : WasmTaskStatus) : TaskStatus :=
  match s with
  | TaskOk => StatusOk
  | TaskTimeout => StatusTimeout
  | TaskRejected | TaskModuleDraining | TaskModuleNotFound | TaskVersionMismatch => StatusRejected
  | _ => StatusError
  end.

Definition lifecycle_status (s : WasmLifecycleStatus) : TaskStatus :=
  match s with
  | LifeOk => StatusOk
  | LifeRejected | LifeNotFound | LifeBusy => StatusRejected
  | _ => StatusError
  end.

Definition handle_wasm_task_request (cfg : BrokerServiceConfig) (e : Env) (m : Manager Core)
    (req : BrokerRequest) : result (BrokerResponse * Manager Core) :=
  let limits := wasm_limits (cfg_protocol_limits cfg) in
  decoded <-! outcome (decode_wasm_task_request h (req_payload req) (Some default_task_request)
                         (Some []) limits);;
  match decoded with
  | inr decode_error =>
      Ok (reply req StatusRejected [] (str "failed to decode WASM task request: " ++ decode_error), m)
  | inl wasm_req =>
      '(wasm_resp, m) <-! handle_task m wasm_req
                            (λ gpu, task_compute h gpu_compute None gpu wasm_req)
                            (during_task e) (task_latency e);;
      encoded <-! outcome (encode_wasm_task_response h wasm_resp (Some []) (Some []) limits);;
      match encoded with
      | inr encode_error =>
          Ok (reply req StatusError [] (str "failed to encode WASM task response: " ++ encode_error), m)
      | inl encoded =>
          Ok (mkResponse (req_task_id req) (task_status (tr_status wasm_resp))
                (tr_selected_gpu wasm_resp) 0 encoded (tr_error wasm_resp) Cpu false, m)
      end
  end.

Definition with_action (r : WasmLifecycleRequest) (a : WasmLifecycleAction) : WasmLifecycleRequest :=
  mkLifeRequest a (lq_request_id r) (lq_sandbox_id r) (lq_module_id r) (lq_module_version r)
    (lq_target_gpu r) (lq_grace_period_ms r) (lq_ack_token r) (lq_payload r).

(** A kind that names an action overrides the action of the frame. *)
Definition kind_action (kind : bytes) (a : WasmLifecycleAction) : WasmLifecycleAction :=
  if bool_decide (kind = kWasmLifecyclePrepareKind) then Prepare
  else if bool_decide (kind = kWasmLifecycleDrainKind) then Drain
  else if bool_decide (kind = kWasmLifecycleReleaseKind) then Release
  else if bool_decide (kind = kWasmLifecycleQueryKind) then Query
  else a.

Definition handle_wasm_lifecycle_request (cfg : BrokerServiceConfig) (m : Manager Core) (c : Core)
    (req : BrokerRequest) : result (BrokerResponse * Manager Core * Core) :=
  let limits := wasm_limits (cfg_protocol_limits cfg) in
  decoded <-! outcome (decode_wasm_lifecycle_request h (req_payload req) (Some default_life_request)
                         (Some []) limits);;
  match decoded with
  | inr decode_error =>
      Ok (reply req StatusRejected []
            (str "failed to decode WASM lifecycle request: " ++ decode_error), m, c)
  | inl wasm_req =>
      let wasm_req := with_action wasm_req (kind_action (req_kind req) (lq_action wasm_req)) in
      '(wasm_resp, m, c) <-! handle_lifecycle m wasm_req c;;
      encoded <-! outcome (encode_wasm_lifecycle_response h wasm_resp (Some []) (Some []) limits);;
      match encoded with
      | inr encode_error =>
          Ok (reply req StatusError []
                (str "failed to encode WASM lifecycle response: " ++ encode_error), m, c)
      | inl encoded =>
          Ok (mkResponse (req_task_id req) (lifecycle_status (lr_status wasm_resp))
                (lr_assigned_gpu wasm_resp) 0 encoded (lr_error wasm_resp) Cpu false, m, c)
      end
  end.

(** ** Compute requests *)

Definition request_policy (s : Service) : BackendPolicy :=
  let cfg := config s in
  mkPolicy (cfg_default_backend cfg) (cfg_gpu_offload_threshold_bytes cfg)
    (cfg_gpu_offload_threshold_flops cfg) (cfg_force_cpu_fallback cfg) (use_gpu_placement s)
    (cfg_npu_enabled cfg && match cfg_npu_executor cfg with Some x => available x | None => false end).

Definition inference_profile (req : BrokerRequest) : TaskProfile :=
  mkProfile false false false false true false (zlen (req_payload req)) 0 true.
Definition parallel_profile (req : BrokerRequest) : TaskProfile :=
  mkProfile false false false false false true (zlen (req_payload req)) 0 true.

Definition force_policy (p : BackendPolicy) : BackendPolicy :=
  mkPolicy (default_backend p) (gpu_offload_threshold_bytes p) (gpu_offload_threshold_flops p) true
    (gpu_available p) (npu_available p).

(** The profile the device preference stands for, whether a failed
    accelerator may be retried on the CPU, and the resulting policy. *)
Definition effective (policy : BackendPolicy) (req : BrokerRequest)
    : option TaskProfile * bool * BackendPolicy :=
  match req_profile req with
  | Some p => (Some p, fallback_safe p, policy)
  | None =>
      if bool_decide (req_device_preference req = str "npu") then
        (Some (inference_profile req), true, policy)
      else if bool_decide (req_device_preference req = str "gpu") then
        (Some (parallel_profile req), true, policy)
      else if bool_decide (req_device_preference req = str "cpu") then (None, false, force_policy policy)
      else (None, false, policy)
  end.

Definition cpu_reply (req : BrokerRequest) (input : list Z) (fell_back : bool) : BrokerResponse :=
  mkResponse (req_task_id req) StatusOk (-1) 0 (encode_doubles_as_payload (cpu_compute input)) [] Cpu
    fell_back.

(** The [try] block. *)
Definition compute_request (s : Service) (e : Env) (req : BrokerRequest)
    : result (BrokerResponse * Core) :=
  let '(profile, fallback_safe, policy) := effective (request_policy s) req in
  match decode_payload_as_doubles (req_payload req) with
  | Err what => Ok (reply req StatusError [] what, core s)
  | OutOfBounds => OutOfBounds
  | NoFuel => NoFuel
  | Ok input =>
      match select_backend policy profile with
      | Cpu => Ok (cpu_reply req input false, core s)
      | Gpu =>
          '(gpu_response, c) <-! run_on_gpu (config s) e (core s) req input;;
          if bool_decide (resp_status gpu_response = StatusOk) || negb fallback_safe
          then Ok (gpu_response, c)
          else Ok (cpu_reply req input true, c)
      | Npu =>
          match cfg_npu_executor (config s) with
          | None => OutOfBounds
          | Some npu =>
              match run npu input with
              | Ok output =>
                  Ok (mkResponse (req_task_id req) StatusOk (-1) 0 (encode_doubles_as_payload output) []
                        Npu false, core s)
              | Err what =>
                  if negb fallback_safe then
                    Ok (mkResponse (req_task_id req) StatusError (-1) 0 [] what Npu false, core s)
                  else Ok (cpu_reply req input true, core s)
              | OutOfBounds => OutOfBounds
              | NoFuel => NoFuel
              end
          end
      end
  end.

(** ** The handler *)

Definition deadline (e : Env) (req : BrokerRequest) : Z := t_started e + req_timeout_ms req * ms.

Definition finish_response (e : Env) (req : BrokerRequest) (r : BrokerResponse) : BrokerResponse :=
  let latency := wrap 64 (Z.quot (t_ended e - t_started e) ms) in
  if deadline e req <=? t_ended e then
    mkResponse (resp_task_id r) StatusTimeout (resp_selected_gpu r) latency [] (str "request timed out")
      (resp_backend r) (resp_fell_back_to_cpu r)
  else
    mkResponse (resp_task_id r) (resp_status r) (resp_selected_gpu r) latency (resp_result r)
      (resp_error r) (resp_backend r) (resp_fell_back_to_cpu r).

Definition is_lifecycle_kind (kind : bytes) : bool :=
  bool_decide (kind = kWasmLifecycleKind) || bool_decide (kind = kWasmLifecyclePrepareKind)
  || bool_decide (kind = kWasmLifecycleDrainKind) || bool_decide (kind = kWasmLifecycleReleaseKind)
  || bool_decide (kind = kWasmLifecycleQueryKind).

(** The dispatch on the kind, before [finish_response]. *)
Definition dispatch (s : Service) (e : Env) (req : BrokerRequest) : result (BrokerResponse * Service) :=
  let kind := req_kind req in
  if bool_decide (kind = kGeospatialFrameKind) then
    r <-! handle_geospatial_frame_request (config s) req;; Ok (r, s)
  else if bool_decide (kind = kMediaStreamKind) then
    r <-! handle_media_stream_request (config s) req;; Ok (r, s)
  else if bool_decide (kind = kWasmTaskKind) then
    '(r, m) <-! handle_wasm_task_request (config s) e (wasm_manager s) req;; Ok (r, with_manager s m)
  else if is_lifecycle_kind kind then
    '(r, m, c) <-! handle_wasm_lifecycle_request (config s) (wasm_manager s) (core s) req;;
    Ok (r, with_core (with_manager s m) c)
  else
    '(r, c) <-! compute_request s e req;; Ok (r, with_core s c).

Definition handle_request (s : Service) (e : Env) (req : BrokerRequest)
    : result (BrokerResponse * Service) :=
  match validate_request req (cfg_protocol_limits (config s)) with
  | Err validation_error => Ok (reply req StatusRejected [] validation_error, s)
  | OutOfBounds => OutOfBounds
  | NoFuel => NoFuel
  | Ok _ =>
      if (0 <? cfg_simulated_latency_ms (config s)) && (deadline e req <=? t_awake e) then
        Ok (finish_response e req
              (mkResponse (req_task_id req) StatusError (-1) 0 [] [] Cpu false), s)
      else
        '(r, s) <-! dispatch s e req;;
        Ok (finish_response e req r, s)
  end.

End Service.

(** [SimulatedNpuExecutor] (include/npu_device.h). *)
Definition SimulatedNpuExecutor (nan : Z → Z → Z) (enabled : bool) : NpuExecutor :=
  mkNpu enabled (λ input, Ok (scale nan three input)).

(** ** The shared state *)

(** The core of a service over [n] devices, with the tasks [running] on them
    (by device, one entry per task between its two critical sections). *)
Record core_ok (n max : Z) (running : list Z) (c : Core) : Prop := {
  ok_placer : ∃ p, placer c = Some p ∧ wf_placer p ∧ num_gpus (topo p) = n;
  ok_table : length (gpu_inflight c) = Z.to_nat n;
  ok_count : ∀ g, in_range n g → inflight_at c g = Ok (tasks_of g running);
  ok_max : ∀ g, in_range n g → tasks_of g running ≤ max;
}.

Section CoreLemmas.
Context (n max : Z).

Lemma core_same_table running c c' p :
  core_ok n max running c → placer c' = Some p → wf_placer p → num_gpus (topo p) = n →
  gpu_inflight c' = gpu_inflight c → core_ok n max running c'.
Proof.
  intros [_ Ht Hc Hm] Hp Hwf Hn He. split; [by exists p|by rewrite He| |done].
  intros g Hg. unfold inflight_at. rewrite He. by apply Hc.
Qed.

Lemma assign_home_wf p id :
  wf_placer p → ∃ home p', assign_home p id = Ok (home, p') ∧ wf_placer p' ∧ topo p' = topo p.
Proof.
  intros Hwf. destruct (next_gpu_spec p Hwf) as (p1 & Hnext & Hwf1 & Ht1 & _ & _ & _ & Hin).
  unfold assign_home. rewrite Hnext, rbind_ret. eexists _, _. split; [done|].
  split; [apply set_home_wf; [done|by rewrite Ht1]|done].
Qed.

Lemma get_client_ok running c source :
  core_ok n max running c →
  ∃ id c', get_or_assign_client_id c source = Ok (id, c') ∧ core_ok n max running c' ∧
    gpu_inflight c' = gpu_inflight c ∧ source_to_client c' !! source = Some id.
Proof.
  intros Hok. unfold get_or_assign_client_id.
  destruct (source_to_client c !! source) as [id|] eqn:E; [by exists id, c|].
  pose proof (ok_placer _ _ _ _ Hok) as (p & Hp & Hwf & Hn). rewrite Hp.
  destruct (assign_home_wf p (next_client_id c) Hwf) as (home & p' & -> & Hwf' & Ht).
  rewrite rbind_ret. eexists _, _. split; [done|].
  split; [|split; [done|cbn [source_to_client]; by rewrite lookup_insert_eq]].
  eapply core_same_table; [done|done|done|by rewrite Ht|done].
Qed.

Lemma place_client_ok running c id depth :
  core_ok n max running c →
  ∃ gpu c', place_client c id depth = Ok (gpu, c') ∧ in_range n gpu ∧ core_ok n max running c' ∧
    gpu_inflight c' = gpu_inflight c ∧ source_to_client c' = source_to_client c ∧
    next_client_id c' = next_client_id c.
Proof.
  intros Hok. unfold place_client. pose proof (ok_placer _ _ _ _ Hok) as (p & Hp & Hwf & Hn). rewrite Hp.
  destruct (place_safe p id depth Hwf) as (gpu & p' & -> & Hg & Hwf' & Ht & _).
  rewrite rbind_ret. eexists gpu, _. split; [done|]. split; [by rewrite <- Hn|].
  split; [|done]. eapply core_same_table; [done|done|done|by rewrite Ht|done].
Qed.

Lemma selector_ok running c source target :
  core_ok n max running c →
  ∃ gpu c', service_selector source target c = Ok (gpu, c') ∧ core_ok n max running c' ∧
    gpu_inflight c' = gpu_inflight c ∧ (if 0 <=? target then gpu = target else in_range n gpu).
Proof.
  intros Hok. unfold service_selector. destruct (0 <=? target); [by exists target, c|].
  destruct (get_client_ok running c source Hok) as (id & c1 & -> & Hok1 & He1 & _). rewrite rbind_ret.
  destruct (place_client_ok running c1 id (λ _, depth_of c1) Hok1) as (gpu & c2 & -> & Hg & Hok2 & He2 & _).
  exists gpu, c2. by rewrite He2.
Qed.

Lemma inflight_set c g k g' :
  length (gpu_inflight c) = Z.to_nat n → in_range n g → in_range n g' →
  inflight_at (set_inflight c g k) g' = if g' =? g then Ok k else inflight_at c g'.
Proof.
  unfold in_range, inflight_at, set_inflight. cbn [gpu_inflight]. intros Hl Hg Hg'.
  destruct (Z.leb_spec 0 g'); [|lia]. destruct (Z.eqb_spec g' g) as [->|Hne].
  - by rewrite list_lookup_insert_eq by lia.
  - by rewrite list_lookup_insert_ne by lia.
Qed.

Lemma core_set running running' c g k :
  core_ok n max running c → in_range n g → k = tasks_of g running' → k ≤ max →
  (∀ g', g' ≠ g → tasks_of g' running' = tasks_of g' running) →
  core_ok n max running' (set_inflight c g k).
Proof.
  intros Hok Hg -> Hk Hrest. pose proof Hok as [Hp Ht Hc Hm]. split; [done| | |].
  - cbn [set_inflight gpu_inflight]. by rewrite length_insert.
  - intros g' Hg'. rewrite (inflight_set c) by done. destruct (Z.eqb_spec g' g) as [->|Hne]; [done|].
    by rewrite Hrest, Hc.
  - intros g' Hg'. destruct (decide (g' = g)) as [->|Hne]; [done|]. rewrite Hrest by done. by apply Hm.
Qed.

(** Admission: a task starts on a device of the topology, or is turned away
    when the device it was placed on runs [max] tasks. *)
Lemma gpu_begin_ok cfg running c source depth :
  core_ok n max running c → cfg_max_inflight_per_gpu cfg = max → max < 2 ^ 64 - 1 →
  ∃ start c', gpu_begin cfg c source depth = Ok (start, c') ∧
    match start with
    | GpuFull g => in_range n g ∧ tasks_of g running = max ∧ core_ok n max running c' ∧
        gpu_inflight c' = gpu_inflight c
    | GpuRunning g => in_range n g ∧ core_ok n max (g :: running) c' ∧
        gpu_inflight c' = gpu_inflight (set_inflight c g (tasks_of g running + 1))
    end.
Proof.
  intros Hok Hmax Hlt. unfold gpu_begin.
  destruct (get_client_ok running c source Hok) as (id & c1 & -> & Hok1 & He1 & _). rewrite rbind_ret.
  destruct (place_client_ok running c1 id (depth c1) Hok1) as (g & c2 & -> & Hg & Hok2 & He2 & _).
  pose proof (ok_count _ _ _ _ Hok2 g Hg) as Hat. pose proof (ok_max _ _ _ _ Hok2 g Hg).
  pose proof (tasks_of_range g running). rewrite rbind_ret, Hat, rbind_ret, Hmax.
  rewrite wrap_small by (unfold is_uint; lia). eexists _, _. split; [by rewrite <- surjective_pairing|].
  destruct (Z.ltb_spec max (tasks_of g running + 1)); cbn [fst snd].
  - rewrite wrap_small by (unfold is_uint; lia). split; [done|]. split; [lia|]. split.
    + apply (core_set running); [done|done|lia|lia|done].
    + cbn [set_inflight gpu_inflight]. rewrite Z.add_simpl_r, list_insert_id; [congruence|].
      unfold inflight_at in Hat. unfold in_range in Hg. destruct (Z.leb_spec 0 g); [|lia].
      destruct (gpu_inflight c2 !! Z.to_nat g); congruence.
  - split; [done|]. split; [|cbn [set_inflight gpu_inflight]; congruence].
    apply (core_set running); [done|done| |lia|].
    + rewrite tasks_of_cons. destruct (decide (g = g)); [lia|done].
    + intros g' Hne. rewrite tasks_of_cons. by destruct (decide (g = g')); [congruence|].
Qed.

Lemma gpu_end_ok r1 g r2 c :
  core_ok n max (r1 ++ g :: r2) c → in_range n g →
  ∃ c', gpu_end c g = Ok c' ∧ core_ok n max (r1 ++ r2) c' ∧
    gpu_inflight c' = gpu_inflight (set_inflight c g (tasks_of g (r1 ++ r2))).
Proof.
  intros Hok Hg. unfold gpu_end. pose proof (ok_max _ _ _ _ Hok g Hg).
  rewrite (ok_count _ _ _ _ Hok g Hg), rbind_ret. pose proof (tasks_of_remove g g r1 r2) as Hr.
  destruct (decide (g = g)); [|done]. pose proof (tasks_of_range g (r1 ++ r2)).
  rewrite Hr in *. destruct (Z.ltb_spec 0 (tasks_of g (r1 ++ r2) + 1)); [|lia].
  rewrite Z.add_simpl_r. eexists. split; [done|]. split; [|done].
  apply (core_set (r1 ++ g :: r2)); [done|done|done|lia|].
  intros g' Hne. rewrite (tasks_of_remove g' g). destruct (decide (g = g')); [congruence|lia].
Qed.

End CoreLemmas.

(** ** Interleavings

    The core of one service with its running GPU tasks; a step is a critical
    section of one request thread.  The placer's depth samples are arbitrary:
    other threads change the queues between them. *)
Record service_threads := mkServiceThreads { shared_core : Core; running : list Z }.

Section Steps.
Context (cfg : BrokerServiceConfig).

Inductive service_step : service_threads → service_threads → Prop :=
| step_gpu_begin c c' r source depth g :
    gpu_begin cfg c source depth = Ok (GpuRunning g, c') →
    service_step (mkServiceThreads c r) (mkServiceThreads c' (g :: r))
| step_gpu_full c c' r source depth g :
    gpu_begin cfg c source depth = Ok (GpuFull g, c') →
    service_step (mkServiceThreads c r) (mkServiceThreads c' r)
| step_gpu_end c c' r1 r2 g :
    gpu_end c g = Ok c' →
    service_step (mkServiceThreads c (r1 ++ g :: r2)) (mkServiceThreads c' (r1 ++ r2))
| step_select c c' r source target g :
    service_selector source target c = Ok (g, c') →
    service_step (mkServiceThreads c r) (mkServiceThreads c' r).

Definition threads_ok (n : Z) (s : service_threads) : Prop :=
  core_ok n (cfg_max_inflight_per_gpu cfg) (running s) (shared_core s) ∧ Forall (in_range n) (running s).

Lemma service_step_ok n s s' :
  cfg_max_inflight_per_gpu cfg < 2 ^ 64 - 1 → threads_ok n s → service_step s s' → threads_ok n s'.
Proof.
  intros Hmax [Hok Hr] Hstep. destruct Hstep as [c c' r src d g E|c c' r src d g E|c c' r1 r2 g E|c c' r src t g E];
    cbn [shared_core running] in *.
  - destruct (gpu_begin_ok n _ cfg r c src d Hok eq_refl Hmax) as (start & c1 & E1 & H).
    rewrite E in E1. injection E1 as <- <-. destruct H as (Hg & Hok' & _). split; [done|by constructor].
  - destruct (gpu_begin_ok n _ cfg r c src d Hok eq_refl Hmax) as (start & c1 & E1 & H).
    rewrite E in E1. injection E1 as <- <-. by destruct H as (_ & _ & Hok' & _).
  - apply Forall_app in Hr as [Hr1 Hr2]. inversion Hr2; subst.
    destruct (gpu_end_ok n _ r1 g r2 c Hok) as (c1 & E1 & Hok' & _); [done|].
    rewrite E in E1. injection E1 as <-. split; [done|]. by apply Forall_app.
  - destruct (selector_ok n _ r c src t Hok) as (g1 & c1 & E1 & Hok' & _).
    rewrite E in E1. by injection E1 as _ <-.
Qed.

End Steps.

(** The devices a configuration makes the service use. *)
Definition gpu_total (cuda : CudaRuntime) (cfg : BrokerServiceConfig) : Z :=
  if 0 <=? cfg_synthetic_gpu_count cfg then cfg_synthetic_gpu_count cfg else get_gpu_count cuda.

Lemma new_topology_wf cuda cfg :
  0 < gpu_total cuda cfg < 2 ^ 31 →
  ∃ t, (if 0 <=? cfg_synthetic_gpu_count cfg then synthetic (gpu_total cuda cfg) else detect cuda) = Ok t ∧
    num_gpus t = gpu_total cuda cfg ∧ ∀ threshold, wf_placer (new_placer t threshold).
Proof.
  unfold gpu_total. intros Hn. destruct (0 <=? cfg_synthetic_gpu_count cfg).
  - destruct (synthetic_describes (cfg_synthetic_gpu_count cfg)) as (t & -> & Ht); [lia|].
    exists t. split; [done|]. split; [apply Ht|]. intros th. eapply new_placer_wf; [done|done|].
    intros i j. unfold synthetic_link. by destruct (i =? j).
  - destruct (detect_describes cuda) as (t & -> & Ht); [lia|].
    exists t. split; [done|]. split; [apply Ht|]. intros th. eapply new_placer_wf; [done|done|].
    intros i j. apply expected_bandwidth.
Qed.

Lemma new_core_ok n max t threshold :
  wf_placer (new_placer t threshold) → num_gpus t = n → 0 ≤ max →
  core_ok n max [] (mkCore (Some (new_placer t threshold)) (replicate (Z.to_nat (num_gpus t)) 0) ∅ 1).
Proof.
  intros Hwf Hn Hmax. split.
  - by eexists.
  - cbn [gpu_inflight]. rewrite length_replicate. congruence.
  - intros g Hg. unfold inflight_at, in_range in *. cbn [gpu_inflight].
    destruct (Z.leb_spec 0 g); [|lia]. by rewrite lookup_replicate_2 by lia.
  - intros g _. by rewrite tasks_of_nil.
Qed.

(** What the constructor establishes, with and without devices. *)
Definition service_new_ok (cuda : CudaRuntime) (cfg : BrokerServiceConfig) (s : Service) : Prop :=
  config s = cfg ∧
  (use_gpu_placement s = true ↔ cfg_force_cpu_fallback cfg = false ∧ 0 < gpu_total cuda cfg) ∧
  (use_gpu_placement s = true →
     core_ok (gpu_total cuda cfg) (cfg_max_inflight_per_gpu cfg) [] (core s)) ∧
  (cfg_wasm_manager cfg = None → modules (wasm_manager s) = ∅ ∧
     gpu_selector (wasm_manager s) = if use_gpu_placement s then Some service_selector else None).

Lemma new_service_ok cuda cfg :
  gpu_total cuda cfg < 2 ^ 31 → 0 ≤ cfg_max_inflight_per_gpu cfg →
  ∃ s, new_service cuda cfg = Ok s ∧ service_new_ok cuda cfg s.
Proof.
  intros Hn Hmax. unfold new_service. fold (gpu_total cuda cfg).
  destruct (cfg_force_cpu_fallback cfg) eqn:Hf; cbn [negb andb].
  { rewrite rbind_ret. eexists. split; [done|]. split; [done|].
    split; [cbn; naive_solver|]. split; [done|]. cbn. by intros ->. }
  destruct (Z.ltb_spec 0 (gpu_total cuda cfg)).
  - destruct (new_topology_wf cuda cfg) as (t & -> & Ht & Hwf); [done|]. rewrite !rbind_ret.
    eexists. split; [done|]. split; [done|]. split; [cbn; naive_solver|].
    split; [intros _; by apply new_core_ok|]. cbn. by intros ->.
  - rewrite rbind_ret. eexists. split; [done|]. split; [done|].
    split; [cbn; split; [done|]; lia|]. split; [done|]. cbn. by intros ->.
Qed.

(** ** Theorems *)

(** C8: the GPU queues of a service are bounded: whatever the requests and
    their interleaving, from a fresh service each device's counter equals the
    number of tasks running on it and never exceeds the configured maximum,
    every admitted task is on a device of the topology, and no operation on
    the shared state meets an out-of-bounds access, a null placer or a
    division by zero: admission, completion of a running task and device
    selection all return. *)
Theorem gpu_queues_bounded cuda cfg s r :
  gpu_total cuda cfg < 2 ^ 31 → 0 ≤ cfg_max_inflight_per_gpu cfg < 2 ^ 64 - 1 →
  new_service cuda cfg = Ok s → use_gpu_placement s = true →
  rtc (service_step cfg) (mkServiceThreads (core s) []) r →
  (∀ g, in_range (gpu_total cuda cfg) g →
     inflight_at (shared_core r) g = Ok (tasks_of g (running r)) ∧
     tasks_of g (running r) ≤ cfg_max_inflight_per_gpu cfg) ∧
  Forall (in_range (gpu_total cuda cfg)) (running r) ∧
  (∀ source depth, is_ok (gpu_begin cfg (shared_core r) source depth) = true) ∧
  (∀ g, g ∈ running r → is_ok (gpu_end (shared_core r) g) = true) ∧
  (∀ source target, is_ok (service_selector source target (shared_core r)) = true).
Proof.
  intros Hn Hmax Hnew Huse Hreach.
  destruct (new_service_ok cuda cfg) as (s' & E & _ & _ & Hok & _); [done|lia|].
  rewrite Hnew in E. injection E as <-. specialize (Hok Huse).
  assert (threads_ok cfg (gpu_total cuda cfg) r) as [Hr Hrun].
  { eapply rtc_invariant; [intros x y; apply service_step_ok; lia| |exact Hreach]. by split. }
  split_and!; [|done| | |].
  - intros g Hg. split; [by apply (ok_count _ _ _ _ Hr)|by apply (ok_max _ _ _ _ Hr)].
  - intros src d. destruct (gpu_begin_ok _ _ cfg _ _ src d Hr eq_refl) as (st & c' & -> & _); [lia|done].
  - intros g Hg. rewrite Forall_forall in Hrun. specialize (Hrun g Hg).
    apply list_elem_of_split in Hg as (r1 & r2 & Hg). rewrite Hg in Hr.
    by destruct (gpu_end_ok _ _ r1 g r2 _ Hr Hrun) as (c' & -> & _).
  - intros src t. by destruct (selector_ok _ _ _ _ src t Hr) as (g & c' & -> & _).
Qed.

(** A service over two simulated devices, one task per device. *)
Definition sample_cuda_none : CudaRuntime :=
  mkCuda false None (λ _ _, None) (λ _ _, None) (λ _ _, false).
Definition sample_config : BrokerServiceConfig :=
  mkConfig 1 1 false Gpu (1024 * 1024) 0 false None 2 None 0 default_limits None.
Definition no_devices : Service :=
  mkService default_config false (mkCore None [] ∅ 1) (new_manager true None).
Definition sample_service : Service :=
  match new_service sample_cuda_none sample_config with Ok s => s | _ => no_devices end.
Definition queues (c : Core) : nat → Z → Z := λ _, depth_of c.

(** The core after a task of [source] was admitted or turned away. *)
Definition core_after (c : Core) (source : bytes) : Core :=
  match gpu_begin sample_config c source queues with Ok (_, c') => c' | _ => c end.

Lemma gpu_queues_bounded_witness :
  let c1 := core_after (core sample_service) (str "a") in
  let c2 := core_after c1 (str "a") in
  (∃ c3, gpu_begin sample_config c2 (str "a") queues = Ok (GpuFull 0, c3)) ∧
  (∀ g, in_range 2 g → inflight_at c2 g = Ok (tasks_of g [1; 0]) ∧ tasks_of g [1; 0] ≤ 1).
Proof.
  split; [eexists; reflexivity|].
  refine (proj1 (gpu_queues_bounded sample_cuda_none sample_config sample_service
    (mkServiceThreads (core_after (core_after (core sample_service) (str "a")) (str "a")) [1; 0])
    _ _ _ _ _)); [by vm_compute|split; by vm_compute|reflexivity|reflexivity|].
  eapply rtc_l; [|eapply rtc_once].
  - apply (step_gpu_begin _ _ (core_after (core sample_service) (str "a")) _ (str "a") queues 0).
    reflexivity.
  - apply (step_gpu_begin _ _ _ _ (str "a") queues 1). reflexivity.
Defined.

(** *** Client identifiers *)

(** While fewer than 2^31 - 1 sources are known, identifiers are dealt from 1
    on and belong to one source each. *)
Definition clients_ok (c : Core) : Prop :=
  Z.of_nat (size (source_to_client c)) < 2 ^ 31 - 1 →
  next_client_id c = Z.of_nat (size (source_to_client c)) + 1 ∧
  (∀ src id, source_to_client c !! src = Some id → 1 ≤ id < next_client_id c) ∧
  (∀ s1 s2 id, source_to_client c !! s1 = Some id → source_to_client c !! s2 = Some id → s1 = s2).

(** The table of [c'] extends that of [c]. *)
Definition clients_extend (c c' : Core) : Prop := source_to_client c ⊆ source_to_client c'.

Lemma get_client_unique c source id c' :
  clients_ok c → get_or_assign_client_id c source = Ok (id, c') →
  clients_ok c' ∧ clients_extend c c' ∧ source_to_client c' !! source = Some id.
Proof.
  intros Hok. unfold get_or_assign_client_id, clients_extend.
  destruct (source_to_client c !! source) as [id0|] eqn:E; [by intros [= <- <-]|].
  destruct (placer c) as [p|]; [|done]. intros H. apply rbind_Ok in H as ([home p'] & _ & [= <- <-]).
  unfold clients_ok. cbn [source_to_client next_client_id]. split; [|split].
  - rewrite map_size_insert_None by done. intros Hsz. destruct Hok as (Hnext & Hr & Hinj); [lia|].
    assert (to_signed 32 (wrap 32 (next_client_id c + 1)) = next_client_id c + 1) as ->.
    { rewrite wrap_small by (unfold is_uint; lia). unfold to_signed. by case_match; [|lia]. }
    split; [lia|]. split.
    + intros src i [[-> <-]|[Hne Hi]]%lookup_insert_Some; [lia|]. specialize (Hr src i Hi). lia.
    + intros s1 s2 i [[-> <-]|[Hne1 H1]]%lookup_insert_Some [[-> E2]|[Hne2 H2]]%lookup_insert_Some;
        [done| | |by apply (Hinj s1 s2 i)].
      * specialize (Hr s2 _ H2). lia.
      * subst i. specialize (Hr s1 _ H1). lia.
  - by apply insert_subseteq.
  - by rewrite lookup_insert_eq.
Qed.

Lemma place_client_clients c id depth gpu c' :
  place_client c id depth = Ok (gpu, c') →
  source_to_client c' = source_to_client c ∧ next_client_id c' = next_client_id c.
Proof.
  unfold place_client. destruct (placer c) as [p|]; [|done].
  intros H. by apply rbind_Ok in H as ([g p'] & _ & [= <- <-]).
Qed.

Lemma clients_ok_same c c' :
  source_to_client c' = source_to_client c → next_client_id c' = next_client_id c →
  clients_ok c → clients_ok c'.
Proof. unfold clients_ok. by intros -> ->. Qed.

(** Admission and selection only add the client they serve. *)
Lemma gpu_begin_clients cfg c source depth start c' :
  clients_ok c → gpu_begin cfg c source depth = Ok (start, c') →
  clients_ok c' ∧ clients_extend c c' ∧ is_Some (source_to_client c' !! source).
Proof.
  unfold gpu_begin. intros Hok H. apply rbind_Ok in H as ([id c1] & H1 & H).
  apply rbind_Ok in H as ([g c2] & H2 & H). apply rbind_Ok in H as (k & _ & [= H]).
  destruct (get_client_unique _ _ _ _ Hok H1) as (Hok1 & Hext & Hid).
  apply place_client_clients in H2 as [Hs Hn].
  assert (source_to_client c' = source_to_client c2 ∧ next_client_id c' = next_client_id c2) as [Hs' Hn'].
  { by case_match; injection H as <- <-. }
  unfold clients_extend. rewrite Hs', Hs. split; [|by eauto].
  by apply (clients_ok_same c1); [congruence..|].
Qed.

Lemma selector_clients c source target g c' :
  clients_ok c → service_selector source target c = Ok (g, c') → clients_ok c' ∧ clients_extend c c'.
Proof.
  unfold service_selector, clients_extend. intros Hok. destruct (0 <=? target); [by intros [= _ <-]|].
  intros H. apply rbind_Ok in H as ([id c1] & H1 & H2).
  destruct (get_client_unique _ _ _ _ Hok H1) as (Hok1 & Hext & Hid).
  apply place_client_clients in H2 as [Hs Hn]. rewrite Hs. split; [|done].
  by apply (clients_ok_same c1).
Qed.

Lemma step_clients cfg s s' :
  clients_ok (shared_core s) → service_step cfg s s' →
  clients_ok (shared_core s') ∧ clients_extend (shared_core s) (shared_core s').
Proof.
  intros Hok Hstep. destruct Hstep as [c c' r src d g E|c c' r src d g E|c c' r1 r2 g E|c c' r src t g E];
    cbn [shared_core] in *.
  - by destruct (gpu_begin_clients _ _ _ _ _ _ Hok E) as (? & ? & _).
  - by destruct (gpu_begin_clients _ _ _ _ _ _ Hok E) as (? & ? & _).
  - unfold gpu_end in E. apply rbind_Ok in E as (k & _ & [= <-]). unfold clients_extend. by case_match.
  - by apply (selector_clients c src t g).
Qed.

Lemma rtc_clients cfg s s' :
  clients_ok (shared_core s) → rtc (service_step cfg) s s' →
  clients_ok (shared_core s') ∧ clients_extend (shared_core s) (shared_core s').
Proof.
  intros Hok Hr. unfold clients_extend in *.
  induction Hr as [s|s1 s2 s3 Hstep Hr IH]; [by split|].
  destruct (step_clients _ _ _ Hok Hstep) as [Hok2 Hext]. destruct (IH Hok2) as [Hok3 Hext3].
  split; [done|]. by etransitivity.
Qed.

(** A source keeps its client identifier, and with it its home device,
    for the life of the service, and as long as fewer than 2^31 - 1 sources
    were seen no two sources share one. *)
Theorem client_ids_unique cuda cfg s r1 r2 :
  new_service cuda cfg = Ok s →
  rtc (service_step cfg) (mkServiceThreads (core s) []) r1 → rtc (service_step cfg) r1 r2 →
  (∀ src id, source_to_client (shared_core r1) !! src = Some id →
     source_to_client (shared_core r2) !! src = Some id) ∧
  (Z.of_nat (size (source_to_client (shared_core r2))) < 2 ^ 31 - 1 →
   ∀ src1 src2 id1 id2, source_to_client (shared_core r2) !! src1 = Some id1 →
     source_to_client (shared_core r2) !! src2 = Some id2 → id1 = id2 ↔ src1 = src2).
Proof.
  intros Hnew H1 H2.
  assert (clients_ok (core s)) as Hok.
  { unfold new_service in Hnew. apply rbind_Ok in Hnew as ([use c] & Hc & [= <-]). cbn [core].
    assert (source_to_client c = ∅ ∧ next_client_id c = 1) as [E1 E2].
    { destruct (negb _ && _); [apply rbind_Ok in Hc as (t & _ & [= _ <-])|injection Hc as _ <-]; done. }
    unfold clients_ok. rewrite E1, E2, map_size_empty. intros _. split; [done|].
    split; intros *; by rewrite lookup_empty. }
  destruct (rtc_clients cfg (mkServiceThreads (core s) []) r1 Hok H1) as [Hok1 _].
  destruct (rtc_clients _ _ _ Hok1 H2) as [Hok2 Hext].
  split; [intros src id E; by apply (lookup_weaken _ _ _ _ E)|].
  intros Hsz src1 src2 id1 id2 E1 E2. destruct (Hok2 Hsz) as (_ & _ & Hinj).
  split; [intros <-; by apply (Hinj src1 src2 id1)|intros <-; congruence].
Qed.

Lemma client_ids_unique_witness :
  let r1 := mkServiceThreads (core_after (core sample_service) (str "a")) [0] in
  let r2 := mkServiceThreads (core_after (shared_core r1) (str "b")) [1; 0] in
  source_to_client (shared_core r2) !! str "b" = Some 2 ∧
  (∀ src, source_to_client (shared_core r2) !! src = Some 2 → src = str "b").
Proof.
  intros r1 r2. split; [reflexivity|]. intros src E.
  eapply (proj2 (client_ids_unique sample_cuda_none sample_config sample_service r1 r2 eq_refl _ _));
    [by vm_compute|exact E|reflexivity|reflexivity].
  Unshelve.
  - eapply rtc_once, (step_gpu_begin _ _ _ _ (str "a") queues 0). reflexivity.
  - eapply rtc_once, (step_gpu_begin _ _ _ _ (str "b") queues 1). reflexivity.
Defined.

(** *** Payloads *)

Lemma encode_doubles_be64s values : encode_doubles_as_payload values = be64s values.
Proof.
  unfold encode_doubles_as_payload, be64s. f_equal. apply list_fmap_ext. intros _ v _. apply store_loop_be.
Qed.

Lemma decode_payload_ok payload input :
  decode_payload_as_doubles payload = Ok input ↔
  zlen payload mod 8 = 0 ∧
  input = (λ i, load_be (slice payload (Z.of_nat i * 8) 8)) <$> seq 0 (Z.to_nat (zlen payload / 8)).
Proof.
  unfold decode_payload_as_doubles. rewrite rbind_reject, negb_false_iff, Z.eqb_eq.
  assert (((λ i, load_loop (slice payload (Z.of_nat i * 8) 8)) <$> seq 0 (Z.to_nat (zlen payload / 8)))
    = ((λ i, load_be (slice payload (Z.of_nat i * 8) 8)) <$> seq 0 (Z.to_nat (zlen payload / 8)))) as ->.
  { apply list_fmap_ext. intros _ i _. apply load_loop_be. unfold slice.
    rewrite length_firstn. lia. }
  naive_solver.
Qed.

(** Every payload the decoder takes is the encoding of its doubles. *)
Lemma payload_of_doubles payload input :
  decode_payload_as_doubles payload = Ok input →
  encode_doubles_as_payload input = payload ∧ Forall (is_uint 64) input ∧ zlen payload = 8 * zlen input.
Proof.
  intros [Hmod ->]%decode_payload_ok. pose proof (zlen_nonneg payload).
  assert (zlen payload = 8 * (zlen payload / 8)) as Hlen by (rewrite (Z.div_mod (zlen payload) 8) at 1; lia).
  destruct (be64s_words (Z.to_nat (zlen payload / 8)) payload) as (He & Hu & Hl);
    [unfold zlen in *; lia|].
  rewrite encode_doubles_be64s, Hl. split; [done|]. split; [done|]. lia.
Qed.

Lemma doubles_length values : zlen (encode_doubles_as_payload values) = 8 * zlen values.
Proof. rewrite encode_doubles_be64s. apply zlen_be64s. Qed.

Lemma encode_doubles_inj v1 v2 :
  Forall (is_uint 64) v1 → Forall (is_uint 64) v2 →
  encode_doubles_as_payload v1 = encode_doubles_as_payload v2 → v1 = v2.
Proof. rewrite !encode_doubles_be64s. apply be64s_inj. Qed.

Lemma doubles_decode values :
  Forall (is_uint 64) values →
  decode_payload_as_doubles (encode_doubles_as_payload values) = Ok values.
Proof.
  intros Hv. pose proof (doubles_length values) as Hlen.
  destruct (decode_payload_as_doubles (encode_doubles_as_payload values)) as [input|msg| |] eqn:E.
  - destruct (payload_of_doubles _ _ E) as (He & Hi & _). f_equal. by apply encode_doubles_inj.
  - exfalso. assert (decode_payload_as_doubles (encode_doubles_as_payload values)
      = Ok ((λ i, load_be (slice (encode_doubles_as_payload values) (Z.of_nat i * 8) 8))
              <$> seq 0 (Z.to_nat (zlen (encode_doubles_as_payload values) / 8)))) as E'.
    { apply decode_payload_ok. split; [|done]. rewrite Hlen. by rewrite Z.mul_comm, Z_mod_mult. }
    congruence.
  - unfold decode_payload_as_doubles in E. by destruct (reject_if _ _) eqn:Er; destruct (negb _) in Er.
  - unfold decode_payload_as_doubles in E. by destruct (reject_if _ _) eqn:Er; destruct (negb _) in Er.
Qed.

(** *** The deadline *)

Section Requests.
Context (h : endian) (gpu_compute : list Z → Z → result (list Z)) (nan : Z → Z → Z).

(** A clock that does not run backwards, read three times. *)
Definition clock_ok (e : Env) : Prop :=
  t_started e ≤ t_awake e ≤ t_ended e ∧ t_ended e - t_started e < 2 ^ 63.

Lemma finish_fields e req r :
  clock_ok e →
  resp_task_id (finish_response e req r) = resp_task_id r ∧
  resp_latency_ms (finish_response e req r) = (t_ended e - t_started e) / ms ∧
  resp_selected_gpu (finish_response e req r) = resp_selected_gpu r ∧
  resp_backend (finish_response e req r) = resp_backend r ∧
  resp_fell_back_to_cpu (finish_response e req r) = resp_fell_back_to_cpu r.
Proof.
  intros [Hc Hlt].
  assert (wrap 64 (Z.quot (t_ended e - t_started e) ms) = (t_ended e - t_started e) / ms) as Hl.
  { unfold ms. rewrite Z.quot_div_nonneg by lia. apply wrap_small. unfold is_uint.
    split; [apply Z.div_pos; lia|apply Z.div_lt_upper_bound; lia]. }
  unfold finish_response. rewrite Hl. by destruct (_ <=? _).
Qed.

Lemma handle_request_cases s e req resp s' :
  clock_ok e → validate_request req (cfg_protocol_limits (config s)) = Ok tt →
  handle_request h gpu_compute nan s e req = Ok (resp, s') →
  (deadline e req ≤ t_ended e ∧ s' = s ∧
     resp = finish_response e req (reply req StatusError [] [])) ∨
  (∃ r, dispatch h gpu_compute nan s e req = Ok (r, s') ∧ resp = finish_response e req r).
Proof.
  intros [Hc _] Hv. unfold handle_request. rewrite Hv. destruct (_ && _) eqn:E.
  - intros [= <- <-]. left. split; [|done]. apply andb_true_iff in E as [_ E]. lia.
  - intros H. apply rbind_Ok in H as ([r s1] & Hd & [= <- <-]). right. by exists r.
Qed.

Lemma handle_request_timely s e req :
  clock_ok e → validate_request req (cfg_protocol_limits (config s)) = Ok tt →
  t_ended e < deadline e req →
  handle_request h gpu_compute nan s e req =
    ('(r, s') <-! dispatch h gpu_compute nan s e req;; Ok (finish_response e req r, s')).
Proof.
  intros [Hc _] Hv Ht. unfold handle_request. rewrite Hv.
  destruct (Z.leb_spec (deadline e req) (t_awake e)); [lia|]. by rewrite andb_false_r.
Qed.

Lemma finish_timely e req r :
  t_ended e < deadline e req →
  resp_status (finish_response e req r) = resp_status r ∧
  resp_result (finish_response e req r) = resp_result r ∧
  resp_error (finish_response e req r) = resp_error r.
Proof.
  intros Ht. unfold finish_response. by destruct (Z.leb_spec (deadline e req) (t_ended e)); [lia|].
Qed.

(** C10: the deadline is enforced: a valid request answered at or past its
    deadline reports a timeout with no result, whatever its handler computed;
    one answered before it reports its handler's status, result and error, in
    less than its timeout; the latency is the elapsed time in milliseconds. *)
Theorem deadline_enforced s e req resp s' :
  clock_ok e → validate_request req (cfg_protocol_limits (config s)) = Ok tt →
  handle_request h gpu_compute nan s e req = Ok (resp, s') →
  resp_latency_ms resp = (t_ended e - t_started e) / ms ∧
  (deadline e req ≤ t_ended e →
     resp_status resp = StatusTimeout ∧ resp_result resp = [] ∧
     resp_error resp = str "request timed out") ∧
  (t_ended e < deadline e req →
     resp_latency_ms resp < req_timeout_ms req ∧
     ∃ r, dispatch h gpu_compute nan s e req = Ok (r, s') ∧ resp_status resp = resp_status r ∧
       resp_result resp = resp_result r ∧ resp_error resp = resp_error r).
Proof.
  intros Hc Hv Hr.
  assert (∃ r, resp = finish_response e req r ∧
    (t_ended e < deadline e req → dispatch h gpu_compute nan s e req = Ok (r, s'))) as (r & -> & Hd).
  { destruct (handle_request_cases s e req resp s' Hc Hv Hr) as [(Hd & _ & ->)|(r & Hd & ->)].
    - eexists. split; [done|]. lia.
    - by exists r. }
  destruct (finish_fields e req r Hc) as (_ & Hl & _). split; [done|]. split.
  - intros Ht. unfold finish_response. by destruct (Z.leb_spec (deadline e req) (t_ended e)); [|lia].
  - intros Ht. split.
    + rewrite Hl. apply Z.div_lt_upper_bound; [done|]. unfold deadline in Ht. unfold ms in *. lia.
    + exists r. split; [by apply Hd|]. by apply finish_timely.
Qed.

(** *** Echoed frames *)

Definition accepted {A} (r : result (bool * option A * option bytes)) : bool :=
  match r with Ok (true, _, _) => true | _ => false end.

(** The answer to a frame the broker acknowledges by echoing it. *)
Definition echoes (req : BrokerRequest) (decodes : bool) (resp : BrokerResponse) : Prop :=
  resp_task_id resp = req_task_id req ∧
  if decodes then resp_status resp = StatusOk ∧ resp_result resp = req_payload req ∧ resp_error resp = []
  else resp_status resp = StatusRejected ∧ resp_result resp = [].

(** A codec call on valid pointers, in terms of the body it wraps. *)
Lemma outcome_api {A} null (old : A) (r : result A) :
  outcome (api_call null (Some old) (Some []) r) =
  match r with
  | Ok a => Ok (inl a) | Err e => Ok (inr e) | OutOfBounds => OutOfBounds | NoFuel => NoFuel
  end.
Proof. by destruct r. Qed.

Lemma accepted_api {A} null (old : A) err (r : result A) :
  accepted (api_call null (Some old) err r) = is_ok r.
Proof. by destruct r. Qed.

Lemma geospatial_echo cfg req :
  ∃ resp, handle_geospatial_frame_request h cfg req = Ok resp ∧
    echoes req (accepted (decode_nxr1_frame h (req_payload req) (Some default_geo) None
                            (max_payload_bytes (cfg_protocol_limits cfg)))) resp.
Proof.
  unfold handle_geospatial_frame_request, decode_nxr1_frame, encode_nxr1_frame. cbv zeta.
  set (max := max_payload_bytes _). rewrite outcome_api, accepted_api.
  destruct (wp_run _ _ _ (wp_nxr1 h max (req_payload req))) as [Hs Hrun].
  destruct (run_reader (nxr1_reader h max) (req_payload req)) as [f|msg| |] eqn:E; try done.
  - destruct (Hrun f eq_refl) as (Hp & Hwf & Hfit). rewrite rbind_ret, outcome_api.
    rewrite (proj2 (nxr1_encoder_ok h f max (nxr1_layout h f) Hwf) (conj Hfit eq_refl)), rbind_ret.
    eexists. split; [done|]. unfold echoes. cbn. by rewrite <- Hp.
  - eexists. split; [done|]. done.
Qed.

Lemma media_echo cfg req :
  ∃ resp, handle_media_stream_request cfg req = Ok resp ∧
    echoes req (accepted (decode_media_stream_frame (req_payload req) (Some default_media) None
                            (max_payload_bytes (cfg_protocol_limits cfg))
                            (max_string_bytes (cfg_protocol_limits cfg)))) resp.
Proof.
  unfold handle_media_stream_request, decode_media_stream_frame, encode_media_stream_frame. cbv zeta.
  set (max := max_payload_bytes _). set (maxs := max_string_bytes _). rewrite outcome_api, accepted_api.
  destruct (wp_run _ _ _ (wp_media max maxs (req_payload req))) as [Hs Hrun].
  destruct (run_reader (media_reader max maxs) (req_payload req)) as [f|msg| |] eqn:E; try done.
  - destruct (Hrun f eq_refl) as (Hp & Hwf & Hfit). rewrite rbind_ret, outcome_api.
    rewrite (proj2 (media_encoder_ok max maxs f (media_layout f)) (conj Hfit eq_refl)), rbind_ret.
    eexists. split; [done|]. unfold echoes. cbn. by rewrite <- Hp.
  - eexists. split; [done|]. done.
Qed.

(** C12: a geospatial or media request answered in time is acknowledged with
    its own payload, byte for byte, exactly when the payload decodes, and is
    rejected otherwise; it never fails to re-encode and changes no state. *)
Theorem frames_echoed s e req :
  clock_ok e → validate_request req (cfg_protocol_limits (config s)) = Ok tt →
  t_ended e < deadline e req →
  let lim := cfg_protocol_limits (config s) in
  (req_kind req = kGeospatialFrameKind →
     ∃ resp, handle_request h gpu_compute nan s e req = Ok (resp, s) ∧
       echoes req (accepted (decode_nxr1_frame h (req_payload req) (Some default_geo) None
                               (max_payload_bytes lim))) resp) ∧
  (req_kind req = kMediaStreamKind →
     ∃ resp, handle_request h gpu_compute nan s e req = Ok (resp, s) ∧
       echoes req (accepted (decode_media_stream_frame (req_payload req) (Some default_media) None
                               (max_payload_bytes lim) (max_string_bytes lim))) resp).
Proof.
  intros Hc Hv Ht lim. rewrite handle_request_timely by done.
  assert (∀ b r, echoes req b r → echoes req b (finish_response e req r)) as Hfin.
  { intros b r. unfold echoes. destruct (finish_fields e req r Hc) as (-> & _).
    by destruct (finish_timely e req r Ht) as (-> & -> & ->). }
  unfold dispatch. split; intros ->.
  - rewrite bool_decide_eq_true_2 by done. destruct (geospatial_echo (config s) req) as (r & -> & Hr).
    rewrite !rbind_ret. eexists. split; [done|]. by apply Hfin.
  - rewrite bool_decide_eq_false_2, bool_decide_eq_true_2 by done.
    destruct (media_echo (config s) req) as (r & -> & Hr).
    rewrite !rbind_ret. eexists. split; [done|]. by apply Hfin.
Qed.

End Requests.

(** A request of another kind against the sample service, alone. *)
Definition alone (started ended : Z) : Env :=
  mkEnv started started ended queues id id 0.
Definition sample_compute (kind payload preference : bytes) : BrokerRequest :=
  mkRequest (str "t1") (str "a") (str "b") kind 0 5 payload None preference.
Definition no_nan (a b : Z) : Z := 0x7ff8000000000000.
Definition host_compute : list Z → Z → result (list Z) := default_gpu_compute no_nan None.

(** 1.0 and -3.5. *)
Definition sample_payload : bytes := encode_doubles_as_payload [0x3ff0000000000000; 0xc00c000000000000].

Lemma deadline_enforced_witness :
  let req := sample_compute (str "k") sample_payload [] in
  match handle_request LittleEndian host_compute no_nan no_devices (alone 7 5000007) req with
  | Ok (resp, _) => resp_status resp = StatusTimeout ∧ resp_result resp = []
  | _ => False
  end.
Proof.
  intros req. destruct (handle_request _ _ _ _ _ _) as [[resp s']|msg| |] eqn:E;
    [|by vm_compute in E..].
  destruct (deadline_enforced LittleEndian host_compute no_nan no_devices (alone 7 5000007) req resp s')
    as (_ & H & _); [by vm_compute|by vm_compute|exact E|].
  destruct H as (H1 & H2 & _); [by vm_compute|]. split; [exact H1|exact H2].
Defined.

Definition sample_geo_request : BrokerRequest :=
  sample_compute kGeospatialFrameKind (nxr1_layout LittleEndian sample_geo) [].

Lemma frames_echoed_witness :
  ∃ resp, handle_request LittleEndian host_compute no_nan no_devices (alone 0 3000000) sample_geo_request
            = Ok (resp, no_devices) ∧
    resp_status resp = StatusOk ∧ resp_result resp = nxr1_layout LittleEndian sample_geo.
Proof.
  destruct (frames_echoed LittleEndian host_compute no_nan no_devices (alone 0 3000000) sample_geo_request)
    as [H _]; [by vm_compute|by vm_compute|by vm_compute|].
  specialize (H eq_refl). destruct H as (resp & H1 & H2). exists resp. split; [exact H1|].
  match type of H2 with echoes _ ?d _ => assert (d = true) as Hd by (vm_compute; reflexivity) end.
  rewrite Hd in H2. destruct H2 as (_ & H2 & H3 & _). by split.
Defined.

(** *** Compute requests *)

(** Neither a crash nor an unfinished loop in the supplied kernels. *)
Definition kernels_safe (gpu_compute : list Z → Z → result (list Z)) (cfg : BrokerServiceConfig) : Prop :=
  (∀ input gpu, safe (gpu_kernel gpu_compute cfg input gpu)) ∧
  (∀ npu, cfg_npu_executor cfg = Some npu → ∀ input, safe (run npu input)).

(** The service's state, with [tasks] running on its [n] devices. *)
Definition service_ok (n : Z) (tasks : list Z) (s : Service) : Prop :=
  use_gpu_placement s = true → core_ok n (cfg_max_inflight_per_gpu (config s)) tasks (core s).

(** Other requests come and go while a task runs; they leave it running. *)
Definition interference (n max : Z) (f : Core → Core) : Prop :=
  ∀ g tasks c, core_ok n max (g :: tasks) c → ∃ tasks', core_ok n max (g :: tasks') (f c).

Section Compute.
Context (gpu_compute : list Z → Z → result (list Z)) (nan : Z → Z → Z) (n : Z) (tasks : list Z).

Lemma run_on_gpu_ok cfg e c req input :
  core_ok n (cfg_max_inflight_per_gpu cfg) tasks c → cfg_max_inflight_per_gpu cfg < 2 ^ 64 - 1 →
  (∀ input gpu, safe (gpu_kernel gpu_compute cfg input gpu)) →
  interference n (cfg_max_inflight_per_gpu cfg) (during_gpu e) →
  ∃ resp c' tasks', run_on_gpu gpu_compute cfg e c req input = Ok (resp, c') ∧
    core_ok n (cfg_max_inflight_per_gpu cfg) tasks' c' ∧
    resp_task_id resp = req_task_id req ∧ resp_backend resp = Gpu ∧
    in_range n (resp_selected_gpu resp) ∧
    (during_gpu e = id → gpu_inflight c' = gpu_inflight c) ∧
    ∃ start c1, gpu_begin cfg c (req_source req) (depth_samples e) = Ok (start, c1) ∧
    match resp_status resp with
    | StatusOk => start = GpuRunning (resp_selected_gpu resp) ∧
        ∃ output, gpu_kernel gpu_compute cfg input (resp_selected_gpu resp) = Ok output ∧
        resp = gpu_reply req StatusOk (resp_selected_gpu resp) (encode_doubles_as_payload output) []
    | StatusError => start = GpuRunning (resp_selected_gpu resp) ∧
        ∃ what, gpu_kernel gpu_compute cfg input (resp_selected_gpu resp) = Err what ∧
        resp = gpu_reply req StatusError (resp_selected_gpu resp) [] what
    | StatusRejected => start = GpuFull (resp_selected_gpu resp) ∧
        tasks_of (resp_selected_gpu resp) tasks = cfg_max_inflight_per_gpu cfg ∧
        resp = gpu_reply req StatusRejected (resp_selected_gpu resp) [] (str "selected GPU queue is at capacity")
    | StatusTimeout => False
    end.
Proof.
  intros Hok Hmax Hk Hint. unfold run_on_gpu.
  destruct (gpu_begin_ok n _ cfg tasks c (req_source req) (depth_samples e) Hok eq_refl Hmax)
    as (start & c1 & -> & Hstart).
  destruct start as [g|g].
  - destruct Hstart as (Hg & Hfull & Hok1 & He). eexists _, c1, tasks. split_and!; try done. by exists (GpuFull g), c1.
  - destruct Hstart as (Hg & Hok1 & He). destruct (Hint g tasks c1 Hok1) as (tasks' & Hok2).
    destruct (gpu_end_ok n _ [] g tasks' _ Hok2 Hg) as (c3 & Hend & Hok3 & He3). cbn [app] in *.
    pose proof (ok_count _ _ _ _ Hok g Hg) as Hat.
    assert (during_gpu e = id → gpu_inflight c3 = gpu_inflight c) as Hid.
    { intros Hid. rewrite Hid in Hend.
      destruct (gpu_end_ok n _ [] g tasks c1 Hok1 Hg) as (c4 & Hend4 & _ & He4).
      unfold id in Hend. rewrite Hend in Hend4. injection Hend4 as <-.
      rewrite He4. cbn [set_inflight gpu_inflight app] in *.
      rewrite He, list_insert_insert_eq. apply list_insert_id. unfold inflight_at, in_range in *.
      destruct (Z.leb_spec 0 g); [|lia]. destruct (gpu_inflight c !! Z.to_nat g); congruence. }
    specialize (Hk input g). destruct (gpu_kernel gpu_compute cfg input g) as [out|what| |] eqn:Eg; try done;
      rewrite rbind_ret, Hend, rbind_ret; eexists _, c3, tasks'; (split; [done|]);
      cbn [gpu_reply resp_task_id resp_backend resp_selected_gpu resp_status];
      split_and!; try done; exists (GpuRunning g), c1; (split; [done|]); (split; [done|]); eauto.
Qed.

Lemma select_needs policy profile :
  match select_backend policy profile with
  | Gpu => gpu_available policy = true
  | Npu => npu_available policy = true
  | Cpu => True
  end.
Proof.
  unfold select_backend. destruct (BackendDispatch.force_cpu policy); [done|]. destruct profile as [p|].
  - destruct (profile_requires_cpu p); [done|].
    destruct (is_inference p), (npu_available policy) eqn:En, (is_data_parallel p),
      (gpu_available policy) eqn:Eg; cbn; try done; by destruct (_ || _).
  - destruct (bool_decide _), (gpu_available policy) eqn:?; done.
Qed.

Lemma effective_available policy req :
  let '(_, _, p) := effective policy req in
  gpu_available p = gpu_available policy ∧ npu_available p = npu_available policy.
Proof.
  unfold effective. destruct (req_profile req); [done|]. by repeat case_bool_decide.
Qed.

(** The accelerator the policy selected failed: the device the placer chose is
    full or its kernel threw, or the NPU executor threw. *)
Inductive accelerator_failed (s : Service) (e : Env) (req : BrokerRequest) (input : list Z)
    : BackendKind → TaskStatus → Z → bytes → Prop :=
| gpu_threw gpu what c :
    gpu_begin (config s) (core s) (req_source req) (depth_samples e) = Ok (GpuRunning gpu, c) →
    gpu_kernel gpu_compute (config s) input gpu = Err what →
    accelerator_failed s e req input Gpu StatusError gpu what
| gpu_full gpu c :
    gpu_begin (config s) (core s) (req_source req) (depth_samples e) = Ok (GpuFull gpu, c) →
    tasks_of gpu tasks = cfg_max_inflight_per_gpu (config s) →
    accelerator_failed s e req input Gpu StatusRejected gpu (str "selected GPU queue is at capacity")
| npu_threw npu what :
    cfg_npu_executor (config s) = Some npu → run npu input = Err what →
    accelerator_failed s e req input Npu StatusError (-1) what.

(** What a compute request is answered: the outcome on the backend that was
    selected or, when that failed and the work may be repeated, on the CPU. *)
Inductive answered (s : Service) (e : Env) (req : BrokerRequest) (input : list Z) (fallback : bool)
    : BackendKind → BrokerResponse → Prop :=
| answered_cpu : answered s e req input fallback Cpu (cpu_reply nan req input false)
| answered_gpu gpu c output :
    gpu_begin (config s) (core s) (req_source req) (depth_samples e) = Ok (GpuRunning gpu, c) →
    in_range n gpu → gpu_kernel gpu_compute (config s) input gpu = Ok output →
    answered s e req input fallback Gpu
      (mkResponse (req_task_id req) StatusOk gpu 0 (encode_doubles_as_payload output) [] Gpu false)
| answered_npu npu output :
    cfg_npu_executor (config s) = Some npu → run npu input = Ok output →
    answered s e req input fallback Npu
      (mkResponse (req_task_id req) StatusOk (-1) 0 (encode_doubles_as_payload output) [] Npu false)
| answered_fallback backend status gpu what :
    accelerator_failed s e req input backend status gpu what → fallback = true →
    answered s e req input fallback backend (cpu_reply nan req input true)
| answered_failed backend status gpu what :
    accelerator_failed s e req input backend status gpu what → fallback = false →
    answered s e req input fallback backend (mkResponse (req_task_id req) status gpu 0 [] what backend false).

Context (s : Service) (e : Env) (req : BrokerRequest).
Hypothesis Hok : service_ok n tasks s.
Hypothesis Hmax : cfg_max_inflight_per_gpu (config s) < 2 ^ 64 - 1.
Hypothesis Hkernels : kernels_safe gpu_compute (config s).
Hypothesis Hint : interference n (cfg_max_inflight_per_gpu (config s)) (during_gpu e).

(** The service after the request, whose core is [c]. *)
Definition core_left (c : Core) : Prop :=
  (use_gpu_placement s = true → ∃ tasks', core_ok n (cfg_max_inflight_per_gpu (config s)) tasks' c) ∧
  (use_gpu_placement s = false → c = core s) ∧
  (during_gpu e = id → gpu_inflight c = gpu_inflight (core s)).

Lemma core_left_same : core_left (core s).
Proof. split; [intros Hu; exists tasks; by apply Hok|done]. Qed.

Lemma answer_on_gpu input fallback :
  use_gpu_placement s = true →
  ∃ resp c, ('(gpu_response, c) <-! run_on_gpu gpu_compute (config s) e (core s) req input;;
             if bool_decide (resp_status gpu_response = StatusOk) || negb fallback
             then Ok (gpu_response, c) else Ok (cpu_reply nan req input true, c)) = Ok (resp, c) ∧
    resp_task_id resp = req_task_id req ∧ core_left c ∧ answered s e req input fallback Gpu resp.
Proof.
  intros Huse. destruct Hkernels as [Hgpu _].
  destruct (run_on_gpu_ok (config s) e (core s) req input (Hok Huse) Hmax Hgpu Hint)
    as (resp & c & tasks' & Hrun & Hok' & Hid & Hb & Hg & Hsame & start & c1 & Hbegin & Hst).
  rewrite Hrun, rbind_ret.
  assert (core_left c) as Hleft.
  { split; [by eauto|]. split; [congruence|done]. }
  destruct (resp_status resp) eqn:Hs; try done; rewrite ?bool_decide_eq_true_2, ?bool_decide_eq_false_2 by done; cbn [orb].
  { destruct Hst as (-> & output & Hout & ->). eexists _, c. split; [done|]. split; [done|]. split; [done|].
    by eapply answered_gpu. }
  all: assert (accelerator_failed s e req input Gpu (resp_status resp) (resp_selected_gpu resp) (resp_error resp) ∧
      resp = gpu_reply req (resp_status resp) (resp_selected_gpu resp) [] (resp_error resp)) as [Hfail E]
    by (rewrite Hs; destruct Hst as (-> & H);
        first [destruct H as (Hfull & ->)|destruct H as (what & Hk & ->)]; split; [|done]; by econstructor).
  all: rewrite Hs in Hfail, E; destruct fallback; cbn [negb]; eexists _, c; (split; [done|]);
    (split; [done|]); (split; [done|]); [by eapply answered_fallback|].
  all: rewrite E; by apply answered_failed.
Qed.

(** The compute path returns, and answers with one of the above. *)
Lemma compute_request_ok :
  ∃ resp c, compute_request gpu_compute nan s e req = Ok (resp, c) ∧
    resp_task_id resp = req_task_id req ∧ core_left c ∧
    let '(profile, fallback, policy) := effective (request_policy s) req in
    match decode_payload_as_doubles (req_payload req) with
    | Ok input => answered s e req input fallback (select_backend policy profile) resp
    | _ => resp_status resp = StatusError ∧ resp_result resp = []
    end.
Proof.
  unfold compute_request. pose proof (effective_available (request_policy s) req) as Heff.
  destruct (effective (request_policy s) req) as [[profile fallback] policy]. destruct Heff as [Hg Hn].
  pose proof core_left_same as Hsame.
  destruct (decode_payload_as_doubles (req_payload req)) as [input|msg| |] eqn:Ed.
  2: { eexists _, _. split; [done|]. by split_and!. }
  2-3: unfold decode_payload_as_doubles in Ed; by destruct (negb _).
  pose proof (select_needs policy profile) as Hneeds.
  destruct (select_backend policy profile) eqn:Eb.
  - eexists _, _. split; [done|]. split; [done|]. split; [done|]. apply answered_cpu.
  - apply answer_on_gpu. rewrite Hg in Hneeds. exact Hneeds.
  - rewrite Hn in Hneeds. unfold request_policy in Hneeds. cbn [npu_available] in Hneeds.
    apply andb_true_iff in Hneeds as [_ Hneeds]. destruct Hkernels as [_ Hnpu].
    destruct (cfg_npu_executor (config s)) as [npu|] eqn:En; [|done].
    specialize (Hnpu npu eq_refl input). destruct (run npu input) as [out|what| |] eqn:Er; try done.
    + eexists _, _. split; [done|]. split; [done|]. split; [done|].
      by eapply answered_npu.
    + destruct fallback; cbn [negb]; eexists _, _; (split; [done|]); (split; [done|]); (split; [done|]).
      * by eapply answered_fallback; [eapply npu_threw|].
      * apply answered_failed; [by eapply npu_threw|done].
Qed.

End Compute.

Definition is_compute_kind (kind : bytes) : bool :=
  negb (bool_decide (kind = kGeospatialFrameKind) || bool_decide (kind = kMediaStreamKind)
        || bool_decide (kind = kWasmTaskKind) || is_lifecycle_kind kind).

Section ComputeTheorems.
Context (h : endian) (nan : Z → Z → Z) (n : Z) (tasks : list Z).

Lemma dispatch_compute gpu_compute s e req :
  is_compute_kind (req_kind req) = true →
  dispatch h gpu_compute nan s e req
    = ('(r, c) <-! compute_request gpu_compute nan s e req;; Ok (r, with_core s c)).
Proof.
  unfold is_compute_kind, dispatch. rewrite negb_true_iff, !orb_false_iff.
  by intros [[[-> ->] ->] ->].
Qed.

(** C9: a compute request answered in time is answered in one of these ways
    and no other: a payload that is not a sequence of doubles is an error;
    otherwise the selected backend's result (on the GPU the placer chose, which
    is one of the topology), and only if that GPU was full or its kernel or the
    NPU threw, the CPU result flagged as a fallback when the work may be repeated
    and that failure when it may not.  So a request that may be repeated always
    succeeds.  With no other request in
    between, every device's counter is what it was before. *)
Theorem compute_answered gpu_compute s e req :
  service_ok n tasks s → cfg_max_inflight_per_gpu (config s) < 2 ^ 64 - 1 →
  kernels_safe gpu_compute (config s) →
  interference n (cfg_max_inflight_per_gpu (config s)) (during_gpu e) →
  clock_ok e → validate_request req (cfg_protocol_limits (config s)) = Ok tt →
  t_ended e < deadline e req → is_compute_kind (req_kind req) = true →
  ∃ r s', handle_request h gpu_compute nan s e req = Ok (finish_response e req r, s') ∧
    resp_task_id r = req_task_id req ∧
    (during_gpu e = id → gpu_inflight (core s') = gpu_inflight (core s)) ∧
    let '(profile, fallback, policy) := effective (request_policy s) req in
    match decode_payload_as_doubles (req_payload req) with
    | Ok input =>
        answered gpu_compute nan n tasks s e req input fallback (select_backend policy profile) r ∧
        (fallback = true → resp_status r = StatusOk)
    | _ => resp_status r = StatusError ∧ resp_result r = []
    end.
Proof.
  intros Hok Hmax Hk Hint Hc Hv Ht Hkind.
  rewrite handle_request_timely, dispatch_compute by done.
  destruct (compute_request_ok gpu_compute nan n tasks s e req Hok Hmax Hk Hint)
    as (r & c & -> & Hid & (_ & _ & Hsame) & Hans).
  rewrite !rbind_ret. exists r, (with_core s c). split; [done|]. split; [done|]. split; [done|].
  destruct (effective _ _) as [[profile fallback] policy].
  destruct (decode_payload_as_doubles _) as [input|msg| |]; [|done..].
  split; [done|]. intros ->. destruct Hans; done.
Qed.

(** C11: the CPU and GPU backends are interchangeable: with the default
    kernel, in builds with or without cuBLAS, a compute request that succeeds
    on either carries its payload's doubles times 2, in the same encoding. *)
Theorem backends_agree lib s e req resp s' :
  (∀ l, lib = Some l → dscal_correct nan l) →
  service_ok n tasks s → cfg_max_inflight_per_gpu (config s) < 2 ^ 64 - 1 →
  cfg_gpu_compute_fn (config s) = None →
  (∀ npu, cfg_npu_executor (config s) = Some npu → ∀ input, safe (run npu input)) →
  interference n (cfg_max_inflight_per_gpu (config s)) (during_gpu e) →
  clock_ok e → validate_request req (cfg_protocol_limits (config s)) = Ok tt →
  zlen (req_payload req) < 2 ^ 34 → is_compute_kind (req_kind req) = true →
  handle_request h (default_gpu_compute nan lib) nan s e req = Ok (resp, s') →
  resp_status resp = StatusOk → resp_backend resp ≠ Npu →
  ∃ input, encode_doubles_as_payload input = req_payload req ∧
    resp_result resp = encode_doubles_as_payload ((λ v, fmul nan v two) <$> input).
Proof.
  intros Hlib Hok Hmax Hfn Hnpu Hint Hc Hv Hlen Hkind Hrun Hst Hb.
  set (k := default_gpu_compute nan lib) in *.
  assert (kernels_safe k (config s)) as Hk.
  { split; [|done]. intros input gpu. unfold gpu_kernel. rewrite Hfn. apply default_gpu_compute_safe. }
  destruct (handle_request_cases h k nan s e req resp s' Hc Hv Hrun) as [(Hd & _ & ->)|(r & Hd & ->)].
  { unfold finish_response in Hst. by destruct (Z.leb_spec (deadline e req) (t_ended e)); [|lia]. }
  assert (t_ended e < deadline e req) as Ht.
  { unfold finish_response in Hst. by destruct (Z.leb_spec (deadline e req) (t_ended e)). }
  destruct (finish_timely e req r Ht) as (Hs & -> & _). rewrite Hs in Hst.
  destruct (finish_fields e req r Hc) as (_ & _ & _ & Hb' & _). rewrite Hb' in Hb.
  rewrite dispatch_compute in Hd by done.
  destruct (compute_request_ok k nan n tasks s e req Hok Hmax Hk Hint) as (r1 & c & E & _ & _ & Hans).
  rewrite E, rbind_ret in Hd. injection Hd as -> _.
  destruct (effective _ _) as [[profile fallback] policy].
  destruct (decode_payload_as_doubles _) as [input|msg| |] eqn:Ed; [|destruct Hans; congruence..].
  destruct (payload_of_doubles _ _ Ed) as (Hp & _ & Hl). exists input. split; [done|].
  destruct Hans as [|gpu c1 output _ _ Hgpu| |backend st g what _ _|backend st g what Hf _];
    [done| |done|done|by destruct Hf]. cbn [resp_result].
  f_equal. unfold gpu_kernel in Hgpu. rewrite Hfn in Hgpu. unfold zlen in *.
  apply default_gpu_compute_host in Hgpu; [done|done|]. unfold zlen. lia.
Qed.

End ComputeTheorems.

Lemma sample_service_new : new_service sample_cuda_none sample_config = Ok sample_service.
Proof. reflexivity. Qed.

Lemma sample_service_ok : service_ok 2 [] sample_service.
Proof.
  destruct (new_service_ok sample_cuda_none sample_config) as (s & E & _ & _ & Hok & _); [done|done|].
  rewrite sample_service_new in E. injection E as <-. exact Hok.
Qed.

Lemma no_interference n max : interference n max id.
Proof. intros g tasks c Hok. by exists tasks. Qed.

Definition sample_request_1 : BrokerRequest := sample_compute (str "inference") sample_payload [].

Lemma compute_answered_witness :
  ∃ r s', handle_request LittleEndian host_compute no_nan sample_service (alone 0 3000000) sample_request_1
            = Ok (finish_response (alone 0 3000000) sample_request_1 r, s') ∧
    gpu_inflight (core s') = [0; 0].
Proof.
  destruct (compute_answered LittleEndian no_nan 2 [] host_compute sample_service (alone 0 3000000)
    sample_request_1) as (r & s' & H1 & _ & H2 & _);
    [exact sample_service_ok|by vm_compute| |apply no_interference|by vm_compute|by vm_compute
    |by vm_compute|by vm_compute|].
  { split; [intros; apply default_gpu_compute_safe|done]. }
  exists r, s'. split; [exact H1|exact (H2 eq_refl)].
Defined.

Definition response_of (r : result (BrokerResponse * Service)) : option BrokerResponse :=
  match r with Ok (resp, _) => Some resp | _ => None end.

Lemma backends_agree_witness :
  ∃ resp s', handle_request LittleEndian host_compute no_nan sample_service (alone 0 3000000) sample_request_1
               = Ok (resp, s') ∧ resp_backend resp = Gpu ∧
    ∃ input, encode_doubles_as_payload input = sample_payload ∧
      resp_result resp = encode_doubles_as_payload ((λ v, fmul no_nan v two) <$> input).
Proof.
  assert (response_of (handle_request LittleEndian host_compute no_nan sample_service (alone 0 3000000)
    sample_request_1) = Some (mkResponse (str "t1") StatusOk 0 3
      (encode_doubles_as_payload [0x4000000000000000; 0xc01c000000000000]) [] Gpu false)) as Hr
    by (vm_compute; reflexivity).
  destruct (handle_request _ _ _ _ _ _) as [[resp s']|msg| |] eqn:E; [|discriminate Hr..].
  injection Hr as Hr. exists resp, s'. split; [reflexivity|]. split; [by rewrite Hr|].
  apply (backends_agree LittleEndian no_nan 2 [] None sample_service (alone 0 3000000) sample_request_1
    resp s'); [done|exact sample_service_ok|by vm_compute|done|done|apply no_interference
    |by vm_compute|by vm_compute|by vm_compute|by vm_compute|exact E|by rewrite Hr|by rewrite Hr].
Defined.

(** *** Every request is answered *)

(** The manager's selector, if any, is the service's own, which needs devices. *)
Definition manager_ok (s : Service) : Prop :=
  ∀ sel, gpu_selector (wasm_manager s) = Some sel →
    use_gpu_placement s = true ∧ sel = service_selector.

Section Total.
Context (h : endian) (gpu_compute : list Z → Z → result (list Z)) (nan : Z → Z → Z) (n : Z).
Hypothesis Hgpu : ∀ input gpu, safe (gpu_compute input gpu).

Lemma task_compute_safe gpu req : safe (task_compute h gpu_compute None gpu req).
Proof.
  unfold task_compute. case_bool_decide; [done|]. destruct (_ =? 0); [|done].
  apply safe_rbind; [apply Hgpu|done].
Qed.

Lemma begin_selector (m : Manager Core) req :
  gpu_selector (task_begin m req).2 = gpu_selector m.
Proof.
  unfold task_begin. destruct (modules m !! task_key req) as [r|]; [|done].
  case_bool_decide; [done|]. by destruct (_ || _).
Qed.

Lemma end_selector (m : Manager Core) key : gpu_selector (task_end m key) = gpu_selector m.
Proof. unfold task_end. by destruct (modules m !! key). Qed.

Lemma handle_task_ok (m : Manager Core) req between latency :
  (∀ m, gpu_selector (between m) = gpu_selector m) →
  ∃ resp m', handle_task m req (λ gpu, task_compute h gpu_compute None gpu req) between latency
               = Ok (resp, m') ∧ gpu_selector m' = gpu_selector m.
Proof.
  intros Hb. unfold handle_task. pose proof (begin_selector m req) as Hs.
  destruct (task_begin m req) as [[resp|gpu] m1]; cbn [snd] in Hs; [by exists resp, m1|].
  pose proof (task_compute_safe gpu req) as Hc.
  destruct (task_compute h gpu_compute None gpu req); try done; rewrite rbind_ret; eexists _, _;
    (split; [done|]); by rewrite end_selector, Hb.
Qed.

Lemma wasm_task_ok cfg e m req :
  (∀ m, gpu_selector (during_task e m) = gpu_selector m) →
  ∃ resp m', handle_wasm_task_request h gpu_compute cfg e m req = Ok (resp, m') ∧
    resp_task_id resp = req_task_id req ∧ gpu_selector m' = gpu_selector m.
Proof.
  intros Hb. unfold handle_wasm_task_request, decode_wasm_task_request, encode_wasm_task_response.
  cbv zeta. set (lim := wasm_limits _). rewrite outcome_api.
  destruct (wp_run _ _ _ (wp_task_request h lim (req_payload req))) as [Hs _].
  destruct (run_reader _ _) as [wasm_req|msg| |]; try done; rewrite rbind_ret; [|by eexists _, m].
  destruct (handle_task_ok m wasm_req (during_task e) (task_latency e) Hb) as (wr & m' & -> & Hsel).
  rewrite rbind_ret, outcome_api. pose proof (task_response_encoder_safe h wr lim) as Henc.
  destruct (task_response_encoder h wr lim); try done; rewrite rbind_ret; by eexists _, m'.
Qed.

Context (s : Service) (tasks : list Z).
Hypothesis Hok : service_ok n tasks s.
Hypothesis Hman : manager_ok s.

Lemma lifecycle_ok req :
  ∃ resp m' c', handle_lifecycle (wasm_manager s) req (core s) = Ok (resp, m', c') ∧
    gpu_selector m' = gpu_selector (wasm_manager s) ∧ service_ok n tasks (with_core s c') ∧
    gpu_inflight c' = gpu_inflight (core s).
Proof.
  assert (∃ resp m' c', register_module (wasm_manager s) req (core s) = Ok (resp, m', c') ∧
    gpu_selector m' = gpu_selector (wasm_manager s) ∧ service_ok n tasks (with_core s c') ∧
    gpu_inflight c' = gpu_inflight (core s)) as Hreg.
  { unfold register_module, choose_gpu. destruct (_ <=? _); [by do 3 eexists|].
    destruct (WasmManager.force_cpu _); [by do 3 eexists|].
    destruct (gpu_selector (wasm_manager s)) as [sel|] eqn:E; [|by do 3 eexists].
    destruct (Hman sel E) as [Huse ->]. specialize (Hok Huse).
    destruct (selector_ok n _ tasks (core s) (lq_sandbox_id req) (lq_target_gpu req) Hok)
      as (g & c' & -> & Hok' & He & _).
    rewrite rbind_ret. eexists _, _, c'. split; [done|]. split; [done|]. split; [|done]. by intros _. }
  unfold handle_lifecycle. destruct (lq_action req).
  - unfold prepare_module. destruct (_ || _ || _); [by do 3 eexists|].
    destruct (modules _ !! _) as [r|]; [|done]. destruct (_ || _); [by do 3 eexists|].
    destruct (_ || _); [by do 3 eexists|done].
  - unfold drain_module. destruct (modules _ !! _) as [r|]; [|by do 3 eexists].
    destruct (bool_decide _); by do 3 eexists.
  - unfold release_module. destruct (modules _ !! _) as [r|]; [|by do 3 eexists].
    destruct (_ <? _); by do 3 eexists.
  - by do 3 eexists.
  - by do 3 eexists.
Qed.

Lemma wasm_lifecycle_ok req :
  ∃ resp m' c', handle_wasm_lifecycle_request h (config s) (wasm_manager s) (core s) req
                  = Ok (resp, m', c') ∧
    resp_task_id resp = req_task_id req ∧
    gpu_selector m' = gpu_selector (wasm_manager s) ∧ service_ok n tasks (with_core s c') ∧
    gpu_inflight c' = gpu_inflight (core s).
Proof.
  unfold handle_wasm_lifecycle_request, decode_wasm_lifecycle_request, encode_wasm_lifecycle_response.
  cbv zeta. set (lim := wasm_limits _). rewrite outcome_api.
  destruct (wp_run _ _ _ (wp_life_request h lim (req_payload req))) as [Hs _].
  destruct (run_reader _ _) as [wasm_req|msg| |]; try done; rewrite rbind_ret; [|by do 3 eexists].
  destruct (lifecycle_ok (with_action wasm_req (kind_action (req_kind req) (lq_action wasm_req))))
    as (wr & m' & c' & -> & Hsel & Hok' & He).
  rewrite rbind_ret, outcome_api. destruct (life_response_encoder_spec h lim wr) as [Henc _].
  destruct (life_response_encoder h wr lim); try done; rewrite rbind_ret; by do 3 eexists.
Qed.

End Total.

(** What one request leaves behind. *)
Definition left_behind (n : Z) (e : Env) (s s' : Service) : Prop :=
  config s' = config s ∧ use_gpu_placement s' = use_gpu_placement s ∧ manager_ok s' ∧
  (∃ tasks', service_ok n tasks' s') ∧
  (during_gpu e = id → gpu_inflight (core s') = gpu_inflight (core s)).

Section Answered.
Context (h : endian) (gpu_compute : list Z → Z → result (list Z)) (nan : Z → Z → Z) (n : Z).

Lemma left_same tasks e s : service_ok n tasks s → manager_ok s → left_behind n e s s.
Proof. intros Hok Hman. by split_and!; eauto. Qed.

Lemma manager_ok_same s s' :
  gpu_selector (wasm_manager s') = gpu_selector (wasm_manager s) →
  use_gpu_placement s' = use_gpu_placement s → manager_ok s → manager_ok s'.
Proof. unfold manager_ok. by intros -> ->. Qed.

Lemma dispatch_ok tasks s e req :
  (∀ input gpu, safe (gpu_compute input gpu)) →
  service_ok n tasks s → manager_ok s → cfg_max_inflight_per_gpu (config s) < 2 ^ 64 - 1 →
  kernels_safe gpu_compute (config s) →
  interference n (cfg_max_inflight_per_gpu (config s)) (during_gpu e) →
  (∀ m, gpu_selector (during_task e m) = gpu_selector m) →
  ∃ r s', dispatch h gpu_compute nan s e req = Ok (r, s') ∧ resp_task_id r = req_task_id req ∧
    left_behind n e s s'.
Proof.
  intros Hgpu Hok Hman Hmax Hk Hint Htask. pose proof (left_same tasks e s Hok Hman) as Hsame.
  unfold dispatch. destruct (bool_decide (req_kind req = kGeospatialFrameKind)).
  { destruct (geospatial_echo h (config s) req) as (r & -> & Hid & _). by exists r, s. }
  destruct (bool_decide (req_kind req = kMediaStreamKind)).
  { destruct (media_echo (config s) req) as (r & -> & Hid & _). by exists r, s. }
  destruct (bool_decide (req_kind req = kWasmTaskKind)).
  { destruct (wasm_task_ok h gpu_compute Hgpu (config s) e (wasm_manager s) req Htask)
      as (r & m' & -> & Hid & Hsel).
    exists r, (with_manager s m'). split; [done|]. split; [done|].
    split_and!; [done|done|by apply (manager_ok_same s)|by exists tasks|done]. }
  destruct (is_lifecycle_kind (req_kind req)).
  { destruct (wasm_lifecycle_ok h n s tasks Hok Hman req) as (r & m' & c' & -> & Hid & Hsel & Hok' & He).
    exists r, (with_core (with_manager s m') c'). split; [done|]. split; [done|].
    split_and!; [done|done|by apply (manager_ok_same s)|by exists tasks|done]. }
  destruct (compute_request_ok gpu_compute nan n tasks s e req Hok Hmax Hk Hint)
    as (r & c' & -> & Hid & (Hleft & Hnone & He) & _).
  exists r, (with_core s c'). split; [done|]. split; [done|]. split_and!; [done|done|done| |done].
  destruct (use_gpu_placement s) eqn:Huse.
  - destruct (Hleft eq_refl) as (tasks' & Hok'). exists tasks'. by intros _.
  - exists tasks. unfold service_ok. cbn. congruence.
Qed.

Lemma request_served tasks s e req :
  (∀ input gpu, safe (gpu_compute input gpu)) →
  service_ok n tasks s → manager_ok s → cfg_max_inflight_per_gpu (config s) < 2 ^ 64 - 1 →
  kernels_safe gpu_compute (config s) →
  interference n (cfg_max_inflight_per_gpu (config s)) (during_gpu e) →
  (∀ m, gpu_selector (during_task e m) = gpu_selector m) →
  ∃ resp s', handle_request h gpu_compute nan s e req = Ok (resp, s') ∧
    resp_task_id resp = req_task_id req ∧ left_behind n e s s'.
Proof.
  intros Hgpu Hok Hman Hmax Hk Hint Htask. pose proof (left_same tasks e s Hok Hman) as Hsame.
  unfold handle_request. pose proof (validate_request_safe req (cfg_protocol_limits (config s))) as Hv.
  destruct (validate_request _ _) as [u|error| |]; try done.
  2: { by eexists _, s. }
  destruct (_ && _).
  { eexists _, s. split; [done|]. split; [unfold finish_response; by destruct (_ <=? _)|done]. }
  destruct (dispatch_ok tasks s e req Hgpu Hok Hman Hmax Hk Hint Htask) as (r & s' & -> & Hid & Hleft).
  rewrite rbind_ret. eexists _, s'. split; [done|]. split; [|done].
  unfold finish_response. by destruct (_ <=? _).
Qed.

(** C6: every request is answered: for any bytes and any other requests in
    between, the handler returns a response that carries the request's
    identifier, without an exception, an out-of-bounds access or a null
    dereference, and leaves the service in a state of which the same holds;
    an invalid request is rejected and changes nothing. *)
Theorem requests_answered tasks s e req :
  (∀ input gpu, safe (gpu_compute input gpu)) →
  service_ok n tasks s → manager_ok s → cfg_max_inflight_per_gpu (config s) < 2 ^ 64 - 1 →
  kernels_safe gpu_compute (config s) →
  interference n (cfg_max_inflight_per_gpu (config s)) (during_gpu e) →
  (∀ m, gpu_selector (during_task e m) = gpu_selector m) →
  ∃ resp s', handle_request h gpu_compute nan s e req = Ok (resp, s') ∧
    resp_task_id resp = req_task_id req ∧ left_behind n e s s' ∧
    (∀ error, validate_request req (cfg_protocol_limits (config s)) = Err error →
       resp = reply req StatusRejected [] error ∧ s' = s).
Proof.
  intros Hgpu Hok Hman Hmax Hk Hint Htask.
  destruct (request_served tasks s e req) as (resp & s' & E & Hid & Hleft); [done..|].
  exists resp, s'. split; [done|]. split; [done|]. split; [done|]. intros error Hv.
  unfold handle_request in E. rewrite Hv in E. by injection E as <- <-.
Qed.

(** *** A service at work *)

(** The requests of a service one after the other, each with its environment. *)
Fixpoint handle_requests (s : Service) (l : list (Env * BrokerRequest)) : result (list BrokerResponse * Service) :=
  match l with
  | [] => Ok ([], s)
  | (e, req) :: l =>
      '(resp, s) <-! handle_request h gpu_compute nan s e req;;
      '(resps, s) <-! handle_requests s l;;
      Ok (resp :: resps, s)
  end.

(** What [requests_answered] asks of the service and of the environment. *)
Definition ready (s : Service) : Prop :=
  (∃ tasks, service_ok n tasks s) ∧ manager_ok s ∧ cfg_max_inflight_per_gpu (config s) < 2 ^ 64 - 1 ∧
  kernels_safe gpu_compute (config s).
Definition env_ok (max : Z) (e : Env) : Prop :=
  interference n max (during_gpu e) ∧ ∀ m, gpu_selector (during_task e m) = gpu_selector m.

Lemma requests_served l : ∀ s,
  (∀ input gpu, safe (gpu_compute input gpu)) → ready s →
  Forall (λ x, env_ok (cfg_max_inflight_per_gpu (config s)) x.1) l →
  ∃ resps s', handle_requests s l = Ok (resps, s') ∧ config s' = config s ∧ ready s' ∧
    Forall2 (λ x resp, resp_task_id resp = req_task_id x.2) l resps ∧
    (Forall (λ x, during_gpu x.1 = id) l → gpu_inflight (core s') = gpu_inflight (core s)).
Proof.
  induction l as [|[e req] l IH]; intros s Hgpu Hready Henv; [by exists [], s|].
  apply Forall_cons in Henv as [[Hint Htask] Henv].
  pose proof Hready as ((tasks & Hok) & Hman & Hmax & Hk).
  destruct (request_served tasks s e req) as (resp & s1 & E & Hid & Hc & _ & Hman1 & Hok1 & Hq); [done..|].
  destruct (IH s1) as (resps & s2 & E2 & Hc2 & Hr2 & Hall & Hq2); [done|by unfold ready; rewrite Hc| |].
  { by rewrite Hc. }
  exists (resp :: resps), s2. cbn [handle_requests]. rewrite E, rbind_ret. cbv beta iota. rewrite E2, rbind_ret.
  split; [done|]. split; [congruence|]. split; [done|]. split; [by constructor|].
  intros [Hid1 Hids]%Forall_cons. rewrite Hq2, Hq; done.
Qed.

End Answered.

Lemma requests_answered_witness :
  ∃ resp s', handle_request LittleEndian host_compute no_nan sample_service (alone 0 3000000) default_request
               = Ok (resp, s') ∧ resp_status resp = StatusRejected ∧ left_behind 2 (alone 0 3000000) sample_service s'.
Proof.
  destruct (requests_answered LittleEndian host_compute no_nan 2 [] sample_service (alone 0 3000000)
    default_request) as (resp & s' & H1 & _ & H2 & H3);
    [intros; apply default_gpu_compute_safe|exact sample_service_ok| |by vm_compute| |apply no_interference
    |done|].
  - intros sel E. split; [reflexivity|]. change (Some service_selector = Some sel) in E. congruence.
  - split; [intros; apply default_gpu_compute_safe|done].
  - destruct (H3 (str "task_id must be non-empty") eq_refl) as [-> ->].
    eexists _, _. split; [exact H1|]. split; [reflexivity|exact H2].
Defined.
