(* ===== verification/BrokerServer.v ===== *)
(** * The broker server (include/broker_server.h, src/broker_server.cpp)

    One client connection: the length-prefixed frames of the session's reader,
    the protocol errors it sends itself, the request threads it starts and the
    response frames they write under the write mutex.  The operating system's
    sockets are finite schedules of what [recv] and [send] do next; the theorems
    hold for every schedule.  A session is a step relation over the reader
    thread and its request threads.  Listening is Listener.v; accepting clients
    and the end of the sessions are BrokerAdmission.v. *)

From S2P Require Import Prelude HostBytes Wire BrokerProtocol Brk2Protocol Sockets.

(** ** Whole buffers *)

(** The loop of [read_exact], which has read [got] so far. *)
Fixpoint recv_loop (fuel : nat) (s : Socket) (size : Z) (got : bytes) : result (option bytes * Socket) :=
  if zlen got <? size then
    match fuel with
    | O => NoFuel
    | S fuel =>
        match recv s (size - zlen got) with
        | (Got data, s) => recv_loop fuel s size (got ++ data)
        | (Eintr, s) => recv_loop fuel s size got
        | (Closed, s) | (Failed, s) => Ok (None, s)
        end
    end
  else Ok (Some got, s).

(** The bytes read, or [None] for [false].  Each round uses up an arrival or
    takes at least one byte, so the fuel suffices. *)
Definition read_exact (s : Socket) (size : Z) : result (option bytes * Socket) :=
  recv_loop (length (arrivals s) + Z.to_nat size) s size [].

(** The loop of [write_exact], with [data] left to write. *)
Fixpoint send_loop (fuel : nat) (o : Outlet) (data : bytes) : result (bool * Outlet) :=
  if 0 <? zlen data then
    match fuel with
    | O => NoFuel
    | S fuel =>
        match send o data with
        | (Wrote n, o) => send_loop fuel o (skipn (Z.to_nat n) data)
        | (WriteEintr, o) => send_loop fuel o data
        | (WriteFailed, o) | (WritePipe, o) => Ok (false, o)
        end
    end
  else Ok (true, o).

Definition write_exact (o : Outlet) (data : bytes) : result (bool * Outlet) :=
  send_loop (length (departures o) + length data) o data.

(** ** Frames *)

Inductive incoming := FrameRead (frame : bytes) | BadLength | Gone.

Section Server.
Context (h : endian).

(** The reader's first part: the length, its check and the frame. *)
Definition read_frame (s : Socket) (lim : ProtocolLimits) : result (incoming * Socket) :=
  '(len, s) <-! read_exact s 4;;
  match len with
  | None => Ok (Gone, s)
  | Some len_be =>
      let frame_len := ntohl h (mem_load h len_be) in
      if (frame_len =? 0) || (max_frame_bytes lim <? frame_len) then Ok (BadLength, s)
      else
        '(frame, s) <-! read_exact s frame_len;;
        Ok (match frame with Some frame => FrameRead frame | None => Gone end, s)
  end.

Definition length_prefix (body : bytes) : bytes := mem_store h 4 (htonl h (wrap 32 (zlen body))).

(** What [write_response] writes once the response is encoded. *)
Definition send_response (o : Outlet) (body : bytes) : result (bool * Outlet) :=
  '(ok, o) <-! write_exact o (length_prefix body);;
  if (ok : bool) then write_exact o body else Ok (false, o).

(** [send_protocol_error] and [send_brk2_protocol_error] ignore the results. *)
Definition send_error (o : Outlet) (body : bytes) : result (bool * Outlet) :=
  '(ok1, o) <-! write_exact o (length_prefix body);;
  '(ok2, o) <-! write_exact o body;;
  Ok (ok1 && ok2, o).

(** ** Requests *)

Record BrokerServerConfig := mkServerConfig {
  port : Z;
  max_clients : Z;
  max_inflight_per_client : Z;
  server_limits : ProtocolLimits;
}.

Definition check_config (cfg : BrokerServerConfig) : result unit :=
  _ <-! reject_if ((port cfg <? 1) || (65535 <? port cfg))
          (str "broker server port must be in range 1..65535");;
  reject_if (max_inflight_per_client cfg =? 0) (str "max_inflight_per_client must be greater than zero").

Definition rejection (task_id error : bytes) : BrokerResponse :=
  mkResponse task_id StatusRejected (-1) 0 [] error BackendDispatch.Cpu false.

(** A response as the client's protocol has it; an encoder may throw. *)
Definition response_body (lim : ProtocolLimits) (use_brk2 : bool) (request_id : Z) (r : BrokerResponse)
    : result bytes :=
  if use_brk2 then encode_brk2_response_body r request_id lim else encode_response_frame h r lim.

(** The body of a protocol error; BRK2 errors carry no task id. *)
Definition error_body (lim : ProtocolLimits) (use_brk2 : bool) (request_id : Z) (task_id error : bytes)
    : result bytes :=
  response_body lim use_brk2 request_id (rejection (if use_brk2 then [] else task_id) error).

Record Job := mkJob { job_request : BrokerRequest; job_brk2 : bool; job_id : Z }.

Inductive frame_action := SendBody (body : bytes) | Launch (job : Job).

Definition is_brk2 (frame : bytes) : bool := bool_decide (firstn 4 frame = str "BRK2").

(** The request id of a BRK2 frame, before it is known to be valid. *)
Definition early_request_id (frame : bytes) : Z :=
  if is_brk2 frame && (20 <=? zlen frame) then load_loop (slice frame 12 8) else 0.

Definition decode_frame (lim : ProtocolLimits) (frame : bytes)
    : result (bool * option BrokerRequest * option Z * option bytes) :=
  if is_brk2 frame then
    decode_brk2_request_body frame (Some default_request) (Some (early_request_id frame)) (Some []) lim
  else
    '(decoded, out, error) <-! decode_request_frame h frame (Some default_request) (Some []) lim;;
    Ok (decoded, out, Some (early_request_id frame), error).

(** The reader's second part, with [pending] request threads. *)
Definition handle_frame (cfg : BrokerServerConfig) (pending : Z) (frame : bytes) : result frame_action :=
  let lim := server_limits cfg in
  '(decoded, out, id, decode_error) <-! decode_frame lim frame;;
  let request := default default_request out in
  let request_id := default 0 id in
  if negb decoded then
    body <-! error_body lim (is_brk2 frame) request_id (req_task_id request) (default [] decode_error);;
    Ok (SendBody body)
  else if max_inflight_per_client cfg <=? pending then
    body <-! error_body lim (is_brk2 frame) request_id (req_task_id request)
               (str "too many inflight requests for client");;
    Ok (SendBody body)
  else Ok (Launch (mkJob request (is_brk2 frame) request_id)).

(** ** The session *)

Inductive phase := Reading | Holding (frame : bytes) | Closing.

(** [jobs] is [pending_responses] with their [done] flags.  The last three
    members record what happened: the frames read so far, the bodies written
    in order, and whether every write so far was complete. *)
Record Session := mkSession {
  input : Socket;
  output : Outlet;
  jobs : list (Job * bool);
  at_phase : phase;
  writes_enabled : bool;
  frames_read : list bytes;
  bodies : list bytes;
  all_written : bool;
}.

(** [reap_finished(&pending_responses, false)]. *)
Definition reap_finished (l : list (Job * bool)) : list (Job * bool) :=
  filter (λ j, j.2 = false) l.

Definition unfinished (l : list (Job * bool)) : Z := zlen (reap_finished l).

Definition new_session (i : Socket) (o : Outlet) : Session :=
  mkSession i o [] Reading true [] [] true.

Context (cfg : BrokerServerConfig) (answers : Job → BrokerResponse → Prop).

(** A step of the reader thread or of one request thread; [answers] is what
    the service may answer to a job. *)
Inductive session_step : Session → Session → Prop :=
| step_frame i i' o js we fr bs aw frame :
    read_frame i (server_limits cfg) = Ok (FrameRead frame, i') →
    session_step (mkSession i o js Reading we fr bs aw)
      (mkSession i' o (reap_finished js) (Holding frame) we (fr ++ [frame]) bs aw)
| step_bad_length i i' o o' js we fr bs aw body ok :
    read_frame i (server_limits cfg) = Ok (BadLength, i') →
    error_body (server_limits cfg) false 0 [] (str "frame length violates protocol limits") = Ok body →
    send_error o body = Ok (ok, o') →
    session_step (mkSession i o js Reading we fr bs aw)
      (mkSession i' o' (reap_finished js) Closing we fr (bs ++ [body]) (aw && ok))
| step_bad_length_throw i i' o js we fr bs aw what :
    read_frame i (server_limits cfg) = Ok (BadLength, i') →
    error_body (server_limits cfg) false 0 [] (str "frame length violates protocol limits") = Err what →
    session_step (mkSession i o js Reading we fr bs aw)
      (mkSession i' o (reap_finished js) Closing we fr bs aw)
| step_stop i o js we fr bs aw :
    session_step (mkSession i o js Reading we fr bs aw) (mkSession i o js Closing we fr bs aw)
| step_gone i i' o js we fr bs aw :
    read_frame i (server_limits cfg) = Ok (Gone, i') →
    session_step (mkSession i o js Reading we fr bs aw)
      (mkSession i' o (reap_finished js) Closing we fr bs aw)
| step_error i o o' js we fr bs aw frame body ok :
    handle_frame cfg (zlen js) frame = Ok (SendBody body) →
    send_error o body = Ok (ok, o') →
    session_step (mkSession i o js (Holding frame) we fr bs aw)
      (mkSession i o' js Reading we fr (bs ++ [body]) (aw && ok))
| step_launch i o js we fr bs aw frame job :
    handle_frame cfg (zlen js) frame = Ok (Launch job) →
    session_step (mkSession i o js (Holding frame) we fr bs aw)
      (mkSession i o (js ++ [(job, false)]) Reading we fr bs aw)
| step_throw i o js we fr bs aw frame what :
    handle_frame cfg (zlen js) frame = Err what →
    session_step (mkSession i o js (Holding frame) we fr bs aw)
      (mkSession i o js Closing we fr bs aw)
| step_respond i o o' j1 j2 job ph fr bs aw r body ok :
    answers job r →
    response_body (server_limits cfg) (job_brk2 job) (job_id job) r = Ok body →
    send_response o body = Ok (ok, o') →
    session_step (mkSession i o (j1 ++ (job, false) :: j2) ph true fr bs aw)
      (mkSession i o' (j1 ++ (job, true) :: j2) ph true fr (bs ++ [body]) (aw && ok))
| step_discard i o j1 j2 job ph we fr bs aw r :
    answers job r →
    we = false ∨ is_ok (response_body (server_limits cfg) (job_brk2 job) (job_id job) r) = false →
    session_step (mkSession i o (j1 ++ (job, false) :: j2) ph we fr bs aw)
      (mkSession i o (j1 ++ (job, true) :: j2) ph we fr bs aw)
| step_close i o js fr bs aw :
    session_step (mkSession i o js Closing true fr bs aw)
      (mkSession i o js Closing false fr bs aw).

End Server.

(** ** Reading and writing whole buffers *)

Lemma recv_loop_spec size fuel : ∀ s got,
  0 ≤ size → zlen got ≤ size → (length (arrivals s) + Z.to_nat (size - zlen got) ≤ fuel)%nat →
  ∃ r s', recv_loop fuel s size got = Ok (r, s') ∧
    (∀ data, r = Some data → zlen data = size ∧ got ++ inbox s = data ++ inbox s' ∧
       (intact s → intact s')) ∧
    (intact s → size - zlen got ≤ zlen (inbox s) → r ≠ None).
Proof.
  induction fuel as [|fuel IH]; intros s got Hsize Hgot Hfuel; cbn [recv_loop];
    destruct (Z.ltb_spec (zlen got) size) as [Hlt|Hge]; try lia.
  1, 3: exists (Some got), s; split; [done|]; split; [|done]; intros data [= <-];
    split; [lia|done].
  pose proof (recv_cases s (size - zlen got) ltac:(lia)) as Hr.
  destruct (recv s (size - zlen got)) as [[data| | |] s1].
  - destruct Hr as (Hin & Hlen & Harr). destruct (IH s1 (got ++ data)) as (r & s' & E & Hok & Hall);
      [done|rewrite zlen_app; lia| |].
    { rewrite zlen_app. destruct Harr as [[H1 H2]|[a H1]]; rewrite H1 in Hfuel; rewrite ?H2;
        cbn [length] in *; lia. }
    assert (intact s → intact s1) as Hint.
    { unfold intact. destruct Harr as [[H1 H2]|[a H1]]; rewrite H1; rewrite ?H2; set_solver. }
    exists r, s'. split; [done|]. split.
    + intros d Hd. destruct (Hok d Hd) as (? & He & ?). rewrite Hin, app_assoc. by auto.
    + intros Hi Hle. apply Hall; [by apply Hint|]. rewrite Hin in Hle. rewrite zlen_app in *. lia.
  - exists None, s1. split; [done|]. split; [done|]. intros _ Hle. rewrite Hr in Hle.
    change (zlen []) with 0 in Hle. lia.
  - destruct Hr as (Hin & a & Harr). destruct (IH s1 got) as (r & s' & E & Hok & Hall); [done|done| |].
    { rewrite Harr in Hfuel. cbn [length] in Hfuel. lia. }
    assert (intact s → intact s1) as Hint by (unfold intact; rewrite Harr; set_solver).
    exists r, s'. split; [done|]. rewrite <- Hin. split; [|by auto].
    intros d Hd. destruct (Hok d Hd) as (? & ? & ?). by auto.
  - exists None, s1. split; [done|]. split; [done|]. by intros Hi.
Qed.

Lemma read_exact_ok s size :
  0 ≤ size →
  ∃ r s', read_exact s size = Ok (r, s') ∧
    (∀ data, r = Some data → zlen data = size ∧ inbox s = data ++ inbox s' ∧ (intact s → intact s')) ∧
    (intact s → size ≤ zlen (inbox s) → r ≠ None).
Proof.
  intros Hsize. destruct (recv_loop_spec size (length (arrivals s) + Z.to_nat size) s [])
    as (r & s' & E & Hok & Hall); [done|done|change (zlen []) with 0; lia|].
  exists r, s'. split; [done|]. split; [done|]. change (zlen []) with 0 in Hall.
  by rewrite Z.sub_0_r in Hall.
Qed.

(** Reading bytes that are there: the chunks do not matter. *)
Lemma read_exact_app s data rest :
  intact s → inbox s = data ++ rest →
  ∃ s', read_exact s (zlen data) = Ok (Some data, s') ∧ inbox s' = rest ∧ intact s'.
Proof.
  intros Hi Hin. destruct (read_exact_ok s (zlen data) (zlen_nonneg _)) as (r & s' & E & Hok & Hall).
  destruct r as [d|]; [|exfalso; apply Hall; [done| |done]].
  - destruct (Hok d eq_refl) as (Hlen & He & Hint). rewrite Hin in He.
    apply app_inj_1 in He as [-> ->]; [|unfold zlen in Hlen; lia]. exists s'. by auto.
  - rewrite Hin, zlen_app. pose proof (zlen_nonneg rest). lia.
Qed.

Lemma send_loop_spec fuel : ∀ o data,
  (length (departures o) + length data ≤ fuel)%nat →
  ∃ ok o' k, send_loop fuel o data = Ok (ok, o') ∧ sent o' = sent o ++ firstn k data ∧
    (ok = true → sent o' = sent o ++ data) ∧ (accepting o → ok = true ∧ accepting o').
Proof.
  induction fuel as [|fuel IH]; intros o data Hfuel; cbn [send_loop];
    destruct (Z.ltb_spec 0 (zlen data)) as [Hlt|Hge]; unfold zlen in *; try lia.
  1, 3: destruct data; [|cbn in Hge; lia]; exists true, o, 0%nat; cbn [firstn];
    rewrite app_nil_r; split_and!; auto.
  pose proof (send_cases o data ltac:(unfold zlen; lia)) as Hs.
  destruct (send o data) as [[n| | |] o1].
  - destruct Hs as (Hn & Hsent & Hdep & Hacc). unfold zlen in Hn.
    destruct (IH o1 (skipn (Z.to_nat n) data)) as (ok & o' & k & E & Hs & Hall & Hok).
    { rewrite length_skipn. destruct Hdep as [[H1 H2]|[a H1]]; rewrite H1 in Hfuel; rewrite ?H2;
        cbn [length] in *; lia. }
    exists ok, o', (Z.to_nat n + k)%nat. split; [done|]. rewrite Hsent, <- app_assoc in *.
    rewrite <- take_take_drop. split; [done|]. split; [|auto].
    intros Ht. by rewrite (Hall Ht), firstn_skipn.
  - destruct Hs as (Hsent & [a Hdep] & Hacc).
    destruct (IH o1 data) as (ok & o' & k & E' & Hs & Hall & Hok); [rewrite Hdep in Hfuel; cbn in Hfuel; lia|].
    rewrite Hsent in *. exists ok, o', k. split_and!; auto.
  - destruct Hs as (Hsent & Hacc & _). exists false, o1, 0%nat. cbn [firstn]. rewrite app_nil_r. split_and!; done.
  - destruct Hs as (Hsent & Hacc & _). exists false, o1, 0%nat. cbn [firstn]. rewrite app_nil_r. split_and!; done.
Qed.

Lemma write_exact_ok o data :
  ∃ ok o' k, write_exact o data = Ok (ok, o') ∧ sent o' = sent o ++ firstn k data ∧
    (ok = true → sent o' = sent o ++ data) ∧ (accepting o → ok = true ∧ accepting o').
Proof. by apply send_loop_spec. Qed.

(** ** Framing *)

Definition framed (body : bytes) : bytes := store_be 4 (zlen body) ++ body.

(** Bodies that fit a frame. *)
Definition fits_frame (lim : ProtocolLimits) (body : bytes) : Prop :=
  0 < zlen body ≤ max_frame_bytes lim ∧ zlen body ≤ u32_max.

Section Framing.
Context (h : endian).

Lemma length_prefix_be body : zlen body ≤ u32_max → length_prefix h body = store_be 4 (zlen body).
Proof.
  intros Hb. unfold length_prefix, htonl. rewrite mem_store_hton. pose proof (zlen_nonneg body).
  rewrite wrap_small; [done|]. unfold is_uint, u32_max in *. lia.
Qed.

Lemma read_frame_app s lim body rest :
  intact s → fits_frame lim body → inbox s = framed body ++ rest →
  ∃ s', read_frame h s lim = Ok (FrameRead body, s') ∧ inbox s' = rest ∧ intact s'.
Proof.
  intros Hi [Hb Hmax] Hin. unfold framed in Hin. rewrite <- app_assoc in Hin.
  destruct (read_exact_app s _ _ Hi Hin) as (s1 & E & Hin1 & Hi1). rewrite zlen_store_be in E.
  destruct (read_exact_app s1 _ _ Hi1 Hin1) as (s2 & E2 & Hin2 & Hi2).
  exists s2. split; [|done]. unfold read_frame. change (Z.of_nat 4) with 4 in E. rewrite E, rbind_ret.
  unfold ntohl. rewrite hton_mem_load_z by apply zlen_store_be.
  rewrite load_store_be_uint by (unfold is_uint, u32_max in *; lia).
  destruct (Z.eqb_spec (zlen body) 0); [lia|]. destruct (Z.ltb_spec (max_frame_bytes lim) (zlen body)); [lia|].
  cbn [orb]. by rewrite E2, rbind_ret.
Qed.

Lemma read_exact_safe s size : 0 ≤ size → safe (read_exact s size).
Proof. intros Hs. by destruct (read_exact_ok s size Hs) as (r & s' & -> & _). Qed.

Lemma read_frame_safe s lim : safe (read_frame h s lim).
Proof.
  unfold read_frame. apply safe_rbind; [by apply read_exact_safe|]. intros [[len|] s1] E; [|done].
  destruct (_ || _) eqn:Eb; [done|]. apply safe_rbind; [|by intros [[?|] ?]].
  apply read_exact_safe. destruct (read_exact_ok s 4) as (r & s' & E' & Hok & _); [done|].
  rewrite E in E'. injection E' as <- <-. destruct (Hok len eq_refl) as (Hl & _).
  unfold ntohl. rewrite hton_mem_load_z by done. apply load_be_range.
Qed.

(** The reader's frames, as long as it keeps reading. *)
Fixpoint read_frames (k : nat) (s : Socket) (lim : ProtocolLimits) : result (list bytes * Socket) :=
  match k with
  | O => Ok ([], s)
  | S k =>
      '(i, s) <-! read_frame h s lim;;
      match i with
      | FrameRead frame =>
          '(frames, s) <-! read_frames k s lim;;
          Ok (frame :: frames, s)
      | _ => Ok ([], s)
      end
  end.

Lemma read_frames_app lim frames rest : ∀ s,
  intact s → Forall (fits_frame lim) frames → inbox s = concat (framed <$> frames) ++ rest →
  ∃ s', read_frames (length frames) s lim = Ok (frames, s') ∧ inbox s' = rest ∧ intact s'.
Proof.
  induction frames as [|f frames IH]; intros s Hi Hf Hin; cbn [length read_frames]; [by exists s|].
  inversion Hf; subst. rewrite fmap_cons in Hin. cbn [concat] in Hin. rewrite <- app_assoc in Hin.
  destruct (read_frame_app s lim f _ Hi ltac:(done) Hin) as (s1 & -> & Hin1 & Hi1). rewrite rbind_ret.
  destruct (IH s1 Hi1 ltac:(done) Hin1) as (s2 & -> & Hin2 & Hi2). rewrite rbind_ret. by exists s2.
Qed.

Lemma send_response_ok o body :
  ∃ ok o', send_response h o body = Ok (ok, o') ∧
    (ok = true → zlen body ≤ u32_max → sent o' = sent o ++ framed body) ∧
    (accepting o → ok = true ∧ accepting o').
Proof.
  unfold send_response. destruct (write_exact_ok o (length_prefix h body)) as (ok & o1 & k & -> & _ & Hs & Ha).
  rewrite rbind_ret. destruct ok; cycle 1.
  { exists false, o1. split; [done|]. split; [done|]. intros Hacc. by destruct (Ha Hacc) as [? _]. }
  destruct (write_exact_ok o1 body) as (ok & o2 & k' & -> & _ & Hs2 & Ha2). exists ok, o2.
  split; [done|]. split.
  - intros -> Hb. rewrite Hs2, Hs, length_prefix_be by done. unfold framed. by rewrite app_assoc.
  - intros Hacc. by apply Ha2, Ha.
Qed.

Lemma send_error_ok o body :
  ∃ ok o', send_error h o body = Ok (ok, o') ∧
    (ok = true → zlen body ≤ u32_max → sent o' = sent o ++ framed body) ∧
    (accepting o → ok = true ∧ accepting o').
Proof.
  unfold send_error. destruct (write_exact_ok o (length_prefix h body)) as (ok & o1 & k & -> & _ & Hs & Ha).
  rewrite rbind_ret. destruct (write_exact_ok o1 body) as (ok2 & o2 & k' & -> & _ & Hs2 & Ha2).
  rewrite rbind_ret. exists (ok && ok2), o2. split; [done|]. split.
  - intros [-> ->]%andb_true_iff Hb. rewrite Hs2, Hs, length_prefix_be by done. unfold framed.
    by rewrite app_assoc.
  - intros Hacc. destruct (Ha Hacc) as [-> Hacc1]. by destruct (Ha2 Hacc1) as [-> ?].
Qed.

(** Framing is independent of how the network cuts the bytes: whatever
    sizes [recv] delivers and however often it is interrupted, the reader
    returns exactly the frames that were sent, in order, and leaves the rest;
    and on any schedule, failures included, reading a frame returns. *)
Theorem framing_roundtrip lim frames rest s :
  (intact s → Forall (fits_frame lim) frames → inbox s = concat (framed <$> frames) ++ rest →
   ∃ s', read_frames (length frames) s lim = Ok (frames, s') ∧ inbox s' = rest) ∧
  safe (read_frame h s lim).
Proof.
  split; [|apply read_frame_safe]. intros Hi Hf Hin.
  destruct (read_frames_app lim frames rest s Hi Hf Hin) as (s' & E & Hr & _). by exists s'.
Qed.

End Framing.

(** ** The session *)

Section SessionProofs.
Context (h : endian) (cfg : BrokerServerConfig) (answers : Job → BrokerResponse → Prop).

Definition lim := server_limits cfg.

(** Where a written body comes from: a response to a job that one of the
    frames read so far started, an error about one of them, or the error about
    a bad length. *)
Inductive explained (frames : list bytes) (body : bytes) : Prop :=
| explained_response frame pending job r :
    frame ∈ frames → handle_frame h cfg pending frame = Ok (Launch job) → answers job r →
    response_body h lim (job_brk2 job) (job_id job) r = Ok body → explained frames body
| explained_error frame pending :
    frame ∈ frames → handle_frame h cfg pending frame = Ok (SendBody body) → explained frames body
| explained_length :
    error_body h lim false 0 [] (str "frame length violates protocol limits") = Ok body →
    explained frames body.

Definition launched (frames : list bytes) (job : Job) : Prop :=
  ∃ frame pending, frame ∈ frames ∧ handle_frame h cfg pending frame = Ok (Launch job).

Lemma explained_more frames f body : explained frames body → explained (frames ++ [f]) body.
Proof.
  intros [frame p j r Hin|frame p Hin|]; [eapply explained_response|eapply explained_error|
    by apply explained_length]; try done; set_solver.
Qed.

Lemma launched_more frames f job : launched frames job → launched (frames ++ [f]) job.
Proof. intros (frame & p & Hin & E). exists frame, p. split; [set_solver|done]. Qed.

Lemma unfinished_app l1 l2 : unfinished (l1 ++ l2) = unfinished l1 + unfinished l2.
Proof. unfold unfinished, reap_finished. by rewrite filter_app, zlen_app. Qed.

Lemma unfinished_cons j b l : unfinished ((j, b) :: l) = (if b then 0 else 1) + unfinished l.
Proof.
  unfold unfinished, reap_finished. rewrite filter_cons. cbn [snd].
  destruct b; (destruct (decide _) as [E|E]; try done); rewrite ?zlen_cons; lia.
Qed.

Lemma unfinished_reap l : unfinished (reap_finished l) = unfinished l.
Proof.
  unfold unfinished, reap_finished. rewrite list_filter_filter. f_equal.
  apply list_filter_iff. intros x. tauto.
Qed.

Lemma zlen_reap l : zlen (reap_finished l) ≤ zlen l.
Proof. unfold zlen, reap_finished. pose proof (length_filter (λ j : Job * bool, j.2 = false) l). lia. Qed.

Definition in_hand (p : phase) : Z := match p with Holding _ => 1 | _ => 0 end.
Definition closing (p : phase) : Z := match p with Closing => 1 | _ => 0 end.

Record session_ok (o0 : bytes) (s : Session) : Prop := {
  ok_jobs : zlen (jobs s) ≤ max_inflight_per_client cfg;
  ok_launched : Forall (λ j, launched (frames_read s) j.1) (jobs s);
  ok_held : ∀ f, at_phase s = Holding f → f ∈ frames_read s;
  ok_account : zlen (bodies s) + unfinished (jobs s) + in_hand (at_phase s)
                 ≤ zlen (frames_read s) + closing (at_phase s);
  ok_explained : Forall (explained (frames_read s)) (bodies s);
  ok_output : all_written s = true → Forall (λ b, zlen b ≤ u32_max) (bodies s) →
                sent (output s) = o0 ++ concat (framed <$> bodies s);
}.

Lemma output_grows o0 o o' bs (aw ok : bool) body :
  (aw = true → Forall (λ b, zlen b ≤ u32_max) bs → sent o = o0 ++ concat (framed <$> bs)) →
  (ok = true → zlen body ≤ u32_max → sent o' = sent o ++ framed body) →
  aw && ok = true → Forall (λ b, zlen b ≤ u32_max) (bs ++ [body]) →
  sent o' = o0 ++ concat (framed <$> bs ++ [body]).
Proof.
  intros Ho Hs [-> ->]%andb_true_iff [Hbs Hb]%Forall_app. inversion Hb; subst.
  rewrite Hs, Ho by done. rewrite fmap_app, concat_app. cbn [fmap list_fmap concat].
  by rewrite app_nil_r, app_assoc.
Qed.

(** The reader reaps, may note a frame, and moves on. *)
Lemma reader_moves o0 i i' o js ph we we' fr fr' bs aw :
  session_ok o0 (mkSession i o js Reading we fr bs aw) →
  match ph with
  | Holding f => fr' = fr ++ [f]
  | Closing => fr' = fr
  | Reading => False
  end →
  session_ok o0 (mkSession i' o (reap_finished js) ph we' fr' bs aw).
Proof.
  intros [Hj Hl Hh Ha He Ho] Hph. cbn [jobs frames_read at_phase bodies all_written output in_hand closing] in *.
  assert (∀ j, j ∈ reap_finished js → launched fr j.1) as Hreap.
  { intros j Hin. unfold reap_finished in Hin. apply list_elem_of_filter in Hin as [_ Hin].
    rewrite Forall_forall in Hl. by apply Hl. }
  pose proof (zlen_reap js).
  destruct ph as [|f|]; [done| |]; subst fr';
    split; cbn [jobs frames_read at_phase bodies all_written output in_hand closing];
    rewrite ?unfinished_reap, ?zlen_app; try done; try lia.
  - apply Forall_forall. intros j Hin. by apply launched_more, Hreap.
  - intros f' [= <-]. set_solver.
  - change (zlen [f]) with 1. lia.
  - eapply List.Forall_impl; [|exact He]. intros b. apply explained_more.
  - apply Forall_forall. exact Hreap.
Qed.

(** A body goes out and a unit of the account with it. *)
Lemma body_goes_out o0 i i' o o' js js' ph ph' we we' fr bs aw ok body :
  session_ok o0 (mkSession i o js ph we fr bs aw) →
  explained fr body → zlen js' ≤ zlen js → Forall (λ j, launched fr j.1) js' →
  (∀ f, ph' = Holding f → ph = Holding f) →
  1 + unfinished js' + in_hand ph' - closing ph' ≤ unfinished js + in_hand ph - closing ph →
  (ok = true → zlen body ≤ u32_max → sent o' = sent o ++ framed body) →
  session_ok o0 (mkSession i' o' js' ph' we' fr (bs ++ [body]) (aw && ok)).
Proof.
  intros [Hj Hl Hh Ha He Ho] Hex Hlen Hl' Hph Hacc Hs.
  cbn [jobs frames_read at_phase bodies all_written output] in *.
  split; cbn [jobs frames_read at_phase bodies all_written output].
  - lia.
  - done.
  - intros f Hf. by apply Hh, Hph.
  - rewrite zlen_app. change (zlen [body]) with 1. lia.
  - apply Forall_app. split; [done|]. by constructor; [|constructor].
  - by apply (output_grows o0 o).
Qed.

Lemma reap_fits js fr : Forall (λ j, launched fr j.1) js → Forall (λ j, launched fr j.1) (reap_finished js).
Proof.
  rewrite !Forall_forall. intros Hl j Hin. apply Hl. unfold reap_finished in Hin.
  by apply list_elem_of_filter in Hin as [_ Hin].
Qed.

Lemma finish_job j1 j2 job fr :
  Forall (λ j, launched fr j.1) (j1 ++ (job, false) :: j2) →
  launched fr job ∧ Forall (λ j, launched fr j.1) (j1 ++ (job, true) :: j2) ∧
  zlen (j1 ++ (job, true) :: j2) = zlen (j1 ++ (job, false) :: j2) ∧
  unfinished (j1 ++ (job, true) :: j2) + 1 = unfinished (j1 ++ (job, false) :: j2).
Proof.
  rewrite !Forall_app, !Forall_cons, !zlen_app, !zlen_cons, !unfinished_app, !unfinished_cons. cbn [fst].
  intros (H1 & H2 & H3). split_and!; done || lia.
Qed.

Lemma launch_room pending frame job :
  handle_frame h cfg pending frame = Ok (Launch job) → pending < max_inflight_per_client cfg.
Proof.
  unfold handle_frame. intros E. apply rbind_Ok in E as ([[[d out] id] err] & _ & E).
  destruct (negb d); [by apply rbind_Ok in E as (b & _ & E)|].
  destruct (Z.leb_spec (max_inflight_per_client cfg) pending); [by apply rbind_Ok in E as (b & _ & E)|lia].
Qed.

Lemma step_preserves o0 s s' :
  session_ok o0 s → session_step h cfg answers s s' → session_ok o0 s'.
Proof.
  intros Hok Hstep. pose proof Hok as [Hj Hl Hh Ha He Ho].
  destruct Hstep; cbn [jobs frames_read at_phase bodies all_written output] in *.
  - by eapply reader_moves.
  - destruct (send_error_ok h o body) as (ok1 & o1 & E & Hs & _).
    match goal with H : send_error _ _ _ = Ok (ok, _) |- _ => rewrite H in E; injection E as <- <- end.
    eapply body_goes_out; [exact Hok|by apply explained_length|apply zlen_reap|by apply reap_fits|done| |done].
    rewrite unfinished_reap. cbn [in_hand closing]. lia.
  - by eapply reader_moves.
  - destruct Hok. split; cbn [jobs frames_read at_phase bodies all_written output in_hand closing] in *;
      try done; lia.
  - by eapply reader_moves.
  - destruct (send_error_ok h o body) as (ok1 & o1 & E & Hs & _).
    match goal with H : send_error _ _ _ = Ok (ok, _) |- _ => rewrite H in E; injection E as <- <- end.
    eapply body_goes_out; [exact Hok| |done|done|done|cbn [in_hand closing]; lia|done].
    eapply explained_error; [by apply Hh|done].
  - match goal with H : handle_frame _ _ _ _ = _ |- _ => pose proof (launch_room _ _ _ H) as Hroom end.
    split; cbn [jobs frames_read at_phase bodies all_written output in_hand closing] in *; try done.
    + rewrite zlen_app. change (zlen [(job, false)]) with 1. lia.
    + apply Forall_app. split; [done|]. constructor; [|constructor]. exists frame, (zlen js).
      split; [by apply Hh|done].
    + rewrite unfinished_app, unfinished_cons. change (unfinished []) with 0. lia.
  - split; cbn [jobs frames_read at_phase bodies all_written output in_hand closing] in *; try done; lia.
  - destruct (send_response_ok h o body) as (ok1 & o1 & E & Hs & _).
    match goal with H : send_response _ _ _ = Ok (ok, _) |- _ => rewrite H in E; injection E as <- <- end.
    destruct (finish_job _ _ _ _ Hl) as ((frame & p & Hin & Hlaunch) & Hl' & Hlen & Hun).
    eapply body_goes_out; [exact Hok| |lia|done|done|lia|done].
    by eapply explained_response.
  - destruct (finish_job _ _ _ _ Hl) as (_ & Hl' & Hlen & Hun).
    split; cbn [jobs frames_read at_phase bodies all_written output] in *; try done; lia.
  - split; cbn [jobs frames_read at_phase bodies all_written output] in *; done.
Qed.

Lemma reachable_ok i o s :
  0 < max_inflight_per_client cfg →
  rtc (session_step h cfg answers) (new_session i o) s → session_ok (sent o) s.
Proof.
  intros Hmax. apply rtc_invariant; [apply step_preserves|].
  split; cbn [new_session jobs frames_read at_phase bodies all_written output in_hand closing].
  - change (zlen (@nil (Job * bool))) with 0. lia.
  - constructor.
  - done.
  - by vm_compute.
  - constructor.
  - intros _ _. by rewrite app_nil_r.
Qed.

(** C39: a session serves its client in an orderly way, whatever the schedule
    of the network and the interleaving of its threads: at most the configured
    number of request threads is pending; there are never more answers, sent
    or due, than frames read (plus one, about a bad length, when it closes);
    every body written is the response to a job one of the frames started or
    an error about the connection's input; and as long as every write was
    complete, the client's stream is exactly the written bodies, framed. *)
Theorem session_orderly i o s :
  0 < max_inflight_per_client cfg →
  rtc (session_step h cfg answers) (new_session i o) s →
  zlen (jobs s) ≤ max_inflight_per_client cfg ∧
  zlen (bodies s) + unfinished (jobs s) ≤ zlen (frames_read s) + closing (at_phase s) ∧
  Forall (explained (frames_read s)) (bodies s) ∧
  (all_written s = true → Forall (λ b, zlen b ≤ u32_max) (bodies s) →
   sent (output s) = sent o ++ concat (framed <$> bodies s)).
Proof.
  intros Hmax Hr. destruct (reachable_ok i o s Hmax Hr) as [Hj _ _ Ha He Ho].
  split_and!; [done| |done|done]. destruct (at_phase s); cbn [in_hand closing] in *; lia.
Qed.

End SessionProofs.

(** ** What reaches the service *)

(** The members of a job within their types, valid and within the limits. *)
Definition wf_job (lim : ProtocolLimits) (j : Job) : Prop :=
  let req := job_request j in
  wf_request req ∧ is_uint 64 (job_id j) ∧ validate_request req lim = Ok tt ∧
  Forall (λ s, zlen s ≤ max_string_bytes lim) [req_task_id req; req_source req; req_destination req; req_kind req] ∧
  req_profile req = None ∧
  if job_brk2 j then req_device_preference req ∈ [] :: device_preferences
  else req_device_preference req = [] ∧ job_id j = 0.

Section Jobs.
Context (h : endian) (cfg : BrokerServerConfig).

Lemma response_body_safe lim use_brk2 id r : safe (response_body h lim use_brk2 id r).
Proof.
  unfold response_body. destruct use_brk2.
  - unfold encode_brk2_response_body, field_str, field_u8, field_i64, field_u64, field_bytes, put_field.
    auto 30 with codec.
  - unfold encode_response_frame, brk_append_string, brk_append_blob.
    repeat (apply safe_rbind; [by auto with codec || case_match|intros ? _]). done.
Qed.

Lemma brk1_job lim frame req :
  run_reader (request_reader h lim) frame = Ok req → wf_job lim (mkJob req false 0).
Proof.
  intros Hrun. destruct (wp_run _ _ _ (wp_request h lim frame)) as [_ Hw].
  destruct (Hw _ Hrun) as (_ & Hwf & (H1 & H2 & H3 & H4 & _ & _ & Hv) & Hwire).
  unfold wf_job. cbn [job_request job_brk2 job_id]. unfold fits in *.
  assert (req_profile req = None ∧ req_device_preference req = []) as [? ?] by (by rewrite Hwire).
  split_and!; try done. repeat (apply List.Forall_cons; [lia|]). constructor.
Qed.

Lemma brk2_job lim body req id :
  decode_brk2_header body lim = Ok id → decode_brk2_fields body lim = Ok req →
  wf_job lim (mkJob req true id).
Proof.
  intros Hid Hreq. destruct (decode_brk2_header_spec body lim) as [_ Hh].
  destruct (proj1 (Hh id) Hid) as (p & Hb).
  destruct (decode_brk2_fields_spec body lim p (request_body_at _ _ _ _ Hb) (request_body_size _ _ _ _ Hb))
    as [_ Hf].
  destruct (proj1 (Hf req) Hreq) as (ts & _ & _ & _ & ((_ & _ & N1) & (_ & _ & N2) & (_ & _ & N3) & (_ & _ & N4))
    & Hs & [Hp _] & [Ht _] & [_ Hl] & _ & _ & Hpref & Hprof).
  unfold wf_job. cbn [job_request job_brk2 job_id]. unfold BROKER_MAX_TIMEOUT_MS in *.
  split_and!; [|by destruct Hb as (minor & _ & ? & _)| |done|done|].
  - split; [done|]. unfold is_uint. lia.
  - apply validate_request_ok; [lia|]. unfold request_valid, BROKER_MAX_TIMEOUT_MS. split_and!; done || lia.
  - unfold preference_field in Hpref. destruct (field ts 10) as [t|]; [|subst; set_solver].
    destruct Hpref as (_ & Hin & ->). by right.
Qed.

Lemma decode_frame_spec lim frame :
  ∃ decoded out id error, decode_frame h lim frame = Ok (decoded, out, id, error) ∧
    (decoded = true → wf_job lim (mkJob (default default_request out) (is_brk2 frame) (default 0 id))).
Proof.
  unfold decode_frame. destruct (is_brk2 frame) eqn:Hb.
  - unfold decode_brk2_request_body.
    destruct (decode_brk2_header_spec frame lim) as [Hs Hh].
    destruct (decode_brk2_header frame lim) as [id|e| |] eqn:E; try done; [|by do 4 eexists].
    destruct (proj1 (Hh id) eq_refl) as (p & Hp).
    destruct (decode_brk2_fields_spec frame lim p (request_body_at _ _ _ _ Hp) (request_body_size _ _ _ _ Hp))
      as [Hs' _].
    destruct (decode_brk2_fields frame lim) as [req|e| |] eqn:E'; try done; do 4 eexists; (split; [done|]);
      [|done]. intros _. by eapply brk2_job.
  - unfold decode_request_frame, early_request_id. rewrite Hb.
    destruct (wp_run _ _ _ (wp_request h lim frame)) as [Hs _].
    destruct (run_reader (request_reader h lim) frame) as [req|e| |] eqn:E; try done;
      do 4 eexists; (split; [done|]); [|done].
    intros _. by eapply brk1_job.
Qed.

Lemma handle_frame_safe pending frame : safe (handle_frame h cfg pending frame).
Proof.
  unfold handle_frame. destruct (decode_frame_spec (server_limits cfg) frame) as (d & out & id & err & -> & _).
  rewrite rbind_ret. destruct (negb d); [|destruct (_ <=? _); [|done]];
    (apply safe_rbind; [apply response_body_safe|done]).
Qed.

Lemma launched_wf pending frame job :
  handle_frame h cfg pending frame = Ok (Launch job) → wf_job (server_limits cfg) job.
Proof.
  unfold handle_frame. destruct (decode_frame_spec (server_limits cfg) frame) as (d & out & id & err & -> & Hwf).
  rewrite rbind_ret. destruct d; cbn [negb]; [|by intros (b & _ & E)%rbind_Ok].
  destruct (_ <=? _); [by intros (b & _ & E)%rbind_Ok|]. intros [= <-]. by apply Hwf.
Qed.

(** C40: whatever bytes the network delivers, in whatever order, what the
    session hands to the service is well typed: each member in the range of
    its type, the request valid and within the limits, no in-process member
    set by a client but a known device preference over BRK2; and every frame
    is handled without an out-of-bounds access or an unfinished loop. *)
Theorem jobs_well_typed answers i o s :
  0 < max_inflight_per_client cfg →
  rtc (session_step h cfg answers) (new_session i o) s →
  Forall (λ j, wf_job (server_limits cfg) j.1) (jobs s) ∧
  ∀ pending frame, safe (handle_frame h cfg pending frame).
Proof.
  intros Hmax Hr. split; [|apply handle_frame_safe].
  destruct (reachable_ok h cfg answers i o s Hmax Hr) as [_ Hl _ _ _ _].
  eapply List.Forall_impl; [|exact Hl]. intros j (frame & pending & _ & E). by eapply launched_wf.
Qed.

End Jobs.

(** A session that reads one request, starts its job and answers it. *)
Definition sample_server : BrokerServerConfig := mkServerConfig 9090 128 32 default_limits.
Definition sample_frame : bytes := request_layout sample_request.
Definition sample_job : Job := mkJob sample_request false 0.
Definition sample_answer (j : Job) (r : BrokerResponse) : Prop :=
  r = rejection (req_task_id (job_request j)) (str "no").
Definition sample_input : Socket := mkSocket (framed sample_frame) [Available 3; Interrupted; Available 40].
Definition sample_output : Outlet := mkOutlet [] [Accepts 1; SendInterrupted].
Definition sample_body : bytes := response_layout (rejection (str "t1") (str "no")).
Definition sample_end : Session :=
  mkSession (mkSocket [] []) (mkOutlet (framed sample_body) []) [(sample_job, true)] Reading true
    [sample_frame] [sample_body] true.

Lemma sample_run :
  rtc (session_step LittleEndian sample_server sample_answer) (new_session sample_input sample_output)
    sample_end.
Proof.
  eapply rtc_l; [|eapply rtc_l; [|eapply rtc_once]].
  - apply (step_frame _ _ _ sample_input (mkSocket [] [])). vm_compute. reflexivity.
  - apply (step_launch _ _ _ (mkSocket [] []) sample_output [] true [sample_frame] [] true sample_frame
      sample_job). vm_compute. reflexivity.
  - apply (step_respond _ _ _ (mkSocket [] []) sample_output (mkOutlet (framed sample_body) []) [] []
      sample_job Reading [sample_frame] [] true (rejection (str "t1") (str "no")) sample_body true);
      [reflexivity|vm_compute; reflexivity|vm_compute; reflexivity].
Qed.

Lemma session_orderly_witness :
  zlen (jobs sample_end) ≤ 32 ∧
  sent (output sample_end) = sent sample_output ++ concat (framed <$> [sample_body]).
Proof.
  destruct (session_orderly LittleEndian sample_server sample_answer sample_input sample_output sample_end
    eq_refl sample_run) as (H1 & _ & _ & H2).
  split; [exact H1|]. apply H2; [reflexivity|]. constructor; [vm_compute; congruence|constructor].
Defined.

Lemma jobs_well_typed_witness : wf_job default_limits sample_job.
Proof.
  destruct (jobs_well_typed LittleEndian sample_server sample_answer sample_input sample_output sample_end
    eq_refl sample_run) as [Hj _].
  exact (List.Forall_inv Hj).
Defined.

(** A write that fails half way does not stop the session: the next response
    follows in the middle of the broken frame. *)
Example partial_write_desync :
  match send_response LittleEndian (mkOutlet [] [Accepts 2; SendBroken]) (str "first") with
  | Ok (ok, o) =>
      ok = false ∧
      match send_response LittleEndian o (str "second") with
      | Ok (ok, o) => ok = true ∧ sent o = firstn 2 (framed (str "first")) ++ framed (str "second")
      | _ => False
      end
  | _ => False
  end.
Proof. by vm_compute. Qed.
