(* ===== verification/BrokerAdmission.v ===== *)
(** * Admission and shutdown of the broker server (src/broker_server.cpp)

    The accept loop with its admission control, the life of the sessions it
    starts, and [stop].  What a session does with a frame is BrokerServer.v;
    here a session is where it stands in [session_loop] and how many request
    threads it has.  [server_step] are the steps the server takes by itself,
    [peer_step] the ones that need a client or the network. *)

From S2P Require Import Prelude.

(** ** State *)

(** The accept loop: at the check of [running_], in [accept], with a new socket
    in [admit_client], or returned. *)
Inductive accept_phase := LoopTop | Accepting | Admitting (socket : Z) | LoopDone.

(** A session: at the check of [running_], in [recv], past its loop, past
    [client_sockets_.erase], or returned. *)
Inductive phase := AtCheck | InRecv | Leaving | Joining | Returned.

(** [requests] counts the request threads that have not finished. *)
Record Client := mkClient {
  socket : Z;
  client_phase : phase;
  requests : nat;
}.

(** How far [stop] has come: it has not reached the listener, it has shut the
    listener down, it has shut the clients down. *)
Inductive stop_stage := StopPending | ListenerShut | ClientsShut.

(** [shut] are the sockets [stop] has shut down. *)
Record Server := mkServer {
  running : bool;
  accepting : accept_phase;
  client_sockets : gset Z;
  shut : gset Z;
  stop_reached : stop_stage;
  clients : list Client;
}.

(** [run], once the listener is open. *)
Definition started : Server := mkServer true LoopTop ∅ ∅ StopPending [].

Definition at_phase (c : Client) (p : phase) : Client := mkClient (socket c) p (requests c).

(** The sockets of sessions that have not left [client_sockets_]. *)
Definition served (c : Client) : bool :=
  match client_phase c with AtCheck | InRecv | Leaving => true | Joining | Returned => false end.

(** A socket is open until its session returns. *)
Definition socket_open (l : list Client) (s : Z) : Prop :=
  ∃ c, c ∈ l ∧ socket c = s ∧ client_phase c ≠ Returned.

Section Steps.
Context (max_clients : Z) (max_inflight : nat).

Inductive admission := Accepted | Refused.

(** [admit_client] under the mutex; [timeout_set] is whether the socket took
    its timeouts. *)
Definition admit_client (sockets : gset Z) (client_socket : Z) (timeout_set : bool) : admission * gset Z :=
  if max_clients <=? Z.of_nat (size sockets) then (Refused, sockets)
  else if negb timeout_set then (Refused, sockets)
  else (Accepted, {[client_socket]} ∪ sockets).

(** [accept] fails once the listener is shut down, and no client reaches it any
    more.  [stop] clears [running_] (below), then shuts down the listener, then,
    under the mutex, the clients. *)
Inductive server_step : Server → Server → Prop :=
| step_top ru cs sh sd cl :
    server_step (mkServer ru LoopTop cs sh sd cl)
      (mkServer ru (if (ru : bool) then Accepting else LoopDone) cs sh sd cl)
| step_accept_closed cs sh sd cl :
    sd ≠ StopPending →
    server_step (mkServer false Accepting cs sh sd cl) (mkServer false LoopDone cs sh sd cl)
| step_admit ru s ok cs cs' sh sd cl :
    admit_client cs s ok = (Accepted, cs') →
    server_step (mkServer ru (Admitting s) cs sh sd cl)
      (mkServer ru LoopTop cs' sh sd (cl ++ [mkClient s AtCheck 0]))
| step_refuse ru s ok cs cs' sh sd cl :
    admit_client cs s ok = (Refused, cs') →
    server_step (mkServer ru (Admitting s) cs sh sd cl) (mkServer ru LoopTop cs' sh sd cl)
| step_check ru ac cs sh sd cl i c :
    cl !! i = Some c → client_phase c = AtCheck →
    server_step (mkServer ru ac cs sh sd cl)
      (mkServer ru ac cs sh sd (<[i := at_phase c (if (ru : bool) then InRecv else Leaving)]> cl))
| step_recv_shut ru ac cs sh sd cl i c :
    cl !! i = Some c → client_phase c = InRecv → socket c ∈ sh →
    server_step (mkServer ru ac cs sh sd cl) (mkServer ru ac cs sh sd (<[i := at_phase c Leaving]> cl))
| step_leave ru ac cs sh sd cl i c :
    cl !! i = Some c → client_phase c = Leaving →
    server_step (mkServer ru ac cs sh sd cl)
      (mkServer ru ac (cs ∖ {[socket c]}) sh sd (<[i := at_phase c Joining]> cl))
| step_answered ru ac cs sh sd cl i c n :
    cl !! i = Some c → requests c = S n →
    server_step (mkServer ru ac cs sh sd cl)
      (mkServer ru ac cs sh sd (<[i := mkClient (socket c) (client_phase c) n]> cl))
| step_joined ru ac cs sh sd cl i c :
    cl !! i = Some c → client_phase c = Joining → requests c = 0%nat →
    server_step (mkServer ru ac cs sh sd cl)
      (mkServer ru ac cs (sh ∖ {[socket c]}) sd (<[i := at_phase c Returned]> cl))
| step_shutdown_listener ac cs sh cl :
    server_step (mkServer false ac cs sh StopPending cl) (mkServer false ac cs sh ListenerShut cl)
| step_shutdown_clients ac cs sh cl :
    server_step (mkServer false ac cs sh ListenerShut cl) (mkServer false ac cs (sh ∪ cs) ClientsShut cl).

Inductive peer_step : Server → Server → Prop :=
| step_connect ru cs sh cl s :
    ¬ socket_open cl s →
    peer_step (mkServer ru Accepting cs sh StopPending cl) (mkServer ru (Admitting s) cs sh StopPending cl)
| step_interrupted ru cs sh sd cl :
    peer_step (mkServer ru Accepting cs sh sd cl) (mkServer ru LoopTop cs sh sd cl)
| step_request ru ac cs sh sd cl i c n :
    cl !! i = Some c → client_phase c = InRecv →
    n = requests c ∨ n = S (requests c) ∧ (requests c < max_inflight)%nat →
    peer_step (mkServer ru ac cs sh sd cl)
      (mkServer ru ac cs sh sd (<[i := mkClient (socket c) AtCheck n]> cl))
| step_hangup ru ac cs sh sd cl i c :
    cl !! i = Some c → client_phase c = InRecv →
    peer_step (mkServer ru ac cs sh sd cl) (mkServer ru ac cs sh sd (<[i := at_phase c Leaving]> cl)).

Inductive step : Server → Server → Prop :=
| step_server s s' : server_step s s' → step s s'
| step_peer s s' : peer_step s s' → step s s'
| step_stop ru ac cs sh sd cl :
    step (mkServer ru ac cs sh sd cl) (mkServer false ac cs sh sd cl).

(** ** The invariant *)

Definition serving (l : list Client) : nat := sum_list_with (λ c, if served c then 1%nat else 0%nat) l.

(** The clients' table holds exactly the sockets of the served sessions, no
    two open sessions share a socket, and after [stop] no session waits in
    [recv] on a socket that has not been shut down. *)
Record server_inv (s : Server) : Prop := {
  inv_distinct : ∀ i j c c', clients s !! i = Some c → clients s !! j = Some c' →
    client_phase c ≠ Returned → client_phase c' ≠ Returned → socket c = socket c' → i = j;
  inv_new : ∀ x, accepting s = Admitting x → ¬ socket_open (clients s) x;
  inv_table : ∀ x, x ∈ client_sockets s ↔ ∃ i c, clients s !! i = Some c ∧ served c = true ∧ socket c = x;
  inv_count : serving (clients s) = size (client_sockets s);
  inv_bound : Z.of_nat (size (client_sockets s)) ≤ Z.max 0 max_clients;
  inv_requests : ∀ i c, clients s !! i = Some c → (requests c ≤ max_inflight)%nat;
  inv_stopped : stop_reached s ≠ StopPending → running s = false;
  inv_shut : stop_reached s = ClientsShut → ∀ i c, clients s !! i = Some c → client_phase c = InRecv → socket c ∈ shut s;
}.

Lemma started_inv : server_inv started.
Proof.
  split; unfold started; cbn [clients accepting client_sockets shut stop_reached running]; try done.
  - intros x. split; [set_solver|by intros (i & c & ? & _)].
  - rewrite size_empty. lia.
Qed.

Lemma served_open c : served c = true → client_phase c ≠ Returned.
Proof. unfold served. by destruct (client_phase c). Qed.

Lemma served_in_table s i c :
  server_inv s → clients s !! i = Some c → served c = true → socket c ∈ client_sockets s.
Proof. intros Hinv Hi Hc. apply (inv_table _ Hinv). eauto. Qed.

(** Entries of an updated list. *)
Lemma lookup_update {A} (l : list A) i x j y :
  <[i := x]> l !! j = Some y → (j = i ∧ y = x) ∨ (j ≠ i ∧ l !! j = Some y).
Proof. intros [(<- & <- & _)|[Hne Hl]]%list_lookup_insert_Some; auto. Qed.

(** A session moves on without leaving the table, or reopening. *)
Lemma move_inv ru ac cs sh sd cl i c c' :
  server_inv (mkServer ru ac cs sh sd cl) → cl !! i = Some c →
  socket c' = socket c → served c' = served c → (client_phase c' ≠ Returned → client_phase c ≠ Returned) →
  (requests c' ≤ max_inflight)%nat →
  (sd = ClientsShut → client_phase c' = InRecv → socket c ∈ sh) →
  server_inv (mkServer ru ac cs sh sd (<[i := c']> cl)).
Proof.
  intros [Hd Hn Ht Hcount Hb Hr Hst Hsh] Hi Hsock Hserved Hopen Hreq Hrecv.
  split; cbn [clients accepting client_sockets shut stop_reached running] in *; try done.
  - intros j k a b [[-> ->]|[_ Ha]]%lookup_update [[-> ->]|[_ Hb']]%lookup_update Pa Pb E; try done;
      rewrite ?Hsock in E; eapply Hd; eauto.
  - intros x Hx (a & [j [[-> ->]|[_ Ha]]%lookup_update]%list_elem_of_lookup & Hsa & Hpa); apply (Hn x Hx).
    + exists c. rewrite <- Hsock. split; [by eapply list_elem_of_lookup_2|auto].
    + exists a. split; [by eapply list_elem_of_lookup_2|done].
  - intros x. rewrite Ht. split; intros (j & a & Ha & Hsa & Hx).
    + destruct (decide (j = i)) as [->|Hne].
      * exists i, c'. rewrite list_lookup_insert_eq by (by eapply lookup_lt_Some).
        split; [done|]. assert (a = c) as -> by congruence. by rewrite Hserved, Hsock.
      * exists j, a. by rewrite list_lookup_insert_ne.
    + apply lookup_update in Ha as [[-> ->]|[_ Ha]]; [|by exists j, a].
      exists i, c. by rewrite <- Hserved, <- Hsock.
  - unfold serving in *. pose proof (sum_list_with_insert (λ c, if served c then 1%nat else 0%nat) cl i c c' Hi) as E.
    cbv beta in E. rewrite Hserved in E. lia.
  - intros j a [[-> ->]|[_ Ha]]%lookup_update; [done|by eapply Hr].
  - intros Hsd j a [[-> ->]|[_ Ha]]%lookup_update Hp; [rewrite Hsock; by apply Hrecv|by eapply Hsh].
Qed.

(** What the steps of the accept loop change. *)
Lemma accept_inv ru ac ac' cs sh sd cl :
  server_inv (mkServer ru ac cs sh sd cl) → (∀ x, ac' = Admitting x → ¬ socket_open cl x) →
  server_inv (mkServer ru ac' cs sh sd cl).
Proof. by intros [] Hac; split. Qed.

Lemma admit_inv ru x ok cs cs' sh sd cl :
  server_inv (mkServer ru (Admitting x) cs sh sd cl) → admit_client cs x ok = (Accepted, cs') →
  server_inv (mkServer ru LoopTop cs' sh sd (cl ++ [mkClient x AtCheck 0])).
Proof.
  intros [Hd Hn Ht Hcount Hb Hr Hst Hsh] Hadm.
  cbn [clients accepting client_sockets shut stop_reached running] in *. specialize (Hn x eq_refl).
  unfold admit_client in Hadm. destruct (Z.leb_spec max_clients (Z.of_nat (size cs))) as [|Hlt]; [done|].
  destruct (negb ok); [done|]. injection Hadm as <-.
  assert (∀ i c, cl !! i = Some c → client_phase c ≠ Returned → socket c ≠ x) as Hne.
  { intros i c Hi Hp <-. apply Hn. exists c. split; [by eapply list_elem_of_lookup_2|done]. }
  assert (x ∉ cs) as Hx.
  { intros (i & c & Hi & Hc & Hs)%Ht. by eapply Hne; [|apply served_open|]. }
  assert (size ({[x]} ∪ cs) = S (size cs)) as Hsize.
  { rewrite size_union, size_singleton by set_solver. done. }
  split; cbn [clients accepting client_sockets shut stop_reached running].
  - intros i j c c' [Hi|[Hi Hc]]%lookup_app_Some [Hj|[Hj Hc']]%lookup_app_Some P1 P2 E.
    + by eapply Hd.
    + apply list_lookup_singleton_Some in Hc' as [_ <-]. by destruct (Hne i c Hi P1).
    + apply list_lookup_singleton_Some in Hc as [_ <-]. by destruct (Hne j c' Hj P2).
    + apply list_lookup_singleton_Some in Hc as [? _], Hc' as [? _]. lia.
  - done.
  - intros y. rewrite elem_of_union, elem_of_singleton, Ht. split.
    + intros [->|(i & c & Hi & Hc)].
      * exists (length cl), (mkClient x AtCheck 0). rewrite lookup_app_r, Nat.sub_diag by done. done.
      * exists i, c. split; [by apply lookup_app_l_Some|done].
    + intros (i & c & [Hi|[_ Hi]]%lookup_app_Some & Hc & Hs); [right; by exists i, c|left].
      by apply list_lookup_singleton_Some in Hi as [_ <-].
  - unfold serving in *. rewrite sum_list_with_app, Hcount, Hsize. cbn. lia.
  - rewrite Hsize. lia.
  - intros i c [Hi|[_ Hi]]%lookup_app_Some; [by eapply Hr|].
    apply list_lookup_singleton_Some in Hi as [_ <-]. cbn. lia.
  - done.
  - intros Hs i c [Hi|[_ Hi]]%lookup_app_Some Hp; [by eapply Hsh|].
    by apply list_lookup_singleton_Some in Hi as [_ <-].
Qed.

Lemma leave_inv ru ac cs sh sd cl i c :
  server_inv (mkServer ru ac cs sh sd cl) → cl !! i = Some c → client_phase c = Leaving →
  server_inv (mkServer ru ac (cs ∖ {[socket c]}) sh sd (<[i := at_phase c Joining]> cl)).
Proof.
  intros Hinv Hi Hp. pose proof (served_in_table _ i c Hinv Hi) as Hin. destruct Hinv as [Hd Hn Ht Hcount Hb Hr Hst Hsh].
  cbn [clients accepting client_sockets shut stop_reached running] in *.
  assert (served c = true) as Hc by (unfold served; by rewrite Hp). specialize (Hin Hc).
  assert (S (size (cs ∖ {[socket c]})) = size cs) as Hsize.
  { rewrite size_difference by set_solver. rewrite size_singleton.
    assert (size cs ≠ 0%nat); [|lia]. apply size_non_empty_iff. set_solver. }
  split; cbn [clients accepting client_sockets shut stop_reached running].
  - intros j k a b [[-> ->]|[_ Ha]]%lookup_update [[-> ->]|[_ Hb']]%lookup_update Pa Pb E; try done;
      cbn in E; eapply Hd; try done; congruence.
  - intros x Hx (a & [j [[-> ->]|[_ Ha]]%lookup_update]%list_elem_of_lookup & Hsa & Hpa); apply (Hn x Hx).
    + exists c. split; [by eapply list_elem_of_lookup_2|]. split; [done|congruence].
    + exists a. split; [by eapply list_elem_of_lookup_2|done].
  - intros x. rewrite elem_of_difference, elem_of_singleton, Ht. split.
    + intros [(j & a & Ha & Hsa & Hx) Hne]. exists j, a. split; [|done].
      rewrite list_lookup_insert_ne; [done|]. intros ->. congruence.
    + intros (j & a & [[-> ->]|[Hji Ha]]%lookup_update & Hsa & Hx); [done|]. split; [by exists j, a|].
      intros ->. apply Hji. eapply Hd; [exact Ha|exact Hi|by apply served_open|by rewrite Hp|done].
  - unfold serving in *. pose proof (sum_list_with_insert (λ c, if served c then 1%nat else 0%nat) cl i c (at_phase c Joining) Hi) as E.
    cbv beta in E. rewrite Hc in E. change (served (at_phase c Joining)) with false in E. cbv iota in E. lia.
  - lia.
  - intros j a [[-> ->]|[_ Ha]]%lookup_update; [|by eapply Hr]. by apply (Hr i c).
  - done.
  - intros Hsd j a [[-> ->]|[_ Ha]]%lookup_update Hpa; [done|by eapply Hsh].
Qed.

Lemma joined_inv ru ac cs sh sd cl i c :
  server_inv (mkServer ru ac cs sh sd cl) → cl !! i = Some c → client_phase c = Joining →
  server_inv (mkServer ru ac cs (sh ∖ {[socket c]}) sd (<[i := at_phase c Returned]> cl)).
Proof.
  intros [Hd Hn Ht Hcount Hb Hr Hst Hsh] Hi Hp.
  cbn [clients accepting client_sockets shut stop_reached running] in *.
  split; cbn [clients accepting client_sockets shut stop_reached running].
  - intros j k a b [[-> ->]|[_ Ha]]%lookup_update [[-> ->]|[_ Hb']]%lookup_update Pa Pb E; try done; by eapply Hd.
  - intros x Hx (a & [j [[-> ->]|[_ Ha]]%lookup_update]%list_elem_of_lookup & Hsa & Hpa); [done|].
    apply (Hn x Hx). exists a. split; [by eapply list_elem_of_lookup_2|done].
  - intros x. rewrite Ht. split.
    + intros (j & a & Ha & Hsa & Hx). exists j, a. split; [|done].
      rewrite list_lookup_insert_ne; [done|]. intros ->. assert (a = c) as -> by congruence.
      unfold served in Hsa. by rewrite Hp in Hsa.
    + intros (j & a & [[-> ->]|[Hji Ha]]%lookup_update & Hsa & Hx); [done|by exists j, a].
  - unfold serving in *. pose proof (sum_list_with_insert (λ c, if served c then 1%nat else 0%nat) cl i c (at_phase c Returned) Hi) as E.
    cbv beta in E. unfold served at 2 in E. rewrite Hp in E. change (served (at_phase c Returned)) with false in E. cbv iota in E. lia.
  - done.
  - intros j a [[-> ->]|[_ Ha]]%lookup_update; [|by eapply Hr]. by apply (Hr i c).
  - done.
  - intros Hsd j a [[-> ->]|[Hji Ha]]%lookup_update Hpa; [done|].
    apply elem_of_difference. split; [by eapply Hsh|]. rewrite elem_of_singleton. intros E.
    apply Hji. eapply Hd; [exact Ha|exact Hi|congruence|congruence|done].
Qed.

Lemma admission_step_inv s s' : server_inv s → step s s' → server_inv s'.
Proof.
  intros Hinv Hstep. destruct Hstep as [s s' Hs|s s' Hs|ru ac cs sh sd cl].
  - destruct Hs as [ru cs sh sd cl|cs sh sd cl Hsd|ru x ok cs cs' sh sd cl Hadm|ru x ok cs cs' sh sd cl Hadm|
      ru ac cs sh sd cl i c Hi Hp|ru ac cs sh sd cl i c Hi Hp Hsh|ru ac cs sh sd cl i c Hi Hp|
      ru ac cs sh sd cl i c n Hi Hn|ru ac cs sh sd cl i c Hi Hp Hr|ac cs sh cl|ac cs sh cl].
    + eapply accept_inv; [done|]. by destruct ru.
    + by eapply accept_inv.
    + by eapply admit_inv.
    + assert (cs' = cs) as -> by (unfold admit_client in Hadm; repeat case_match; congruence).
      by eapply accept_inv.
    + pose proof (inv_stopped _ Hinv) as Hst. pose proof (inv_requests _ Hinv i c Hi). cbn in Hst.
      eapply move_inv; try done; unfold served, at_phase; cbn [client_phase]; rewrite ?Hp;
        destruct ru; try done. intros ->. by discriminate Hst.
    + pose proof (inv_requests _ Hinv i c Hi). eapply move_inv; try done; unfold served, at_phase; cbn [client_phase]; by rewrite ?Hp.
    + by apply leave_inv.
    + pose proof (inv_requests _ Hinv i c Hi) as Hreq. eapply move_inv; try done; cbn [requests client_phase].
      * lia.
      * intros Hsd Hp. by apply (inv_shut _ Hinv Hsd i c).
    + by apply joined_inv.
    + destruct Hinv as [Hd Hn Ht Hcount Hb Hr Hst Hsh].
      by split; cbn [clients accepting client_sockets shut stop_reached running] in *.
    + destruct Hinv as [Hd Hn Ht Hcount Hb Hr Hst Hsh].
      split; cbn [clients accepting client_sockets shut stop_reached running] in *; try done.
      intros _ i c Hi Hp. apply elem_of_union. right. apply Ht. exists i, c. unfold served. by rewrite Hp.
  - destruct Hs as [ru cs sh cl x Hx|ru cs sh sd cl|ru ac cs sh sd cl i c n Hi Hp Hn|ru ac cs sh sd cl i c Hi Hp].
    + eapply accept_inv; [done|]. by intros y [= <-].
    + by eapply accept_inv.
    + pose proof (inv_requests _ Hinv i c Hi). eapply move_inv; try done; unfold served; cbn [client_phase requests]; rewrite ?Hp; try done.
      destruct Hn as [->|[-> ?]]; lia.
    + pose proof (inv_requests _ Hinv i c Hi). eapply move_inv; try done; unfold served, at_phase; cbn [client_phase]; by rewrite ?Hp.
  - destruct Hinv as [Hd Hn Ht Hcount Hb Hr Hst Hsh]. by split.
Qed.

Lemma admission_reachable s : rtc step started s → server_inv s.
Proof. apply (rtc_invariant step server_inv); [apply admission_step_inv|apply started_inv]. Qed.

(** C16: Admission control: in every reachable state at most [max_clients] sessions
    are being served, the table holds exactly their sockets, no two of them
    share one, and no session has more request threads than it may. *)
Theorem admission_bounded s :
  rtc step started s →
  Z.of_nat (serving (clients s)) ≤ Z.max 0 max_clients ∧
  (∀ x, x ∈ client_sockets s ↔ ∃ i c, clients s !! i = Some c ∧ served c = true ∧ socket c = x) ∧
  (∀ i j c c', clients s !! i = Some c → clients s !! j = Some c' →
     served c = true → served c' = true → socket c = socket c' → i = j) ∧
  ∀ i c, clients s !! i = Some c → (requests c ≤ max_inflight)%nat.
Proof.
  intros Hr. destruct (admission_reachable s Hr) as [Hd _ Ht Hcount Hb Hreq _ _].
  split; [by rewrite Hcount|]. split; [done|]. split; [|done].
  intros i j c c' Hi Hj Hc Hc'. apply Hd; try done; by apply served_open.
Qed.

(** ** Shutdown *)

Definition phase_weight (p : phase) : nat :=
  match p with InRecv => 5 | AtCheck => 3 | Leaving => 2 | Joining => 1 | Returned => 0 end.
Definition client_weight (c : Client) : nat := phase_weight (client_phase c) + requests c.
Definition accept_weight (a : accept_phase) : nat :=
  match a with Accepting => 6 | Admitting _ => 5 | LoopTop => 1 | LoopDone => 0 end.
Definition stop_weight (a : stop_stage) : nat :=
  match a with StopPending => 2 | ListenerShut => 1 | ClientsShut => 0 end.
Definition server_weight (s : Server) : nat :=
  accept_weight (accepting s) + sum_list_with client_weight (clients s) + stop_weight (stop_reached s).

Definition stopping (s : Server) : Prop := running s = false.

(** A step that changes something. *)
Definition progress (s s' : Server) : Prop := step s s' ∧ s' ≠ s.

(** A client's weight in its phase, and after a change of it. *)
Lemma client_weights c p q :
  client_phase c = p →
  client_weight c = (phase_weight p + requests c)%nat ∧
  client_weight (at_phase c q) = (phase_weight q + requests c)%nat.
Proof. by intros <-. Qed.

Lemma stopping_server_step s s' :
  stopping s → server_step s s' → stopping s' ∧ (server_weight s' < server_weight s)%nat.
Proof.
  unfold stopping, server_weight. intros Hrun Hs.
  pose proof (sum_list_with_insert client_weight (clients s)) as Hw.
  destruct Hs as [ru cs sh sd cl|cs sh sd cl Hsd|ru x ok cs cs' sh sd cl Hadm|ru x ok cs cs' sh sd cl Hadm|
      ru ac cs sh sd cl i c Hi Hp|ru ac cs sh sd cl i c Hi Hp Hsh|ru ac cs sh sd cl i c Hi Hp|
      ru ac cs sh sd cl i c n Hi Hn|ru ac cs sh sd cl i c Hi Hp Hr|ac cs sh cl|ac cs sh cl];
    cbn [running accepting clients stop_reached accept_weight stop_weight] in *; subst; (split; [done|]); try lia.
  - cbn [accept_weight]. lia.
  - rewrite sum_list_with_app. cbn. lia.
  - specialize (Hw _ _ (at_phase c Leaving) Hi). destruct (client_weights c AtCheck Leaving Hp). cbn [phase_weight] in *. lia.
  - specialize (Hw _ _ (at_phase c Leaving) Hi). destruct (client_weights c InRecv Leaving Hp). cbn [phase_weight] in *. lia.
  - specialize (Hw _ _ (at_phase c Joining) Hi). destruct (client_weights c Leaving Joining Hp). cbn [phase_weight] in *. lia.
  - specialize (Hw _ _ (mkClient (socket c) (client_phase c) n) Hi). destruct (client_weights c _ AtCheck eq_refl).
    change (client_weight (mkClient _ _ _)) with (phase_weight (client_phase c) + n)%nat in Hw. lia.
  - specialize (Hw _ _ (at_phase c Returned) Hi). destruct (client_weights c Joining Returned Hp). cbn [phase_weight] in *. lia.
Qed.

Lemma stopping_step s s' :
  stopping s → step s s' → stopping s' ∧ (s' = s ∨ (server_weight s' < server_weight s)%nat).
Proof.
  intros Hrun Hstep. destruct Hstep as [s s' Hs|s s' Hs|ru ac cs sh sd cl].
  - destruct (stopping_server_step _ _ Hrun Hs). auto.
  - unfold stopping, server_weight in *. pose proof (sum_list_with_insert client_weight (clients s)) as Hw.
    destruct Hs as [ru cs sh cl x Hx|ru cs sh sd cl|ru ac cs sh sd cl i c n Hi Hp Hn|ru ac cs sh sd cl i c Hi Hp];
      cbn [running accepting clients stop_reached accept_weight stop_weight] in *; subst; (split; [done|right]); try lia.
    + specialize (Hw _ _ (mkClient (socket c) AtCheck n) Hi). destruct (client_weights c _ AtCheck Hp).
      change (client_weight (mkClient _ _ _)) with (3 + n)%nat in Hw. cbn [phase_weight] in *. lia.
    + specialize (Hw _ _ (at_phase c Leaving) Hi). destruct (client_weights c _ Leaving Hp). cbn [phase_weight] in *. lia.
  - unfold stopping in *. cbn in Hrun. subst. by split; [|left].
Qed.

Lemma stopping_progress s s' : stopping s → progress s s' → stopping s' ∧ (server_weight s' < server_weight s)%nat.
Proof. intros Hs [Hstep Hne]. by destruct (stopping_step s s' Hs Hstep) as [? [?|?]]. Qed.

(** Where a stopping server can do nothing by itself, everything has returned. *)
Lemma stopping_final s :
  server_inv s → stopping s → nf server_step s →
  accepting s = LoopDone ∧ client_sockets s = ∅ ∧
  ∀ i c, clients s !! i = Some c → client_phase c = Returned ∧ requests c = 0%nat.
Proof.
  intros Hinv Hrun Hnf. assert (∀ s', ¬ server_step s s') as Hno by (intros s' Hs; apply Hnf; by exists s').
  pose proof (inv_shut _ Hinv) as Hsh. pose proof (inv_table _ Hinv) as Ht.
  destruct s as [ru ac cs sh sd cl]. unfold stopping in Hrun.
  cbn [running accepting client_sockets shut stop_reached clients] in *. subst ru.
  assert (sd = ClientsShut) as ->.
  { destruct sd; [|  |done]; exfalso; [eapply Hno, step_shutdown_listener|eapply Hno, step_shutdown_clients]. }
  assert (∀ i c, cl !! i = Some c → client_phase c = Returned ∧ requests c = 0%nat) as Hcl.
  { intros i c Hi. destruct (requests c) as [|n] eqn:En; [|by edestruct Hno; eapply step_answered].
    split; [|done]. destruct (client_phase c) eqn:Hp; [by edestruct Hno; eapply step_check| | | |done].
    - edestruct Hno. eapply step_recv_shut; [done|done|]. by eapply Hsh.
    - by edestruct Hno; eapply step_leave.
    - by edestruct Hno; eapply step_joined. }
  split; [|split; [|done]].
  - destruct ac as [| |x|]; [by edestruct Hno; eapply step_top|by edestruct Hno; eapply step_accept_closed| |done].
    exfalso. destruct (admit_client cs x true) as [[] cs'] eqn:E; by eapply Hno; econstructor.
  - apply leibniz_equiv, elem_of_equiv_empty. intros x (i & c & Hi & Hc & _)%Ht.
    destruct (Hcl i c Hi) as [Hp _]. unfold served in Hc. by rewrite Hp in Hc.
Qed.

(** C14: Shutdown terminates: once [running_] is false, every schedule of the
    server's threads and its clients makes finitely many more steps, and where
    the server's own threads can do nothing more, whatever the clients still
    do or fail to do, the accept loop and every session have returned, no
    request thread is left, and the clients' table is empty. *)
Theorem broker_shutdown_terminates s :
  rtc step started s → running s = false →
  sn progress s ∧
  ∀ s', rtc progress s s' → nf server_step s' →
    accepting s' = LoopDone ∧ client_sockets s' = ∅ ∧
    ∀ i c, clients s' !! i = Some c → client_phase c = Returned ∧ requests c = 0%nat.
Proof.
  intros Hr Hst. split; [by apply (sn_measure progress stopping server_weight); [exact stopping_progress|]|].
  intros s' Hr' Hnf. assert (server_inv s' ∧ stopping s') as [Hinv Hst']; [|by apply stopping_final].
  eapply (rtc_invariant progress (λ s, server_inv s ∧ stopping s));
    [|split; [by apply admission_reachable|exact Hst]|exact Hr'].
  intros x y [Hx Hsx] Hxy. split; [by eapply admission_step_inv, Hxy|by apply (stopping_progress x)].
Qed.

End Steps.

(** ** Samples *)

(** A client is admitted and waits in [recv] when the server is told to stop. *)
Definition waiting_server : Server := mkServer false LoopTop {[7]} ∅ StopPending [mkClient 7 InRecv 0].

Lemma waiting_server_reachable : rtc (step 1 32) started waiting_server.
Proof.
  eapply rtc_l; [apply step_server, step_top|].
  eapply rtc_l; [apply step_peer, (step_connect _ _ _ _ _ 7); by intros (c & Hc%elem_of_nil & _)|].
  eapply rtc_l; [by eapply step_server, (step_admit _ _ _ true)|].
  eapply rtc_l; [by eapply step_server, (step_check _ _ _ _ _ _ _ 0)|].
  eapply rtc_l; [apply step_stop|]. cbn. rewrite (right_id_L ∅ (∪)). apply rtc_refl.
Qed.

Lemma admission_bounded_witness :
  rtc (step 1 32) started waiting_server ∧ Z.of_nat (serving (clients waiting_server)) ≤ 1.
Proof.
  split; [apply waiting_server_reachable|]. apply (admission_bounded 1 32 waiting_server waiting_server_reachable).
Defined.

Lemma broker_shutdown_terminates_witness :
  rtc (step 1 32) started waiting_server ∧ sn (progress 1 32) waiting_server.
Proof.
  split; [apply waiting_server_reachable|].
  by apply (broker_shutdown_terminates 1 32 waiting_server waiting_server_reachable).
Defined.
