(* ===== verification/Listener.v ===== *)
(** * The listening sockets of the two servers (src/broker_server.cpp, src/adi_server.cpp)

    Both servers open their listener alike, and close it in [stop], which any
    thread may call, and in [join_all], which the thread of [run] reaches after
    its accept loop or after an exception.  [listener_socket_] is a plain
    integer, so these run interleaved: here a thread is the list of its
    remaining actions on the listener.  The answers of the operating system are
    parameters. *)

From S2P Require Import Prelude Wire.

(** ** Opening *)

(** [None] is [kInvalidSocket]. *)
Record Os := mkOs {
  os_socket : option Z;
  os_reuse : bool;
  os_bind : bool;
  os_listen : bool;
}.

(** What was done to descriptors. *)
Inductive event := Opened (fd : Z) | Closed (fd : Z).

(** The messages of the exceptions, without the text of the error. *)
Record Messages := mkMessages { no_socket : bytes; no_reuse : bytes; no_bind : bytes; no_listen : bytes }.

(** The listener a server keeps, and what happened. *)
Definition open_with (m : Messages) (os : Os) : result Z * list event :=
  match os_socket os with
  | None => (Err (no_socket m), [])
  | Some fd =>
      if negb (os_reuse os) then (Err (no_reuse m), [Opened fd; Closed fd])
      else if negb (os_bind os) then (Err (no_bind m), [Opened fd; Closed fd])
      else if negb (os_listen os) then (Err (no_listen m), [Opened fd; Closed fd])
      else (Ok fd, [Opened fd])
  end.

Definition open_listener : Os → result Z * list event :=
  open_with (mkMessages (str "failed to create broker listener socket") (str "failed to set SO_REUSEADDR: ")
    (str "failed to bind broker listener: ") (str "failed to listen on broker listener: ")).

Definition adi_open_listener : Os → result Z * list event :=
  open_with (mkMessages (str "Failed to create ADI server socket.") (str "Failed to configure ADI server socket: ")
    (str "Failed to bind ADI server socket: ") (str "Failed to listen on ADI server socket: ")).

(** A failure leaves no descriptor open. *)
Lemma open_with_cases m os :
  match open_with m os with
  | (Ok fd, es) => es = [Opened fd] ∧ os_socket os = Some fd
  | (Err _, es) => es = [] ∨ ∃ fd, es = [Opened fd; Closed fd]
  | _ => False
  end.
Proof.
  unfold open_with. destruct (os_socket os) as [fd|]; [|by left].
  destruct (os_reuse os), (os_bind os), (os_listen os); cbn; eauto.
Qed.

(** ** Closing *)

(** [Exchange]: [if (!running_.exchange(false)) return;], which skips the three
    actions that follow.  [Await]: the accept loop has seen [running_] false. *)
Inductive action := Exchange | Await | Shut | Close | Reset.

Definition stop : list action := [Exchange; Shut; Close; Reset].
Definition join_all : list action := [Shut; Close; Reset].

(** How [run] ends: by the loop's test, or by an exception of [accept_loop]. *)
Definition run_ends (exception : bool) : list action :=
  if exception then stop ++ join_all else Await :: join_all.

(** [run_thread] and the threads that call [stop], by the actions they have
    left; [closes] are the descriptors closed so far. *)
Record Listening := mkListening {
  running : bool;
  listener_socket : option Z;
  closes : list Z;
  run_thread : list action;
  callers : list (list action);
}.

(** A thread's first action, with the rest of its actions after it; [None]
    while it waits.  [Close] reads the descriptor and closes it in one step, the
    accesses to the plain [int] are taken in some sequential order, and no
    descriptor number is given out again. *)
Definition act (run : bool) (fd : option Z) (cs : list Z) (a : action) (rest : list action)
    : option (bool * option Z * list Z * list action) :=
  match a with
  | Exchange => Some (false, fd, cs, if run then rest else skipn 3 rest)
  | Await => if run then None else Some (false, fd, cs, rest)
  | Shut => Some (run, fd, cs, rest)
  | Close => Some (run, fd, cs ++ option_list fd, rest)
  | Reset => Some (run, None, cs, rest)
  end.

Inductive listening_step : Listening → Listening → Prop :=
| step_run s a rest run fd cs rest' :
    run_thread s = a :: rest →
    act (running s) (listener_socket s) (closes s) a rest = Some (run, fd, cs, rest') →
    listening_step s (mkListening run fd cs rest' (callers s))
| step_caller s i a rest run fd cs rest' :
    callers s !! i = Some (a :: rest) →
    act (running s) (listener_socket s) (closes s) a rest = Some (run, fd, cs, rest') →
    listening_step s (mkListening run fd cs (run_thread s) (<[i := rest']> (callers s))).

(** A listener that is open, the thread of [run], and [n] threads that call
    [stop]. *)
Definition listening (fd : Z) (exception : bool) (n : nat) : Listening :=
  mkListening true (Some fd) [] (run_ends exception) (replicate n stop).

(** ** How often it is closed *)

Fixpoint count_close (t : list action) : nat :=
  match t with [] => 0 | Close :: t => S (count_close t) | _ :: t => count_close t end.

(** The closes a thread is sure to make; a stop that has not begun makes one
    more when it is the first. *)
Definition will_close (t : list action) : nat :=
  match t with Exchange :: t => pred (count_close t) | _ => count_close t end.

(** The places a thread can be at. *)
Definition run_places : list (list action) :=
  [stop ++ join_all; [Shut; Close; Reset] ++ join_all; [Close; Reset] ++ join_all; Reset :: join_all;
   Await :: join_all; join_all; [Close; Reset]; [Reset]; []].
Definition stop_places : list (list action) := [stop; [Shut; Close; Reset]; [Close; Reset]; [Reset]; []].

Definition token (run : bool) : nat := if run then 1 else 0.

Record listening_ok (fd : Z) (s : Listening) : Prop := {
  run_at : run_thread s ∈ run_places;
  callers_at : Forall (λ t, t ∈ stop_places) (callers s);
  bounded : (length (closes s) + token (running s) + will_close (run_thread s) +
             sum_list_with will_close (callers s) ≤ 2)%nat;
  closes_fd : Forall (eq fd) (closes s);
  socket_fd : listener_socket s = None ∨ listener_socket s = Some fd;
  closed_first : listener_socket s = None → closes s ≠ [];
  reset_next : ∀ t, t = run_thread s ∨ t ∈ callers s → head t = Some Reset → closes s ≠ [];
  run_left : run_thread s = [] → listener_socket s = None;
}.

(** What an action does, for a thread at place [t] of [places]. *)
Lemma act_ok fd places l cs run a rest run' l' cs' rest' :
  (places = run_places ∨ places = stop_places) → a :: rest ∈ places →
  act run l cs a rest = Some (run', l', cs', rest') →
  Forall (eq fd) cs → l = None ∨ l = Some fd → (l = None → cs ≠ []) → (a = Reset → cs ≠ []) →
  rest' ∈ places ∧
  (length cs' + token run' + will_close rest' ≤ length cs + token run + will_close (a :: rest))%nat ∧
  Forall (eq fd) cs' ∧ (l' = None ∨ l' = Some fd) ∧ (cs ≠ [] → cs' ≠ []) ∧ (l' = None → cs' ≠ []) ∧
  (head rest' = Some Reset → cs' ≠ []) ∧ (l = None → l' = None) ∧ (places = run_places → rest' = [] → l' = None).
Proof.
  intros Hp Hin Ha Hcs Hl Hn Hr.
  assert ((length (cs ++ option_list l) ≤ S (length cs))%nat ∧ Forall (eq fd) (cs ++ option_list l) ∧ cs ++ option_list l ≠ [])
    as (Hlen & Hall & Hne).
  { destruct Hl as [->| ->]; cbn; rewrite ?app_nil_r, ?length_app; cbn; split_and!; auto; try lia.
    - apply Forall_app. by split; [|constructor].
    - by destruct cs. }
  destruct Hp as [-> | ->]; unfold run_places, stop_places, stop, join_all in *; cbn [app] in *;
    rewrite !elem_of_cons, elem_of_nil in Hin; destruct_or! Hin; try discriminate Hin;
    try done; injection Hin as -> ->; unfold act in Ha; try (destruct run; [|]); simplify_eq; cbn [token will_close count_close pred skipn] in *;
    (split; [set_solver|]); (split; [lia|]); split_and!; try done; auto.
Qed.

Lemma listening_step_ok fd s s' : listening_ok fd s → listening_step s s' → listening_ok fd s'.
Proof.
  intros [H1 H2 H3 H4 H5 H6 H7 H8] Hstep.
  destruct Hstep as [s a rest run l cs rest' Hi Ha|s i a rest run l cs rest' Hi Ha].
  - rewrite Hi in H1, H3. destruct (act_ok fd run_places _ _ _ _ _ _ _ _ _ (or_introl eq_refl) H1 Ha H4 H5 H6)
      as (Hin & Hle & Hall & Hfd & Hcs & Hn & Hr & Hl & Hend).
    { intros ->. apply (H7 (run_thread s)); [by left|by rewrite Hi]. }
    split; cbn [running listener_socket closes run_thread callers]; try done; [lia| |by apply Hend].
    intros t [->|Ht] Hh; [by apply Hr|]. apply Hcs. apply (H7 t); [by right|done].
  - pose proof (proj1 (Forall_lookup _ _) H2 i _ Hi) as Hat. cbv beta in Hat.
    destruct (act_ok fd stop_places _ _ _ _ _ _ _ _ _ (or_intror eq_refl) Hat Ha H4 H5 H6)
      as (Hin & Hle & Hall & Hfd & Hcs & Hn & Hr & Hl & _).
    { intros ->. apply (H7 (Reset :: rest)); [right; by eapply list_elem_of_lookup_2|done]. }
    pose proof (sum_list_with_insert will_close _ i _ rest' Hi) as Hw.
    split; cbn [running listener_socket closes run_thread callers]; try done.
    + by apply Forall_insert.
    + lia.
    + intros t [->|Ht] Hh; [apply Hcs; apply (H7 (run_thread s)); [by left|done]|].
      apply list_elem_of_lookup in Ht as [j Hj]. apply list_lookup_insert_Some in Hj as [(_ & <- & _)|[_ Hj]]; [by apply Hr|].
      apply Hcs, (H7 t); [right; by eapply list_elem_of_lookup_2|done].
    + intros Hr'. by apply Hl, H8.
Qed.

Lemma listening_start_ok fd exception n : listening_ok fd (listening fd exception n).
Proof.
  split; cbn [listening running listener_socket closes run_thread callers]; try done.
  - destruct exception; cbn; set_solver.
  - apply Forall_replicate. cbn. set_solver.
  - assert (sum_list_with will_close (replicate n stop) = 0%nat) as -> by (induction n; [done|cbn in *; lia]).
    by destruct exception; cbn; lia.
  - by right.
  - intros t [->|Ht] Hh; [by destruct exception|]. apply elem_of_replicate in Ht as [-> _]. done.
  - by destruct exception.
Qed.

(** *** Without overlap *)

(** No call of [stop] by another thread is under way. *)
Definition idle (t : list action) : Prop := t = stop ∨ t = [].

(** The thread of [run] closes nothing while another thread's [stop] does. *)
Definition orderly_step (s s' : Listening) : Prop :=
  listening_step s s' ∧ (run_thread s' ≠ run_thread s → Forall idle (callers s)).

(** How far the one thread that closes the listener is. *)
Inductive orderly (fd : Z) : Listening → Prop :=
| orderly_open run cls :
    run = stop ++ join_all ∨ run = Await :: join_all → Forall (eq stop) cls →
    orderly fd (mkListening true (Some fd) [] run cls)
| orderly_stop run cls i t :
    run = stop ++ join_all ∨ run = Await :: join_all → cls !! i = Some t → Forall idle (<[i := []]> cls) →
    t = [Shut; Close; Reset] ∨ t = [Close; Reset] → orderly fd (mkListening false (Some fd) [] run cls)
| orderly_stop_reset run cls i :
    run = stop ++ join_all ∨ run = Await :: join_all → cls !! i = Some [Reset] → Forall idle (<[i := []]> cls) →
    orderly fd (mkListening false (Some fd) [fd] run cls)
| orderly_run run cls :
    run = [Shut; Close; Reset] ++ join_all ∨ run = [Close; Reset] ++ join_all → Forall idle cls →
    orderly fd (mkListening false (Some fd) [] run cls)
| orderly_run_reset cls :
    Forall idle cls → orderly fd (mkListening false (Some fd) [fd] (Reset :: join_all) cls)
| orderly_closed run cls :
    run ∈ run_places → Forall idle cls → orderly fd (mkListening false None [fd] run cls).

(** A thread that begins [stop] when [running_] is false does nothing. *)
Lemma idle_skips cls i a rest run fd cs rest' fd' cs' :
  Forall idle cls → cls !! i = Some (a :: rest) → act false fd cs a rest = Some (run, fd', cs', rest') →
  run = false ∧ fd' = fd ∧ cs' = cs ∧ rest' = [] ∧ Forall idle (<[i := rest']> cls).
Proof.
  intros Hall Hi Ha. destruct (Forall_lookup_1 _ _ _ _ Hall Hi) as [[= -> ->]|]; [|done].
  cbn in Ha. simplify_eq. split_and!; try done. apply Forall_insert; [done|by right].
Qed.

Lemma not_busy cls i a t : cls !! i = Some (a :: t) → (a :: t) ≠ stop → ¬ Forall idle cls.
Proof. intros Hi Ht Hall. by destruct (Forall_lookup_1 _ _ _ _ Hall Hi). Qed.

(** The thread of [run] with the listener closed. *)
Lemma closed_run_step fd a rest run fd' cs rest' :
  a :: rest ∈ run_places → act false None [fd] a rest = Some (run, fd', cs, rest') →
  run = false ∧ fd' = None ∧ cs = [fd] ∧ rest' ∈ run_places.
Proof.
  unfold run_places, stop, join_all. cbn [app]. rewrite !elem_of_cons, elem_of_nil. intros Hin Ha.
  destruct_or! Hin; try discriminate Hin; try done; injection Hin as -> ->; cbn in Ha; simplify_eq; set_solver.
Qed.

Lemma orderly_caller fd s i a rest run l cs rest' :
  orderly fd s → callers s !! i = Some (a :: rest) →
  act (running s) (listener_socket s) (closes s) a rest = Some (run, l, cs, rest') →
  orderly fd (mkListening run l cs (run_thread s) (<[i := rest']> (callers s))).
Proof.
  assert (∀ (cls : list (list action)) j t, cls !! j = Some t → i ≠ j → <[i := rest']> cls !! j = Some t) as Hother
    by (intros; by rewrite list_lookup_insert_ne).
  intros Ho Hi Ha. destruct Ho as [rn cls Hr Hall|rn cls j t Hr Hj Hall Ht|rn cls j Hr Hj Hall|rn cls Hr Hall|cls Hall|rn cls Hr Hall];
    cbn [running listener_socket closes run_thread callers] in *.
  - pose proof (Forall_lookup_1 _ _ _ _ Hall Hi) as E. injection E as <- <-. cbn in Ha. simplify_eq.
    apply (orderly_stop _ _ _ i [Shut; Close; Reset]); [done|apply list_lookup_insert_eq; by eapply lookup_lt_Some| |by left].
    rewrite list_insert_insert_eq. apply Forall_insert; [|by right]. eapply List.Forall_impl; [|exact Hall]. intros t <-. by left.
  - destruct (decide (i = j)) as [<-|Hne].
    + rewrite Hi in Hj. injection Hj as <-. destruct Ht as [[= -> ->]|[= -> ->]]; cbn in Ha; simplify_eq.
      * apply (orderly_stop _ _ _ i [Close; Reset]); [done|apply list_lookup_insert_eq; by eapply lookup_lt_Some| |by right].
        by rewrite list_insert_insert_eq.
      * apply (orderly_stop_reset _ _ _ i); [done|apply list_lookup_insert_eq; by eapply lookup_lt_Some|].
        by rewrite list_insert_insert_eq.
    + destruct (idle_skips (<[j := []]> cls) i a rest run (Some fd) [] rest' l cs) as (-> & -> & -> & -> & Hall');
        [done|by rewrite list_lookup_insert_ne|done|].
      apply (orderly_stop _ _ _ j t); [done|by apply Hother| |done]. by rewrite list_insert_insert_ne.
  - destruct (decide (i = j)) as [<-|Hne].
    + rewrite Hi in Hj. injection Hj as -> ->. cbn in Ha. simplify_eq. apply orderly_closed; [|done].
      unfold run_places. set_solver.
    + destruct (idle_skips (<[j := []]> cls) i a rest run (Some fd) [fd] rest' l cs) as (-> & -> & -> & -> & Hall');
        [done|by rewrite list_lookup_insert_ne|done|].
      apply (orderly_stop_reset _ _ _ j); [done|by apply Hother|]. by rewrite list_insert_insert_ne.
  - destruct (idle_skips _ _ _ _ _ _ _ _ _ _ Hall Hi Ha) as (-> & -> & -> & _ & ?). by apply orderly_run.
  - destruct (idle_skips _ _ _ _ _ _ _ _ _ _ Hall Hi Ha) as (-> & -> & -> & _ & ?). by apply orderly_run_reset.
  - destruct (idle_skips _ _ _ _ _ _ _ _ _ _ Hall Hi Ha) as (-> & -> & -> & _ & ?). by apply orderly_closed.
Qed.

Lemma orderly_runs fd s a rest run l cs rest' :
  orderly fd s → run_thread s = a :: rest → Forall idle (callers s) →
  act (running s) (listener_socket s) (closes s) a rest = Some (run, l, cs, rest') →
  orderly fd (mkListening run l cs rest' (callers s)).
Proof.
  intros Ho Hi Hidle Ha. destruct Ho as [rn cls Hr Hall|rn cls j t Hr Hj Hall Ht|rn cls j Hr Hj Hall|rn cls Hr Hall|cls Hall|rn cls Hr Hall];
    cbn [running listener_socket closes run_thread callers] in *.
  - destruct Hr as [->| ->]; injection Hi as <- <-; cbn in Ha; simplify_eq. apply orderly_run; [by left|done].
  - exfalso. destruct Ht as [->| ->]; by eapply not_busy.
  - exfalso. by eapply not_busy.
  - destruct Hr as [->| ->]; injection Hi as <- <-; cbn in Ha; simplify_eq; [apply orderly_run; [by right|done]|].
    by apply orderly_run_reset.
  - injection Hi as <- <-. cbn in Ha. simplify_eq. apply orderly_closed; [|done]. unfold run_places. set_solver.
  - rewrite Hi in Hr. destruct (closed_run_step fd a rest run l cs rest' Hr Ha) as (-> & -> & -> & ?). by apply orderly_closed.
Qed.

Lemma orderly_kept fd s s' : orderly fd s → orderly_step s s' → orderly fd s'.
Proof.
  intros Ho [Hstep Hidle]. destruct Hstep as [s a rest run l cs rest' Hi Ha|s i a rest run l cs rest' Hi Ha].
  - eapply orderly_runs; [exact Ho|exact Hi| |exact Ha]. apply Hidle. cbn [run_thread]. rewrite Hi. intros E.
    apply (f_equal length) in E. revert E. unfold act in Ha.
    destruct a; [destruct (running s)|destruct (running s)|..]; simplify_eq; rewrite ?length_skipn; cbn [length]; lia.
  - by eapply orderly_caller.
Qed.

(** C15: The listener is closed when [run] has returned, whatever the
    interleaving of [run] with any number of calls of [stop]: exactly once where
    the thread of [run] does not go on while another thread is inside [stop],
    and at most twice otherwise.  The descriptor closed is always the
    listener's number; that the second close can hit a descriptor which another
    part of the process has got meanwhile is not excluded. *)
Theorem listener_closed fd exception n s :
  (rtc orderly_step (listening fd exception n) s →
   (length (closes s) ≤ 1)%nat ∧ (run_thread s = [] → closes s = [fd] ∧ listener_socket s = None)) ∧
  (rtc listening_step (listening fd exception n) s →
   closes s = replicate (length (closes s)) fd ∧ (length (closes s) ≤ 2)%nat ∧
   (run_thread s = [] → listener_socket s = None ∧ (1 ≤ length (closes s))%nat)).
Proof.
  split.
  - intros Hreach. assert (orderly fd s) as Ho.
    { eapply rtc_invariant; [apply orderly_kept| |exact Hreach]. apply orderly_open; [by destruct exception; [left|right]|].
      by apply Forall_replicate. }
    destruct Ho as [rn cls Hr _|rn cls j t Hr _ _ _|rn cls j Hr _ _|rn cls Hr _|cls _|rn cls _ _]; cbn; (split; [lia|]); try done;
      intros E; rewrite E in Hr; by destruct Hr.
  - intros Hreach. assert (listening_ok fd s) as [H1 H2 H3 H4 H5 H6 H7 H8].
    { eapply rtc_invariant; [apply listening_step_ok|apply listening_start_ok|exact Hreach]. }
    split; [symmetry; by apply replicate_as_Forall|]. split; [lia|]. intros Hend. specialize (H8 Hend).
    split; [done|]. specialize (H6 H8). destruct (closes s); [done|cbn; lia].
Qed.

(** A call of [stop] by another thread, and then the end of [run]. *)
Lemma listener_closed_witness :
  ∃ s, rtc orderly_step (listening 5 false 1) s ∧ listener_socket s = None ∧ closes s = [5].
Proof.
  assert (∃ s, rtc orderly_step (listening 5 false 1) s ∧ run_thread s = []) as (s & Hreach & Hend).
  { eexists. split.
    - do 4 (eapply rtc_l; [split; [eapply (step_caller _ 0); reflexivity|done]|]).
      do 4 (eapply rtc_l; [split; [eapply step_run; reflexivity|intros _; constructor; [by right|constructor]]|]).
      apply rtc_refl.
    - done. }
  destruct (listener_closed 5 false 1 s) as [Hord _]. destruct (Hord Hreach) as [_ Hclosed].
  destruct (Hclosed Hend) as [Hcs Hl]. by exists s.
Defined.

(** When a caller of [stop] is past its [close] and has not reset
    [listener_socket_], the thread of [run] closes the descriptor again. *)
Lemma listener_closed_twice :
  ∃ s, rtc listening_step (listening 5 false 1) s ∧ closes s = [5; 5] ∧ listener_socket s = Some 5.
Proof.
  eexists. split.
  - do 3 (eapply rtc_l; [eapply (step_caller _ 0); reflexivity|]).
    do 3 (eapply rtc_l; [eapply step_run; reflexivity|]). apply rtc_refl.
  - by split.
Qed.
