(* ===== verification/BrokerEndToEnd.v ===== *)
(** * A client of the broker, from its requests to its responses

    The composition of BrokerProtocol (the client's frames), BrokerServer (its
    session) and BrokerService (what answers a request).  The server's part is
    proved against what it needs of whatever answers its jobs, the interface
    [Answering]; the broker service discharges it.  The client is the one of
    the protocol's own functions: it frames what [encode_request_frame]
    returns and gives the frames it receives to [decode_response_frame]. *)

From S2P Require Import Prelude HostBytes Wire BackendDispatch BrokerProtocol Brk2Protocol NvlinkPlacement WasmCodec Ieee AdiServer WasmManager BrokerService Sockets BrokerServer.

(** ** What a session needs of the service *)

(** An answer carries its request's identifier, and a latency that the
    member's type can hold. *)
Class Answering (answers : Job → BrokerResponse → Prop) : Prop := answering job r :
  answers job r → resp_task_id r = req_task_id (job_request job) ∧ is_uint 64 (resp_latency_ms r).

(** The answers of the broker service, in any state it can be in and with
    anything the other requests do in the meantime. *)
Definition service_answers (h : endian) (gpu_compute : list Z → Z → result (list Z)) (nan : Z → Z → Z)
    (n : Z) (job : Job) (r : BrokerResponse) : Prop :=
  ∃ s e s', ready gpu_compute n s ∧ env_ok n (cfg_max_inflight_per_gpu (config s)) e ∧
    handle_request h gpu_compute nan s e (job_request job) = Ok (r, s').

Lemma handle_request_latency h gpu_compute nan s e req r s' :
  handle_request h gpu_compute nan s e req = Ok (r, s') → is_uint 64 (resp_latency_ms r).
Proof.
  assert (∀ x, is_uint 64 (resp_latency_ms (finish_response e req x))) as Hfin.
  { intros x. unfold finish_response. destruct (_ <=? _); apply Z.mod_pos_bound; lia. }
  unfold handle_request. destruct (validate_request _ _); [|by intros [= <- <-]|done..].
  destruct (_ && _); [by intros [= <- <-]|].
  intros E. apply rbind_Ok in E as ([x s1] & _ & [= <- <-]). apply Hfin.
Qed.

#[export] Instance service_answering h gpu_compute nan n :
  (∀ input gpu, safe (gpu_compute input gpu)) → Answering (service_answers h gpu_compute nan n).
Proof.
  intros Hgpu job r (s & e & s' & ((tasks & Hok) & Hman & Hmax & Hk) & [Hint Htask] & E).
  split; [|by eapply handle_request_latency].
  destruct (request_served h gpu_compute nan n tasks s e (job_request job)) as (r' & s1 & E' & Hid & _);
    [done..|]. congruence.
Qed.

(** ** What leaves the server *)

(** What a write of a body can leave on the connection: a part of its length
    and a part of the body. *)
Definition piece_of (body piece : bytes) : Prop :=
  ∃ k l, piece = firstn k (store_be 4 (zlen body)) ++ firstn l body.

Lemma piece_prefix body k : piece_of body (firstn k (store_be 4 (zlen body))).
Proof. exists k, 0%nat. by rewrite app_nil_r. Qed.

Lemma send_response_piece h o body ok o' :
  send_response h o body = Ok (ok, o') → zlen body ≤ u32_max →
  ∃ piece, piece_of body piece ∧ sent o' = sent o ++ piece.
Proof.
  intros E Hb. unfold send_response in E. rewrite length_prefix_be in E by done.
  destruct (write_exact_ok o (store_be 4 (zlen body))) as (ok1 & o1 & k & E1 & Hs & _).
  rewrite E1, rbind_ret in E. destruct ok1; [|injection E as <- <-; eexists; split; [apply piece_prefix|exact Hs]].
  destruct (write_exact_ok o1 body) as (ok2 & o2 & l & E2 & Hs2 & _). rewrite E2 in E. injection E as <- <-.
  eexists. split; [by exists k, l|]. by rewrite Hs2, Hs, app_assoc.
Qed.

Lemma send_error_piece h o body ok o' :
  send_error h o body = Ok (ok, o') → zlen body ≤ u32_max →
  ∃ piece, piece_of body piece ∧ sent o' = sent o ++ piece.
Proof.
  intros E Hb. unfold send_error in E. rewrite length_prefix_be in E by done.
  destruct (write_exact_ok o (store_be 4 (zlen body))) as (ok1 & o1 & k & E1 & Hs & _). rewrite E1, rbind_ret in E.
  destruct (write_exact_ok o1 body) as (ok2 & o2 & l & E2 & Hs2 & _). rewrite E2, rbind_ret in E.
  injection E as <- <-. eexists. split; [by exists k, l|]. by rewrite Hs2, Hs, app_assoc.
Qed.

(** The stream is the pieces of the bodies in order; where [send] never fails,
    every write is complete. *)
Record leaving (o : Outlet) (s : Session) : Prop := {
  lv_complete : accepting o → accepting (output s) ∧ all_written s = true;
  lv_pieces : Forall (λ b, zlen b ≤ u32_max) (bodies s) →
    ∃ pieces, Forall2 piece_of (bodies s) pieces ∧ sent (output s) = sent o ++ concat pieces;
}.

(** One more body. *)
Lemma leaving_more o i o1 o2 js js' ph ph' we we' fr fr' bs aw i' body ok :
  leaving o (mkSession i o1 js ph we fr bs aw) →
  (accepting o1 → ok = true ∧ accepting o2) →
  (zlen body ≤ u32_max → ∃ piece, piece_of body piece ∧ sent o2 = sent o1 ++ piece) →
  leaving o (mkSession i' o2 js' ph' we' fr' (bs ++ [body]) (aw && ok)).
Proof.
  intros [Hc Hp] Hok Hpiece. split; cbn [output bodies all_written] in *.
  - intros Ho. destruct (Hc Ho) as [H1 ->]. destruct (Hok H1) as [-> ?]. done.
  - intros [Hbs Hb]%Forall_app. inversion Hb; subst. destruct (Hp Hbs) as (ps & Hps & Hs).
    destruct (Hpiece ltac:(done)) as (q & Hq & Hs2). exists (ps ++ [q]). split; [by apply Forall2_app; [|constructor]|].
    rewrite Hs2, Hs, concat_app. cbn [concat]. by rewrite app_nil_r, app_assoc.
Qed.

Lemma session_leaves h cfg answers o s1 s2 :
  leaving o s1 → session_step h cfg answers s1 s2 → leaving o s2.
Proof.
  intros Hl Hstep. destruct Hstep as [| ? ? o1 o2 ? ? ? ? ? body ok Hf He Hs| | | | ? o1 o2 ? ? ? ? ? ? body ok Hf Hs
    | | | ? o1 o2 ? ? ? ? ? ? ? ? body ok Ha Hb Hs| |]; try (split; [apply Hl|apply Hl]).
  1, 2: eapply leaving_more; [exact Hl| |by eapply send_error_piece];
    destruct (send_error_ok h o1 body) as (? & ? & E & _ & Hok); rewrite Hs in E; by injection E as <- <-.
  eapply leaving_more; [exact Hl| |by eapply send_response_piece].
  destruct (send_response_ok h o1 body) as (? & ? & E & _ & Hok). rewrite Hs in E. by injection E as <- <-.
Qed.

Lemma session_leaving h cfg answers i o s :
  rtc (session_step h cfg answers) (new_session i o) s → leaving o s.
Proof.
  apply rtc_invariant; [intros s1 s2; apply session_leaves|]. split; cbn [new_session output bodies all_written]; [done|].
  intros _. exists []. by rewrite app_nil_r.
Qed.

(** ** The client's view *)

Section Client.
Context (hc h : endian) (cfg : BrokerServerConfig) (answers : Job → BrokerResponse → Prop).
Context `{!Answering answers}.

Notation lim := (server_limits cfg).

(** The job the server makes of a request, and the response as it arrives. *)
Definition job_of (req : BrokerRequest) : Job := mkJob (request_on_wire req) false 0.
Definition as_received (r : BrokerResponse) : BrokerResponse :=
  mkResponse (resp_task_id r) (resp_status r) (to_signed 32 (wrap 32 (resp_selected_gpu r)))
    (resp_latency_ms r) (resp_result r) (resp_error r) BackendDispatch.Cpu false.

(** What the server may tell the client about a request. *)
Definition told (req : BrokerRequest) (r : BrokerResponse) : Prop :=
  answers (job_of req) r ∨
  r = rejection (req_task_id req) (str "too many inflight requests for client").

(** A body the client decodes, as a response to its request. *)
Definition reply_to (req : BrokerRequest) (body : bytes) : Prop :=
  ∃ r, told req r ∧ resp_task_id r = req_task_id req ∧
    decode_response_frame hc body (Some default_response) None lim = Ok (true, Some (as_received r), None).

(** A request whose response is too large for a frame. *)
Definition unanswerable (req : BrokerRequest) : Prop :=
  ∃ r, answers (job_of req) r ∧ is_ok (encode_response_frame h r lim) = false.

Definition sendable (req : BrokerRequest) : Prop := wf_request req ∧ request_fits lim req.

Lemma told_latency req r : told req r → is_uint 64 (resp_latency_ms r).
Proof. intros [Ha| ->]; [by destruct (answering _ _ Ha)|done]. Qed.

Lemma told_id req r : told req r → resp_task_id r = req_task_id req.
Proof. intros [Ha| ->]; [by destruct (answering _ _ Ha)|done]. Qed.

(** The encoder sends only what of the device fits its member. *)
Lemma encode_as_received r : encode_response_frame h r lim = encode_response_frame h (as_received r) lim.
Proof.
  unfold encode_response_frame, as_received. cbn_fields. rewrite wrap_to_signed; [done|lia|].
  apply Z.mod_pos_bound. lia.
Qed.

Context (Hframe : max_frame_bytes lim ≤ u32_max).

Lemma layout_fits_frame body l t :
  body = header_layout t ++ l → zlen body ≤ max_frame_bytes lim → fits_frame lim body.
Proof.
  intros -> Hl. unfold fits_frame. rewrite zlen_app in *. pose proof (zlen_nonneg l).
  assert (zlen (header_layout t) = 8) by (by destruct t). lia.
Qed.

Lemma reply_decodes req r body :
  told req r → encode_response_frame h r lim = Ok body → reply_to req body ∧ fits_frame lim body.
Proof.
  intros Ht. rewrite encode_as_received. pose proof (told_latency _ _ Ht).
  assert (wf_response (as_received r)) as Hwf.
  { split; [|done]. apply to_signed_range; [lia|]. apply Z.mod_pos_bound. lia. }
  rewrite encode_response_ok by done. intros [Hfit ->]. split.
  - exists r. split; [done|]. split; [by apply told_id|]. unfold decode_response_frame.
    by rewrite api_call_Ok, run_response.
  - eapply layout_fits_frame; [done|apply Hfit].
Qed.

(** ** The server's side of one request *)

Lemma request_frame req :
  sendable req →
  fits_frame lim (request_layout req) ∧
  ∀ pending, handle_frame h cfg pending (request_layout req) =
    if max_inflight_per_client cfg <=? pending
    then (body <-! encode_response_frame h
                     (rejection (req_task_id req) (str "too many inflight requests for client")) lim;;
          Ok (SendBody body))
    else Ok (Launch (job_of req)).
Proof.
  intros [Hwf Hfit]. split; [eapply layout_fits_frame; [done|apply Hfit]|].
  intros pending. unfold handle_frame, decode_frame.
  assert (is_brk2 (request_layout req) = false) as Hb by done.
  unfold early_request_id. rewrite Hb. unfold decode_request_frame. rewrite run_request by done. done.
Qed.

(** Reading the stream of the frames still to come. *)
Lemma read_next s left i s' :
  Forall (fits_frame lim) left → inbox s = concat (framed <$> left) →
  read_frame h s lim = Ok (i, s') →
  match i with
  | FrameRead f => ∃ left', left = f :: left' ∧ inbox s' = concat (framed <$> left')
  | BadLength => False
  | Gone => True
  end.
Proof.
  intros Hf Hin. unfold read_frame.
  destruct (read_exact_ok s 4) as (r & s1 & -> & H1 & _); [done|]. rewrite rbind_ret.
  destruct r as [len|]; [|by intros [= <- <-]]. destruct (H1 len eq_refl) as (Hlen & Hin1 & _).
  destruct left as [|f left].
  { rewrite Hin in Hin1. cbn in Hin1. symmetry in Hin1. apply app_eq_nil in Hin1 as [-> _]. done. }
  inversion Hf as [|? ? [Hb Hmax] Hfs]; subst. rewrite Hin, fmap_cons in Hin1. cbn [concat] in Hin1.
  unfold framed at 1 in Hin1. rewrite <- app_assoc in Hin1.
  apply app_inj_1 in Hin1 as [<- Hin1]; [|rewrite length_store_be; unfold zlen in Hlen; lia].
  unfold ntohl. rewrite hton_mem_load_z by apply zlen_store_be.
  rewrite load_store_be_uint by (unfold is_uint, u32_max in *; lia).
  destruct (Z.eqb_spec (zlen f) 0); [lia|]. destruct (Z.ltb_spec (max_frame_bytes lim) (zlen f)); [lia|].
  cbn [orb]. destruct (read_exact_ok s1 (zlen f)) as (r & s2 & -> & H2 & _); [apply zlen_nonneg|].
  rewrite rbind_ret. intros [= <- <-]. destruct r as [frame|]; [|done].
  destruct (H2 frame eq_refl) as (Hl2 & Hin2 & _). rewrite <- Hin1 in Hin2.
  apply app_inj_1 in Hin2 as [<- Hin2]; [|unfold zlen in Hl2; lia]. by exists left.
Qed.

(** ** The session's account of its requests *)

(** Every request of the client is in one place: answered by one of the
    bodies, with a running job, in the reader's hands, lost, or still on the
    network.  [held] has at most one entry. *)
Record serving (reqs : list BrokerRequest) (s : Session) (done pend held lost left : list BrokerRequest)
    : Prop := {
  sv_read : ∃ read, reqs = read ++ left ∧ frames_read s = request_layout <$> read ∧
              done ++ pend ++ held ++ lost ≡ₚ read;
  sv_bodies : Forall2 reply_to done (bodies s);
  sv_fits : Forall (fits_frame lim) (bodies s);
  sv_jobs : reap_finished (jobs s) = (λ req, (job_of req, false)) <$> pend;
  sv_held : match at_phase s with
            | Holding f => ∃ req, held = [req] ∧ f = request_layout req
            | _ => held = []
            end;
  sv_lost : Forall (λ req, at_phase s = Closing ∨ unanswerable req) lost;
  sv_input : at_phase s ≠ Closing → inbox (input s) = concat (framed <$> (request_layout <$> left));
  sv_writes : writes_enabled s = false → at_phase s = Closing;
}.

Definition served (reqs : list BrokerRequest) (s : Session) : Prop :=
  ∃ done pend held lost left, serving reqs s done pend held lost left.

Lemma reap_twice l : reap_finished (reap_finished l) = reap_finished l.
Proof. unfold reap_finished. rewrite list_filter_filter. apply list_filter_iff. intros x. tauto. Qed.

Lemma reap_app l1 l2 : reap_finished (l1 ++ l2) = reap_finished l1 ++ reap_finished l2.
Proof. apply filter_app. Qed.

(** A running job is one of the account's, and its end takes it out. *)
Lemma job_ends j1 j2 job pend :
  reap_finished (j1 ++ (job, false) :: j2) = (λ req, (job_of req, false)) <$> pend →
  ∃ p1 req p2, pend = p1 ++ req :: p2 ∧ job = job_of req ∧
    reap_finished (j1 ++ (job, true) :: j2) = (λ req, (job_of req, false)) <$> p1 ++ p2.
Proof.
  rewrite !reap_app. change (reap_finished ((job, false) :: j2)) with ((job, false) :: reap_finished j2).
  change (reap_finished ((job, true) :: j2)) with (reap_finished j2). intros E. symmetry in E.
  apply fmap_app_inv in E as (p1 & p2 & E1 & E2 & ->). symmetry in E2.
  apply fmap_cons_inv in E2 as (req & p3 & [= ->] & E3 & ->). exists p1, req, p3.
  rewrite fmap_app. split; [done|]. split; [done|]. by f_equal.
Qed.

Lemma lost_more (ph ph' : phase) lost :
  Forall (λ req, ph = Closing ∨ unanswerable req) lost → (ph = Closing → ph' = Closing) →
  Forall (λ req, ph' = Closing ∨ unanswerable req) lost.
Proof. intros Hl Hph. eapply List.Forall_impl; [|exact Hl]. intros req [?|?]; auto. Qed.

(** The sessions the account does not distinguish: the reader's phase moves
    to [Reading] or [Closing], and what it reads is nothing more of the account. *)
Lemma reader_idles reqs i i' o js js' ph ph' we we' fr bs aw aw' o' dn pd ls lf :
  serving reqs (mkSession i o js ph we fr bs aw) dn pd [] ls lf →
  reap_finished js' = reap_finished js → ph' = Closing ∨ (ph' = ph ∧ i' = i) →
  (∀ f, ph' ≠ Holding f) → (we' = false → ph' = Closing) → 
  serving reqs (mkSession i' o' js' ph' we' fr bs aw') dn pd [] ls lf.
Proof.
  intros [Hread Hbod Hfits Hjobs Hheld Hlost Hin Hwe] Hj Hph Hno Hwe'.
  split; cbn [input output jobs at_phase writes_enabled frames_read bodies all_written] in *; try done.
  - by rewrite Hj.
  - destruct ph'; [done|by destruct (Hno frame)|done].
  - apply (lost_more _ _ _ Hlost). destruct Hph as [?|[-> _]]; auto.
  - destruct Hph as [?|[-> ->]]; [done|exact Hin].
Qed.

Ltac serve := split; cbn [input output jobs at_phase writes_enabled frames_read bodies all_written] in *.

(** The reader reads the next request of the client. *)
Lemma frame_serves reqs i i' o js ph we fr bs aw dn pd ls lf frame :
  serving reqs (mkSession i o js Reading we fr bs aw) dn pd [] ls lf →
  Forall (fits_frame lim) (request_layout <$> lf) →
  read_frame h i lim = Ok (ph, i') → ph = FrameRead frame →
  served reqs (mkSession i' o (reap_finished js) (Holding frame) we (fr ++ [frame]) bs aw).
Proof.
  intros [Hread Hbod Hfits Hjobs Hheld Hlost Hin Hwe] Hleft Hf ->.
  cbn [input output jobs at_phase writes_enabled frames_read bodies all_written] in *.
  destruct (read_next _ _ _ _ Hleft (Hin ltac:(done)) Hf) as (lf' & E & Hin').
  apply fmap_cons_inv in E as (req & lf2 & -> & -> & ->).
  exists dn, pd, [req], ls, lf2. serve; try done.
  - destruct Hread as (read & -> & -> & Hp). exists (read ++ [req]). rewrite fmap_app, <- app_assoc.
    split; [done|]. split; [done|]. rewrite <- Hp. solve_Permutation.
  - by rewrite reap_twice.
  - by exists req.
  - by apply (lost_more _ _ _ Hlost).
  - intros E. by specialize (Hwe E).
Qed.

(** The reader starts the job of the request in its hands. *)
Lemma launch_serves reqs i o js we fr bs aw dn pd ls lf req f :
  serving reqs (mkSession i o js (Holding f) we fr bs aw) dn pd [req] ls lf →
  served reqs (mkSession i o (js ++ [(job_of req, false)]) Reading we fr bs aw).
Proof.
  intros [Hread Hbod Hfits Hjobs Hheld Hlost Hin Hwe].
  cbn [input output jobs at_phase writes_enabled frames_read bodies all_written] in *.
  exists dn, (pd ++ [req]), [], ls, lf. serve; try done.
  - destruct Hread as (read & -> & -> & Hp). exists read. split; [done|]. split; [done|].
    rewrite <- Hp. solve_Permutation.
  - by rewrite reap_app, fmap_app, Hjobs.
  - by apply (lost_more _ _ _ Hlost).
  - intros _. by apply Hin.
  - intros Hw. by specialize (Hwe Hw).
Qed.

(** A body leaves, for a request that waited in the reader's hands or in a
    job; what the account has left of it is [pd'] and [hd']. *)
Lemma body_serves reqs i o o' js js' ph ph' we fr bs aw aw' dn pd pd' hd hd' ls lf req body :
  serving reqs (mkSession i o js ph we fr bs aw) dn pd hd ls lf →
  reply_to req body ∧ fits_frame lim body →
  req :: pd' ++ hd' ≡ₚ pd ++ hd →
  reap_finished js' = (λ req, (job_of req, false)) <$> pd' →
  (ph' = ph ∧ hd' = hd) ∨ (ph' = Reading ∧ (∃ f, ph = Holding f) ∧ hd' = []) →
  served reqs (mkSession i o' js' ph' we fr (bs ++ [body]) aw').
Proof.
  intros [Hread Hbod Hfits Hjobs Hheld Hlost Hin Hwe] [Hr Hfit] Hp Hj Hph.
  cbn [input output jobs at_phase writes_enabled frames_read bodies all_written] in *.
  exists (dn ++ [req]), pd', hd', ls, lf. serve; try done.
  - destruct Hread as (read & -> & -> & Hp'). exists read. split; [done|]. split; [done|].
    rewrite <- Hp', !app_assoc, <- (app_assoc dn pd hd), <- Hp. solve_Permutation.
  - apply Forall2_app; [done|]. by constructor; [|constructor].
  - apply Forall_app. split; [done|]. by apply Forall_singleton.
  - by destruct Hph as [[-> ->]|(-> & _ & ->)].
  - apply (lost_more _ _ _ Hlost). destruct Hph as [[-> _]|(-> & [f ->] & _)]; done.
  - destruct Hph as [[-> _]|(-> & [f ->] & _)]; [done|]. intros _. by apply Hin.
  - intros Hw. specialize (Hwe Hw). by destruct Hph as [[-> _]|(-> & [f ->] & _)].
Qed.

(** A request is lost: its response cannot be encoded, or the session ends. *)
Lemma loss_serves reqs i o js js' ph ph' we fr bs aw dn pd pd' hd hd' ls lf req :
  serving reqs (mkSession i o js ph we fr bs aw) dn pd hd ls lf →
  ph' = Closing ∨ unanswerable req →
  req :: pd' ++ hd' ≡ₚ pd ++ hd →
  reap_finished js' = (λ req, (job_of req, false)) <$> pd' →
  (ph' = ph ∧ hd' = hd) ∨ (ph' = Closing ∧ hd' = []) →
  served reqs (mkSession i o js' ph' we fr bs aw).
Proof.
  intros [Hread Hbod Hfits Hjobs Hheld Hlost Hin Hwe] Hreq Hp Hj Hph.
  cbn [input output jobs at_phase writes_enabled frames_read bodies all_written] in *.
  exists dn, pd', hd', (req :: ls), lf. serve; try done.
  - destruct Hread as (read & -> & -> & Hp'). exists read. split; [done|]. split; [done|].
    rewrite <- Hp', (app_assoc pd hd), <- Hp. solve_Permutation.
  - by destruct Hph as [[-> ->]|[-> ->]].
  - constructor; [done|]. apply (lost_more _ _ _ Hlost). destruct Hph as [[-> _]|[-> _]]; done.
  - destruct Hph as [[-> _]|[-> _]]; done.
  - intros Hw. specialize (Hwe Hw). by destruct Hph as [[-> _]|[-> _]].
Qed.

Lemma step_serves reqs s s' :
  Forall sendable reqs → served reqs s → session_step h cfg answers s s' → served reqs s'.
Proof.
  intros Hreqs (dn & pd & hd & ls & lf & Hserve) Hstep.
  pose proof Hserve as [Hread Hbod Hfits Hjobs Hheld Hlost Hin Hwe].
  assert (Forall (fits_frame lim) (request_layout <$> lf)) as Hleft.
  { destruct Hread as (read & -> & _). apply Forall_app in Hreqs as [_ Hl]. apply Forall_fmap.
    eapply List.Forall_impl; [|exact Hl]. intros req Hs. by apply request_frame. }
  assert (∀ req, req ∈ hd → sendable req) as Hhd.
  { destruct Hread as (read & -> & _ & Hp). apply Forall_app in Hreqs as [Hr _].
    rewrite <- Hp, !Forall_app in Hr. apply Forall_forall, Hr. }
  destruct Hstep as [i i' o js we fr bs aw frame Hf|i i' o o' js we fr bs aw body ok Hf _ _
    |i i' o js we fr bs aw what Hf _|i o js we fr bs aw|i i' o js we fr bs aw Hf
    |i o o' js we fr bs aw frame body ok Hf Hs|i o js we fr bs aw frame job Hf|i o js we fr bs aw frame what Hf
    |i o o' j1 j2 job ph fr bs aw r body ok Ha Hb Hs|i o j1 j2 job ph we fr bs aw r Ha Hb|i o js fr bs aw];
    cbn [input output jobs at_phase writes_enabled frames_read bodies all_written] in *.
  - subst hd. by eapply frame_serves.
  - by apply (read_next _ _ _ _ Hleft (Hin ltac:(done))) in Hf.
  - by apply (read_next _ _ _ _ Hleft (Hin ltac:(done))) in Hf.
  - subst hd. exists dn, pd, [], ls, lf. eapply reader_idles; [exact Hserve|done|by left|done|done].
  - subst hd. exists dn, pd, [], ls, lf. eapply reader_idles; [exact Hserve|by rewrite reap_twice|by left|done|done].
  - destruct Hheld as (req & -> & ->). 
    destruct (request_frame req (Hhd req ltac:(set_solver))) as [_ E]. rewrite E in Hf.
    destruct (_ <=? _); [|done]. apply rbind_Ok in Hf as (b & Hb & [= ->]).
    eapply (body_serves _ _ _ _ _ _ _ _ _ _ _ _ _ _ _ pd _ []); [exact Hserve|
      exact (reply_decodes req _ _ (or_intror eq_refl) Hb)| |done|right; eauto].
    solve_Permutation.
  - destruct Hheld as (req & -> & ->).
    destruct (request_frame req (Hhd req ltac:(set_solver))) as [_ E]. rewrite E in Hf.
    destruct (_ <=? _); [by apply rbind_Ok in Hf as (b & _ & ?)|]. injection Hf as <-.
    by eapply launch_serves.
  - destruct Hheld as (req & -> & ->).
    eapply (loss_serves _ _ _ _ _ _ _ _ _ _ _ _ _ pd _ []); [exact Hserve|by left| |done|by right].
    solve_Permutation.
  - destruct (job_ends _ _ _ _ Hjobs) as (p1 & req & p2 & -> & -> & Hj).
    eapply body_serves; [exact Hserve|exact (reply_decodes req _ _ (or_introl Ha) Hb)| |exact Hj|by left].
    solve_Permutation.
  - destruct (job_ends _ _ _ _ Hjobs) as (p1 & req & p2 & -> & -> & Hj).
    eapply loss_serves; [exact Hserve| | |exact Hj|by left].
    + destruct Hb as [Hw|Hb]; [left; by apply Hwe|right; by exists r].
    + solve_Permutation.
  - subst hd. exists dn, pd, [], ls, lf. eapply reader_idles; [exact Hserve|done|by left|done|done].
Qed.

Lemma start_serves reqs i o :
  inbox i = concat (framed <$> (request_layout <$> reqs)) → served reqs (new_session i o).
Proof.
  intros Hin. exists [], [], [], [], reqs. unfold new_session. serve; try done; try constructor.
  by exists [].
Qed.

Lemma session_serves reqs i o s :
  Forall sendable reqs → inbox i = concat (framed <$> (request_layout <$> reqs)) →
  rtc (session_step h cfg answers) (new_session i o) s → served reqs s.
Proof.
  intros Hreqs Hin. apply rtc_invariant; [|by apply start_serves]. intros s1 s2. by apply step_serves.
Qed.

(** What the client reads back is the bodies. *)
Lemma client_reads i o s c :
  0 < max_inflight_per_client cfg →
  rtc (session_step h cfg answers) (new_session i o) s → sent o = [] →
  Forall (fits_frame lim) (bodies s) → all_written s = true → intact c → inbox c = sent (output s) →
  ∃ c', read_frames hc (length (bodies s)) c lim = Ok (bodies s, c') ∧ inbox c' = [].
Proof.
  intros Hmax Hr Ho Hfits Hall Hc Hin.
  destruct (reachable_ok h cfg answers i o s Hmax Hr) as [_ _ _ _ _ Hout].
  rewrite Hout, Ho in Hin; [|done|by eapply List.Forall_impl; [|exact Hfits]; intros b [_ ?]].
  destruct (read_frames_app hc lim (bodies s) [] c Hc Hfits) as (c' & E & Hc' & _);
    [by rewrite app_nil_r|]. by exists c'.
Qed.

End Client.

(** ** The broker and its client *)

Section EndToEnd.
Context (hc h : endian) (gpu_compute : list Z → Z → result (list Z)) (nan : Z → Z → Z) (n : Z).
Context (cfg : BrokerServerConfig).

Notation lim := (server_limits cfg).
Notation answers := (service_answers h gpu_compute nan n).

Lemma encoded_requests reqs frames :
  Forall wf_request reqs → Forall2 (λ req f, encode_request_frame hc req lim = Ok f) reqs frames →
  frames = request_layout <$> reqs ∧ Forall (sendable cfg) reqs.
Proof.
  intros Hwf Henc. induction Henc as [|req f reqs frames E _ IH]; [done|].
  apply Forall_cons in Hwf as [Hr Hwf]. apply encode_request_ok in E as [Hfit ->]; [|done].
  destruct (IH Hwf) as [-> Hs]. split; [done|]. by constructor.
Qed.

(** C1: from the client's requests to its responses, across hosts of either
    byte order, every chunking of the network and every interleaving of the
    session's threads with each other and with the service's other clients:
    each request the client encodes is accounted for exactly once: one body was
    issued for it, or it is running, in the reader's hands, lost or not yet
    read.  Every issued body decodes to the service's answer to its own request,
    or to the rejection of one too many; a request is lost only to the end of the
    session or because the answer does not fit a frame.  Issued is not received:
    what arrives at the client is, body by body, a part of the length followed by
    a part of the body, so a failed write can leave the middle of the stream
    broken.  Where [send] never fails every write is complete, and where every
    write is complete the client reads back exactly the issued bodies. *)
Theorem requests_answered_once reqs frames i o s :
  (∀ input gpu, safe (gpu_compute input gpu)) →
  0 < max_inflight_per_client cfg → max_frame_bytes lim ≤ u32_max →
  Forall wf_request reqs → Forall2 (λ req f, encode_request_frame hc req lim = Ok f) reqs frames →
  inbox i = concat (framed <$> frames) → sent o = [] →
  rtc (session_step h cfg answers) (new_session i o) s →
  ∃ read waiting issued running held lost,
    reqs = read ++ waiting ∧ Forall2 (λ req f, encode_request_frame hc req lim = Ok f) read (frames_read s) ∧
    issued ++ running ++ held ++ lost ≡ₚ read ∧
    Forall2 (reply_to hc cfg answers) issued (bodies s) ∧
    reap_finished (jobs s) = (λ req, (job_of req, false)) <$> running ∧
    match at_phase s with Holding f => ∃ req, held = [req] ∧ f = request_layout req | _ => held = [] end ∧
    Forall (λ req, at_phase s = Closing ∨ unanswerable h cfg answers req) lost ∧
    (∃ pieces, Forall2 piece_of (bodies s) pieces ∧ sent (output s) = concat pieces) ∧
    (accepting o → all_written s = true) ∧
    (all_written s = true → ∀ c, intact c → inbox c = sent (output s) →
       ∃ c', read_frames hc (length issued) c lim = Ok (bodies s, c') ∧ inbox c' = []).
Proof.
  intros Hgpu Hmax Hframe Hwf Henc Hin Ho Hr.
  destruct (encoded_requests reqs frames Hwf Henc) as [-> Hs].
  pose proof (service_answering h gpu_compute nan n Hgpu) as Hans.
  destruct (session_serves hc h cfg answers Hframe reqs i o s Hs Hin Hr)
    as (dn & pd & hd & ls & lf & [(read & -> & Hf & Hp) Hbod Hfits Hjobs Hheld Hlost _ _]).
  exists read, lf, dn, pd, hd, ls. split; [done|]. split.
  { rewrite Hf. apply Forall2_fmap_r, Forall_Forall2_diag. apply Forall_app in Hs as [Hs _].
    eapply List.Forall_impl; [|exact Hs]. intros req [Hw Hfit]. by apply encode_request_ok. }
  destruct (session_leaving h cfg answers i o s Hr) as [Hcomp Hpieces]. rewrite Ho in Hpieces.
  split_and!; try done.
  { apply Hpieces. eapply List.Forall_impl; [|exact Hfits]. by intros b [_ ?]. }
  { intros Hacc. by destruct (Hcomp Hacc). }
  intros Hall c Hc Hcin. rewrite (Forall2_length _ _ _ Hbod).
  by apply (client_reads hc h cfg answers i o s c).
Qed.

End EndToEnd.

(** One request, cut up by the network, answered on a device. *)
Definition served_response : BrokerResponse :=
  mkResponse (str "t1") StatusOk 0 3 (encode_doubles_as_payload [0x4000000000000000]) [] BackendDispatch.Gpu false.
Definition served_body : bytes := response_layout (as_received served_response).
Definition served_end : Session :=
  mkSession (mkSocket [] []) (mkOutlet (framed served_body) []) [(sample_job, true)] Reading true
    [sample_frame] [served_body] true.

Lemma sample_answered : service_answers LittleEndian host_compute no_nan 2 sample_job served_response.
Proof.
  assert (response_of (handle_request LittleEndian host_compute no_nan sample_service (alone 0 3000000)
    sample_request) = Some served_response) as Hr by (vm_compute; reflexivity).
  destruct (handle_request _ _ _ _ _ _) as [[resp s']|msg| |] eqn:E; [|discriminate Hr..].
  injection Hr as ->. exists sample_service, (alone 0 3000000), s'. split; [|split; [|exact E]].
  - split_and!; [exists []; exact sample_service_ok| |by vm_compute|].
    + intros sel Es. split; [reflexivity|]. change (Some service_selector = Some sel) in Es. congruence.
    + split; [intros; apply default_gpu_compute_safe|done].
  - split; [apply no_interference|done].
Qed.

Lemma requests_answered_once_witness :
  ∃ answered c', Forall2 (reply_to BigEndian sample_server (service_answers LittleEndian host_compute no_nan 2))
                   answered [served_body] ∧
    read_frames BigEndian (length answered) (mkSocket (framed served_body) [Available 2; Interrupted])
      default_limits = Ok ([served_body], c').
Proof.
  assert (rtc (session_step LittleEndian sample_server (service_answers LittleEndian host_compute no_nan 2))
    (new_session sample_input sample_output) served_end) as Hr.
  { eapply rtc_l; [|eapply rtc_l; [|eapply rtc_once]].
    - apply (step_frame _ _ _ sample_input (mkSocket [] [])). vm_compute. reflexivity.
    - apply (step_launch _ _ _ (mkSocket [] []) sample_output [] true [sample_frame] [] true sample_frame
        sample_job). vm_compute. reflexivity.
    - apply (step_respond _ _ _ (mkSocket [] []) sample_output (mkOutlet (framed served_body) []) [] []
        sample_job Reading [sample_frame] [] true served_response served_body true);
        [exact sample_answered|vm_compute; reflexivity|vm_compute; reflexivity]. }
  destruct (requests_answered_once BigEndian LittleEndian host_compute no_nan 2 sample_server [sample_request]
    [sample_frame] sample_input sample_output served_end) as (_ & _ & answered & _ & _ & _ & _ & _ & _ & Ha & _ & _ & _ & _ & Hw & Hc);
    [intros; apply default_gpu_compute_safe|done|vm_compute; congruence| | |reflexivity|done|exact Hr|].
  - constructor; [split; split; done|constructor].
  - constructor; [reflexivity|constructor].
  - destruct (Hc (Hw ltac:(unfold accepting; set_solver)) (mkSocket (framed served_body) [Available 2; Interrupted])) as (c' & E & _);
      [unfold intact; set_solver|reflexivity|]. by exists answered, c'.
Defined.
