(* ===== verification/BrokerMain.v ===== *)
(** * The broker executable (src/broker_server_main.cpp)

    The command line, the choice of an NPU executor and the construction of
    the service and the server, up to the call of [run].  The message for an
    unavailable device is without the device's path; installing the signal
    handlers and printing are not modelled. *)

From S2P Require Import Prelude Numbers HostBytes Wire BackendDispatch NvlinkPlacement EthosU85 AdiServer WasmManager BrokerProtocol BrokerService BrokerServer.

(** ** The command line *)

Record Options := mkOptions {
  opt_port : Z;
  opt_service : BrokerServiceConfig;
  ethosu_bundle : bytes;
  ethosu_device : bytes;
}.

Definition default_options : Options := mkOptions 9090 default_config [] [].

Definition with_port (o : Options) (p : Z) : Options :=
  mkOptions p (opt_service o) (ethosu_bundle o) (ethosu_device o).
Definition with_bundle (o : Options) (path : bytes) : Options :=
  mkOptions (opt_port o) (opt_service o) path (ethosu_device o).
Definition with_device (o : Options) (path : bytes) : Options :=
  mkOptions (opt_port o) (opt_service o) (ethosu_bundle o) path.

(** Changes of the service's configuration. *)
Definition with_service (o : Options) (force_cpu : bool) (backend : BackendKind) (threshold : Z)
    (npu_enabled : bool) (npu : option NpuExecutor) : Options :=
  let c := opt_service o in
  mkOptions (opt_port o)
    (mkConfig (cfg_backlog_threshold c) (cfg_max_inflight_per_gpu c) force_cpu backend threshold
       (cfg_gpu_offload_threshold_flops c) npu_enabled npu (cfg_synthetic_gpu_count c)
       (cfg_gpu_compute_fn c) (cfg_simulated_latency_ms c) (cfg_protocol_limits c) (cfg_wasm_manager c))
    (ethosu_bundle o) (ethosu_device o).

Section Setters.
Context (o : Options).
Let c := opt_service o.
Definition with_cpu_only : Options :=
  with_service o true (cfg_default_backend c) (cfg_gpu_offload_threshold_bytes c) (cfg_npu_enabled c) (cfg_npu_executor c).
Definition with_backend (b : BackendKind) : Options :=
  with_service o (cfg_force_cpu_fallback c) b (cfg_gpu_offload_threshold_bytes c) (cfg_npu_enabled c) (cfg_npu_executor c).
Definition with_threshold (n : Z) : Options :=
  with_service o (cfg_force_cpu_fallback c) (cfg_default_backend c) n (cfg_npu_enabled c) (cfg_npu_executor c).
Definition with_npu_enabled : Options :=
  with_service o (cfg_force_cpu_fallback c) (cfg_default_backend c) (cfg_gpu_offload_threshold_bytes c) true (cfg_npu_executor c).
Definition with_npu (x : NpuExecutor) : Options :=
  with_service o (cfg_force_cpu_fallback c) (cfg_default_backend c) (cfg_gpu_offload_threshold_bytes c) true (Some x).
End Setters.

(** [Exits] is a return from [main] with a message on [std::cerr]; [Uncaught]
    an exception that leaves [main]. *)
Inductive main_exit := Exits (code : Z) (message : bytes) | Uncaught (what : bytes).

Inductive main_outcome := Stops (e : main_exit) | Starts (service : Service) (config : BrokerServerConfig).

Inductive parsed := Parsed (o : Options) | Stopped (e : main_exit).

Section Main.
Context (nan : Z → Z → Z).

(** An argument that is not an option with a value: a flag or the port. *)
Definition flag (arg : bytes) (o : Options) : result Options :=
  if bool_decide (arg = str "--npu-enabled") then Ok (with_npu_enabled o)
  else if bool_decide (arg = str "--npu-simulated") then Ok (with_npu o (SimulatedNpuExecutor nan true))
  else port <-! stoi arg;; Ok (with_port o port).

Definition backend_of (value : bytes) : option BackendKind :=
  if bool_decide (value = str "cpu") then Some Cpu
  else if bool_decide (value = str "gpu") then Some Gpu
  else if bool_decide (value = str "npu") then Some Npu
  else None.

Fixpoint parse_args (args : list bytes) (o : Options) : parsed :=
  match args with
  | [] => Parsed o
  | arg :: rest =>
      let otherwise :=
        match flag arg o with
        | Ok o => parse_args rest o
        | Err what => Stopped (Uncaught what)
        | _ => Stopped (Uncaught [])
        end in
      if bool_decide (arg = str "--cpu-only") then parse_args rest (with_cpu_only o)
      else
        match rest with
        | [] => otherwise
        | value :: rest =>
            if bool_decide (arg = str "--default-backend") then
              match backend_of value with
              | Some b => parse_args rest (with_backend o b)
              | None => Stopped (Exits 1 (str "Unknown backend: " ++ value))
              end
            else if bool_decide (arg = str "--gpu-offload-threshold") then
              match stoull value with
              | Ok n => parse_args rest (with_threshold o n)
              | Err what => Stopped (Uncaught what)
              | _ => Stopped (Uncaught [])
              end
            else if bool_decide (arg = str "--npu-ethosu-bundle") then parse_args rest (with_bundle o value)
            else if bool_decide (arg = str "--ethosu-device") then parse_args rest (with_device o value)
            else otherwise
        end
  end.

(** [ethosu] constructs the executor; [None] when it is not compiled in. *)
Context (ethosu : option (bytes → bytes → result NpuExecutor)).

Definition choose_npu (o : Options) : parsed :=
  if negb (bool_decide (ethosu_device o = [])) && bool_decide (ethosu_bundle o = []) then
    Stopped (Exits 1 (str "--ethosu-device requires --npu-ethosu-bundle FILE"))
  else if bool_decide (ethosu_bundle o = []) then Parsed o
  else
    match ethosu with
    | None => Stopped (Exits 1 (str "Ethos-U DRM support is not compiled in; rebuild with -DENABLE_ETHOSU_DRM=ON"))
    | Some construct =>
        match construct (ethosu_bundle o) (ethosu_device o) with
        | Ok executor =>
            if negb (available executor) then
              Stopped (Exits 1 (str "Ethos-U mainline DRM device unavailable: "))
            else Parsed (with_npu o executor)
        | Err what => Stopped (Uncaught what)
        | _ => Stopped (Uncaught [])
        end
    end.

(** The server's own members have their defaults. *)
Definition server_config (o : Options) : BrokerServerConfig :=
  mkServerConfig (opt_port o) 128 32 (cfg_protocol_limits (opt_service o)).

(** [BrokerServer]'s constructor: the service first, then the checks. *)
Definition construct_server (cuda : CudaRuntime) (o : Options) : result (Service * BrokerServerConfig) :=
  s <-! new_service cuda (opt_service o);;
  _ <-! check_config (server_config o);;
  Ok (s, server_config o).

(** [main] up to the call of [run]; [argv] has the program's name first. *)
Definition main (cuda : CudaRuntime) (argv : list bytes) : main_outcome :=
  let args := skipn 1 argv in
  if bool_decide (head args = Some (str "--help")) then Stops (Exits 0 [])
  else
    match parse_args args default_options with
    | Stopped e => Stops e
    | Parsed o =>
        match choose_npu o with
        | Stopped e => Stops e
        | Parsed o =>
            match construct_server cuda o with
            | Ok (s, cfg) => Starts s cfg
            | Err what => Stops (Exits 1 (str "Broker server failed: " ++ what))
            | _ => Stops (Uncaught [])
            end
        end
    end.

End Main.

(** ** Options *)

(** What a user can ask for on the command line. *)
Inductive option_arg :=
| CpuOnly | DefaultBackend (b : BackendKind) | OffloadThreshold (n : Z) | NpuEnabled
| NpuBundle (path : bytes) | NpuDevice (path : bytes) | NpuSimulated | Port (n : Z).

Definition backend_text (b : BackendKind) : bytes :=
  match b with Cpu => str "cpu" | Gpu => str "gpu" | Npu => str "npu" end.

Definition render (a : option_arg) : list bytes :=
  match a with
  | CpuOnly => [str "--cpu-only"]
  | DefaultBackend b => [str "--default-backend"; backend_text b]
  | OffloadThreshold n => [str "--gpu-offload-threshold"; to_string n]
  | NpuEnabled => [str "--npu-enabled"]
  | NpuBundle path => [str "--npu-ethosu-bundle"; path]
  | NpuDevice path => [str "--ethosu-device"; path]
  | NpuSimulated => [str "--npu-simulated"]
  | Port n => [to_string n]
  end.

Definition option_ok (a : option_arg) : Prop :=
  match a with OffloadThreshold n => is_uint 64 n | Port n => 0 ≤ n < 2 ^ 31 | _ => True end.

Definition apply_option (nan : Z → Z → Z) (o : Options) (a : option_arg) : Options :=
  match a with
  | CpuOnly => with_cpu_only o
  | DefaultBackend b => with_backend o b
  | OffloadThreshold n => with_threshold o n
  | NpuEnabled => with_npu_enabled o
  | NpuBundle path => with_bundle o path
  | NpuDevice path => with_device o path
  | NpuSimulated => with_npu o (SimulatedNpuExecutor nan true)
  | Port n => with_port o n
  end.

Lemma digits_no_option n (c : String.string) : 0 ≤ n →
  match c with String.String a _ => is_digit (Ascii.byte_of_ascii a) = false | _ => True end →
  to_string n ≠ str c.
Proof.
  intros Hn Hc E. destruct (to_string_digits n Hn) as [(b & rest & E' & Hb) _]. rewrite E in E'.
  destruct c as [|a c]; [done|]. apply (f_equal head) in E'. apply (inj Some) in E'. congruence.
Qed.

Lemma parse_option nan a rest o :
  option_ok a → parse_args nan (render a ++ rest) o = parse_args nan rest (apply_option nan o a).
Proof.
  intros Ha. destruct a; cbn [render app parse_args apply_option]; try reflexivity.
  - by destruct b.
  - rewrite bool_decide_eq_false_2 by done. cbv zeta.
    rewrite bool_decide_eq_false_2, bool_decide_eq_true_2 by done. by rewrite stoull_to_string.
  - by destruct rest.
  - by destruct rest.
  - unfold option_ok in Ha. assert (∀ c, match c with String.String a _ => is_digit (Ascii.byte_of_ascii a) = false | _ => True end →
      bool_decide (to_string n = str c) = false) as Hno.
    { intros c Hc. apply bool_decide_eq_false_2, digits_no_option; [lia|exact Hc]. }
    assert (flag nan (to_string n) o = Ok (with_port o n)) as Hf.
    { unfold flag. rewrite !Hno by done. by rewrite stoi_to_string. }
    rewrite !Hno by done. rewrite Hf. by destruct rest.
Qed.

Lemma parse_options nan opts : ∀ o,
  Forall option_ok opts →
  parse_args nan (concat (render <$> opts)) o = Parsed (fold_left (apply_option nan) opts o).
Proof.
  induction opts as [|a opts IH]; intros o H; [done|]. inversion H; subst.
  cbn [fmap list_fmap concat fold_left]. rewrite parse_option by done. by apply IH.
Qed.

(** ** What [main] keeps and starts *)

Section Start.
Context (nan : Z → Z → Z) (ethosu : option (bytes → bytes → result NpuExecutor)).

(** What every command line leaves at its default, and a safe executor. *)
Definition plain (o : Options) : Prop :=
  let c := opt_service o in
  cfg_max_inflight_per_gpu c = 1024 ∧ cfg_synthetic_gpu_count c = -1 ∧ cfg_gpu_compute_fn c = None ∧
  cfg_protocol_limits c = default_limits ∧ cfg_wasm_manager c = None ∧
  ∀ npu, cfg_npu_executor c = Some npu → ∀ input, safe (run npu input).

Lemma plain_same o o' :
  plain o →
  cfg_npu_executor (opt_service o') = cfg_npu_executor (opt_service o) →
  (let c := opt_service o in let c' := opt_service o' in
   cfg_max_inflight_per_gpu c' = cfg_max_inflight_per_gpu c ∧
   cfg_synthetic_gpu_count c' = cfg_synthetic_gpu_count c ∧
   cfg_gpu_compute_fn c' = cfg_gpu_compute_fn c ∧
   cfg_protocol_limits c' = cfg_protocol_limits c ∧ cfg_wasm_manager c' = cfg_wasm_manager c) → plain o'.
Proof. unfold plain. cbv zeta. by intros ? -> (-> & -> & -> & -> & ->). Qed.

Lemma plain_npu o x : plain o → (∀ input, safe (run x input)) → plain (with_npu o x).
Proof. intros (?&?&?&?&?&_) Hx. split_and!; try done. by intros npu [= <-]. Qed.

Lemma flag_plain arg o o' : plain o → flag nan arg o = Ok o' → plain o'.
Proof.
  intros Hp. unfold flag. case_bool_decide; [intros [= <-]; by eapply plain_same|].
  case_bool_decide; [intros [= <-]; by apply plain_npu|].
  intros Hport. apply rbind_Ok in Hport as (port & _ & [= <-]). by eapply plain_same.
Qed.

Lemma parse_plain args : ∀ o o', plain o → parse_args nan args o = Parsed o' → plain o'.
Proof.
  induction args as [args IH] using (induction_ltof1 _ (@length bytes)). unfold ltof in IH.
  intros o o' Hp. destruct args as [|arg rest]; [by intros [= <-]|].
  assert (match flag nan arg o with
          | Ok o => parse_args nan rest o
          | Err what => Stopped (Uncaught what)
          | _ => Stopped (Uncaught [])
          end = Parsed o' → plain o') as Hother.
  { destruct (flag nan arg o) as [o1| | |] eqn:E; try done. apply IH; [cbn; lia|by eapply flag_plain]. }
  cbn [parse_args]. case_bool_decide; [apply IH; [cbn; lia|by eapply plain_same]|].
  destruct rest as [|value rest]; [exact Hother|].
  case_bool_decide.
  { destruct (backend_of value); [|done]. apply IH; [cbn; lia|by eapply plain_same]. }
  case_bool_decide.
  { destruct (stoull value); try done. apply IH; [cbn; lia|by eapply plain_same]. }
  case_bool_decide; [apply IH; [cbn; lia|by eapply plain_same]|].
  case_bool_decide; [apply IH; [cbn; lia|by eapply plain_same]|exact Hother].
Qed.

(** The Ethos executor, when it is compiled in, over a conforming driver and
    bundles whose zero points the loader should have checked. *)
Definition ethosu_ok : Prop :=
  ethosu = None ∨
  ∃ drm files env access,
    ethosu = Some (EthosU85DrmExecutor drm nan files env access) ∧ driver_ok drm ∧
    ∀ path b, load_bundle files path = Ok b → zero_in_range (output_zero b).

Lemma choose_plain o o' : ethosu_ok → plain o → choose_npu ethosu o = Parsed o' → plain o'.
Proof.
  intros He Hp. unfold choose_npu. destruct (_ && _); [done|]. case_bool_decide; [by intros [= <-]|].
  destruct He as [->|(drm & files & env & access & -> & Hdrv & Hzero)]; [done|].
  destruct (EthosU85DrmExecutor _ _ _ _ _ _ _) as [x| | |] eqn:E; try done.
  destruct (negb _); [done|]. intros [= <-]. apply plain_npu; [done|].
  eapply executor_safe; [exact Hdrv| |exact E]. intros b. apply Hzero.
Qed.

Lemma main_Starts cuda argv s cfg :
  ethosu_ok → main nan ethosu cuda argv = Starts s cfg →
  ∃ o, plain o ∧ new_service cuda (opt_service o) = Ok s ∧ check_config cfg = Ok tt ∧ cfg = server_config o.
Proof.
  intros He. unfold main. case_bool_decide; [done|].
  destruct (parse_args _ _ _) as [o1|] eqn:E1; [|done].
  destruct (choose_npu _ _) as [o2|] eqn:E2; [|done].
  destruct (construct_server _ _) as [[s1 cfg1]| | |] eqn:E3; try done. intros [= <- <-].
  apply rbind_Ok in E3 as (s2 & Hs & E3). apply rbind_Ok in E3 as ([] & Hcfg & [= <- <-]).
  exists o2. split; [|done]. eapply choose_plain; [done| |exact E2]. eapply parse_plain; [|exact E1].
  split_and!; done.
Qed.

End Start.

(** ** The last option wins *)

(** The last value that the options give for one setting. *)
Definition last_given {B} (value : option_arg → option B) (opts : list option_arg) (otherwise : B) : B :=
  default otherwise (last (omap value opts)).

Lemma fold_last {B} nan (setting : Options → B) (value : option_arg → option B) opts :
  (∀ o a, setting (apply_option nan o a) = default (setting o) (value a)) →
  ∀ o, setting (fold_left (apply_option nan) opts o) = last_given value opts (setting o).
Proof.
  intros Hstep. unfold last_given. induction opts as [|a opts IH]; intros o; [done|].
  cbn [fold_left omap list_omap]. rewrite IH, Hstep. destruct (value a) as [v|]; [|done].
  rewrite last_cons. by destruct (last _).
Qed.

Definition port_value (a : option_arg) : option Z := match a with Port n => Some n | _ => None end.
Definition cpu_only_value (a : option_arg) : option bool := match a with CpuOnly => Some true | _ => None end.
Definition backend_value (a : option_arg) : option BackendKind :=
  match a with DefaultBackend b => Some b | _ => None end.
Definition threshold_value (a : option_arg) : option Z :=
  match a with OffloadThreshold n => Some n | _ => None end.
Definition npu_enabled_value (a : option_arg) : option bool :=
  match a with NpuEnabled | NpuSimulated => Some true | _ => None end.
Definition npu_bundle_value (a : option_arg) : option bytes := match a with NpuBundle p => Some p | _ => None end.
Definition npu_device_value (a : option_arg) : option bytes := match a with NpuDevice p => Some p | _ => None end.

Definition npu_value (nan : Z → Z → Z) (a : option_arg) : option (option NpuExecutor) :=
  match a with NpuSimulated => Some (Some (SimulatedNpuExecutor nan true)) | _ => None end.

(** The service's configuration as the options ask for it; what no option sets
    has its default.  [npu] is an Ethos-U executor to use instead. *)
Definition asked_service (nan : Z → Z → Z) (opts : list option_arg) (npu : option NpuExecutor) : BrokerServiceConfig :=
  mkConfig 32 1024 (last_given cpu_only_value opts false) (last_given backend_value opts Cpu)
    (last_given threshold_value opts (1024 * 1024)) 0
    (if npu then true else last_given npu_enabled_value opts false)
    (if npu then npu else last_given (npu_value nan) opts None)
    (-1) None 0 default_limits None.

(** The options as the user gave them. *)
Definition asked (nan : Z → Z → Z) (opts : list option_arg) : Options :=
  mkOptions (last_given port_value opts 9090) (asked_service nan opts None)
    (last_given npu_bundle_value opts []) (last_given npu_device_value opts []).

Lemma options_ext o o' :
  opt_port o = opt_port o' → opt_service o = opt_service o' → ethosu_bundle o = ethosu_bundle o' →
  ethosu_device o = ethosu_device o' → o = o'.
Proof. destruct o, o'. cbn. congruence. Qed.

Ltac same_config c d := destruct c, d; cbn in *; congruence.

Lemma config_ext c d :
  cfg_backlog_threshold c = cfg_backlog_threshold d → cfg_max_inflight_per_gpu c = cfg_max_inflight_per_gpu d →
  cfg_force_cpu_fallback c = cfg_force_cpu_fallback d → cfg_default_backend c = cfg_default_backend d →
  cfg_gpu_offload_threshold_bytes c = cfg_gpu_offload_threshold_bytes d →
  cfg_gpu_offload_threshold_flops c = cfg_gpu_offload_threshold_flops d → cfg_npu_enabled c = cfg_npu_enabled d →
  cfg_npu_executor c = cfg_npu_executor d → cfg_synthetic_gpu_count c = cfg_synthetic_gpu_count d →
  cfg_gpu_compute_fn c = cfg_gpu_compute_fn d → cfg_simulated_latency_ms c = cfg_simulated_latency_ms d →
  cfg_protocol_limits c = cfg_protocol_limits d → cfg_wasm_manager c = cfg_wasm_manager d → c = d.
Proof. same_config c d. Qed.

Lemma fold_asked nan opts : fold_left (apply_option nan) opts default_options = asked nan opts.
Proof.
  assert (∀ {B} (f : Options → B), (∀ o a, f (apply_option nan o a) = f o) →
    f (fold_left (apply_option nan) opts default_options) = f default_options) as Hkeep.
  { intros B f Hf. generalize default_options. induction opts as [|a l IH]; intros o; [done|]. cbn. by rewrite IH. }
  apply options_ext.
  - by apply (fold_last nan opt_port); intros o [].
  - apply config_ext; cbn [opt_service asked asked_service cfg_backlog_threshold cfg_max_inflight_per_gpu
      cfg_force_cpu_fallback cfg_default_backend cfg_gpu_offload_threshold_bytes cfg_gpu_offload_threshold_flops
      cfg_npu_enabled cfg_npu_executor cfg_synthetic_gpu_count cfg_gpu_compute_fn cfg_simulated_latency_ms
      cfg_protocol_limits cfg_wasm_manager].
    + by apply (Hkeep _ (λ o, cfg_backlog_threshold (opt_service o))); intros o [].
    + by apply (Hkeep _ (λ o, cfg_max_inflight_per_gpu (opt_service o))); intros o [].
    + by apply (fold_last nan (λ o, cfg_force_cpu_fallback (opt_service o))); intros o [].
    + by apply (fold_last nan (λ o, cfg_default_backend (opt_service o))); intros o [].
    + by apply (fold_last nan (λ o, cfg_gpu_offload_threshold_bytes (opt_service o))); intros o [].
    + by apply (Hkeep _ (λ o, cfg_gpu_offload_threshold_flops (opt_service o))); intros o [].
    + by apply (fold_last nan (λ o, cfg_npu_enabled (opt_service o))); intros o [].
    + by apply (fold_last nan (λ o, cfg_npu_executor (opt_service o))); intros o [].
    + by apply (Hkeep _ (λ o, cfg_synthetic_gpu_count (opt_service o))); intros o [].
    + by apply (Hkeep _ (λ o, cfg_gpu_compute_fn (opt_service o))); intros o [].
    + by apply (Hkeep _ (λ o, cfg_simulated_latency_ms (opt_service o))); intros o [].
    + by apply (Hkeep _ (λ o, cfg_protocol_limits (opt_service o))); intros o [].
    + by apply (Hkeep _ (λ o, cfg_wasm_manager (opt_service o))); intros o [].
  - by apply (fold_last nan ethosu_bundle); intros o [].
  - by apply (fold_last nan ethosu_device); intros o [].
Qed.

(** ** Theorems *)

Section Theorems.
Context (nan : Z → Z → Z) (ethosu : option (bytes → bytes → result NpuExecutor)) (cuda : CudaRuntime).

Lemma help_not_first opts : Forall option_ok opts → head (concat (render <$> opts)) ≠ Some (str "--help").
Proof.
  intros H. destruct opts as [|a opts]; [done|]. inversion H as [|? ? Ha _]; subst.
  destruct a; try done. intros E. apply (inj Some) in E. revert E. apply (digits_no_option n "--help"); [|done].
  unfold option_ok in Ha. lia.
Qed.

(** Starting with what the options ask for. *)
Definition starts_as_asked (opts : list option_arg) (npu : option NpuExecutor) (outcome : main_outcome) : Prop :=
  let port := last_given port_value opts 9090 in
  if (1 <=? port) && (port <=? 65535) then
    ∃ s, outcome = Starts s (mkServerConfig port 128 32 default_limits) ∧ config s = asked_service nan opts npu ∧
      (use_gpu_placement s = true ↔ last_given cpu_only_value opts false = false ∧ 0 < get_gpu_count cuda)
  else outcome = Stops (Exits 1 (str "Broker server failed: broker server port must be in range 1..65535")).

Lemma starts_with opts npu o :
  get_gpu_count cuda < 2 ^ 31 → opt_service o = asked_service nan opts npu →
  opt_port o = last_given port_value opts 9090 →
  starts_as_asked opts npu
    match construct_server cuda o with
    | Ok (s, cfg) => Starts s cfg
    | Err what => Stops (Exits 1 (str "Broker server failed: " ++ what))
    | _ => Stops (Uncaught [])
    end.
Proof.
  intros Hn Hs Hport. unfold starts_as_asked, construct_server, server_config. rewrite Hs, Hport.
  destruct (new_service_ok cuda (asked_service nan opts npu)) as (s & -> & Hc & Huse & _); [exact Hn|done|].
  rewrite rbind_ret. unfold check_config. cbn [port max_inflight_per_client]. destruct (_ && _) eqn:Erange.
  - rewrite (proj2 (orb_false_iff _ _)) by lia. exists s. split; [reflexivity|]. split; [exact Hc|]. exact Huse.
  - by rewrite (proj2 (orb_true_iff _ _)) by lia.
Qed.

(** C13: The executable does what its command line asks for: each setting, the
    NPU executor included, is the last one given for it or its default,
    whatever the order of the options.  A device without a bundle stops it with
    a message, as do a bundle where the Ethos-U support is not compiled in, one
    whose device is unavailable, and a port outside 1..65535; otherwise it
    starts a server with that configuration.  The executor is the simulated one
    if it was asked for, unless a bundle is given: then it is the Ethos-U
    executor of the last bundle and device, and the NPU is enabled.  GPUs are
    used exactly when there are some and --cpu-only is absent. *)
Theorem main_follows_options argv0 opts :
  Forall option_ok opts → get_gpu_count cuda < 2 ^ 31 →
  let outcome := main nan ethosu cuda (argv0 :: concat (render <$> opts)) in
  let bundle := last_given npu_bundle_value opts [] in
  let device := last_given npu_device_value opts [] in
  if bool_decide (bundle = []) then
    if bool_decide (device = []) then starts_as_asked opts None outcome
    else outcome = Stops (Exits 1 (str "--ethosu-device requires --npu-ethosu-bundle FILE"))
  else
    match ethosu with
    | None => outcome = Stops (Exits 1 (str "Ethos-U DRM support is not compiled in; rebuild with -DENABLE_ETHOSU_DRM=ON"))
    | Some construct =>
        match construct bundle device with
        | Ok executor =>
            if available executor then starts_as_asked opts (Some executor) outcome
            else outcome = Stops (Exits 1 (str "Ethos-U mainline DRM device unavailable: "))
        | Err what => outcome = Stops (Uncaught what)
        | _ => outcome = Stops (Uncaught [])
        end
    end.
Proof.
  intros Hopts Hn. cbv zeta. unfold main. cbn [skipn].
  change (drop 0 ?l) with l. rewrite (bool_decide_eq_false_2 _ (help_not_first opts Hopts)), parse_options, fold_asked by done. unfold choose_npu. cbn [asked ethosu_bundle ethosu_device].
  case_bool_decide as Hb; cbn [andb negb].
  - rewrite andb_true_r. case_bool_decide; cbn [negb]; [|done]. by apply starts_with.
  - rewrite andb_false_r. destruct ethosu as [construct|]; [|done]. destruct (construct _ _) as [x| | |]; try done.
    destruct (available x); cbn [negb]; [|done]. by apply starts_with.
Qed.

(** C7: A broker that [main] starts has a checked configuration and answers
    every request it is given, one after the other, each with the identifier
    of its request and without an exception or undefined behaviour, whatever
    the command line and the GPUs, with the simulated NPU, and with the Ethos-U
    executor over a conforming driver provided that no bundle it can load has an
    output zero point within 128 of the ends of its 32-bit range, which the
    loader does not check; its device queues are as before when nothing else
    ran meanwhile. *)
Theorem main_serves h lib argv s cfg l :
  get_gpu_count cuda < 2 ^ 31 → ethosu_ok nan ethosu →
  main nan ethosu cuda argv = Starts s cfg →
  Forall (λ x, env_ok (get_gpu_count cuda) 1024 x.1) l →
  check_config cfg = Ok tt ∧ server_limits cfg = cfg_protocol_limits (config s) ∧
  ∃ resps s', handle_requests h (default_gpu_compute nan lib) nan s l = Ok (resps, s') ∧
    Forall2 (λ x resp, resp_task_id resp = req_task_id x.2) l resps ∧
    (Forall (λ x, during_gpu x.1 = id) l → gpu_inflight (core s') = gpu_inflight (core s)).
Proof.
  intros Hn He Hmain Henv. destruct (main_Starts nan ethosu cuda argv s cfg He Hmain) as (o & Hp & Hs & Hcfg & ->).
  split; [exact Hcfg|]. destruct Hp as (Hmax & Hcount & Hfn & Hlim & Hman & Hnpu).
  assert (gpu_total cuda (opt_service o) = get_gpu_count cuda) as Hcuda by (unfold gpu_total; by rewrite Hcount).
  destruct (new_service_ok cuda (opt_service o)) as (s' & Hs' & Hc & Huse & Hcore & Hsel); [congruence|by rewrite Hmax|].
  rewrite Hs in Hs'. injection Hs' as <-. rewrite Hc. split; [done|].
  destruct (requests_served h (default_gpu_compute nan lib) nan (get_gpu_count cuda) l s)
    as (resps & s' & E & _ & _ & Hids & Hq).
  - intros. apply default_gpu_compute_safe.
  - unfold ready. rewrite Hc, Hmax. split_and!; [| |done|split].
    + exists []. intros Hu. rewrite Hc, <- Hcuda. by apply Hcore.
    + intros sel Esel. destruct (Hsel Hman) as [_ Hg]. rewrite Hg in Esel.
      by destruct (use_gpu_placement s); simplify_eq.
    + intros input gpu. unfold gpu_kernel. rewrite Hfn. apply default_gpu_compute_safe.
    + exact Hnpu.
  - by rewrite Hc, Hmax.
  - by exists resps, s'.
Qed.

End Theorems.

(** ** Samples *)

Definition sample_options : list option_arg :=
  [Port 9191; NpuSimulated; OffloadThreshold 4096; DefaultBackend Gpu; Port 9292].

Definition sample_argv : list bytes := str "broker_server" :: concat (render <$> sample_options).

Lemma main_follows_options_witness :
  sample_argv = str <$> ["broker_server"; "9191"; "--npu-simulated"; "--gpu-offload-threshold"; "4096";
                         "--default-backend"; "gpu"; "9292"]%string ∧
  ∃ s, main no_nan None sample_cuda_none sample_argv = Starts s (mkServerConfig 9292 128 32 default_limits) ∧
    cfg_npu_executor (config s) = Some (SimulatedNpuExecutor no_nan true) ∧
    cfg_default_backend (config s) = Gpu ∧ use_gpu_placement s = false.
Proof.
  split; [reflexivity|].
  assert (starts_as_asked no_nan sample_cuda_none sample_options None
    (main no_nan None sample_cuda_none sample_argv)) as (s & Hs & Hc & Huse).
  { apply (main_follows_options no_nan None sample_cuda_none (str "broker_server") sample_options);
      [by repeat constructor|done]. }
  exists s. split; [exact Hs|]. rewrite Hc. split; [reflexivity|]. split; [reflexivity|].
  destruct (use_gpu_placement s); [|reflexivity].
  destruct (proj1 Huse eq_refl) as [_ H]. by vm_compute in H.
Defined.

(** A broker with an Ethos-U85 bundle answers an inference request on it. *)
Definition sample_files (path : bytes) : option bytes :=
  if bool_decide (path = str "model.bin") then Some (bundle_layout (sample_bundle 0)) else None.

Definition sample_ethosu : option (bytes → bytes → result NpuExecutor) :=
  Some (EthosU85DrmExecutor sample_drm no_nan sample_files None (λ p, bool_decide (p = str "/dev/dri/renderD130"))).

Definition ethosu_argv : list bytes :=
  str <$> ["broker_server"; "--npu-ethosu-bundle"; "model.bin"; "--default-backend"; "npu"]%string.

Lemma sample_ethosu_ok : ethosu_ok no_nan sample_ethosu.
Proof.
  right. eexists sample_drm, sample_files, _, _. split; [reflexivity|]. split; [exact sample_drm_ok|].
  intros path b E. apply load_bundle_iff in E as [Hwf E]. unfold sample_files in E.
  case_bool_decide; [|done]. apply (inj Some) in E.
  by rewrite <- (bundle_layout_inj _ b (sample_bundle_wf 0 ltac:(done)) Hwf E).
Qed.

Definition npu_request : BrokerRequest := sample_compute (str "inference") sample_payload (str "npu").

Lemma main_serves_witness :
  ∃ s cfg, main no_nan sample_ethosu sample_cuda_none ethosu_argv = Starts s cfg ∧
    ∃ resps s', handle_requests LittleEndian (default_gpu_compute no_nan None) no_nan s
                  [(alone 0 3000000, npu_request)] = Ok (resps, s') ∧
      resps = [mkResponse (str "t1") StatusOk (-1) 3
                 (encode_doubles_as_payload [0x3ff0000000000000; 0xc00c000000000000]) [] Npu false] ∧
      Forall2 (λ x resp, resp_task_id resp = req_task_id x.2) [(alone 0 3000000, npu_request)] resps.
Proof.
  assert (match main no_nan sample_ethosu sample_cuda_none ethosu_argv with
          | Starts s _ => match handle_requests LittleEndian (default_gpu_compute no_nan None) no_nan s
                  [(alone 0 3000000, npu_request)] with Ok (resps, _) => Some resps | _ => None end
          | Stops _ => None end = Some [mkResponse (str "t1") StatusOk (-1) 3
                 (encode_doubles_as_payload [0x3ff0000000000000; 0xc00c000000000000]) [] Npu false])
    as Hstarts by (vm_compute; reflexivity).
  destruct (main no_nan sample_ethosu sample_cuda_none ethosu_argv) as [e|s cfg] eqn:E; [discriminate Hstarts|].
  exists s, cfg. split; [reflexivity|].
  destruct (main_serves no_nan sample_ethosu sample_cuda_none LittleEndian None ethosu_argv s cfg
    [(alone 0 3000000, npu_request)]) as (_ & _ & resps & s' & H1 & H2 & _).
  - done.
  - exact sample_ethosu_ok.
  - exact E.
  - constructor; [|constructor]. split; [apply no_interference|done].
  - rewrite H1 in Hstarts. injection Hstarts as ->. eexists _, s'. split; [exact H1|]. split; [reflexivity|exact H2].
Defined.

(** A word that is no option is read as the port, outside the [try] block. *)
Example unknown_option_uncaught :
  main no_nan None sample_cuda_none [str "broker_server"; str "--npu"] = Stops (Uncaught (str "stoi")) ∧
  main no_nan None sample_cuda_none [str "broker_server"; str "--default-backend"] = Stops (Uncaught (str "stoi")) ∧
  main no_nan None sample_cuda_none [str "broker_server"; str "--gpu-offload-threshold"; str "big"]
    = Stops (Uncaught (str "stoull")).
Proof. split_and!; vm_compute; reflexivity. Qed.
