(* ===== verification/GpuModels.v ===== *)
(** * Models of the GPU runtime server (include/trt_model_engine.hpp)

    The tensors of a loaded model and the table of models.  Parsing an ONNX
    file, building, deserialising and running an engine are TensorRT's: [build]
    is what they yield for a file, and an [Engine] is what the code asks of one.
    Engines are told apart by the address they are allocated at. *)

From S2P Require Import Prelude.

(** ** Tensors *)

Inductive TensorDataType := FP32 | FP16 | INT32 | INT8 | FP64.

(** [nvinfer1::DataType]; the types the code does not name are one. *)
Inductive TrtType := kFLOAT | kHALF | kINT32 | kINT8 | OtherType.

Definition trtTypeToAdi (dt : TrtType) : TensorDataType :=
  match dt with
  | kFLOAT => FP32
  | kHALF => FP16
  | kINT32 => INT32
  | kINT8 => INT8
  | OtherType => FP32
  end.

Definition getElementSize (dt : TensorDataType) : Z :=
  match dt with FP32 => 4 | FP16 => 2 | INT32 => 4 | INT8 => 1 | FP64 => 8 end.

(** One tensor as the engine describes it; a dynamic dimension is negative.
    [io_bytes] is what a run reads or writes at the tensor's address; the code
    does not ask for it. *)
Record IoTensor := mkIo {
  io_name : bytes;
  io_is_input : bool;
  io_type : TrtType;
  io_shape : list Z;
  io_bytes : Z;
}.

Record TrtBinding := mkBinding {
  binding_name : bytes;
  is_input : bool;
  dtype : TensorDataType;
  dims : list Z;
  size_bytes : Z;
}.

(** The two device buffers of a lane that a tensor's address can be. *)
Inductive buffer := InputBuffer | OutputBuffer.

(** An engine: its tensors, and what [enqueueV3] on a context of it does with
    the addresses set for its tensors and the contents of the two buffers:
    [None] is a failure, else what it writes at the start of the output buffer. *)
Record Engine := mkEngine {
  io_tensors : list IoTensor;
  enqueueV3 : gmap bytes buffer → bytes → bytes → option bytes;
}.

(** A file is rejected by the parser or the builder, or [deserializeCudaEngine]
    gives null, or there is an engine. *)
Inductive built := Rejected | NullEngine | Built (e : Engine).

Record TrtModelInstance := mkInstance {
  engine : Engine;
  engine_at : Z;
  input_bindings : list TrtBinding;
  output_bindings : list TrtBinding;
  total_input_bytes : Z;
  total_output_bytes : Z;
}.

(** [shape.d[d] < 0 ? 1 : shape.d[d]]. *)
Definition fixed_dim (d : Z) : Z := if d <? 0 then 1 else d.

(** [size_t count] and [binding.dims] after the dimensions. *)
Fixpoint dims_loop (count : Z) (seen shape : list Z) : Z * list Z :=
  match shape with
  | [] => (count, seen)
  | d :: shape => dims_loop (wrap 64 (count * fixed_dim d)) (seen ++ [fixed_dim d]) shape
  end.

Definition binding_of (t : IoTensor) : TrtBinding :=
  let dtype := trtTypeToAdi (io_type t) in
  let '(count, dims) := dims_loop 1 [] (io_shape t) in
  mkBinding (io_name t) (io_is_input t) dtype dims (wrap 64 (count * getElementSize dtype)).

Definition add_binding (m : TrtModelInstance) (b : TrtBinding) : TrtModelInstance :=
  if is_input b then
    mkInstance (engine m) (engine_at m) (input_bindings m ++ [b]) (output_bindings m)
      (wrap 64 (total_input_bytes m + size_bytes b)) (total_output_bytes m)
  else
    mkInstance (engine m) (engine_at m) (input_bindings m) (output_bindings m ++ [b])
      (total_input_bytes m) (wrap 64 (total_output_bytes m + size_bytes b)).

Definition inspectBindings (m : TrtModelInstance) : TrtModelInstance :=
  fold_left (λ m t, add_binding m (binding_of t)) (io_tensors (engine m)) m.

(** ** The table of models *)

(** [next_address] is where the next engine is allocated. *)
Record ModelManager := mkModels {
  models_ : gmap Z TrtModelInstance;
  next_address : Z;
}.

Definition no_models : ModelManager := mkModels ∅ 0.

(** The path up to its first null, as [c_str] passes it on. *)
Fixpoint c_str (path : bytes) : bytes :=
  match path with
  | [] => []
  | b :: path => if bool_decide (b = Byte.x00) then [] else b :: c_str path
  end.

Section Load.
Context (build : bytes → built).

(** The bindings are inspected through the engine whether or not it is null. *)
Definition loadOnnxModel (mgr : ModelManager) (model_id : Z) (onnx_path : bytes) : result (bool * ModelManager) :=
  match build (c_str onnx_path) with
  | Rejected => Ok (false, mgr)
  | NullEngine => OutOfBounds
  | Built e =>
      let instance := inspectBindings (mkInstance e (next_address mgr) [] [] 0 0) in
      Ok (true, mkModels (<[model_id := instance]> (models_ mgr)) (next_address mgr + 1))
  end.

End Load.

Definition getModel (mgr : ModelManager) (model_id : Z) : option TrtModelInstance := models_ mgr !! model_id.

(** ** What the bindings say *)

(** The bytes the code counts for a tensor: a dynamic dimension is one, halves
    are two bytes, 8-bit integers one, and everything else four, 64-bit integers
    and booleans included. *)
Definition type_bytes (dt : TrtType) : Z := match dt with kHALF => 2 | kINT8 => 1 | _ => 4 end.
Definition tensor_bytes (t : IoTensor) : Z :=
  fold_right (λ d n, (if d <? 0 then 1 else d) * n) 1 (io_shape t) * type_bytes (io_type t).

Definition bytes_of (input : bool) (ts : list IoTensor) : Z :=
  fold_right Z.add 0 (tensor_bytes <$> filter (λ t, io_is_input t = input) ts).

(** A tensor's binding: its size is the bytes counted, where they fit. *)
Definition binding_for (t : IoTensor) (b : TrtBinding) : Prop :=
  binding_name b = io_name t ∧ is_input b = io_is_input t ∧
  dims b = (λ d, if d <? 0 then 1 else d) <$> io_shape t ∧
  dtype b = match io_type t with kHALF => FP16 | kINT32 => INT32 | kINT8 => INT8 | kFLOAT | OtherType => FP32 end ∧
  size_bytes b = wrap 64 (tensor_bytes t).

Lemma element_size dt : getElementSize (trtTypeToAdi dt) = type_bytes dt.
Proof. by destruct dt. Qed.

Lemma shape_product shape :
  fold_right (λ d n, (if d <? 0 then 1 else d) * n) 1 shape = fold_right Z.mul 1 (fixed_dim <$> shape).
Proof. induction shape as [|d shape IH]; [done|]. rewrite fmap_cons. cbn [fold_right]. by rewrite IH. Qed.

Lemma dims_loop_spec shape : ∀ count seen,
  dims_loop count seen shape =
    (fold_left (λ c d, wrap 64 (c * fixed_dim d)) shape count, seen ++ (fixed_dim <$> shape)).
Proof.
  induction shape as [|d shape IH]; intros count seen; cbn [dims_loop fold_left]; [by rewrite app_nil_r|].
  by rewrite IH, <- app_assoc.
Qed.

(** The count is the product, modulo the width. *)
Lemma count_product shape : ∀ count,
  wrap 64 (fold_left (λ c d, wrap 64 (c * fixed_dim d)) shape count)
  = wrap 64 (count * fold_right Z.mul 1 (fixed_dim <$> shape)).
Proof.
  induction shape as [|d shape IH]; intros count; cbn [fold_left fmap list_fmap fold_right]; [by rewrite Z.mul_1_r|].
  by rewrite IH, wrap_mul_l, Z.mul_assoc.
Qed.

Lemma size_of_binding t : size_bytes (binding_of t) = wrap 64 (tensor_bytes t).
Proof.
  unfold binding_of. rewrite dims_loop_spec. cbn [size_bytes]. unfold tensor_bytes. rewrite shape_product, <- element_size.
  by rewrite <- wrap_mul_l, count_product, Z.mul_1_l, wrap_mul_l.
Qed.

Lemma binding_of_for t : binding_for t (binding_of t).
Proof.
  unfold binding_for. rewrite size_of_binding. unfold binding_of. rewrite dims_loop_spec. cbn.
  by destruct (io_type t).
Qed.

Lemma inspect_loop ts : ∀ m,
  let m' := fold_left (λ m t, add_binding m (binding_of t)) ts m in
  engine m' = engine m ∧ engine_at m' = engine_at m ∧
  input_bindings m' = input_bindings m ++ (binding_of <$> filter (λ t, io_is_input t = true) ts) ∧
  output_bindings m' = output_bindings m ++ (binding_of <$> filter (λ t, io_is_input t = false) ts) ∧
  wrap 64 (total_input_bytes m') = wrap 64 (total_input_bytes m + bytes_of true ts) ∧
  wrap 64 (total_output_bytes m') = wrap 64 (total_output_bytes m + bytes_of false ts) ∧
  (is_uint 64 (total_input_bytes m) → is_uint 64 (total_input_bytes m')) ∧
  (is_uint 64 (total_output_bytes m) → is_uint 64 (total_output_bytes m')).
Proof.
  induction ts as [|t ts IH]; intros m; cbv zeta; cbn [fold_left].
  { unfold bytes_of. cbn. rewrite !app_nil_r, !Z.add_0_r. by split_and!. }
  destruct (IH (add_binding m (binding_of t))) as (H1 & H2 & H3 & H4 & H5 & H6 & H7 & H8).
  rewrite H1, H2, H3, H4, H5, H6. destruct (binding_of_for t) as (_ & Hin & _).
  unfold bytes_of, add_binding in *. rewrite Hin, size_of_binding, !filter_cons in *.
  destruct (io_is_input t) eqn:E; cbn [engine engine_at input_bindings output_bindings total_input_bytes total_output_bytes] in *.
  - rewrite (decide_True (P := true = true)), (decide_False (P := true = false)) by done. rewrite !fmap_cons, <- app_assoc. cbn [fold_right].
    split_and!; try done; [|intros _; by apply H7, wrap_is_uint].
    rewrite wrap_add_l, Z.add_shuffle0, wrap_add_r. f_equal. lia.
  - rewrite (decide_True (P := false = false)), (decide_False (P := false = true)) by done. rewrite !fmap_cons, <- app_assoc. cbn [fold_right].
    split_and!; try done; [|intros _; by apply H8, wrap_is_uint].
    rewrite wrap_add_l, Z.add_shuffle0, wrap_add_r. f_equal. lia.
Qed.

Lemma inspect_spec e a :
  let m := inspectBindings (mkInstance e a [] [] 0 0) in
  engine m = e ∧ engine_at m = a ∧
  input_bindings m = binding_of <$> filter (λ t, io_is_input t = true) (io_tensors e) ∧
  output_bindings m = binding_of <$> filter (λ t, io_is_input t = false) (io_tensors e) ∧
  total_input_bytes m = wrap 64 (bytes_of true (io_tensors e)) ∧
  total_output_bytes m = wrap 64 (bytes_of false (io_tensors e)).
Proof.
  destruct (inspect_loop (io_tensors e) (mkInstance e a [] [] 0 0)) as (H1 & H2 & H3 & H4 & H5 & H6 & H7 & H8).
  cbv zeta. unfold inspectBindings. cbn [io_tensors engine]. rewrite H1, H2, H3, H4.
  rewrite <- (wrap_small 64 _ (H7 ltac:(done))), <- (wrap_small 64 _ (H8 ltac:(done))), H5, H6. done.
Qed.

(** C27: A model that loads has as bindings the engine's inputs and outputs in
    their order, each with its name, its dimensions with dynamic ones taken as
    one, its type, and the bytes counted for it; each total is the sum of those
    where it fits in size_t.  Counted is what the code counts, not always what
    TensorRT needs: halves are 2 bytes, 8-bit integers 1, and every other type 4,
    64-bit integers and booleans included.  Loading returns false exactly when
    TensorRT's parser or builder rejects the file, changes no other model, and is
    undefined when deserialising gives a null engine. *)
Theorem load_model_correct build mgr model_id path :
  match build (c_str path) with
  | Rejected => loadOnnxModel build mgr model_id path = Ok (false, mgr)
  | NullEngine => loadOnnxModel build mgr model_id path = OutOfBounds
  | Built e =>
      ∃ mgr' m, loadOnnxModel build mgr model_id path = Ok (true, mgr') ∧
        getModel mgr' model_id = Some m ∧ (∀ id, id ≠ model_id → getModel mgr' id = getModel mgr id) ∧
        engine m = e ∧ engine_at m = next_address mgr ∧ next_address mgr' = next_address mgr + 1 ∧
        Forall2 binding_for (filter (λ t, io_is_input t = true) (io_tensors e)) (input_bindings m) ∧
        Forall2 binding_for (filter (λ t, io_is_input t = false) (io_tensors e)) (output_bindings m) ∧
        is_uint 64 (total_input_bytes m) ∧ is_uint 64 (total_output_bytes m) ∧
        (is_uint 64 (bytes_of true (io_tensors e)) → total_input_bytes m = bytes_of true (io_tensors e)) ∧
        (is_uint 64 (bytes_of false (io_tensors e)) → total_output_bytes m = bytes_of false (io_tensors e))
  end.
Proof.
  unfold loadOnnxModel, getModel. destruct (build (c_str path)) as [| |e]; [done..|].
  destruct (inspect_spec e (next_address mgr)) as (He & Ha & Hi & Ho & Hti & Hto).
  set (m := inspectBindings _) in *. clearbody m. eexists _, m.
  split; [done|]. cbn [models_ next_address]. rewrite lookup_insert_eq. split; [done|].
  split; [intros id Hid; by rewrite lookup_insert_ne|]. split; [done|]. split; [done|]. split; [done|].
  assert (∀ ts : list IoTensor, Forall2 binding_for ts (binding_of <$> ts)) as Hb.
  { intros ts. apply Forall2_fmap_r, Forall_Forall2_diag, Forall_true, binding_of_for. }
  rewrite Hi, Ho, Hti, Hto. split; [apply Hb|]. split; [apply Hb|].
  split; [by apply wrap_is_uint|]. split; [by apply wrap_is_uint|]. split; apply wrap_small.
Qed.

(** A model with a row of three floats as input and of two as output; it copies
    the first two. *)
Definition sample_engine : Engine :=
  mkEngine [mkIo (str "x") true kFLOAT [1; 3] 12; mkIo (str "y") false kFLOAT [1; 2] 8]
    (λ _ input _, Some (firstn 8 input)).

Definition sample_build (path : bytes) : built :=
  if bool_decide (path = str "m.onnx") then Built sample_engine else Rejected.

Lemma load_model_correct_witness :
  ∃ mgr' m, loadOnnxModel sample_build no_models 7 (str "m.onnx") = Ok (true, mgr') ∧
    getModel mgr' 7 = Some m ∧ total_input_bytes m = 12 ∧ total_output_bytes m = 8.
Proof.
  destruct (load_model_correct sample_build no_models 7 (str "m.onnx"))
    as (mgr' & m & H1 & H2 & _ & _ & _ & _ & _ & _ & _ & _ & Hi & Ho).
  exists mgr', m. split; [exact H1|]. split; [exact H2|]. split; [by apply Hi|by apply Ho].
Defined.

(** 64-bit integers are counted as four bytes. *)
Example int64_counted_as_four :
  tensor_bytes (mkIo (str "ids") true OtherType [1; 128] 1024) = 512 ∧
  size_bytes (binding_of (mkIo (str "ids") true OtherType [1; 128] 1024)) = 512.
Proof. by split. Qed.

(** A count that does not fit wraps around. *)
Example size_overflow : size_bytes (binding_of (mkIo (str "x") true kFLOAT [2 ^ 62; 4] 0)) = 0.
Proof. reflexivity. Qed.
