(* ===== verification/GpuSession.v ===== *)
(** * Clients of the GPU runtime server (include/adi_tensor_protocol.h, handle_client in src/gpu_runtime_server.cpp)

    What one client thread does: it reads requests, loads models, queues
    inference tasks and answers with primary and delta packets.  What the
    thread meets in each turn is a parameter: the bytes its stack holds where
    the header is read, the models other threads loaded meanwhile, the value of
    the round-robin counter, the clock, and the output the GPU's worker
    delivers for the task (GpuLanes.v).  Memory is taken to suffice. *)

From S2P Require Import Prelude HostBytes Wire Ieee Sockets AdiSession GpuModels.

(** ** Protocol *)

Inductive PacketOpcode := VECTOR_TRANSFORM | LOAD_MODEL | EXECUTE_INFERENCE | UNLOAD_MODEL.

Definition PacketOpcode_u8 (op : PacketOpcode) : Z :=
  match op with VECTOR_TRANSFORM => 0 | LOAD_MODEL => 1 | EXECUTE_INFERENCE => 2 | UNLOAD_MODEL => 3 end.

Definition MAGIC_ADI1 : Z := 0x41444931.
Definition RequestHeader_size : Z := 12.
Definition InferenceHeader_size : Z := 12.

(** What of the packed header the handler looks at, in host order. *)
Record RequestHeader := mkHeader { magic : Z; payload_len : Z; opcode : Z }.

Record InferenceTask := mkTask { task_model_id : Z; input_payload : bytes }.

Record ResponseHeader := mkResp {
  timestamp_ns : Z;
  resp_sequence_id : Z;
  packet_type : Z;
  status_code : Z;
  resp_payload_len : Z;
}.

Section Client.
Context (h : endian) (nan : Z → Z → Z) (build : bytes → built).

Definition header_of (raw : bytes) : RequestHeader :=
  mkHeader (ntohl h (mem_load h (slice raw 0 4))) (ntohl h (mem_load h (slice raw 4 4)))
    (mem_load h (slice raw 8 1)).

(** The packed struct as it goes out; its members are in network order. *)
Definition response_bytes (r : ResponseHeader) : bytes :=
  mem_store h 8 (hton h 8 (timestamp_ns r)) ++ mem_store h 4 (htonl h (resp_sequence_id r)) ++
  mem_store h 1 (packet_type r) ++ mem_store h 1 (status_code r) ++ mem_store h 2 0 ++
  mem_store h 4 (htonl h (resp_payload_len r)).

(** One [read] into the header, whose memory held [stack] before. *)
Definition read_header (stack : bytes) (s : Socket) : option RequestHeader * Socket :=
  match recv s RequestHeader_size with
  | (Got data, s) => (Some (header_of (firstn 12 (data ++ skipn (length data) stack))), s)
  | (_, s) => (None, s)
  end.

(** A [write] whose result is not looked at.  The SIGPIPE of one to a client that
    has gone ends the process; here it is a write that fails. *)
Definition write (o : Outlet) (data : bytes) : Outlet := (send o data).2.

(** The words of a buffer of [float]s. *)
Definition floats_of (data : bytes) : list Z :=
  (λ i, mem_load h (slice data (Z.of_nat i * 4) 4)) <$> seq 0 (Z.to_nat (zlen data / 4)).
Definition bytes_of_floats (fs : list Z) : bytes := concat (mem_store h 4 <$> fs).

(** ** Requests *)

Record ClientState := mkClientState {
  sequence_id : Z;
  last_result_frame : list Z;
}.

(** What the thread meets in one turn. *)
Record Turn := mkTurn {
  stack : bytes;
  others : ModelManager → ModelManager;
  counter : Z;
  clock : Z;
  output : InferenceTask → bytes;
}.

(** [LOAD_MODEL]. *)
Definition load_request (mgr : ModelManager) (payload : bytes) (st : ClientState) (o : Outlet)
    : result (ModelManager * ClientState * Outlet) :=
  if zlen payload <? 4 then OutOfBounds
  else
    let model_id := mem_load h (slice payload 0 4) in
    '(ok, mgr) <-! loadOnnxModel build mgr model_id (skipn 4 payload);;
    let resp := mkResp 0 (sequence_id st) 0 (if (ok : bool) then 0 else 1) 0 in
    Ok (mgr, mkClientState (wrap 32 (sequence_id st + 1)) (last_result_frame st), write o (response_bytes resp)).

(** The packets for a task's output. *)
Definition answer (ts : Z) (output_result : bytes) (st : ClientState) (o : Outlet) : ClientState * Outlet :=
  let primary := mkResp ts (sequence_id st) 0 (if zlen output_result =? 0 then 2 else 0) (zlen output_result) in
  let o := write (write o (response_bytes primary)) output_result in
  let current := floats_of output_result in
  let o :=
    if negb (zlen (last_result_frame st) =? 0) && (zlen (last_result_frame st) =? zlen current) then
      let delta := zip_with (fsub32 nan) current (last_result_frame st) in
      write (write o (response_bytes (mkResp ts (sequence_id st) 1 0 (zlen delta * 4)))) (bytes_of_floats delta)
    else o in
  (mkClientState (wrap 32 (sequence_id st + 1)) current, o).

(** [EXECUTE_INFERENCE]: the task it queues, and where. *)
Definition execute_request (queues : Z) (t : Turn) (payload : bytes) : result (Z * InferenceTask) :=
  if zlen payload <? InferenceHeader_size then OutOfBounds
  else if queues =? 0 then OutOfBounds
  else
    let task := mkTask (mem_load h (slice payload 0 4)) (skipn (Z.to_nat InferenceHeader_size) payload) in
    Ok (wrap 32 (counter t) mod queues, task).

(** The loop from turn [n] on; [pushed] are the tasks queued so far.  A bad
    magic number, the end of the connection and an exception end it. *)
Section Loop.
Context (queues : Z) (turns : nat → Turn).

Fixpoint client_loop (fuel n : nat) (mgr : ModelManager) (pushed : list (Z * InferenceTask))
    (s : Socket) (o : Outlet) (st : ClientState) : result (ModelManager * list (Z * InferenceTask) * Outlet) :=
  match fuel with
  | O => NoFuel
  | S fuel =>
      let t := turns n in
      match read_header (stack t) s with
      | (None, _) => Ok (mgr, pushed, o)
      | (Some hdr, s) =>
          if negb (magic hdr =? MAGIC_ADI1) then Ok (mgr, pushed, o)
          else
            '(payload, s) <-! adi_read_exact s (payload_len hdr);;
            match payload with
            | None => Ok (mgr, pushed, o)
            | Some payload =>
                let mgr := others t mgr in
                if opcode hdr =? PacketOpcode_u8 LOAD_MODEL then
                  '(mgr, st, o) <-! load_request mgr payload st o;;
                  client_loop fuel (S n) mgr pushed s o st
                else if opcode hdr =? PacketOpcode_u8 EXECUTE_INFERENCE then
                  '(q, task) <-! execute_request queues t payload;;
                  let '(st, o) := answer (clock t) (output t task) st o in
                  client_loop fuel (S n) mgr (pushed ++ [(q, task)]) s o st
                else client_loop fuel (S n) mgr pushed s o st
            end
      end
  end.

(** Every turn but the last takes at least one byte. *)
Definition handle_client (mgr : ModelManager) (s : Socket) (o : Outlet)
    : result (ModelManager * list (Z * InferenceTask) * Outlet) :=
  client_loop (S (length (inbox s))) 0 mgr [] s o (mkClientState 0 []).

End Loop.
End Client.

(** ** Reading *)

Lemma read_header_cases h stack s :
  match read_header h stack s with
  | (Some hdr, s') => ∃ data, inbox s = data ++ inbox s' ∧ 1 ≤ zlen data ≤ 12 ∧
      hdr = header_of h (firstn 12 (data ++ skipn (length data) stack))
  | (None, _) => True
  end.
Proof.
  unfold read_header. pose proof (recv_cases s RequestHeader_size ltac:(done)) as Hr.
  destruct (recv s RequestHeader_size) as [[data| | |] s']; try done.
  destruct Hr as (Hin & Hlen & _). by exists data.
Qed.

Lemma payload_len_nonneg h raw : 0 ≤ payload_len (header_of h raw).
Proof. cbn [payload_len header_of]. unfold ntohl, hton, mem_load. destruct h; apply load_be_range. Qed.

(** The rest of the schedule after a read of [len] bytes that are there. *)
Fixpoint after_bytes (len : Z) (a : list arrival) : option (list arrival) :=
  if len <=? 0 then Some a
  else
    match a with
    | [] => Some []
    | Available n :: a => after_bytes (len - Z.min (Z.max 1 n) len) a
    | _ => None
    end.

Lemma read_loop_after size fuel : ∀ got more rest a a',
  zlen got + zlen more = size → (length more ≤ fuel)%nat → after_bytes (zlen more) a = Some a' →
  adi_recv_loop fuel (mkSocket (more ++ rest) a) size got = Ok (Some (got ++ more), mkSocket rest a').
Proof.
  induction fuel as [|fuel IH]; intros got more rest a a' Hsize Hfuel Ha.
  - destruct more; [|cbn in Hfuel; lia]. cbn [adi_recv_loop]. rewrite (proj2 (Z.ltb_ge _ _)) by (change (zlen []) with 0 in Hsize; lia).
    rewrite app_nil_r. unfold after_bytes in Ha. destruct a; by injection Ha as <-.
  - cbn [adi_recv_loop]. destruct more as [|b more].
    { change (zlen []) with 0 in Hsize. rewrite (proj2 (Z.ltb_ge _ _)) by lia.
      rewrite app_nil_r. unfold after_bytes in Ha. destruct a; by injection Ha as <-. }
    set (l := b :: more) in *. assert (0 < zlen l) by (unfold l; rewrite zlen_cons; pose proof (zlen_nonneg more); lia).
    rewrite (proj2 (Z.ltb_lt _ _)) by lia. replace (size - zlen got) with (zlen l) by lia.
    assert (∀ k, 1 ≤ k ≤ zlen l → ∀ a1, after_bytes (zlen l - k) a1 = Some a' →
      match deliver (mkSocket (l ++ rest) a) k a1 with
      | (Got data, s) => adi_recv_loop fuel s size (got ++ data)
      | (_, s) => Ok (None, s)
      end = Ok (Some (got ++ l), mkSocket rest a')) as Hdeliver.
    { intros k Hk a1 Ha1. unfold deliver. cbn [inbox]. rewrite bool_decide_eq_false_2 by done.
      rewrite take_app_le, drop_app_le by (unfold zlen in Hk; lia).
      rewrite (IH (got ++ firstn (Z.to_nat k) l) (skipn (Z.to_nat k) l) rest a1 a').
      - by rewrite <- app_assoc, firstn_skipn.
      - rewrite zlen_app, zlen_firstn by lia. unfold zlen in *. rewrite length_skipn. lia.
      - rewrite length_skipn. unfold zlen in *. lia.
      - replace (zlen (skipn (Z.to_nat k) l)) with (zlen l - k); [done|]. unfold zlen in *. rewrite length_skipn. lia. }
    unfold recv. cbn [arrivals]. destruct a as [|[n| |] a1]; cbn [after_bytes] in Ha;
      rewrite (proj2 (Z.leb_gt _ _)) in Ha by done; try done.
    + injection Ha as <-. apply Hdeliver; [lia|]. by rewrite Z.sub_diag.
    + apply Hdeliver; [lia|done].
Qed.

Lemma read_exact_after data rest a a' :
  after_bytes (zlen data) a = Some a' →
  adi_read_exact (mkSocket (data ++ rest) a) (zlen data) = Ok (Some data, mkSocket rest a').
Proof.
  intros Ha. unfold adi_read_exact. apply (read_loop_after (zlen data) _ [] data); [done| |done].
  unfold zlen. lia.
Qed.

(** A thread always ends, or has read a payload shorter than its opcode needs. *)
Lemma client_loop_ends h nan build queues turns fuel : ∀ n mgr pushed s o st,
  (length (inbox s) < fuel)%nat →
  match client_loop h nan build queues turns fuel n mgr pushed s o st with
  | Ok _ | OutOfBounds => True
  | _ => False
  end.
Proof.
  induction fuel as [|fuel IH]; intros n mgr pushed s o st Hfuel; [lia|]. cbn [client_loop].
  pose proof (read_header_cases h (stack (turns n)) s) as Hh.
  destruct (read_header h (stack (turns n)) s) as [[hdr|] s1]; [|done].
  destruct Hh as (data & Hin & Hlen & ->). destruct (negb _); [done|].
  set (hdr := header_of _ _). destruct (adi_read_exact_ok s1 (payload_len hdr) (payload_len_nonneg _ _))
    as (r & s2 & -> & Hok & _). rewrite rbind_ret. destruct r as [payload|]; [|done].
  destruct (Hok payload eq_refl) as (_ & Hin2 & _).
  assert (length (inbox s2) < fuel)%nat as Hf.
  { rewrite Hin, Hin2, !length_app in Hfuel. unfold zlen in Hlen. lia. }
  destruct (opcode hdr =? _).
  { unfold load_request. destruct (_ <? 4); [done|]. unfold loadOnnxModel.
    destruct (build _) as [| |e]; rewrite ?rbind_ret; [by apply IH|done|by apply IH]. }
  destruct (opcode hdr =? _); [|by apply IH].
  unfold execute_request. destruct (_ <? _); [done|]. destruct (queues =? 0); [done|].
  rewrite rbind_ret. destruct (answer _ _ _ _ _ _) as [st' o']. by apply IH.
Qed.

(** ** What clients send and are sent *)

Inductive GpuRequest :=
| LoadModel (model_id : Z) (onnx_path : bytes)
| Infer (model_id num_tensors batch_size : Z) (data : bytes)
| OtherRequest (op : Z) (body : bytes).

Section Protocol.
Context (h : endian) (nan : Z → Z → Z) (build : bytes → built) (queues : Z) (turns : nat → Turn).

(** Payload members are in the host's order. *)
Definition payload_of (r : GpuRequest) : bytes :=
  match r with
  | LoadModel id path => mem_store h 4 id ++ path
  | Infer id tensors batch data => mem_store h 4 id ++ mem_store h 4 tensors ++ mem_store h 4 batch ++ data
  | OtherRequest _ body => body
  end.

Definition opcode_of (r : GpuRequest) : Z :=
  match r with
  | LoadModel _ _ => PacketOpcode_u8 LOAD_MODEL
  | Infer _ _ _ _ => PacketOpcode_u8 EXECUTE_INFERENCE
  | OtherRequest op _ => op
  end.

Definition request_ok (r : GpuRequest) : Prop :=
  is_uint 32 (zlen (payload_of r)) ∧
  match r with
  | LoadModel id _ | Infer id _ _ _ => is_uint 32 id
  | OtherRequest op _ => is_uint 8 op ∧ op ≠ 1 ∧ op ≠ 2
  end.

(** No engine of a model it loads fails to be deserialised. *)
Definition loadable (r : GpuRequest) : Prop :=
  match r with LoadModel _ path => build (c_str path) ≠ NullEngine | _ => True end.

(** A request as the server reads it: the header's numbers are in network
    order, the payload's are not. *)
Definition gpu_frame (r : GpuRequest) : bytes :=
  store_be 4 MAGIC_ADI1 ++ store_be 4 (zlen (payload_of r)) ++ store_be 1 (opcode_of r) ++ store_be 3 0 ++
  payload_of r.

(** The response of adi_tensor_protocol.h: 20 bytes of header, then the payload. *)
Definition gpu_packet (ts seq type status : Z) (payload : bytes) : bytes :=
  store_be 8 ts ++ store_be 4 seq ++ store_be 1 type ++ store_be 1 status ++ store_be 2 0 ++
  store_be 4 (zlen payload) ++ payload.

(** The delta packet, when there is a previous result of the same size. *)
Definition delta_packet (ts seq : Z) (previous current : list Z) : bytes :=
  if bool_decide (previous = []) || negb (zlen previous =? zlen current) then []
  else gpu_packet ts seq 1 0 (bytes_of_floats h (zip_with (fsub32 nan) current previous)).

(** What a client is sent for its requests from turn [n] on, with number [seq]
    next and the previous result's floats. *)
Fixpoint replies (n : nat) (seq : Z) (previous : list Z) (rs : list GpuRequest) : bytes :=
  match rs with
  | [] => []
  | LoadModel _ path :: rs =>
      gpu_packet 0 seq 0 (match build (c_str path) with Built _ => 0 | _ => 1 end) [] ++
      replies (S n) (seq + 1) previous rs
  | Infer id _ _ data :: rs =>
      let out := output (turns n) (mkTask id data) in
      gpu_packet (clock (turns n)) seq 0 (if bool_decide (out = []) then 2 else 0) out ++
      delta_packet (clock (turns n)) seq previous (floats_of h out) ++
      replies (S n) (seq + 1) (floats_of h out) rs
  | OtherRequest _ _ :: rs => replies (S n) seq previous rs
  end.

(** The tasks it queues, with the queue of each. *)
Fixpoint queued (n : nat) (rs : list GpuRequest) : list (Z * InferenceTask) :=
  match rs with
  | [] => []
  | Infer id _ _ data :: rs => (wrap 32 (counter (turns n)) mod queues, mkTask id data) :: queued (S n) rs
  | _ :: rs => queued (S n) rs
  end.

(** The table after a load that returns. *)
Definition load_model (mgr : ModelManager) (id : Z) (path : bytes) : ModelManager :=
  match loadOnnxModel build mgr id path with Ok (_, mgr) => mgr | _ => mgr end.

(** The table of models as it finds and leaves it. *)
Fixpoint models_after (n : nat) (mgr : ModelManager) (rs : list GpuRequest) : ModelManager :=
  match rs with
  | [] => mgr
  | LoadModel id path :: rs => models_after (S n) (load_model (others (turns n) mgr) id path) rs
  | _ :: rs => models_after (S n) (others (turns n) mgr) rs
  end.

(** Each header arrives in one piece. *)
Fixpoint headers_whole (rs : list GpuRequest) (a : list arrival) : bool :=
  match rs with
  | [] => true
  | r :: rs =>
      match a with
      | [] => true
      | Available n :: a =>
          (RequestHeader_size <=? n) &&
          match after_bytes (zlen (payload_of r)) a with Some a => headers_whole rs a | None => false end
      | _ => false
      end
  end.

Lemma response_header r payload :
  resp_payload_len r = zlen payload →
  response_bytes h r ++ payload = gpu_packet (timestamp_ns r) (resp_sequence_id r) (packet_type r) (status_code r) payload.
Proof.
  intros Hl. unfold response_bytes, gpu_packet, htonl. rewrite !mem_store_hton, !mem_store_1, Hl.
  rewrite <- !app_assoc. do 4 f_equal. by destruct h.
Qed.

Lemma write_whole o data : departures o = [] → write o data = mkOutlet (sent o ++ data) [].
Proof.
  intros Hd. unfold write, send. rewrite Hd. cbn [snd]. unfold zlen. by rewrite Nat2Z.id, firstn_all.
Qed.

Lemma header_frame r :
  request_ok r → header_of h (firstn 12 (gpu_frame r)) = mkHeader MAGIC_ADI1 (zlen (payload_of r)) (opcode_of r).
Proof.
  intros [Hlen Hop]. unfold gpu_frame.
  set (l := zlen (payload_of r)) in *. set (p := payload_of r).
  assert (firstn 12 (store_be 4 MAGIC_ADI1 ++ store_be 4 l ++ store_be 1 (opcode_of r) ++ store_be 3 0 ++ p)
    = store_be 4 MAGIC_ADI1 ++ store_be 4 l ++ store_be 1 (opcode_of r) ++ store_be 3 0) as ->.
  { change 12%nat with (length (store_be 4 MAGIC_ADI1 ++ store_be 4 l ++ store_be 1 (opcode_of r) ++ store_be 3 0)) at 1.
    rewrite !app_assoc. by rewrite take_app_length. }
  set (m := store_be 4 MAGIC_ADI1). set (x := store_be 4 l). set (c := store_be 1 (opcode_of r)).
  unfold header_of.
  assert (slice (m ++ x ++ c ++ store_be 3 0) 0 4 = m) as ->
    by (apply (slice_app [] m (x ++ c ++ store_be 3 0))).
  assert (slice (m ++ x ++ c ++ store_be 3 0) 4 4 = x) as ->
    by (apply (slice_app m x (c ++ store_be 3 0))).
  assert (slice (m ++ x ++ c ++ store_be 3 0) 8 1 = c) as ->
    by (pose proof (slice_app (m ++ x) c (store_be 3 0)) as H; rewrite <- app_assoc in H; exact H).
  unfold ntohl. rewrite !hton_mem_load_z, mem_load_1 by done. unfold m, x, c.
  f_equal; apply load_store_be_uint; [done|].
  destruct r; cbn in Hop |- *; [done..|]. apply Hop.
Qed.

Lemma frame_split r : ∃ hd, gpu_frame r = hd ++ payload_of r ∧ length hd = 12%nat ∧ firstn 12 (gpu_frame r) = hd.
Proof.
  set (hd := store_be 4 MAGIC_ADI1 ++ store_be 4 (zlen (payload_of r)) ++ store_be 1 (opcode_of r) ++ store_be 3 0).
  assert (gpu_frame r = hd ++ payload_of r) as E by (unfold gpu_frame, hd; by rewrite <- !app_assoc).
  assert (length hd = 12%nat) as Hl by done. exists hd. split; [done|]. split; [done|].
  rewrite E, <- Hl. apply take_app_length.
Qed.

(** A header in one piece is read whole. *)
Lemma read_header_whole stack r rest a :
  request_ok r →
  match a with [] => True | Available n :: _ => RequestHeader_size ≤ n | _ => False end →
  read_header h stack (mkSocket (gpu_frame r ++ rest) a)
    = (Some (mkHeader MAGIC_ADI1 (zlen (payload_of r)) (opcode_of r)), mkSocket (payload_of r ++ rest) (tl a)).
Proof.
  intros Hr Ha. destruct (frame_split r) as (hd & E & Hl & Hhd). pose proof (header_frame r Hr) as Hh.
  rewrite Hhd in Hh. unfold read_header.
  assert (recv (mkSocket (gpu_frame r ++ rest) a) RequestHeader_size = (Got hd, mkSocket (payload_of r ++ rest) (tl a))) as ->.
  { assert (∀ rest', deliver (mkSocket (gpu_frame r ++ rest) a) RequestHeader_size rest'
              = (Got hd, mkSocket (payload_of r ++ rest) rest')) as Hd.
    { intros rest'. unfold deliver. cbn [inbox]. rewrite E. rewrite bool_decide_eq_false_2.
      - change (Z.to_nat RequestHeader_size) with 12%nat. rewrite <- Hl, <- app_assoc, take_app_length, drop_app_length. done.
      - destruct hd; [done|discriminate]. }
    unfold recv. cbn [arrivals]. destruct a as [|[n| |] a]; [apply Hd| |done..]. cbn [tl].
    change RequestHeader_size with 12 in *. rewrite Z.min_r by lia. apply Hd. }
  assert (firstn 12 (hd ++ skipn (length hd) stack) = hd) as -> by (rewrite <- Hl; apply take_app_length).
  by rewrite Hh.
Qed.

Lemma write_packet o r payload :
  departures o = [] → resp_payload_len r = zlen payload →
  write (write o (response_bytes h r)) payload =
    mkOutlet (sent o ++ gpu_packet (timestamp_ns r) (resp_sequence_id r) (packet_type r) (status_code r) payload) [].
Proof.
  intros Ho Hl. rewrite (write_whole o), write_whole by done. cbn [sent].
  by rewrite <- app_assoc, response_header.
Qed.

Lemma gpu_packet_wrap ts seq type status payload :
  gpu_packet ts (wrap 32 seq) type status payload = gpu_packet ts seq type status payload.
Proof.
  unfold gpu_packet, wrap. change (2 ^ 32) with (256 ^ Z.of_nat 4). by rewrite store_be_mod.
Qed.

Lemma zlen_floats fs : zlen (bytes_of_floats h fs) = zlen fs * 4.
Proof.
  unfold bytes_of_floats. induction fs as [|f fs IH]; [done|]. rewrite fmap_cons. cbn [concat].
  rewrite zlen_app, IH, zlen_cons. unfold zlen at 1. rewrite length_mem_store. lia.
Qed.

Lemma answer_whole ts out st o seq :
  departures o = [] → sequence_id st = wrap 32 seq →
  answer h nan ts out st o =
    (mkClientState (wrap 32 (seq + 1)) (floats_of h out),
     mkOutlet (sent o ++ gpu_packet ts seq 0 (if bool_decide (out = []) then 2 else 0) out ++
                 delta_packet ts seq (last_result_frame st) (floats_of h out)) []).
Proof.
  intros Ho Hseq. unfold answer. rewrite Hseq, wrap_add_l, (write_packet o) by done.
  cbn [timestamp_ns resp_sequence_id packet_type status_code]. rewrite gpu_packet_wrap.
  assert ((zlen out =? 0) = bool_decide (out = [])) as ->.
  { case_bool_decide as Hout; [by subst|]. apply Z.eqb_neq. unfold zlen. destruct out; [done|cbn [length]; lia]. }
  set (p := gpu_packet ts seq 0 _ out). unfold delta_packet. f_equal.
  assert ((zlen (last_result_frame st) =? 0) = bool_decide (last_result_frame st = [])) as ->.
  { case_bool_decide as Hf; [by rewrite Hf|]. apply Z.eqb_neq. unfold zlen.
    destruct (last_result_frame st); [done|cbn [length]; lia]. }
  case_bool_decide; cbn [negb andb orb]; [by rewrite app_nil_r|].
  destruct (zlen (last_result_frame st) =? _) eqn:E; cbn [negb]; [|by rewrite app_nil_r].
  apply Z.eqb_eq in E. set (delta := zip_with _ _ _).
  rewrite write_packet; [|done|].
  - cbn [timestamp_ns resp_sequence_id packet_type status_code sent]. by rewrite gpu_packet_wrap, <- app_assoc.
  - cbn [resp_payload_len]. symmetry. apply zlen_floats.
Qed.

Lemma mem_load_store n v : is_uint (8 * Z.of_nat n) v → mem_load h (mem_store h n v) = v.
Proof.
  intros Hv. unfold mem_load, mem_store. destruct h; [|by apply load_store_be_uint].
  rewrite load_store_le, pow256_bits. by apply Z.mod_small.
Qed.

Lemma load_request_whole mgr id path st o seq :
  is_uint 32 id → build (c_str path) ≠ NullEngine → departures o = [] → sequence_id st = wrap 32 seq →
  load_request h build mgr (mem_store h 4 id ++ path) st o =
    Ok (load_model mgr id path, mkClientState (wrap 32 (seq + 1)) (last_result_frame st),
        mkOutlet (sent o ++ gpu_packet 0 seq 0 (match build (c_str path) with Built _ => 0 | _ => 1 end) []) []).
Proof.
  intros Hid Hbuild Ho Hseq. pose proof (length_mem_store h 4 id) as Hl. unfold load_request.
  rewrite zlen_app. pose proof (zlen_nonneg path). rewrite (proj2 (Z.ltb_ge _ _)) by (unfold zlen in *; lia).
  pose proof (slice_app [] (mem_store h 4 id) path) as Hs. cbn [app] in Hs.
  change (zlen []) with 0 in Hs. replace (zlen (mem_store h 4 id)) with 4 in Hs by (unfold zlen; lia).
  rewrite Hs, mem_load_store by done.
  assert (skipn 4 (mem_store h 4 id ++ path) = path) as -> by (rewrite <- Hl at 1; apply drop_app_length).
  unfold load_model, loadOnnxModel. rewrite Hseq, wrap_add_l.
  destruct (build (c_str path)) as [| |e]; [|done|]; rewrite rbind_ret;
    rewrite write_whole, <- (app_nil_r (response_bytes _ _)), response_header by done;
    cbn [timestamp_ns resp_sequence_id packet_type status_code]; by rewrite gpu_packet_wrap.
Qed.

Lemma execute_request_whole t id tensors batch data :
  is_uint 32 id → queues ≠ 0 →
  execute_request h queues t (mem_store h 4 id ++ mem_store h 4 tensors ++ mem_store h 4 batch ++ data) =
    Ok (wrap 32 (counter t) mod queues, mkTask id data).
Proof.
  intros Hid Hq. set (hd := mem_store h 4 id ++ mem_store h 4 tensors ++ mem_store h 4 batch).
  assert (mem_store h 4 id ++ mem_store h 4 tensors ++ mem_store h 4 batch ++ data = hd ++ data) as ->
    by (unfold hd; by rewrite <- !app_assoc).
  assert (length hd = 12%nat) as Hl by (unfold hd; by rewrite !length_app, !length_mem_store).
  unfold execute_request. rewrite zlen_app. pose proof (zlen_nonneg data). change InferenceHeader_size with 12.
  rewrite (proj2 (Z.ltb_ge _ _)) by (unfold zlen in *; lia). rewrite (proj2 (Z.eqb_neq _ _) Hq).
  assert (skipn (Z.to_nat 12) (hd ++ data) = data) as -> by (change (Z.to_nat 12) with 12%nat; rewrite <- Hl; apply drop_app_length).
  pose proof (slice_app [] (mem_store h 4 id) (mem_store h 4 tensors ++ mem_store h 4 batch ++ data)) as Hs.
  cbn [app] in Hs. change (zlen []) with 0 in Hs.
  replace (zlen (mem_store h 4 id)) with 4 in Hs by (unfold zlen; by rewrite length_mem_store).
  unfold hd. rewrite <- !app_assoc, Hs, mem_load_store by done. done.
Qed.

Lemma client_loop_served rs : ∀ fuel n mgr pushed s o st seq,
  Forall request_ok rs → Forall loadable rs → queues ≠ 0 →
  inbox s = concat (gpu_frame <$> rs) → headers_whole rs (arrivals s) = true →
  departures o = [] → sequence_id st = wrap 32 seq → (length rs < fuel)%nat →
  client_loop h nan build queues turns fuel n mgr pushed s o st =
    Ok (models_after n mgr rs, pushed ++ queued n rs,
        mkOutlet (sent o ++ replies n seq (last_result_frame st) rs) []).
Proof.
  induction rs as [|r rs IH]; intros [|fuel] n mgr pushed [inb a] o st seq Hrs Hload Hq Hin Ha Ho Hseq Hfuel;
    cbn [length] in Hfuel; try lia; cbn [inbox arrivals] in Hin, Ha; subst inb; cbn [client_loop].
  { assert (read_header h (stack (turns n)) (mkSocket (concat (gpu_frame <$> [])) a)
      = (None, (read_header h (stack (turns n)) (mkSocket (concat (gpu_frame <$> [])) a)).2)) as ->.
    { unfold read_header, recv. by destruct a as [|[| |] a]. }
    cbn [models_after queued replies]. rewrite !app_nil_r, <- Ho. by destruct o. }
  apply Forall_cons in Hrs as [Hr Hrs]. apply Forall_cons in Hload as [Hl Hload]. rewrite fmap_cons. cbn [concat].
  rewrite read_header_whole; [|done|by destruct a as [|[k| |] a]; [|apply andb_true_iff in Ha as [Ha _]; lia|..]].
  cbn [magic payload_len opcode]. change (negb (MAGIC_ADI1 =? MAGIC_ADI1)) with false. cbv iota.
  assert (∃ a', after_bytes (zlen (payload_of r)) (tl a) = Some a' ∧ headers_whole rs a' = true) as (a' & Ha1 & Ha2).
  { cbn [headers_whole] in Ha. destruct a as [|[k| |] a]; try done; cbn [tl].
    - exists []. split; [unfold after_bytes; by destruct (_ <=? 0)|by destruct rs].
    - apply andb_true_iff in Ha as [_ Ha]. destruct (after_bytes _ _) as [a'|]; [by exists a'|done]. }
  rewrite (read_exact_after _ _ _ a'), rbind_ret by done.
  assert (∀ mgr pushed o st seq, departures o = [] → sequence_id st = wrap 32 seq →
    client_loop h nan build queues turns fuel (S n) mgr pushed (mkSocket (concat (gpu_frame <$> rs)) a') o st =
      Ok (models_after (S n) mgr rs, pushed ++ queued (S n) rs,
          mkOutlet (sent o ++ replies (S n) seq (last_result_frame st) rs) [])) as Hnext.
  { intros. apply IH; [done..|lia]. }
  clear IH. destruct Hr as [Hlen Hid]. destruct r as [id path|id tensors batch data|op body];
    cbn [opcode_of payload_of models_after queued replies].
  - rewrite (load_request_whole _ _ _ _ _ seq) by done. change (PacketOpcode_u8 LOAD_MODEL =? PacketOpcode_u8 LOAD_MODEL) with true.
    cbv iota. rewrite rbind_ret. rewrite (Hnext _ _ _ _ (seq + 1)) by done. cbn [sent last_result_frame].
    by rewrite <- app_assoc.
  - change (PacketOpcode_u8 EXECUTE_INFERENCE =? PacketOpcode_u8 LOAD_MODEL) with false.
    change (PacketOpcode_u8 EXECUTE_INFERENCE =? PacketOpcode_u8 EXECUTE_INFERENCE) with true. cbv iota.
    rewrite execute_request_whole, rbind_ret, (answer_whole _ _ _ _ seq) by done.
    rewrite (Hnext _ _ _ _ (seq + 1)) by done. cbn [sent last_result_frame]. by rewrite <- !app_assoc.
  - destruct Hid as (_ & H1 & H2). cbn [PacketOpcode_u8].
    rewrite (proj2 (Z.eqb_neq _ _) H1), (proj2 (Z.eqb_neq _ _) H2). by apply Hnext.
Qed.

End Protocol.

Lemma frames_length h rs : (length rs ≤ length (concat (gpu_frame h <$> rs)))%nat.
Proof.
  induction rs as [|r rs IH]; [done|]. rewrite fmap_cons. cbn [concat length]. rewrite length_app.
  destruct (frame_split h r) as (hd & -> & Hl & _). rewrite length_app. lia.
Qed.

Lemma queued_in_range queues turns rs : ∀ n,
  0 < queues → Forall (λ x, 0 ≤ x.1 < queues) (queued queues turns n rs).
Proof.
  induction rs as [|[] rs IH]; intros n Hq; cbn [queued]; [done|by apply IH| |by apply IH].
  constructor; [|by apply IH]. by apply Z.mod_pos_bound.
Qed.

(** ** Theorems *)

Section Theorems.
Context (h : endian) (nan : Z → Z → Z) (build : bytes → built) (queues : Z) (turns : nat → Turn).

(** C26: A client of the GPU runtime server that sends requests as the server
    reads them (a 12-byte header with big-endian numbers, and payload members in
    the host's byte order), whose headers arrive in one piece each and the
    payloads in any, and all of whose packets can be written whole, gets the
    server's packets in order: a status for each model it loads, for each
    inference a primary packet with the task's output (status 2 where it is
    empty) and, when the previous result had as many floats, a delta packet with
    the differences, numbered by the requests answered so far; every other
    opcode, VECTOR_TRANSFORM and UNLOAD_MODEL included, gets nothing.  Its tasks
    go to queues that exist, with its model and its bytes, and its models are in
    the table.  No engine it loads fails to be deserialised. *)
Theorem gpu_client_served rs mgr s o :
  0 < queues → Forall (request_ok h) rs → Forall (loadable build) rs →
  inbox s = concat (gpu_frame h <$> rs) → headers_whole h rs (arrivals s) = true → departures o = [] →
  ∃ o', handle_client h nan build queues turns mgr s o =
          Ok (models_after build turns 0 mgr rs, queued queues turns 0 rs, o') ∧
    sent o' = sent o ++ replies h nan build turns 0 0 [] rs ∧
    Forall (λ x, 0 ≤ x.1 < queues) (queued queues turns 0 rs).
Proof.
  intros Hq Hrs Hload Hin Ha Ho. eexists. split; [|split].
  - apply (client_loop_served h nan build queues turns rs _ 0 mgr [] s o _ 0); try done; [lia|].
    rewrite Hin. pose proof (frames_length h rs). lia.
  - done.
  - by apply queued_in_range.
Qed.

End Theorems.

(** ** Sample clients *)

(** Turn [n] at time [1000 n], with two floats as the output of a task. *)
Definition sample_turns (n : nat) : Turn :=
  mkTurn (replicate 12 Byte.x00) id (Z.of_nat n) (1000 * Z.of_nat n)
    (λ task, bytes_of_floats LittleEndian [0x40000000; if zlen (input_payload task) =? 12 then 0x3f800000 else 0]).

Definition sample_requests : list GpuRequest :=
  [LoadModel 7 (str "m.onnx"); Infer 7 1 1 (replicate 12 Byte.x00); OtherRequest 3 (str "bye");
   Infer 7 1 1 (replicate 16 Byte.x00)].

Definition sample_stream : bytes := concat (gpu_frame LittleEndian <$> sample_requests).

Lemma gpu_client_served_witness :
  ∃ o', handle_client LittleEndian (λ _ _, 0) sample_build 2 sample_turns no_models
          (mkSocket sample_stream [Available 12; Available 3; Available 100; Available 12; Available 1]) (mkOutlet [] []) =
        Ok (models_after sample_build sample_turns 0 no_models sample_requests,
            [(1, mkTask 7 (replicate 12 Byte.x00)); (1, mkTask 7 (replicate 16 Byte.x00))], o') ∧
    sent o' =
      gpu_packet 0 0 0 0 [] ++
      gpu_packet 1000 1 0 0 (bytes_of_floats LittleEndian [0x40000000; 0x3f800000]) ++
      gpu_packet 3000 2 0 0 (bytes_of_floats LittleEndian [0x40000000; 0]) ++
      gpu_packet 3000 2 1 0 (bytes_of_floats LittleEndian [0; 0xbf800000]).
Proof.
  destruct (gpu_client_served LittleEndian (λ _ _, 0) sample_build 2 sample_turns sample_requests no_models
    (mkSocket sample_stream [Available 12; Available 3; Available 100; Available 12; Available 1]) (mkOutlet [] []))
    as (o' & E & Hs & _).
  - done.
  - repeat (apply Forall_cons; split; [vm_compute; repeat split; done|]). apply Forall_nil; done.
  - repeat (apply Forall_cons; split; [vm_compute; done|]). apply Forall_nil; done.
  - done.
  - vm_compute. reflexivity.
  - done.
  - exists o'. split; [exact E|]. rewrite Hs. vm_compute. reflexivity.
Defined.

(** A header that arrives in two pieces ends the connection. *)
Example split_header :
  handle_client LittleEndian (λ _ _, 0) sample_build 2 sample_turns no_models
    (mkSocket sample_stream [Available 3]) (mkOutlet [] []) = Ok (no_models, [], mkOutlet [] []).
Proof. vm_compute. reflexivity. Qed.

(** Payloads shorter than their opcode needs are read out of bounds. *)
Example short_payloads :
  handle_client LittleEndian (λ _ _, 0) sample_build 2 sample_turns no_models
    (mkSocket (store_be 4 MAGIC_ADI1 ++ store_be 4 3 ++ store_be 1 1 ++ store_be 3 0 ++ str "abc") []) (mkOutlet [] [])
    = OutOfBounds ∧
  handle_client LittleEndian (λ _ _, 0) sample_build 2 sample_turns no_models
    (mkSocket (store_be 4 MAGIC_ADI1 ++ store_be 4 8 ++ store_be 1 2 ++ store_be 3 0 ++ str "abcdefgh") []) (mkOutlet [] [])
    = OutOfBounds.
Proof. split; vm_compute; reflexivity. Qed.
