(* ===== verification/GpuLanes.v ===== *)
(** * The workers of the GPU runtime server (src/gpu_runtime_server.cpp)

    One worker thread per GPU polls sixteen lanes, each with its stream, its
    execution context and its device buffers, and starts queued tasks on free
    ones.  A worker's turn at a lane is one step; between the turns clients
    queue tasks and load models.  When a stream has finished, whether TensorRT
    creates a context and what fresh device memory holds are parameters, as is
    what a run of an engine does (GpuModels.v); a failing CUDA call ends the
    process, so the calls here succeed.  The access of the worker and the clients
    to the table of models is not synchronised in the code; here it is atomic. *)

From S2P Require Import Prelude Numbers Wire GpuModels GpuSession.

Definition NUM_STREAMS_PER_GPU : nat := 16.

(** ** State *)

(** A task with the ticket that stands for its promise. *)
Definition ticketed : Type := nat * InferenceTask.

(** [context] is the address of the engine the execution context belongs to;
    the buffers are on the device. *)
Record Lane := mkLane {
  context : option Z;
  active_model_id : Z;
  d_input : bytes;
  d_output : bytes;
  input_cap : Z;
  output_cap : Z;
  current_task : ticketed;
  output_size : Z;
  in_flight : bool;
}.

Definition new_lane : Lane := mkLane None 0 [] [] 0 0 (0%nat, mkTask 0 []) 0 false.

Record Worker := mkWorker {
  lanes : list Lane;
  queue : list ticketed;
  answered : list (nat * bytes);
}.

Definition new_worker : Worker := mkWorker (replicate NUM_STREAMS_PER_GPU new_lane) [] [].

(** The engine at an address, while a model of the table holds it. *)
Definition find_engine (mgr : ModelManager) (a : Z) : option Engine :=
  head (omap (λ x : Z * TrtModelInstance, if engine_at x.2 =? a then Some (engine x.2) else None)
          (map_to_list (models_ mgr))).

(** ** A worker's turn at a lane *)

(** A stream that has finished: its engine must still exist. *)
Definition complete (mgr : ModelManager) (finished : bool) (l : Lane) : result (option (nat * bytes) * Lane) :=
  if in_flight l && finished then
    match context l ≫= find_engine mgr with
    | None => OutOfBounds
    | Some _ =>
        if zlen (d_output l) <? output_size l then OutOfBounds
        else
          Ok (Some ((current_task l).1, firstn (Z.to_nat (output_size l)) (d_output l)),
              mkLane (context l) (active_model_id l) (d_input l) (d_output l) (input_cap l) (output_cap l)
                (current_task l) (output_size l) false)
    end
  else Ok (None, l).

(** What a turn meets: whether TensorRT creates a context, and what [cudaMalloc]
    returns. *)
Record Cuda := mkCuda { created : bool; cudaMalloc : Z → bytes }.

(** TensorRT creates contexts, and device memory has the size asked for. *)
Definition cuda_ok (c : Cuda) : Prop := created c = true ∧ ∀ n, 0 ≤ n → zlen (cudaMalloc c n) = n.

(** The lane's context for a model.  An old context is deleted, and its engine
    must still exist. *)
Definition context_for (mgr : ModelManager) (c : Cuda) (l : Lane) (id : Z) (m : TrtModelInstance)
    : result (option Z) :=
  if negb (active_model_id l =? id) || bool_decide (context l = None) then
    match context l with
    | Some a =>
        if find_engine mgr a then Ok (if created c then Some (engine_at m) else None) else OutOfBounds
    | None => Ok (if created c then Some (engine_at m) else None)
    end
  else Ok (context l).

Definition overwrite (data buffer : bytes) : bytes := data ++ skipn (length data) buffer.

(** The two loops of [setTensorAddress]: every input is at the input buffer and
    every output at the output buffer. *)
Definition setTensorAddress (at_buffer : buffer) (a : gmap bytes buffer) (b : TrtBinding) : gmap bytes buffer :=
  <[binding_name b := at_buffer]> a.
Definition addresses (m : TrtModelInstance) : gmap bytes buffer :=
  fold_left (setTensorAddress OutputBuffer) (output_bindings m)
    (fold_left (setTensorAddress InputBuffer) (input_bindings m) ∅).

(** A tensor's bytes lie in the buffer at its address. *)
Definition tensor_fits (a : gmap bytes buffer) (d_in d_out : bytes) (t : IoTensor) : bool :=
  match a !! io_name t with
  | Some InputBuffer => io_bytes t <=? zlen d_in
  | Some OutputBuffer => io_bytes t <=? zlen d_out
  | None => true
  end.

(** [enqueueV3], whose result is ignored, up to the end of the stream: what the
    output buffer holds then.  A run that fails leaves it; one that needs more
    than the buffers is undefined. *)
Definition enqueue (e : Engine) (a : gmap bytes buffer) (d_in d_out : bytes) : result bytes :=
  match enqueueV3 e a d_in d_out with
  | None => Ok d_out
  | Some written =>
      if forallb (tensor_fits a d_in d_out) (io_tensors e) && (zlen written <=? zlen d_out)
      then Ok (overwrite written d_out) else OutOfBounds
  end.

(** Copy the input, set the addresses, enqueue on the context's engine. *)
Definition launch (mgr : ModelManager) (c : Cuda) (l : Lane) (t : ticketed) (m : TrtModelInstance)
    : result Lane :=
  let id := task_model_id t.2 in
  ctx <-! context_for mgr c l id m;;
  let '(d_in, in_cap) := if input_cap l <? total_input_bytes m
                         then (cudaMalloc c (total_input_bytes m), total_input_bytes m)
                         else (d_input l, input_cap l) in
  let '(d_out, out_cap) := if output_cap l <? total_output_bytes m
                           then (cudaMalloc c (total_output_bytes m), total_output_bytes m)
                           else (d_output l, output_cap l) in
  if zlen (input_payload t.2) <? total_input_bytes m then OutOfBounds
  else
    let d_in := overwrite (firstn (Z.to_nat (total_input_bytes m)) (input_payload t.2)) d_in in
    match ctx ≫= find_engine mgr with
    | None => OutOfBounds
    | Some e =>
        d_out <-! enqueue e (addresses m) d_in d_out;;
        Ok (mkLane ctx id d_in d_out in_cap out_cap t (total_output_bytes m) true)
    end.

(** A task for an unknown model is answered at once with nothing. *)
Definition start (mgr : ModelManager) (c : Cuda) (l : Lane) (q : list ticketed)
    : result (option (nat * bytes) * list ticketed * Lane) :=
  if in_flight l then Ok (None, q, l)
  else
    match q with
    | [] => Ok (None, q, l)
    | t :: q =>
        match getModel mgr (task_model_id t.2) with
        | None => Ok (Some (t.1, []), q, l)
        | Some m => l <-! launch mgr c l t m;; Ok (None, q, l)
        end
    end.

Definition poll_lane (mgr : ModelManager) (finished : bool) (w : Worker) (i : nat) : result Worker :=
  match lanes w !! i with
  | None => OutOfBounds
  | Some l =>
      '(a, l) <-! complete mgr finished l;;
      Ok (mkWorker (<[i := l]> (lanes w)) (queue w) (answered w ++ option_list a))
  end.

Definition fill_lane (mgr : ModelManager) (c : Cuda) (w : Worker) (i : nat) : result Worker :=
  match lanes w !! i with
  | None => OutOfBounds
  | Some l =>
      '(a, q, l) <-! start mgr c l (queue w);;
      Ok (mkWorker (<[i := l]> (lanes w)) q (answered w ++ option_list a))
  end.

Fixpoint for_lanes (turn : Worker → nat → result Worker) (order : list nat) (w : Worker) : result Worker :=
  match order with
  | [] => Ok w
  | i :: order => w <-! turn w i;; for_lanes turn order w
  end.

(** The body of the worker's loop, with what it meets by lane. *)
Definition worker_pass (mgr : ModelManager) (finished : nat → bool) (c : nat → Cuda) (w : Worker) : result Worker :=
  w <-! for_lanes (λ w i, poll_lane mgr (finished i) w i) (seq 0 NUM_STREAMS_PER_GPU) w;;
  for_lanes (λ w i, fill_lane mgr (c i) w i) (seq 0 NUM_STREAMS_PER_GPU) w.

(** ** The worker among its clients *)

(** Where the worker is in its loop. *)
Inductive place := Polling (i : nat) | Filling (i : nat).

Definition next_place (p : place) : place :=
  match p with
  | Polling i => if decide (S i < NUM_STREAMS_PER_GPU)%nat then Polling (S i) else Filling 0
  | Filling i => if decide (S i < NUM_STREAMS_PER_GPU)%nat then Filling (S i) else Polling 0
  end.

(** [pushed] are the tasks queued so far; a task's ticket is its index. *)
Record GpuState := mkGpu {
  manager : ModelManager;
  worker : Worker;
  at_place : place;
  pushed : list InferenceTask;
}.

Definition gpu_started : GpuState := mkGpu no_models new_worker (Polling 0) [].

Definition worker_turn (mgr : ModelManager) (finished : bool) (c : Cuda) (p : place) (w : Worker) : result Worker :=
  match p with Polling i => poll_lane mgr finished w i | Filling i => fill_lane mgr c w i end.

(** [TaskQueue::push]. *)
Definition push (w : Worker) (t : ticketed) : Worker := mkWorker (lanes w) (queue w ++ [t]) (answered w).

Section Steps.
Context (build : bytes → built).

(** Models are loaded under identifiers that are not in use; [reload_dangles]
    below shows what another load does. *)
Inductive gpu_step : GpuState → GpuState → Prop :=
| step_turn g finished c w :
    cuda_ok c → worker_turn (manager g) finished c (at_place g) (worker g) = Ok w →
    gpu_step g (mkGpu (manager g) w (next_place (at_place g)) (pushed g))
| step_push g task :
    gpu_step g (mkGpu (manager g) (push (worker g) (length (pushed g), task)) (at_place g) (pushed g ++ [task]))
| step_load g id path ok mgr :
    getModel (manager g) id = None → loadOnnxModel build (manager g) id path = Ok (ok, mgr) →
    gpu_step g (mkGpu mgr (worker g) (at_place g) (pushed g)).

End Steps.

(** ** Lanes *)

(** What TensorRT promises of an engine: a run writes no further than its output
    tensors. *)
Definition writes_outputs (e : Engine) : Prop :=
  ∀ a d_in d_out written, enqueueV3 e a d_in d_out = Some written →
    written = [] ∨ ∃ t, t ∈ io_tensors e ∧ io_is_input t = false ∧ zlen written ≤ io_bytes t.

Definition conforming (m : TrtModelInstance) : Prop :=
  is_uint 64 (total_input_bytes m) ∧ is_uint 64 (total_output_bytes m) ∧ writes_outputs (engine m) ∧
  ∀ t, t ∈ io_tensors (engine m) → addresses m !! io_name t = Some (if io_is_input t then InputBuffer else OutputBuffer).

Record mgr_ok (mgr : ModelManager) : Prop := {
  models_conform : ∀ id m, getModel mgr id = Some m → conforming m ∧ engine_at m < next_address mgr;
  engines_apart : ∀ id1 id2 m1 m2,
    getModel mgr id1 = Some m1 → getModel mgr id2 = Some m2 → engine_at m1 = engine_at m2 → id1 = id2;
}.

(** What a model's run delivers for a payload: the first bytes of the output
    buffer after the run, the input buffer beginning with the payload's bytes.
    What else the buffers held is left open. *)
Definition delivered (m : TrtModelInstance) (payload out : bytes) : Prop :=
  ∃ d_in d_out after,
    firstn (Z.to_nat (total_input_bytes m)) d_in = firstn (Z.to_nat (total_input_bytes m)) payload ∧
    total_input_bytes m ≤ zlen d_in ∧ total_output_bytes m ≤ zlen d_out ∧
    enqueue (engine m) (addresses m) d_in d_out = Ok after ∧
    out = firstn (Z.to_nat (total_output_bytes m)) after.

Record lane_ok (mgr : ModelManager) (l : Lane) : Prop := {
  input_fits : zlen (d_input l) = input_cap l;
  output_fits : zlen (d_output l) = output_cap l;
  context_live : ∀ a, context l = Some a → ∃ m, getModel mgr (active_model_id l) = Some m ∧ engine_at m = a;
  flight_ok : in_flight l = true →
    ∃ m, getModel mgr (task_model_id (current_task l).2) = Some m ∧ context l = Some (engine_at m) ∧
      output_size l = total_output_bytes m ∧ total_output_bytes m ≤ output_cap l ∧
      delivered m (input_payload (current_task l).2) (firstn (Z.to_nat (output_size l)) (d_output l));
}.

Lemma find_engine_ok mgr id m :
  mgr_ok mgr → getModel mgr id = Some m → find_engine mgr (engine_at m) = Some (engine m).
Proof.
  intros Hm Hid. unfold find_engine. set (f := λ x : Z * TrtModelInstance, _).
  assert (engine m ∈ omap f (map_to_list (models_ mgr))) as Hin.
  { apply list_elem_of_omap. exists (id, m). split; [by apply elem_of_map_to_list|].
    unfold f. cbn. by rewrite Z.eqb_refl. }
  destruct (omap f (map_to_list (models_ mgr))) as [|e l] eqn:E; [by apply not_elem_of_nil in Hin|].
  cbn [head]. assert (e ∈ e :: l) as He by left. rewrite <- E in He.
  apply list_elem_of_omap in He as ([id' m'] & Hin' & Hf). apply elem_of_map_to_list in Hin'.
  unfold f in Hf. cbn in Hf. destruct (Z.eqb_spec (engine_at m') (engine_at m)) as [Ha|]; [|done].
  assert (id' = id) as -> by (by apply (engines_apart _ Hm id' id m' m)).
  unfold getModel in Hid. congruence.
Qed.

Lemma new_lane_ok mgr : lane_ok mgr new_lane.
Proof. split; cbn; done. Qed.

Section LaneProofs.
Context (mgr : ModelManager).
Hypothesis Hmgr : mgr_ok mgr.

(** A finished stream delivers its model's answer; the turn never fails. *)
Lemma complete_ok finished l :
  lane_ok mgr l →
  ∃ a l', complete mgr finished l = Ok (a, l') ∧ lane_ok mgr l' ∧
    if in_flight l && finished then
      in_flight l' = false ∧ ∃ m, getModel mgr (task_model_id (current_task l).2) = Some m ∧
        ∃ out, a = Some ((current_task l).1, out) ∧ delivered m (input_payload (current_task l).2) out
    else a = None ∧ l' = l.
Proof.
  intros Hl. unfold complete. destruct (in_flight l && finished) eqn:E; [|by eexists _, _].
  apply andb_true_iff in E as [Hf _]. destruct (flight_ok _ _ Hl Hf) as (m & Hm & Hctx & Hsize & Hcap & Hout).
  rewrite Hctx. cbn [mbind option_bind]. rewrite (find_engine_ok mgr _ m Hmgr Hm).
  pose proof (output_fits _ _ Hl) as Ho. rewrite (proj2 (Z.ltb_ge _ _)) by lia.
  eexists _, _. split; [done|]. split.
  - destruct Hl as [H1 H2 H3 _]. split; cbn; [done..|intros a Ha; apply H3; congruence|done].
  - split; [done|]. exists m. split; [done|]. eexists. by split.
Qed.

Lemma overwrite_fits data buffer : zlen data ≤ zlen buffer → zlen (overwrite data buffer) = zlen buffer.
Proof. unfold overwrite, zlen. rewrite length_app, length_skipn. lia. Qed.

Lemma overwrite_take data buffer : firstn (length data) (overwrite data buffer) = data.
Proof. apply take_app_length. Qed.

Context (c : Cuda).
Hypothesis Hc : cuda_ok c.

Lemma context_for_ok l id m :
  lane_ok mgr l → getModel mgr id = Some m → context_for mgr c l id m = Ok (Some (engine_at m)).
Proof.
  intros Hl Hm. unfold context_for. rewrite (proj1 Hc). destruct (context l) as [a|] eqn:Ec; cycle 1.
  { by rewrite bool_decide_eq_true_2, orb_true_r by done. }
  destruct (context_live _ _ Hl a Ec) as (m' & Hm' & <-). rewrite bool_decide_eq_false_2, orb_false_r by done.
  destruct (Z.eqb_spec (active_model_id l) id) as [<-|Hid]; cbn [negb]; [congruence|].
  by rewrite (find_engine_ok mgr _ m' Hmgr Hm').
Qed.

(** The buffers after (re)allocation hold what the model needs. *)
Lemma grown buffer cap need :
  0 ≤ need → zlen buffer = cap →
  let '(b, n) := if cap <? need then (cudaMalloc c need, need) else (buffer, cap) in
  zlen b = n ∧ need ≤ n.
Proof.
  intros Hn Hb. destruct (Z.ltb_spec cap need); [|lia]. split; [|lia]. by apply Hc.
Qed.

(** A model one of whose tensors needs more than the bytes the code counted for
    all tensors that share its buffer. *)
Definition undersized (m : TrtModelInstance) : Prop :=
  ∃ t, t ∈ io_tensors (engine m) ∧
    (if io_is_input t then total_input_bytes m else total_output_bytes m) < io_bytes t.

Lemma enqueue_ok m d_in d_out :
  conforming m → total_input_bytes m ≤ zlen d_in → total_output_bytes m ≤ zlen d_out →
  match enqueue (engine m) (addresses m) d_in d_out with
  | Ok after => zlen after = zlen d_out
  | OutOfBounds => undersized m
  | _ => False
  end.
Proof.
  intros (_ & _ & Hw & Ha) Hin Hout. unfold enqueue. destruct (enqueueV3 _ _ _ _) as [written|] eqn:E; [|done].
  destruct (forallb _ _) eqn:Ef; cbn [andb].
  - destruct (Z.leb_spec (zlen written) (zlen d_out)); [by apply overwrite_fits|].
    destruct (Hw _ _ _ _ E) as [->|(t & Ht & Hti & Hlen)]; [change (zlen []) with 0 in *; pose proof (zlen_nonneg d_out); lia|].
    exists t. split; [done|]. rewrite Hti. lia.
  - assert (∃ t, t ∈ io_tensors (engine m) ∧ tensor_fits (addresses m) d_in d_out t = false) as (t & Ht & Hfit).
    { revert Ef. induction (io_tensors (engine m)) as [|t l IH]; [done|]. cbn [forallb].
      destruct (tensor_fits _ _ _ t) eqn:E1; cbn [andb]; [|exists t; split; [by left|done]].
      intros Ef. destruct (IH ltac:(intros; apply Ha; by right) Ef) as (t' & Ht' & ?). exists t'. split; [by right|done]. }
    exists t. split; [done|]. unfold tensor_fits in Hfit. rewrite (Ha t Ht) in Hfit.
    destruct (io_is_input t); apply Z.leb_gt in Hfit; lia.
Qed.

(** A task launches on its model, or its payload is too short, or the model is
    undersized. *)
Lemma launch_ok l t m :
  lane_ok mgr l → getModel mgr (task_model_id t.2) = Some m →
  match launch mgr c l t m with
  | Ok l' => lane_ok mgr l' ∧ in_flight l' = true ∧ current_task l' = t
  | OutOfBounds => zlen (input_payload t.2) < total_input_bytes m ∨ undersized m
  | _ => False
  end.
Proof.
  intros Hl Hm. destruct (models_conform _ Hmgr _ _ Hm) as [Hconf _]. pose proof Hconf as (Hin & Hout & _).
  unfold launch. rewrite (context_for_ok l _ m), rbind_ret by done.
  pose proof (grown (d_input l) (input_cap l) (total_input_bytes m) (proj1 Hin) (input_fits _ _ Hl)) as Hgi.
  pose proof (grown (d_output l) (output_cap l) (total_output_bytes m) (proj1 Hout) (output_fits _ _ Hl)) as Hgo.
  destruct (if input_cap l <? _ then _ else _) as [d_in in_cap].
  destruct (if output_cap l <? _ then _ else _) as [d_out out_cap].
  destruct Hgi as [Hi1 Hi2], Hgo as [Ho1 Ho2].
  destruct (Z.ltb_spec (zlen (input_payload t.2)) (total_input_bytes m)) as [|Hlong]; [by left|].
  cbv zeta. cbn [mbind option_bind]. rewrite (find_engine_ok mgr _ m Hmgr Hm).
  set (data := firstn (Z.to_nat (total_input_bytes m)) (input_payload t.2)).
  assert (zlen data = total_input_bytes m) as Hd by (apply zlen_firstn; destruct Hin; lia).
  assert (zlen (overwrite data d_in) = zlen d_in) as Hov by (apply overwrite_fits; lia).
  pose proof (enqueue_ok m (overwrite data d_in) d_out Hconf ltac:(lia) ltac:(lia)) as He.
  destruct (enqueue _ _ _ _) as [after| | |] eqn:Eq; [|done|by right|done]. rewrite rbind_ret. split; [|done].
  split; cbn [d_input d_output input_cap output_cap context active_model_id in_flight current_task output_size].
  - lia.
  - lia.
  - intros a [= <-]. by exists m.
  - intros _. exists m. split; [done|]. split; [done|]. split; [done|]. split; [done|].
    exists (overwrite data d_in), d_out, after. split_and!; try done; try lia.
    unfold data. rewrite <- Hd at 1. unfold zlen. rewrite Nat2Z.id. apply overwrite_take.
Qed.

(** What a turn with queue [q] takes from it. *)
Lemma start_ok l q :
  lane_ok mgr l →
  match start mgr c l q with
  | Ok (a, q', l') =>
      lane_ok mgr l' ∧
      if in_flight l then a = None ∧ q' = q ∧ l' = l
      else
        match q with
        | [] => a = None ∧ q' = [] ∧ l' = l
        | t :: rest =>
            q' = rest ∧
            match getModel mgr (task_model_id t.2) with
            | None => a = Some (t.1, []) ∧ l' = l
            | Some _ => a = None ∧ in_flight l' = true ∧ current_task l' = t
            end
        end
  | OutOfBounds =>
      ∃ t rest m, q = t :: rest ∧ getModel mgr (task_model_id t.2) = Some m ∧
        (zlen (input_payload t.2) < total_input_bytes m ∨ undersized m)
  | _ => False
  end.
Proof.
  intros Hl. unfold start. destruct (in_flight l); [done|]. destruct q as [|t rest]; [done|].
  destruct (getModel mgr (task_model_id t.2)) as [m|] eqn:Em; [|done].
  pose proof (launch_ok l t m Hl Em) as H. unfold rbind. destruct (launch mgr c l t m) as [l'| | |]; try done.
  { destruct H as (H1 & H2 & H3). split; [done|]. done. }
  by exists t, rest, m.
Qed.

End LaneProofs.

(** ** Tickets *)

Definition ticket_in (l : Lane) : list nat := if in_flight l then [(current_task l).1] else [].
Definition flying (ls : list Lane) : list nat := concat (ticket_in <$> ls).

Lemma flying_insert ls i l l' :
  ls !! i = Some l → flying (<[i := l']> ls) ++ ticket_in l ≡ₚ flying ls ++ ticket_in l'.
Proof.
  intros Hi. rewrite <- (take_drop_middle _ _ _ Hi) at 2. rewrite insert_take_drop by (by eapply lookup_lt_Some).
  unfold flying. rewrite !fmap_app, !fmap_cons, !concat_app. cbn [concat]. solve_Permutation.
Qed.

(** Every ticket is with a lane, in the queue or answered. *)
Definition tickets (w : Worker) : list nat := (answered w).*1 ++ flying (lanes w) ++ (queue w).*1.

Definition answer_ok (mgr : ModelManager) (pushed : list InferenceTask) (x : nat * bytes) : Prop :=
  ∃ task, pushed !! x.1 = Some task ∧
    (x.2 = [] ∨ ∃ m, getModel mgr (task_model_id task) = Some m ∧ delivered m (input_payload task) x.2).

Definition known (pushed : list InferenceTask) (t : ticketed) : Prop := pushed !! t.1 = Some t.2.

Record worker_ok (mgr : ModelManager) (pushed : list InferenceTask) (w : Worker) : Prop := {
  lane_count : length (lanes w) = NUM_STREAMS_PER_GPU;
  lanes_ok : Forall (lane_ok mgr) (lanes w);
  all_tickets : tickets w ≡ₚ seq 0 (length pushed);
  in_order : ∃ k, (k ≤ length pushed)%nat ∧ queue w = drop k (zip (seq 0 (length pushed)) pushed);
  flights_known : Forall (λ l, in_flight l = true → known pushed (current_task l)) (lanes w);
  answers_ok : Forall (answer_ok mgr pushed) (answered w);
}.

Lemma queue_known mgr pushed w : worker_ok mgr pushed w → Forall (known pushed) (queue w).
Proof.
  intros Hw. destruct (in_order _ _ _ Hw) as (k & _ & ->). apply Forall_drop, Forall_lookup. intros i [t task] Hi.
  apply lookup_zip_with_Some in Hi as (t' & task' & [= <- <-] & Ht & Htask). apply lookup_seq in Ht as [-> _].
  exact Htask.
Qed.

(** A task whose payload is shorter than its model's input, or whose model is
    undersized. *)
Definition unservable (mgr : ModelManager) (pushed : list InferenceTask) : Prop :=
  ∃ task m, task ∈ pushed ∧ getModel mgr (task_model_id task) = Some m ∧
    (zlen (input_payload task) < total_input_bytes m ∨ undersized m).

Section TurnProofs.
Context (mgr : ModelManager) (pushed : list InferenceTask).
Hypothesis Hmgr : mgr_ok mgr.

Lemma poll_lane_ok finished w i :
  worker_ok mgr pushed w → (i < NUM_STREAMS_PER_GPU)%nat →
  ∃ l l' a, lanes w !! i = Some l ∧ poll_lane mgr finished w i = Ok (mkWorker (<[i := l']> (lanes w)) (queue w) (answered w ++ option_list a)) ∧
    worker_ok mgr pushed (mkWorker (<[i := l']> (lanes w)) (queue w) (answered w ++ option_list a)) ∧
    in_flight l' = in_flight l && negb finished.
Proof.
  intros Hw Hi. rewrite <- (lane_count _ _ _ Hw) in Hi.
  destruct (lookup_lt_is_Some_2 _ _ Hi) as [l Hl]. pose proof (proj1 (Forall_lookup _ _) (lanes_ok _ _ _ Hw) _ _ Hl) as Hlok.
  destruct (complete_ok mgr Hmgr finished l Hlok) as (a & l' & Hc & Hl' & Hcase).
  exists l, l', a. split; [done|]. unfold poll_lane. rewrite Hl, Hc, rbind_ret. split; [done|].
  assert ((option_list a).*1 ++ ticket_in l' = ticket_in l ∧ Forall (answer_ok mgr pushed) (option_list a) ∧
    (in_flight l' = true → known pushed (current_task l')) ∧ in_flight l' = in_flight l && negb finished) as (Ht & Ha & Hk & Hf).
  { pose proof (proj1 (Forall_lookup _ _) (flights_known _ _ _ Hw) _ _ Hl) as Hkn. cbv beta in Hkn. unfold ticket_in.
    destruct (in_flight l) eqn:Ef, finished; cbn [andb negb] in *; destruct Hcase as [H1 H2].
    - destruct H2 as (m & Hm & out & -> & Hdel). rewrite H1. split; [done|]. split; [|done].
      apply Forall_singleton. exists (current_task l).2. split; [by apply Hkn|]. right. by exists m.
    - subst. rewrite Ef. split; [done|]. by split.
    - subst. rewrite Ef. by split.
    - subst. rewrite Ef. by split. }
  split; [|done]. destruct Hw as [H1 H2 H3 H4 H5 H6]. split; cbn [lanes queue answered].
  - by rewrite length_insert.
  - by apply Forall_insert.
  - rewrite <- H3. unfold tickets. cbn [lanes queue answered]. pose proof (flying_insert _ _ _ l' Hl) as Hp.
    rewrite fmap_app. rewrite <- Ht in Hp.
    assert (flying (<[i:=l']> (lanes w)) ++ (option_list a).*1 ≡ₚ flying (lanes w)) as Hp'.
    { apply (Permutation_app_inv_r (ticket_in l')). by rewrite <- app_assoc. }
    rewrite <- Hp'. solve_Permutation.
  - done.
  - by apply Forall_insert.
  - by apply Forall_app.
Qed.

Context (c : Cuda).
Hypothesis Hc : cuda_ok c.

(** A turn at a free lane takes the first task, if there is one, and starts or
    answers it. *)
Lemma fill_lane_ok w i :
  worker_ok mgr pushed w → (i < NUM_STREAMS_PER_GPU)%nat →
  match fill_lane mgr c w i with
  | Ok w' => worker_ok mgr pushed w' ∧
      ∃ l l', lanes w !! i = Some l ∧ lanes w' = <[i := l']> (lanes w) ∧
        queue w' = (if in_flight l then queue w else tl (queue w)) ∧ (queue w = [] → l' = l)
  | OutOfBounds => unservable mgr pushed
  | _ => False
  end.
Proof.
  intros Hw Hi. rewrite <- (lane_count _ _ _ Hw) in Hi.
  destruct (lookup_lt_is_Some_2 _ _ Hi) as [l Hl]. pose proof (proj1 (Forall_lookup _ _) (lanes_ok _ _ _ Hw) _ _ Hl) as Hlok.
  pose proof (queue_known _ _ _ Hw) as Hqk. unfold fill_lane. rewrite Hl.
  pose proof (start_ok mgr Hmgr c Hc l (queue w) Hlok) as Hs. unfold rbind.
  destruct (start mgr c l (queue w)) as [[[a q] l']| | |]; try done; cycle 1.
  { destruct Hs as (t & rest & m & Hq & Hm & Hshort). rewrite Hq in Hqk. inversion Hqk; subst.
    exists t.2, m. split; [by eapply list_elem_of_lookup_2|done]. }
  destruct Hs as [Hl' Hs].
  assert (Forall (answer_ok mgr pushed) (option_list a) ∧ (in_flight l' = true → known pushed (current_task l')) ∧
    (option_list a).*1 ++ ticket_in l' ++ q.*1 = ticket_in l ++ (queue w).*1 ∧
    q = (if in_flight l then queue w else tl (queue w)) ∧ (queue w = [] → l' = l)) as (Ha & Hk & Ht & Hq & Hsame).
  { pose proof (proj1 (Forall_lookup _ _) (flights_known _ _ _ Hw) _ _ Hl) as Hkn. cbv beta in Hkn. unfold ticket_in.
    destruct (in_flight l) eqn:Ef; [destruct Hs as (-> & -> & ->); by rewrite Ef|].
    destruct (queue w) as [|t rest]; [destruct Hs as (-> & -> & ->); by rewrite Ef|].
    inversion Hqk as [|? ? Ht]; subst. destruct Hs as [-> Hs].
    destruct (getModel mgr (task_model_id t.2)) as [m|].
    - destruct Hs as (-> & -> & ->). by split_and!.
    - destruct Hs as [-> ->]. rewrite Ef. split_and!; try done.
      apply Forall_singleton. exists t.2. split; [done|by left]. }
  split; [|by exists l, l']. destruct Hw as [H1 H2 H3 (k & Hkp & H4) H5 H6]. split; cbn [lanes queue answered].
  - by rewrite length_insert.
  - by apply Forall_insert.
  - rewrite <- H3. unfold tickets. cbn [lanes queue answered]. pose proof (flying_insert _ _ _ l' Hl) as Hp.
    rewrite fmap_app. apply (Permutation_app_inv_l (ticket_in l)).
    transitivity ((answered w).*1 ++ (flying (<[i:=l']> (lanes w)) ++ ticket_in l) ++ (option_list a).*1 ++ q.*1);
      [solve_Permutation|]. rewrite Hp.
    transitivity ((answered w).*1 ++ flying (lanes w) ++ ((option_list a).*1 ++ ticket_in l' ++ q.*1));
      [solve_Permutation|]. rewrite Ht. solve_Permutation.
  - rewrite Hq. destruct (in_flight l); [by exists k|]. rewrite H4.
    destruct (drop k _) as [|t rest] eqn:E; [by exists k|]. exists (S k). split.
    + pose proof (f_equal length E) as E'. rewrite length_skipn, length_zip, length_seq in E'.
      change (length (t :: rest)) with (S (length rest)) in E'. lia.
    + replace (S k) with (k + 1)%nat by lia. rewrite <- drop_drop, E. done.
  - by apply Forall_insert.
  - by apply Forall_app.
Qed.

End TurnProofs.

(** ** What the clients do *)

Section StepProofs.
Context (build : bytes → built).

(** What TensorRT documents of engines: tensors have different names, and a run
    writes no further than its output tensors. *)
Hypothesis Hbuild : ∀ path e, build path = Built e → NoDup (io_name <$> io_tensors e) ∧ writes_outputs e.

(** Every tensor has an address. *)
Lemma addresses_set e a :
  NoDup (io_name <$> io_tensors e) →
  let m := inspectBindings (mkInstance e a [] [] 0 0) in
  ∀ t, t ∈ io_tensors e → addresses m !! io_name t = Some (if io_is_input t then InputBuffer else OutputBuffer).
Proof.
  intros Hnd m t Ht. destruct (inspect_spec e a) as (_ & _ & Hi & Ho & _). unfold addresses. fold m in Hi, Ho. rewrite Hi, Ho.
  assert (∀ b (ts : list IoTensor) x, (∀ t', t' ∈ ts → io_name t' ≠ io_name t) →
    fold_left (setTensorAddress b) (binding_of <$> ts) x !! io_name t = x !! io_name t) as Hother.
  { intros b ts. induction ts as [|t' ts IH]; intros x Hts; [done|]. rewrite fmap_cons. cbn [fold_left]. rewrite IH by set_solver.
    unfold setTensorAddress. destruct (binding_of_for t') as (-> & _). apply lookup_insert_ne, Hts. by left. }
  assert (∀ b (ts : list IoTensor) x, NoDup (io_name <$> ts) → t ∈ ts →
    fold_left (setTensorAddress b) (binding_of <$> ts) x !! io_name t = Some b) as Hthis.
  { intros b ts. induction ts as [|t' ts IH]; intros x Hn Hts; [by apply not_elem_of_nil in Hts|].
    rewrite fmap_cons in *. apply NoDup_cons in Hn as [Hn1 Hn2]. cbn [fold_left].
    apply elem_of_cons in Hts as [<-|Hts]; [|by apply IH]. rewrite Hother.
    - unfold setTensorAddress. destruct (binding_of_for t) as (-> & _). apply lookup_insert_eq.
    - intros t' Ht' E. apply Hn1. rewrite <- E. by apply list_elem_of_fmap_2. }
  assert (∀ b, NoDup (io_name <$> filter (λ t, io_is_input t = b) (io_tensors e))) as Hndf.
  { intros b. eapply sublist_NoDup; [exact Hnd|]. apply fmap_sublist, sublist_filter. }
  destruct (io_is_input t) eqn:E.
  - rewrite Hother; [apply Hthis; [apply Hndf|by apply list_elem_of_filter]|].
    intros t' Ht' En. apply list_elem_of_filter in Ht' as [E' Ht'].
    apply list_elem_of_lookup in Ht as [i Hi'], Ht' as [j Hj'].
    assert (i = j) as -> by (eapply (NoDup_lookup _ _ _ (io_name t) Hnd); rewrite list_lookup_fmap; [by rewrite Hi'|by rewrite Hj'; cbn; rewrite En]).
    congruence.
  - apply Hthis; [apply Hndf|by apply list_elem_of_filter].
Qed.

Lemma load_grows mgr id path ok mgr' :
  mgr_ok mgr → getModel mgr id = None → loadOnnxModel build mgr id path = Ok (ok, mgr') →
  mgr_ok mgr' ∧ ∀ id' m, getModel mgr id' = Some m → getModel mgr' id' = Some m.
Proof.
  intros Hm Hid. unfold loadOnnxModel. destruct (build (c_str path)) as [| |e] eqn:Eb; [by intros [= _ <-]|done|].
  intros [= _ <-]. destruct (Hbuild _ _ Eb) as [Hnames Hwr]. pose proof (addresses_set e (next_address mgr) Hnames) as Hadr.
  destruct (inspect_spec e (next_address mgr)) as (He & Ha & _ & _ & Hti & Hto).
  set (m := inspectBindings _) in *. clearbody m. unfold getModel in *. cbn [models_]. split.
  - assert (∀ id' m', <[id := m]> (models_ mgr) !! id' = Some m' →
      id' = id ∧ m' = m ∨ id' ≠ id ∧ models_ mgr !! id' = Some m') as Hcases.
    { intros id' m' H. apply lookup_insert_Some in H. naive_solver. }
    split; unfold getModel; cbn [models_ next_address].
    + intros id' m' H. destruct (Hcases _ _ H) as [[-> ->]|[_ H']].
      * split; [|lia]. split; [rewrite Hti; by apply wrap_is_uint|]. split; [rewrite Hto; by apply wrap_is_uint|].
        rewrite He. by split.
      * destruct (models_conform _ Hm id' m' H'). split; [done|lia].
    + intros id1 id2 m1 m2 H1 H2 E.
      destruct (Hcases _ _ H1) as [[-> ->]|[? H1']], (Hcases _ _ H2) as [[-> ->]|[? H2']]; try done.
      * destruct (models_conform _ Hm _ _ H2'). lia.
      * destruct (models_conform _ Hm _ _ H1'). lia.
      * by apply (engines_apart _ Hm id1 id2 m1 m2).
  - intros id' m' H. rewrite lookup_insert_ne; [done|congruence].
Qed.

(** More models and more tasks leave what holds of a worker. *)
Lemma worker_ok_more mgr mgr' pushed w :
  (∀ id m, getModel mgr id = Some m → getModel mgr' id = Some m) →
  worker_ok mgr pushed w → worker_ok mgr' pushed w.
Proof.
  intros Hmore [H1 H2 H3 H4 H5 H6]. split; try done.
  - eapply Forall_impl; [exact H2|]. intros l [L1 L2 L3 L4]. split; try done.
    + intros a Ha. destruct (L3 a Ha) as (m & Hm & E). exists m. split; [by apply Hmore|done].
    + intros Hf. destruct (L4 Hf) as (m & Hm & E). exists m. split; [by apply Hmore|done].
  - eapply Forall_impl; [exact H6|]. intros x (task & Ht & Hx). exists task. split; [done|].
    destruct Hx as [Hx|(m & Hm & Hx)]; [by left|right]. exists m. split; [by apply Hmore|done].
Qed.

Lemma worker_ok_push mgr pushed w task :
  worker_ok mgr pushed w → worker_ok mgr (pushed ++ [task]) (push w (length pushed, task)).
Proof.
  intros [H1 H2 H3 (k & Hk & H4) H5 H6]. split; cbn [push lanes queue answered]; try done.
  - unfold tickets in *. cbn [push lanes queue answered]. rewrite fmap_app, length_app, seq_app.
    rewrite <- H3. cbn. solve_Permutation.
  - exists k. rewrite length_app. split; [lia|]. rewrite seq_app, zip_with_app by (by rewrite length_seq).
    rewrite drop_app_le; [by rewrite H4|]. rewrite length_zip, length_seq. lia.
  - eapply Forall_impl; [exact H5|]. intros l Hl Hf. apply lookup_app_l_Some, (Hl Hf).
  - eapply Forall_impl; [exact H6|]. intros x (t & Ht & Hx). exists t. split; [by apply lookup_app_l_Some|done].
Qed.

Definition gpu_inv (g : GpuState) : Prop :=
  mgr_ok (manager g) ∧ worker_ok (manager g) (pushed g) (worker g) ∧
  match at_place g with Polling i | Filling i => (i < NUM_STREAMS_PER_GPU)%nat end.

Lemma gpu_started_inv : gpu_inv gpu_started.
Proof.
  split; [|split; [|cbn; unfold NUM_STREAMS_PER_GPU; lia]].
  - split; unfold getModel; cbn; intros *; by rewrite lookup_empty.
  - split; try done.
    + by apply Forall_replicate, new_lane_ok.
    + by exists 0%nat.
    + by apply Forall_replicate.
Qed.

Lemma next_place_ok p :
  match next_place p with Polling i | Filling i => (i < NUM_STREAMS_PER_GPU)%nat end.
Proof. destruct p; cbn [next_place]; case_decide; unfold NUM_STREAMS_PER_GPU in *; lia. Qed.

Lemma worker_turn_ok g finished c :
  gpu_inv g → cuda_ok c →
  match worker_turn (manager g) finished c (at_place g) (worker g) with
  | Ok w => worker_ok (manager g) (pushed g) w
  | OutOfBounds => unservable (manager g) (pushed g)
  | _ => False
  end.
Proof.
  intros (Hm & Hw & Hp) Hc. unfold worker_turn. destruct (at_place g) as [i|i].
  - by destruct (poll_lane_ok (manager g) (pushed g) Hm finished (worker g) i Hw Hp) as (l & l' & a & _ & -> & H & _).
  - pose proof (fill_lane_ok (manager g) (pushed g) Hm c Hc (worker g) i Hw Hp) as H.
    destruct (fill_lane _ _ _ _); try done. by destruct H.
Qed.

Lemma gpu_step_inv g g' : gpu_inv g → gpu_step build g g' → gpu_inv g'.
Proof.
  intros Hg Hstep. destruct Hstep as [g finished c w Hc E|g task|g id path ok mgr Hid Hload].
  - pose proof (worker_turn_ok g finished c Hg Hc) as H. rewrite E in H. destruct Hg as (Hm & _ & _).
    split; [done|]. split; [done|]. apply next_place_ok.
  - destruct Hg as (Hm & Hw & Hp). split; [done|]. split; [by apply worker_ok_push|done].
  - destruct Hg as (Hm & Hw & Hp). destruct (load_grows (manager g) id path ok mgr Hm Hid Hload) as [Hm' Hmore].
    split; [done|]. split; [|done]. by eapply worker_ok_more.
Qed.

Lemma gpu_reachable_inv g : rtc (gpu_step build) gpu_started g → gpu_inv g.
Proof. intros H. eapply rtc_invariant; [exact gpu_step_inv|exact gpu_started_inv|exact H]. Qed.

End StepProofs.

(** ** Passes *)

(** The worker's loop, when every stream it asks has finished. *)
Fixpoint passes (mgr : ModelManager) (c : Cuda) (n : nat) (w : Worker) : result Worker :=
  match n with
  | O => Ok w
  | S n => w <-! worker_pass mgr (λ _, true) (λ _, c) w;; passes mgr c n w
  end.


Section PassProofs.
Context (mgr : ModelManager) (pushed : list InferenceTask).
Hypothesis Hmgr : mgr_ok mgr.
Context (c : Cuda).
Hypothesis Hc : cuda_ok c.
Hypothesis Hlong : ¬ unservable mgr pushed.






End PassProofs.

(** ** Theorems *)

(** A run computes [f] of the input's bytes: what TensorRT documents of an
    engine with one input and one output of the sizes counted for them. *)
Definition computes (m : TrtModelInstance) (f : bytes → bytes) : Prop :=
  ∀ d_in d_out, total_input_bytes m ≤ zlen d_in → total_output_bytes m ≤ zlen d_out →
    let data := firstn (Z.to_nat (total_input_bytes m)) d_in in
    enqueue (engine m) (addresses m) d_in d_out = Ok (overwrite (f data) d_out) ∧ zlen (f data) = total_output_bytes m.

Lemma delivered_computed m f payload out :
  computes m f → delivered m payload out → out = f (firstn (Z.to_nat (total_input_bytes m)) payload).
Proof.
  intros Hf (d_in & d_out & after & E & Hin & Hout & Hrun & ->). destruct (Hf d_in d_out Hin Hout) as [Hrun' Hlen].
  rewrite Hrun in Hrun'. injection Hrun' as ->. rewrite <- E, <- Hlen. unfold zlen. rewrite Nat2Z.id. apply overwrite_take.
Qed.


Section Theorems.
Context (build : bytes → built).
Hypothesis Hbuild : ∀ path e, build path = Built e → NoDup (io_name <$> io_tensors e) ∧ writes_outputs e.

(** C24: Whatever clients queue and load and however long inferences take, each
    task is in the queue, on one lane, or answered, and that only once; tasks
    start in the order in which they were queued; an answer is empty or what
    the output buffer begins with after a run of the task's model whose input
    buffer began with the task's own bytes, hence the model's function of them
    where its run computes one; and a turn of the worker is defined unless a
    task's payload is shorter than its model's input or its model has a tensor
    larger than what the code counted.  Engines write no further than their
    outputs, TensorRT creates the contexts it is asked for, CUDA calls succeed,
    the table of models is accessed atomically, and no identifier is loaded
    twice (see [reload_dangles]); [enqueueV3] may fail. *)
Theorem gpu_tasks_served g :
  rtc (gpu_step build) gpu_started g →
  tickets (worker g) ≡ₚ seq 0 (length (pushed g)) ∧
  (∃ k, queue (worker g) = drop k (zip (seq 0 (length (pushed g))) (pushed g))) ∧
  Forall (answer_ok (manager g) (pushed g)) (answered (worker g)) ∧
  (∀ k out task m f, (k, out) ∈ answered (worker g) → pushed g !! k = Some task →
     getModel (manager g) (task_model_id task) = Some m → computes m f →
     out = [] ∨ out = f (firstn (Z.to_nat (total_input_bytes m)) (input_payload task))) ∧
  ∀ finished c, cuda_ok c →
    match worker_turn (manager g) finished c (at_place g) (worker g) with
    | Ok _ => True
    | OutOfBounds => unservable (manager g) (pushed g)
    | _ => False
    end.
Proof.
  intros Hreach. pose proof (gpu_reachable_inv build Hbuild g Hreach) as Hinv.
  pose proof Hinv as (_ & Hw & _). split; [apply (all_tickets _ _ _ Hw)|].
  split; [destruct (in_order _ _ _ Hw) as (k & _ & E); by exists k|].
  split; [apply (answers_ok _ _ _ Hw)|]. split.
  - intros k out task m f Hin Ht Hm Hf. pose proof (proj1 (Forall_forall _ _) (answers_ok _ _ _ Hw) _ Hin) as (task' & Ht' & Hout).
    cbn in Ht', Hout. rewrite Ht in Ht'. injection Ht' as <-. destruct Hout as [->|(m' & Hm' & Hdel)]; [by left|right].
    rewrite Hm in Hm'. injection Hm' as <-. by apply delivered_computed.
  - intros finished c Hc. pose proof (worker_turn_ok g finished c Hinv Hc) as H. by destruct (worker_turn _ _ _ _ _).
Qed.


End Theorems.

(** ** Samples *)

Definition sample_cuda : Cuda := mkCuda true (λ n, replicate (Z.to_nat n) Byte.x00).


Lemma sample_build_conforms path e :
  sample_build path = Built e → NoDup (io_name <$> io_tensors e) ∧ writes_outputs e.
Proof.
  unfold sample_build. case_bool_decide; [|done]. intros [= <-]. split.
  - apply (bool_decide_unpack _). by vm_compute.
  - intros a d_in d_out written [= <-]. right. exists (mkIo (str "y") false kFLOAT [1; 2] 8). split; [by right; left|].
    split; [done|]. unfold zlen. rewrite length_firstn. cbn [io_bytes]. lia.
Qed.

Definition row (b : byte) : bytes := replicate 12 b.
Definition sample_tasks : list InferenceTask := [mkTask 7 (row Byte.x01); mkTask 8 []; mkTask 7 (row Byte.x02)].

Definition sample_models : ModelManager :=
  match loadOnnxModel sample_build no_models 7 (str "m.onnx") with Ok (_, mgr) => mgr | _ => no_models end.

(** A model is loaded and three tasks are queued, one for an unknown model. *)
Definition sample_gpu : GpuState :=
  mkGpu sample_models (foldl push new_worker (zip (seq 0 3) sample_tasks)) (Polling 0) sample_tasks.

Lemma sample_gpu_reachable : rtc (gpu_step sample_build) gpu_started sample_gpu.
Proof.
  eapply rtc_l; [by apply (step_load _ _ 7 (str "m.onnx") true sample_models)|].
  do 3 (eapply rtc_l; [apply step_push|]). apply rtc_refl.
Qed.


Lemma gpu_tasks_served_witness :
  rtc (gpu_step sample_build) gpu_started sample_gpu ∧ tickets (worker sample_gpu) ≡ₚ [0; 1; 2]%nat.
Proof.
  split; [exact sample_gpu_reachable|].
  destruct (gpu_tasks_served sample_build sample_build_conforms sample_gpu) as (H & _);
    [exact sample_gpu_reachable|exact H].
Defined.


(** A lane that has run a model holds its context; when the model is loaded
    again under the same identifier, the context's engine is gone, and the next
    task on that lane runs it. *)
Example reload_dangles :
  ∃ mgr' w,
    loadOnnxModel sample_build sample_models 7 (str "m.onnx") = Ok (true, mgr') ∧
    passes sample_models sample_cuda 2 (push new_worker (0%nat, mkTask 7 (row Byte.x01))) = Ok w ∧
    fill_lane mgr' sample_cuda (push w (1%nat, mkTask 7 (row Byte.x02))) 0 = OutOfBounds.
Proof. do 2 eexists. split; [reflexivity|]. split; vm_compute; reflexivity. Qed.

(** The copy of a payload shorter than the model's input reads past its end. *)
Example short_payload_overread :
  fill_lane sample_models sample_cuda (push new_worker (0%nat, mkTask 7 (str "abc"))) 0 = OutOfBounds.
Proof. vm_compute. reflexivity. Qed.

(** A model with the sample's tensors whose runs fail. *)
Definition failing_build (path : bytes) : built :=
  if bool_decide (path = str "f.onnx") then Built (mkEngine (io_tensors sample_engine) (λ _ _ _, None)) else Rejected.

(** A failed [enqueueV3] goes unnoticed: the task is answered with what the
    lane's output buffer held, here another model's answer to another task. *)
Example failed_enqueue_leaks :
  ∃ mgr w w', loadOnnxModel failing_build sample_models 9 (str "f.onnx") = Ok (true, mgr) ∧
    passes mgr sample_cuda 2 (push new_worker (0%nat, mkTask 7 (row Byte.x01))) = Ok w ∧
    passes mgr sample_cuda 2 (push w (1%nat, mkTask 9 (row Byte.x02))) = Ok w' ∧
    answered w' = [(0%nat, replicate 8 Byte.x01); (1%nat, replicate 8 Byte.x01)].
Proof. do 3 eexists. split; [reflexivity|]. split; [vm_compute; reflexivity|]. split; vm_compute; reflexivity. Qed.

(** A model with a 64-bit output, which TensorRT writes with 8 bytes each. *)
Definition wide_build (path : bytes) : built :=
  if bool_decide (path = str "w.onnx") then
    Built (mkEngine [mkIo (str "x") true kFLOAT [3] 12; mkIo (str "y") false OtherType [2] 16]
             (λ _ _ _, Some (replicate 16 Byte.x00)))
  else Rejected.

(** The output buffer is allocated for 4 bytes each and written past its end. *)
Example wide_output_overruns :
  ∃ mgr, loadOnnxModel wide_build no_models 7 (str "w.onnx") = Ok (true, mgr) ∧
    fill_lane mgr sample_cuda (push new_worker (0%nat, mkTask 7 (row Byte.x01))) 0 = OutOfBounds.
Proof. eexists. split; [reflexivity|]. vm_compute. reflexivity. Qed.

(** ** The executable *)

(** What [main] does before it accepts clients: [UncaughtPort] is an exception
    of [std::stoi]; the socket takes the low 16 bits of the port. *)
Inductive gpu_main_outcome := NoDevices | UncaughtPort | Serving (port : Z) (workers : list Worker).

Definition gpu_main (argv : list bytes) (num_gpus : Z) : gpu_main_outcome :=
  let port := match argv !! 1%nat with Some arg => stoi arg | None => Ok 8080 end in
  match port with
  | Ok port =>
      if num_gpus =? 0 then NoDevices else Serving (wrap 16 port) (replicate (Z.to_nat num_gpus) new_worker)
  | _ => UncaughtPort
  end.

(** Every task of a client is queued at a worker that exists. *)
Lemma gpu_main_queues argv n port workers turns rs :
  0 < n → gpu_main argv n = Serving port workers →
  Forall (λ x, is_Some (workers !! Z.to_nat x.1)) (queued n turns 0 rs).
Proof.
  intros Hn. unfold gpu_main. destruct (match argv !! 1%nat with Some arg => stoi arg | None => Ok 8080 end); try done.
  rewrite (proj2 (Z.eqb_neq _ _)) by lia. intros [= _ <-].
  eapply Forall_impl; [by apply queued_in_range|]. intros [q t] Hq. cbn in *.
  exists new_worker. apply lookup_replicate_2. lia.
Qed.

Example gpu_main_cases :
  gpu_main [str "gpu_runtime_server"; str "9000"] 0 = NoDevices ∧
  gpu_main [str "gpu_runtime_server"] 2 = Serving 8080 [new_worker; new_worker] ∧
  gpu_main [str "gpu_runtime_server"; str "--version"] 2 = UncaughtPort ∧
  gpu_main [str "gpu_runtime_server"; str "70000"] 1 = Serving 4464 [new_worker].
Proof. by vm_compute. Qed.
