(* ===== verification/Examples.v ===== *)
(** * Programs that use the placer (src/examples)

    [minimal.cpp] places tasks of three clients one after the other;
    [multi_client.cpp] does it with a thread per client, here as steps of the
    threads over the shared placer and queues; [adi_server_example.cpp] reads
    its command line and starts an ADI server.  Printing, signals and the
    percentage that [multi_client.cpp] prints at the end are not modelled. *)

From S2P Require Import Prelude Numbers Wire NvlinkPlacement.

(** ** Queues of tasks *)

(** [gpu_queues[gpu].size()]; the placer asks for devices that exist. *)
Definition queue_size (queues : list (list Z)) (gpu : Z) : Z :=
  zlen (default [] (queues !! Z.to_nat gpu)).

Definition push_task (queues : list (list Z)) (gpu task : Z) : result (list (list Z)) :=
  match queues !! Z.to_nat gpu with
  | Some q => if 0 <=? gpu then Ok (<[Z.to_nat gpu := q ++ [task]]> queues) else OutOfBounds
  | None => OutOfBounds
  end.

(** ** minimal.cpp *)

Fixpoint submit (tasks : list Z) (client_id : Z) (p : Placer) (queues : list (list Z))
    : result (Placer * list (list Z)) :=
  match tasks with
  | [] => Ok (p, queues)
  | task :: tasks =>
      '(target_gpu, p) <-! place p client_id (λ _, queue_size queues);;
      queues <-! push_task queues target_gpu task;;
      submit tasks client_id p queues
  end.

Fixpoint serve_clients (clients : list Z) (p : Placer) (queues : list (list Z)) : result (Placer * list (list Z)) :=
  match clients with
  | [] => Ok (p, queues)
  | c :: clients =>
      '(_, p) <-! assign_home p c;;
      '(p, queues) <-! submit (range 5) c p queues;;
      serve_clients clients (release_client p c) queues
  end.

(** The final queues; an [Err] is the message of the exception [main] reports. *)
Definition minimal_main (cuda : CudaRuntime) (set_device : Z → bool) : result (list (list Z)) :=
  topo <-! detect cuda;;
  _ <-! enable_peer_access cuda set_device topo;;
  let queues := replicate (Z.to_nat (num_gpus topo)) [] in
  '(_, queues) <-! serve_clients (range 3) (new_placer topo 32) queues;;
  Ok queues.

(** ** multi_client.cpp *)

(** A client's thread: before [assign_home]; at the start of its loop with [n]
    tasks submitted; past [place], past [push]; past the loop. *)
Inductive client := Starting | Looping (n : nat) | Placed (n : nat) (gpu : Z) | Pushed (n : nat) | Finished.

#[export] Instance client_eq_dec : EqDecision client.
Proof. solve_decision. Defined.

Definition TASKS : nat := 10.

Record Sim := mkSim {
  sim_placer : Placer;
  sim_queues : list (list Z);
  total_tasks : Z;
  clients : list client;
}.

Definition with_client (s : Sim) (i : nat) (c : client) : list client := <[i := c]> (clients s).

(** One step of the thread of client [i]; [depth] are the sizes the placer
    samples one by one, while other threads push. *)
Inductive sim_step : Sim → Sim → Prop :=
| sim_assign s i home p :
    clients s !! i = Some Starting → assign_home (sim_placer s) (Z.of_nat i) = Ok (home, p) →
    sim_step s (mkSim p (sim_queues s) (total_tasks s) (with_client s i (Looping 0)))
| sim_place s i n depth gpu p :
    clients s !! i = Some (Looping n) → (n < TASKS)%nat →
    place (sim_placer s) (Z.of_nat i) depth = Ok (gpu, p) →
    sim_step s (mkSim p (sim_queues s) (total_tasks s) (with_client s i (Placed n gpu)))
| sim_push s i n gpu queues :
    clients s !! i = Some (Placed n gpu) → push_task (sim_queues s) gpu (Z.of_nat n) = Ok queues →
    sim_step s (mkSim (sim_placer s) queues (total_tasks s) (with_client s i (Pushed n)))
| sim_count s i n :
    clients s !! i = Some (Pushed n) →
    sim_step s (mkSim (sim_placer s) (sim_queues s) (total_tasks s + 1) (with_client s i (Looping (S n))))
| sim_release s i n :
    clients s !! i = Some (Looping n) → (TASKS ≤ n)%nat →
    sim_step s (mkSim (release_client (sim_placer s) (Z.of_nat i)) (sim_queues s) (total_tasks s)
                  (with_client s i Finished)).

(** Five clients over a topology, once [main] has it. *)
Definition sim_started (t : GpuTopology) : Sim :=
  mkSim (new_placer t 32) (replicate (Z.to_nat (num_gpus t)) []) 0 (replicate 5 Starting).

(** [main] up to the start of the threads; an [Err] is the message it reports. *)
Definition multi_client_main (cuda : CudaRuntime) (set_device : Z → bool) : result Sim :=
  topo <-! detect cuda;;
  _ <-! enable_peer_access cuda set_device topo;;
  Ok (sim_started topo).

(** [total_queued]. *)
Definition total_queued (queues : list (list Z)) : Z := zlen (concat queues).

(** ** adi_server_example.cpp *)

Inductive example_outcome := Usage | Failed (message : bytes) | Serves (port backlog_threshold : Z) (topo : GpuTopology).

Definition failed_of {A} (r : result A) : bytes := match r with Err what => what | _ => [] end.

Definition adi_main (cuda : CudaRuntime) (set_device : Z → bool) (argv : list bytes) : example_outcome :=
  if bool_decide (argv !! 1%nat = Some (str "--help")) then Usage
  else
    let port :=
      match argv !! 1%nat with
      | Some arg => port <-! stoi arg;; _ <-! reject_if ((port <? 1) || (65535 <? port)) (str "port");; Ok port
      | None => Ok 8080
      end in
    let backlog := match argv !! 2%nat with Some arg => strtoul arg | None => 32 end in
    match port with
    | Ok port =>
        match (topo <-! detect cuda;; _ <-! enable_peer_access cuda set_device topo;; Ok topo) with
        | Ok topo => Serves port backlog topo
        | r => Failed (failed_of r)
        end
    | r => Failed (failed_of r)
    end.

(** ** Submitting to a home *)

Lemma place_home p c home d :
  wf_placer p → affinity p !! c = Some home → d home < backlog_threshold p → place p c (λ _, d) = Ok (home, p).
Proof.
  intros (_ & _ & _ & Ha) Hh Hd. pose proof (map_Forall_lookup_1 _ _ _ _ Ha Hh) as Hr. unfold in_range in Hr.
  unfold place. rewrite Hh. cbv zeta. rewrite (proj2 (Z.ltb_ge _ _)), (proj2 (Z.leb_gt _ _)) by lia.
  cbn [orb]. by rewrite rbind_ret, (proj2 (Z.ltb_lt _ _)).
Qed.

Lemma push_task_ok queues gpu task q :
  0 ≤ gpu → queues !! Z.to_nat gpu = Some q →
  push_task queues gpu task = Ok (<[Z.to_nat gpu := q ++ [task]]> queues).
Proof. intros Hg Hq. unfold push_task. rewrite Hq. by rewrite (proj2 (Z.leb_le _ _)). Qed.

Lemma submit_home c home p tasks : ∀ queues q,
  wf_placer p → affinity p !! c = Some home → queues !! Z.to_nat home = Some q →
  zlen q + zlen tasks ≤ backlog_threshold p →
  submit tasks c p queues = Ok (p, <[Z.to_nat home := q ++ tasks]> queues).
Proof.
  induction tasks as [|task tasks IH]; intros queues q Hp Hh Hq Hfit; cbn [submit].
  { by rewrite app_nil_r, list_insert_id. }
  rewrite zlen_cons in Hfit. pose proof (zlen_nonneg tasks).
  rewrite (place_home p c home) by (done || (unfold queue_size; rewrite Hq; cbn [default id from_option]; lia)).
  pose proof Hp as (_ & _ & _ & Ha). pose proof (map_Forall_lookup_1 _ _ _ _ Ha Hh) as Hr.
  rewrite rbind_ret, (push_task_ok _ _ _ q), rbind_ret by (done || apply Hr).
  rewrite (IH _ (q ++ [task])); [|done|done| |].
  - by rewrite list_insert_insert_eq, <- app_assoc.
  - apply list_lookup_insert_eq. by eapply lookup_lt_Some.
  - rewrite zlen_app. change (zlen [task]) with 1. lia.
Qed.

(** What device [g] of [n] gets from clients whose homes are drawn from number
    [r] on. *)
Fixpoint share (n r g : Z) (clients : list Z) : list Z :=
  match clients with
  | [] => []
  | _ :: clients => (if r mod n =? g then range 5 else []) ++ share n (r + 1) g clients
  end.

Lemma serve_clients_ok cs : ∀ p queues,
  wf_placer p → length queues = Z.to_nat (num_gpus (topo p)) →
  (∀ g q, queues !! g = Some q → zlen q + 5 * zlen cs ≤ backlog_threshold p) →
  rr_counter p + zlen cs < 2 ^ 64 →
  ∃ p' queues', serve_clients cs p queues = Ok (p', queues') ∧ length queues' = length queues ∧
    ∀ g q, 0 ≤ g → queues !! Z.to_nat g = Some q →
      queues' !! Z.to_nat g = Some (q ++ share (num_gpus (topo p)) (rr_counter p) g cs).
Proof.
  induction cs as [|c cs IH]; intros p queues Hp Hlen Hfit Hrr; cbn [serve_clients share].
  { exists p, queues. split; [done|]. split; [done|]. intros g q _. by rewrite app_nil_r. }
  rewrite zlen_cons in Hrr. setoid_rewrite zlen_cons in Hfit. pose proof (zlen_nonneg cs) as Hcs.
  destruct (next_gpu_spec p Hp) as (p1 & Hnext & Hp1 & Ht1 & Hthr1 & _ & Hrr1 & Hhome).
  unfold assign_home. rewrite Hnext, !rbind_ret. set (home := rr_counter p mod num_gpus (topo p)) in *.
  assert (wf_placer (set_home p1 c home)) as Hp2 by (apply set_home_wf; [done|by rewrite Ht1]).
  unfold in_range in Hhome. destruct (lookup_lt_is_Some_2 queues (Z.to_nat home)) as [q Hq]; [lia|].
  rewrite (submit_home c home _ _ _ q Hp2); [|apply lookup_insert_eq|done|].
  2: { cbn [set_home backlog_threshold]. rewrite Hthr1. specialize (Hfit _ _ Hq). change (zlen (range 5)) with 5. lia. }
  rewrite rbind_ret. set (p3 := release_client _ _).
  assert (wf_placer p3) as Hp3.
  { destruct Hp2 as (H1 & H2 & H3 & H4). split; [done|]. split; [done|]. split; [done|]. by apply map_Forall_delete. }
  assert (rr_counter p3 = rr_counter p + 1) as Hrr3.
  { unfold p3. cbn. rewrite Hrr1. apply wrap_small. destruct Hp as (_ & _ & [H _] & _). split; lia. }
  assert (topo p3 = topo p) as Ht3 by exact Ht1.
  assert (backlog_threshold p3 = backlog_threshold p) as Hthr3 by exact Hthr1.
  destruct (IH p3 (<[Z.to_nat home := q ++ range 5]> queues)) as (p' & queues' & E & Hl' & Hq');
    [done|by rewrite length_insert, Ht3| |lia|].
  { intros g q' Hg. rewrite Hthr3. apply list_lookup_insert_Some in Hg as [(_ & <- & _)|[_ Hg]].
    - specialize (Hfit _ _ Hq). rewrite zlen_app. change (zlen (range 5)) with 5. lia.
    - specialize (Hfit _ _ Hg). lia. }
  exists p', queues'. split; [exact E|]. split; [by rewrite Hl', length_insert|].
  intros g q' Hg Hgq. rewrite Ht3, Hrr3 in Hq'. fold home. destruct (Z.eqb_spec home g) as [<-|Hne].
  - rewrite (Hq' home (q ++ range 5)); [|lia|apply list_lookup_insert_eq; lia].
    rewrite Hq in Hgq. injection Hgq as <-. by rewrite <- app_assoc.
  - apply (Hq' g q'); [done|]. rewrite list_lookup_insert_ne by lia. done.
Qed.

(** The minimal example puts the five tasks of client [c] on device [c mod n]:
    its queues never reach the threshold, so every task stays at home. *)
Lemma minimal_spec cuda set_device :
  0 < get_gpu_count cuda < 2 ^ 31 → (∀ i, set_device i = true) →
  ∃ queues, minimal_main cuda set_device = Ok queues ∧ length queues = Z.to_nat (get_gpu_count cuda) ∧
    ∀ g, in_range (get_gpu_count cuda) g →
      queues !! Z.to_nat g = Some (concat ((λ c, if c mod get_gpu_count cuda =? g then range 5 else []) <$> range 3)).
Proof.
  intros Hn Hset. destruct (detect_describes cuda) as (t & Ht & Hd); [lia|]. pose proof Hd as (Hnum & _).
  unfold minimal_main. rewrite Ht, rbind_ret.
  assert (∃ pairs, enable_peer_access cuda set_device t = Ok pairs) as [pairs ->].
  { unfold enable_peer_access. destruct (has_cuda cuda); [|by eexists].
    destruct (enable_rows_spec t _ _ set_device (range (num_gpus t)) Hd) as (pairs & E & _); [|done|by exists pairs].
    rewrite Hnum. apply range_in_range. }
  rewrite rbind_ret. assert (wf_placer (new_placer t 32)) as Hwf.
  { eapply new_placer_wf; [exact Hd|done|]. apply expected_bandwidth. }
  destruct (serve_clients_ok (range 3) (new_placer t 32) (replicate (Z.to_nat (num_gpus t)) []) Hwf)
    as (p' & queues & -> & Hl & Hq); [by rewrite length_replicate| |done|].
  { intros g q Hg. apply lookup_replicate in Hg as [-> _]. done. }
  rewrite rbind_ret. exists queues. split; [done|]. rewrite Hl, length_replicate, Hnum. split; [done|].
  intros g Hg. unfold in_range in Hg. rewrite (Hq g []); [|lia|apply lookup_replicate_2; lia].
  cbn [new_placer topo rr_counter]. rewrite Hnum. done.
Qed.

(** ** The clients' threads *)

(** Tasks a client has pushed, and those it has counted in [total_tasks]. *)
Definition submitted (c : client) : nat :=
  match c with Starting => 0 | Looping n | Placed n _ => n | Pushed n => S n | Finished => TASKS end.
Definition counted (c : client) : nat :=
  match c with Starting => 0 | Looping n | Placed n _ | Pushed n => n | Finished => TASKS end.

(** What a client still has to do. *)
Definition work (c : client) : nat :=
  match c with
  | Starting => 32 | Looping n => 31 - 3 * n | Placed n _ => 30 - 3 * n | Pushed n => 29 - 3 * n | Finished => 0
  end.

Definition at_home (c : client) : bool := match c with Starting | Finished => false | _ => true end.

Definition client_ok (n : Z) (c : client) : Prop :=
  match c with
  | Looping k => (k ≤ TASKS)%nat
  | Placed k gpu => (k < TASKS)%nat ∧ in_range n gpu
  | Pushed k => (k < TASKS)%nat
  | _ => True
  end.

Record sim_ok (t : GpuTopology) (s : Sim) : Prop := {
  placer_wf : wf_placer (sim_placer s);
  placer_topo : topo (sim_placer s) = t;
  queues_count : length (sim_queues s) = Z.to_nat (num_gpus t);
  clients_count : length (clients s) = 5%nat;
  clients_ok : Forall (client_ok (num_gpus t)) (clients s);
  total_counted : total_tasks s = Z.of_nat (sum_list_with counted (clients s));
  total_pushed : length (concat (sim_queues s)) = sum_list_with submitted (clients s);
  homes : ∀ c, is_Some (affinity (sim_placer s) !! c) →
    ∃ i x, c = Z.of_nat i ∧ clients s !! i = Some x ∧ at_home x = true;
}.

Lemma length_concat_insert {A} (ls : list (list A)) i q q' :
  ls !! i = Some q → (length (concat (<[i := q']> ls)) + length q = length (concat ls) + length q')%nat.
Proof.
  intros Hi. rewrite <- (take_drop_middle _ _ _ Hi) at 2. rewrite insert_take_drop by (by eapply lookup_lt_Some).
  rewrite !concat_app. cbn [concat]. rewrite !length_app. lia.
Qed.

(** A client's next state. *)
Lemma with_client_ok t s i old new p queues total :
  sim_ok t s → clients s !! i = Some old →
  wf_placer p → topo p = t → length queues = length (sim_queues s) → client_ok (num_gpus t) new →
  (total + Z.of_nat (counted old) = total_tasks s + Z.of_nat (counted new)) →
  (length (concat queues) + submitted old = length (concat (sim_queues s)) + submitted new)%nat →
  (∀ c, is_Some (affinity p !! c) → c = Z.of_nat i ∧ at_home new = true ∨
     c ≠ Z.of_nat i ∧ is_Some (affinity (sim_placer s) !! c)) →
  sim_ok t (mkSim p queues total (with_client s i new)).
Proof.
  intros [H1 H2 H3 H4 H5 H6 H7 H8] Hi Hp Ht Hq Hnew Htot Hcat Haff. unfold with_client.
  pose proof (sum_list_with_insert counted _ i old new Hi) as Hc.
  pose proof (sum_list_with_insert submitted _ i old new Hi) as Hs.
  split; cbn [sim_placer sim_queues total_tasks clients]; try done.
  - congruence.
  - by rewrite length_insert.
  - by apply Forall_insert.
  - lia.
  - lia.
  - intros c Hc'. destruct (Haff c Hc') as [[-> Hh]|[Hne Hc2]].
    + exists i, new. split; [done|]. split; [|done]. apply list_lookup_insert_eq. by eapply lookup_lt_Some.
    + destruct (H8 c Hc2) as (j & x & -> & Hj & Hx). exists j, x. split; [done|]. split; [|done].
      rewrite list_lookup_insert_ne; [done|]. congruence.
Qed.

Lemma at_home_kept (p : Placer) (i : nat) c new :
  at_home new = true → is_Some (affinity p !! c) →
  c = Z.of_nat i ∧ at_home new = true ∨ c ≠ Z.of_nat i ∧ is_Some (affinity p !! c).
Proof. destruct (decide (c = Z.of_nat i)); [by left|by right]. Qed.

Lemma sim_step_ok t s s' :
  sim_ok t s → sim_step s s' →
  sim_ok t s' ∧ (sum_list_with work (clients s') < sum_list_with work (clients s))%nat.
Proof.
  intros Hs Hstep. pose proof Hs as [H1 H2 H3 H4 H5 H6 H7 H8].
  assert (∀ i old new, clients s !! i = Some old → (work new < work old)%nat →
    (sum_list_with work (with_client s i new) < sum_list_with work (clients s))%nat) as Hwork.
  { intros i old new Hi Hlt. pose proof (sum_list_with_insert work _ i old new Hi) as Hw. unfold with_client. lia. }
  assert (∀ i x, clients s !! i = Some x → client_ok (num_gpus t) x) as Hok.
  { intros i x Hi. by apply (proj1 (Forall_lookup _ _) H5 i x). }
  destruct Hstep as [s i home p Hi E|s i n depth gpu p Hi Hn E|s i n gpu queues Hi E|s i n Hi|s i n Hi Hn];
    cbn [clients].
  - destruct (next_gpu_spec _ H1) as (p1 & Hnext & Hp1 & Ht1 & _ & Ha1 & _ & Hr).
    unfold assign_home in E. rewrite Hnext, rbind_ret in E. injection E as <- <-.
    split; [|apply (Hwork _ _ _ Hi); cbn; lia].
    eapply with_client_ok; try done; try (cbn; lia).
    + apply set_home_wf; [done|by rewrite Ht1].
    + cbn. congruence.
    + intros c Hc. cbn [set_home affinity] in Hc. destruct (decide (c = Z.of_nat i)) as [->|Hne]; [by left|right].
      rewrite lookup_insert_ne, Ha1 in Hc by congruence. done.
  - destruct (place_safe _ (Z.of_nat i) depth H1) as (g & p' & E' & Hg & Hp' & Ht' & Ha' & _).
    rewrite E in E'. injection E' as <- <-. specialize (Hok _ _ Hi). cbn in Hok.
    split; [|apply (Hwork _ _ _ Hi); cbn; unfold TASKS in *; lia].
    eapply with_client_ok; try done; try (cbn; lia); [congruence|split; [done|congruence]|].
    intros c Hc. rewrite Ha' in Hc. by apply at_home_kept.
  - destruct (Hok _ _ Hi) as [Hn Hg]. unfold in_range in Hg.
    destruct (lookup_lt_is_Some_2 (sim_queues s) (Z.to_nat gpu)) as [q Hq]; [lia|].
    rewrite (push_task_ok _ _ _ q) in E by (done || lia). injection E as <-.
    split; [|apply (Hwork _ _ _ Hi); cbn; unfold TASKS in *; lia].
    eapply with_client_ok; try done; [by rewrite length_insert| |].
    + pose proof (length_concat_insert (sim_queues s) _ q (q ++ [Z.of_nat n]) Hq) as Hl.
      rewrite length_app in Hl. cbn in *. lia.
    + intros c Hc. by apply at_home_kept.
  - specialize (Hok _ _ Hi). cbn in Hok. split; [|apply (Hwork _ _ _ Hi); cbn; unfold TASKS in *; lia].
    eapply with_client_ok; try done; try (cbn; lia). intros c Hc. by apply at_home_kept.
  - specialize (Hok _ _ Hi). cbn in Hok. assert (n = TASKS) as -> by lia.
    split; [|apply (Hwork _ _ _ Hi); cbn; unfold TASKS in *; lia].
    eapply with_client_ok; try done; try (cbn; lia).
    + destruct H1 as (W1 & W2 & W3 & W4). split; [done|]. split; [done|]. split; [done|]. by apply map_Forall_delete.
    + intros c Hc. cbn [release_client affinity] in Hc. destruct (decide (c = Z.of_nat i)) as [->|Hne].
      * rewrite lookup_delete_eq in Hc. by destruct Hc.
      * right. by rewrite lookup_delete_ne in Hc by congruence.
Qed.

(** Every client that has not finished can take a step. *)
Lemma sim_progress t s i x :
  sim_ok t s → clients s !! i = Some x → x ≠ Finished → ∃ s', sim_step s s'.
Proof.
  intros Hs Hi Hx. pose proof Hs as [H1 H2 H3 H4 H5 H6 H7 H8].
  pose proof (proj1 (Forall_lookup _ _) H5 i x Hi) as Hok. destruct x as [|n|n gpu|n|]; [..|done].
  - destruct (next_gpu_spec _ H1) as (p1 & Hnext & _). eexists. eapply sim_assign; [done|].
    unfold assign_home. by rewrite Hnext, rbind_ret.
  - destruct (decide (n < TASKS)%nat) as [Hn|Hn].
    + destruct (place_safe _ (Z.of_nat i) (λ _ _, 0) H1) as (g & p' & E & _). eexists. by eapply sim_place.
    + eexists. eapply sim_release; [done|lia].
  - destruct Hok as [Hn Hg]. unfold in_range in Hg.
    destruct (lookup_lt_is_Some_2 (sim_queues s) (Z.to_nat gpu)) as [q Hq]; [lia|].
    eexists. eapply sim_push; [done|]. apply (push_task_ok _ _ _ q); [lia|done].
  - eexists. by eapply sim_count.
Qed.

Lemma sim_started_ok t : wf_placer (new_placer t 32) → sim_ok t (sim_started t).
Proof.
  intros Hwf. split; cbn [sim_started sim_placer sim_queues total_tasks clients]; try done.
  - by rewrite length_replicate.
  - by apply Forall_replicate.
  - induction (Z.to_nat (num_gpus t)) as [|k IH]; [done|]. exact IH.
  - intros c [x Hx]. cbn in Hx. by rewrite lookup_empty in Hx.
Qed.

(** The clients, once they have started. *)
Lemma sim_delivers t :
  wf_placer (new_placer t 32) →
  sn sim_step (sim_started t) ∧
  ∀ s, rtc sim_step (sim_started t) s → (∀ s', ¬ sim_step s s') →
    Forall (eq Finished) (clients s) ∧ total_tasks s = 50 ∧ total_queued (sim_queues s) = 50 ∧
    length (sim_queues s) = Z.to_nat (num_gpus t) ∧ affinity (sim_placer s) = ∅.
Proof.
  intros Hwf. pose proof (sim_started_ok t Hwf) as Hstart.
  split; [eapply (sn_measure _ (sim_ok t) (λ s, sum_list_with work (clients s))); [apply sim_step_ok|done]|].
  intros s Hreach Hend. assert (sim_ok t s) as Hs.
  { eapply rtc_invariant; [|exact Hstart|exact Hreach]. intros x y Hx Hxy. by destruct (sim_step_ok t x y Hx Hxy). }
  assert (Forall (eq Finished) (clients s)) as Hfin.
  { apply Forall_lookup. intros i x Hi. destruct (decide (x = Finished)) as [->|Hx]; [done|].
    destruct (sim_progress t s i x Hs Hi Hx) as [s' H]. by destruct (Hend s'). }
  split; [done|]. destruct Hs as [H1 H2 H3 H4 H5 H6 H7 H8].
  assert (clients s = replicate 5 Finished) as Hall.
  { symmetry. by apply replicate_as_Forall. }
  rewrite Hall in H6, H7. split; [done|]. unfold total_queued, zlen. rewrite H7. split; [done|].
  split; [done|]. apply map_eq. intros c. rewrite lookup_empty.
  destruct (affinity (sim_placer s) !! c) eqn:E; [|done].
  destruct (H8 c) as (i & x & _ & Hi & Hx); [by eexists|]. rewrite Hall in Hi.
  apply lookup_replicate in Hi as [-> _]. done.
Qed.

(** C37: The multi-client example stops before any client starts exactly when
    there is no device, or one that cudaSetDevice refuses, which it names;
    otherwise it ends whatever its threads' interleaving, and where nothing can
    step any more every client has finished and released its home, fifty tasks
    have been counted and fifty are in the queues of existing devices. *)
Theorem multi_client_delivers cuda set_device :
  get_gpu_count cuda < 2 ^ 31 →
  match multi_client_main cuda set_device with
  | Ok start =>
      (0 < get_gpu_count cuda ∧ (has_cuda cuda = true → ∀ i, in_range (get_gpu_count cuda) i → set_device i = true)) ∧
      sn sim_step start ∧
      ∀ s, rtc sim_step start s → (∀ s', ¬ sim_step s s') →
        Forall (eq Finished) (clients s) ∧ total_tasks s = 50 ∧ total_queued (sim_queues s) = 50 ∧
        length (sim_queues s) = Z.to_nat (get_gpu_count cuda) ∧ affinity (sim_placer s) = ∅
  | Err what =>
      (get_gpu_count cuda ≤ 0 ∧ what = str "No CUDA-enabled GPUs found.") ∨
      (has_cuda cuda = true ∧ ∃ i, in_range (get_gpu_count cuda) i ∧ set_device i = false ∧
         what = str "Failed to set device " ++ to_string i)
  | _ => False
  end.
Proof.
  intros Hn. unfold multi_client_main. destruct (Z.leb_spec (get_gpu_count cuda) 0) as [Hle|Hpos].
  { unfold detect. rewrite (proj2 (Z.leb_le _ _) Hle). by left. }
  destruct (detect_describes cuda) as (t & Ht & Hd); [done|].
  rewrite Ht, rbind_ret. pose proof Hd as (Hnum & _).
  assert (wf_placer (new_placer t 32)) as Hwf by (eapply new_placer_wf; [exact Hd|done|]; apply expected_bandwidth).
  destruct (sim_delivers t Hwf) as [Hsn Hend]. rewrite Hnum in Hend.
  unfold enable_peer_access. destruct (has_cuda cuda); [|by rewrite rbind_ret].
  rewrite Hnum. pose proof (enable_rows_result t _ _ set_device _ Hd (range_in_range _)) as Hrows.
  destruct (enable_rows set_device t _) as [pairs|what| |]; try done.
  - rewrite rbind_ret. split; [|done]. split; [done|]. intros _ i Hi. by apply Hrows, elem_of_range.
  - right. split; [done|]. destruct Hrows as (i & Hi & ?). exists i. split; [by apply elem_of_range|done].
Qed.

(** ** Samples *)

Lemma multi_client_delivers_witness :
  match multi_client_main sample_cuda (λ _, true) with Ok start => sn sim_step start | _ => False end ∧
  multi_client_main sample_cuda (λ i, i =? 0) = Err (str "Failed to set device 1").
Proof.
  split; [|by vm_compute]. assert (is_ok (multi_client_main sample_cuda (λ _, true)) = true) as Hok by (by vm_compute).
  pose proof (multi_client_delivers sample_cuda (λ _, true) ltac:(done)) as H.
  destruct (multi_client_main sample_cuda (λ _, true)) as [start| | |]; [|discriminate Hok..]. apply H.
Defined.

Example minimal_sample :
  minimal_main sample_cuda (λ _, true) = Ok [[0; 1; 2; 3; 4]; [0; 1; 2; 3; 4]; [0; 1; 2; 3; 4]] ∧
  minimal_main (mkCuda true (Some 2) (λ _ _, Some true) (λ _ _, None) (λ _ _, false)) (λ _, true)
    = Ok [[0; 1; 2; 3; 4; 0; 1; 2; 3; 4]; [0; 1; 2; 3; 4]].
Proof. by vm_compute. Qed.

Example adi_main_sample :
  match adi_main sample_cuda (λ _, true) (str <$> ["adi"; "8081"; "many"]%string) with
  | Serves port backlog _ => (port, backlog) = (8081, 0)
  | _ => False
  end ∧
  adi_main sample_cuda (λ _, true) (str <$> ["adi"; "0"]%string) = Failed (str "port") ∧
  adi_main sample_cuda (λ i, i =? 0) [str "adi"] = Failed (str "Failed to set device 1").
Proof. by vm_compute. Qed.
